(* ===== verification/_CoqProject ===== *)
-Q . S2P
Prelude.v
Types.v
OrderIndex.v
FixedHash.v
Bitmap.v
OrderBook.v
BookSpec.v
Prices.v
BookRep.v
BookWrites.v
BookInv.v
BookMatch.v
BookFill.v
SpecFacts.v
BookRefine.v
SpecStep.v
SpecPriority.v
SpecInv.v
BookQueries.v
BookSnapshot.v
BookRun.v
Engine.v
BookTheorems.v
StateTheorems.v
Bytes.v
Protocol.v
ProtocolFacts.v
Gateway.v
Spsc.v
SpscWeak.v
Runner.v
WireTheorems.v
Reference.v
ReferenceFacts.v
DifferentialTheorems.v
SystemTheorems.v
Journal.v
JournalFacts.v
JournalWriting.v
SnapshotFacts.v
DurableRunner.v
PersistTheorems.v
RecoveryTheorems.v
TcpGateway.v
TcpOutput.v
TcpInput.v
TcpState.v
TcpEvents.v
TcpSystem.v
TcpTheorems.v
CString.v
TcpLife.v
LifeTheorems.v
Bench.v
BenchFacts.v
BenchLoops.v
BenchMain.v
BenchMainFacts.v
BenchTheorems.v
