(* ===== verification/Prelude.v ===== *)
(** * A verified model of the deterministic matching engine

    The program is a C++20 price-time-priority matching engine: a
    single-instrument order book that turns a sequenced stream of commands into
    a stream of events, a fixed-size binary protocol, a TCP gateway in front of
    a single-writer engine thread, a command journal with snapshots for
    recovery, a replay tool, a benchmark and a differential test suite.  This
    library models it on its own data structures and proves what each part
    promises and how the parts compose.

    ** How the parts interact

    A network thread (apps/gateway.cpp) reads frames from its connections,
    validates them per session and pushes requests into a lock-free ring; the
    engine thread pops them, numbers them, optionally journals them, processes
    them on the order book and pushes every event into a second ring; the
    network thread drains that ring and routes the responses to the
    connections.  The journal and the snapshots restore the book after a crash.

    ** Files, in dependency order

    Shared: [Prelude] (this file) has the [result] type of the model - a value,
    a C++ exception, undefined behaviour, or an exhausted loop - with its
    monad, the machine integers, checked vector access, and the tactics and
    hints every file uses.  [Types] is include/dme/types.hpp.

    The book (include/dme/order_book.hpp, src/order_book.cpp,
    include/dme/fixed_hash.hpp):
    - [OrderIndex]: the interface of the order-ID index, a class of operations
      with the laws of a finite map; [FixedHash]: the open-addressed table with
      its deletion by reinsertion, an instance of it;
    - [Bitmap]: the activity bitmaps; [OrderBook]: node arena, price levels,
      and every method of the class, over any index;
    - [BookSpec]: the specification, a list of orders and one function per
      command; [SpecFacts], [SpecStep], [SpecPriority], [SpecInv]: what it
      implies (price-time priority, conservation, an uncrossed book);
    - [Prices], [BookRep], [BookWrites], [BookInv], [BookMatch], [BookFill],
      [BookRefine], [BookQueries], [BookSnapshot], [BookRun]: the
      representation relation between arena, levels, bitmaps, index and the
      list of orders, and its preservation by every operation;
    - [Engine]: the book over the hash table and its reachable states;
      [BookTheorems], [StateTheorems]: the properties.

    The wire (include/dme/protocol.hpp, src/protocol.cpp,
    include/dme/gateway.hpp, src/gateway.cpp): [Bytes], [Protocol],
    [ProtocolFacts] (encoders, decoders, framing), [Gateway] (risk limits and
    session sequences), [WireTheorems].

    The threads (include/dme/spsc_queue.hpp, include/dme/engine_runner.hpp,
    GatewayEngineRunner): [Spsc] has the ring, as methods and as a step relation
    at the grain of the atomic accesses; [SpscWeak] runs the same methods on a
    memory of release/acquire views, where loads may be stale; [Runner] has
    both engine loops as a step relation; [SystemTheorems] has the properties.

    The differential suite (tests/test_differential.cpp): [Reference] has the
    naive reference book, the generator and both test loops; [ReferenceFacts],
    [DifferentialTheorems] compare it with the engine and the specification.

    Persistence (include/dme/journal.hpp, src/journal.cpp, apps/replay.cpp):
    [Journal] has the file formats, the writer with write faults, replay,
    snapshots and the replay tool; [JournalFacts], [JournalWriting],
    [SnapshotFacts] the lemmas; [DurableRunner] the engine loops with a journal
    file; [PersistTheorems], [RecoveryTheorems] the properties.

    The TCP gateway (apps/gateway.cpp): [TcpGateway] has the connections and
    every method of the network thread; [TcpOutput], [TcpInput], [TcpState],
    [TcpEvents] its invariant, buffer by buffer; [TcpSystem] the two threads
    together; [TcpTheorems] the properties.  [CString] has the C conversions
    of command-line arguments; [TcpLife] the process from [main] to its exit
    with its descriptors; [LifeTheorems] its property.

    The benchmark (apps/benchmark.cpp): [Bench] has the workloads and the
    timed loops, [BenchFacts] and [BenchLoops] their lemmas; [BenchMain] the
    percentiles, the two-thread transfer, the journal benchmark and [main];
    [BenchMainFacts], [BenchTheorems] the properties.

    ** What the theorems show

    - The engine refines the specification: from construction on, any command
      stream is processed without a fault, an exception or an endless loop,
      with exactly the specified events; every reachable state satisfies the
      representation invariant.  Matching follows price-time priority, every
      command conserves quantity, a fill-or-kill order is all or nothing.  When
      quantities times capacity fit 64 bits the fill tests are exact; without
      that bound they are not ([aggregate_overflow_refuses_fill]).
    - The hash table is a finite map; the ladder arithmetic does not overflow;
      the constructor and [restore] accept exactly the valid inputs; snapshots
      list every order once and a restored book has the same future.
    - Encoding and decoding are inverse, decoding is total and independent of
      what follows; the risk test is exact; session sequences are contiguous.
    - The ring is a bounded queue under every interleaving of its atomic
      accesses, and under release/acquire memory it is free of data races and
      keeps the order of its values; the engine loops publish exactly the
      specified responses.
    - The engine and the reference book of the test suite are equivalent, and
      the differential suite passes for every seed.
    - Used on a new or cleanly ended file, with faults from the header on and
      any padding, the journal survives a crash at any byte, and it detects any
      corrupted byte; a snapshot replaces its predecessor exactly when every
      write, the flush and the rename succeed, and is refused when its orders
      are damaged; replay rebuilds the specified book.  An engine loop that
      journals to a file recovers a prefix of its history, and with a
      synchronous journal everything it answered - unless a flush fails
      ([failed_flush_unreported]) or a stored copy differs in its padding
      ([padding_copy_loses_record]); a snapshot and the newer records recover
      the same book, with any consumer that skips or repeats the older ones.
    - The gateway keeps its session table and buffers consistent, what it does
      depends on the bytes it decodes and not on how they are cut, no output
      byte is lost or reordered, responses reach their own session, and end to
      end the clients see the ideal specification.  The bytes received in the
      event that ends a stream are not decoded.  The process closes exactly
      the descriptors it opened, joins its thread, its status tells why it
      ended, and it can always leave.
    - The benchmark ends under a fair scheduler, its workloads never reject
      and do not let the book grow, and the latencies it prints are the
      quantiles of its samples.

    ** Conventions and bounds

    Integers are [Z] with explicit wrap-around ([u64], [u32], [i64]); signed
    overflow and out-of-range access are errors that the theorems exclude.
    Loops take fuel, always computed by the caller from a size that bounds the
    iterations: the table size for probes and reinsertion, one more than the
    number of price levels for ladder scans, two more than the arena for
    matching (each round but the last removes an order), the file length for
    replay, the bytes in the buffer for decoding, the items in the ring for
    draining.  The theorems prove results, so running out of fuel is excluded.
    The one loop without a bound is the transfer of the benchmark, whose two
    threads spin: under every fair schedule some fuel is enough.

    System calls are inputs: the outcomes of [recv], [send] and [accept], write
    faults, the point of a crash, clock readings and the scheduler are
    arguments or universally quantified; what the kernel promises about them
    ([recvs_fit], [sends_fit], [startup_fits], [fair]) is a hypothesis.  Objects
    written to files have the x86-64 little-endian layout; their padding bytes
    are arbitrary parameters.  A byte read into an enumeration that is none of
    its values is reported as [BadEnumerator]: no writer of the program
    produces one, and a record changed to hold one fails its checksum first.
    [wire_command] is what docs/PROTOCOL.md transmits of a command.

    ** Not modelled

    - Memory allocation failure, and [reserve] as anything but a no-op.
    - Memory orders weaker than sequential consistency outside the ring: the
      engine loops and the gateway interleave whole ring operations, which
      [ring_release_acquire_safe] justifies for the values they carry.
    - Which events epoll reports (arbitrary; interest is one bit per
      connection, the one last requested), the delivery of signals (an interrupt may come between any
      two rounds), and what is printed.
    - What the destructor of a journal stream that failed may still transfer:
      the crash of [journal_crash_recovery] keeps the bytes that had reached
      the file.
    - The Windows branches of the snapshot replacement and of CPU pinning.
    - The example-based tests (tests/test_engine.cpp,
      tests/test_gateway_socket.cpp). *)
From stdpp Require Import base list gmap numbers.
From Stdlib Require Import ZArith Lia.
Local Open Scope Z_scope.

(** ** Results: values, C++ exceptions and undefined behaviour *)

Inductive error : Set :=
  | OutOfBounds        (* vector access out of range: undefined behaviour *)
  | SignedOverflow     (* signed arithmetic out of range: undefined behaviour *)
  | OutOfFuel          (* a loop of the model ran out of fuel *)
  | InvalidArgument    (* std::invalid_argument *)
  | BadEnumerator      (* an enumeration read from a file is none of its enumerators *)
  | LogicError         (* std::logic_error *)
  | RuntimeError       (* std::runtime_error *)
  | Aborted.           (* std::abort *)

Inductive result (A : Type) : Type :=
  | Ok (a : A)
  | Fail (e : error).
Arguments Ok {A} _.
Arguments Fail {A} _.

#[export] Instance error_eq_dec : EqDecision error.
Proof. solve_decision. Defined.

#[export] Instance result_ret : MRet result := fun A a => Ok a.
#[export] Instance result_bind : MBind result :=
  fun A B f m => match m with Ok a => f a | Fail e => Fail e end.
#[export] Instance result_fmap : FMap result :=
  fun A B f m => match m with Ok a => Ok (f a) | Fail e => Fail e end.

(** [rassert] is the failing statement of a guard. *)
Definition rassert (e : error) (c : bool) : result unit :=
  if c then Ok () else Fail e.

(** ** Machine integers

    A value of width [w] is a [Z]; unsigned arithmetic wraps, signed
    arithmetic fails outside its range. *)

Definition u8_max : Z := 255.
Definition u16_max : Z := 65535.
Definition u32_max : Z := 4294967295.
Definition u64_max : Z := 18446744073709551615.
Definition i64_max : Z := 9223372036854775807.
Definition i64_min : Z := -9223372036854775808.

Definition u8 (z : Z) : Z := z mod 256.
Definition u16 (z : Z) : Z := z mod 65536.
Definition u32 (z : Z) : Z := z mod 4294967296.
Definition u64 (z : Z) : Z := z mod 18446744073709551616.

(** The two's complement reading of a 64-bit pattern
    ([static_cast<std::int64_t>], [std::bit_cast]). *)
Definition i64 (z : Z) : Z :=
  let m := u64 z in if m <=? i64_max then m else m - 18446744073709551616.

Definition is_u8 (z : Z) : Prop := 0 <= z <= u8_max.
Definition is_u32 (z : Z) : Prop := 0 <= z <= u32_max.
Definition is_u64 (z : Z) : Prop := 0 <= z <= u64_max.
Definition is_i64 (z : Z) : Prop := i64_min <= z <= i64_max.

Definition i64_checked (z : Z) : result Z :=
  if (i64_min <=? z) && (z <=? i64_max) then Ok z else Fail SignedOverflow.
Definition i64_add (a b : Z) : result Z := i64_checked (a + b).
Definition i64_sub (a b : Z) : result Z := i64_checked (a - b).
Definition i64_mul (a b : Z) : result Z := i64_checked (a * b).

(** [std::bit_ceil]. *)
Definition bit_ceil (x : Z) : Z := if x <=? 1 then 1 else 2 ^ Z.log2_up x.

Ltac ints :=
  unfold is_u8, is_u32, is_u64, is_i64, u8_max, u16_max, u32_max, u64_max,
    i64_max, i64_min in *.
Ltac intlia := ints; lia.

(** ** Vectors: bounds-checked access by a [Z] index *)

Definition in_range {A} (v : list A) (i : Z) : bool :=
  (0 <=? i) && (i <? Z.of_nat (length v)).

Definition vlook {A} (v : list A) (i : Z) : option A :=
  if in_range v i then v !! Z.to_nat i else None.

Definition vupd {A} (v : list A) (i : Z) (x : A) : list A :=
  if in_range v i then <[Z.to_nat i := x]> v else v.

Definition vget {A} (v : list A) (i : Z) : result A :=
  match vlook v i with Some x => Ok x | None => Fail OutOfBounds end.

Definition vset {A} (v : list A) (i : Z) (x : A) : result (list A) :=
  if in_range v i then Ok (vupd v i x) else Fail OutOfBounds.

Definition vsize {A} (v : list A) : Z := Z.of_nat (length v).

#[global] Arguments vlook : simpl never.
#[global] Arguments vupd : simpl never.
#[global] Arguments vget : simpl never.
#[global] Arguments vset : simpl never.
#[global] Arguments vsize : simpl never.
#[global] Arguments u64 : simpl never.
#[global] Arguments u32 : simpl never.
#[global] Arguments i64 : simpl never.
#[global] Arguments i64_add : simpl never.
#[global] Arguments i64_sub : simpl never.
#[global] Arguments i64_mul : simpl never.

Declare Scope vec_scope.
Delimit Scope vec_scope with vec.
Notation "v .[ i ]" := (vlook v i)
  (at level 1, i at level 200, left associativity, format "v .[ i ]") : vec_scope.
Notation "v .[ i := x ]" := (vupd v i x)
  (at level 1, i at level 200, x at level 200, left associativity,
   format "v .[ i  :=  x ]") : vec_scope.
Open Scope vec_scope.

(** ** Lemmas on machine integers *)

Lemma u64_small (z : Z) : is_u64 z -> u64 z = z.
Proof. intros; unfold u64; apply Z.mod_small; intlia. Qed.

Lemma u32_small (z : Z) : is_u32 z -> u32 z = z.
Proof. intros; unfold u32; apply Z.mod_small; intlia. Qed.

Lemma u64_range (z : Z) : is_u64 (u64 z).
Proof.
  unfold u64. pose proof (Z.mod_pos_bound z 18446744073709551616). intlia.
Qed.

Lemma u32_range (z : Z) : is_u32 (u32 z).
Proof.
  unfold u32. pose proof (Z.mod_pos_bound z 4294967296). intlia.
Qed.

Lemma u64_idem_add (a b : Z) : u64 (u64 a + b) = u64 (a + b).
Proof. unfold u64. by rewrite Zplus_mod_idemp_l. Qed.

Lemma u64_idem_sub (a b : Z) : u64 (u64 a - b) = u64 (a - b).
Proof. unfold u64. by rewrite Zminus_mod_idemp_l. Qed.

Lemma u64_le (z : Z) : 0 <= z -> u64 z <= z.
Proof. intros. unfold u64. apply Z.mod_le; lia. Qed.

Lemma i64_small (z : Z) : 0 <= z <= i64_max -> i64 z = z.
Proof.
  intros. unfold i64. rewrite u64_small by intlia.
  destruct (Z.leb_spec z i64_max); lia.
Qed.

Lemma i64_of_u64 (z : Z) : is_i64 z -> i64 (u64 z) = z.
Proof.
  intros Hz. unfold i64.
  rewrite (u64_small (u64 z)) by apply u64_range.
  destruct (Z_lt_le_dec z 0).
  - assert (u64 z = z + 18446744073709551616) as ->.
    { unfold u64. rewrite <- (Z.mod_small (z + 18446744073709551616) 18446744073709551616) by intlia.
      by rewrite <- Zplus_mod_idemp_r, Z_mod_same_full, Z.add_0_r. }
    destruct (Z.leb_spec (z + 18446744073709551616) i64_max); intlia.
  - rewrite u64_small by intlia.
    destruct (Z.leb_spec z i64_max); intlia.
Qed.

Lemma i64_range (z : Z) : is_i64 (i64 z).
Proof.
  unfold i64. pose proof (u64_range z).
  destruct (Z.leb_spec (u64 z) i64_max); intlia.
Qed.

Lemma i64_checked_ok (z : Z) : is_i64 z -> i64_checked z = Ok z.
Proof.
  intros Hz. unfold i64_checked.
  destruct (Z.leb_spec i64_min z), (Z.leb_spec z i64_max); intlia || done.
Qed.

Lemma bit_ceil_spec (x : Z) : 1 < x ->
  exists k, 0 <= k /\ bit_ceil x = 2 ^ k /\ x <= 2 ^ k < 2 * x.
Proof.
  intros Hx. unfold bit_ceil. destruct (Z.leb_spec x 1); [lia|].
  exists (Z.log2_up x). pose proof (Z.log2_up_spec x Hx).
  pose proof (Z.log2_up_pos x Hx). split; [lia|]. split; [done|].
  replace (Z.log2_up x) with (1 + Z.pred (Z.log2_up x)) at 2 by lia.
  rewrite Z.pow_add_r by lia. lia.
Qed.

(** ** Lemmas on vectors *)

Section Vectors.
Context {A : Type}.
Implicit Types (v : list A) (i j : Z) (x y : A).

Lemma in_range_true v i : in_range v i = true <-> 0 <= i < vsize v.
Proof. unfold in_range, vsize. lia. Qed.

Lemma vlook_Some_lt v i x : v.[i] = Some x -> 0 <= i < vsize v.
Proof.
  unfold vlook. destruct (in_range v i) eqn:E; [|done].
  intros _. by apply in_range_true.
Qed.

Lemma vlook_lt_is_Some v i : 0 <= i < vsize v -> is_Some v.[i].
Proof.
  intros H. unfold vlook. rewrite (proj2 (in_range_true v i) H).
  apply lookup_lt_is_Some_2. unfold vsize in H. lia.
Qed.

Lemma vsize_vupd v i x : vsize v.[i := x] = vsize v.
Proof. unfold vsize, vupd. case_match; [by rewrite length_insert|done]. Qed.

Lemma vlook_vupd_eq v i x : 0 <= i < vsize v -> v.[i := x].[i] = Some x.
Proof.
  intros H. pose proof H as H'. rewrite <- (vsize_vupd v i x) in H'.
  unfold vlook at 1. rewrite (proj2 (in_range_true _ _) H').
  unfold vupd. rewrite (proj2 (in_range_true _ _) H).
  apply list_lookup_insert_eq. unfold vsize in H. lia.
Qed.

Lemma vlook_vupd_ne v i j x : i <> j -> v.[i := x].[j] = v.[j].
Proof.
  intros Hne. unfold vlook.
  assert (in_range v.[i := x] j = in_range v j) as ->.
  { unfold in_range. pose proof (vsize_vupd v i x). unfold vsize in *. by rewrite H. }
  destruct (in_range v j) eqn:Ej; [|done]. apply in_range_true in Ej.
  unfold vupd. destruct (in_range v i) eqn:Ei; [|done]. apply in_range_true in Ei.
  apply list_lookup_insert_ne. lia.
Qed.

Lemma vlook_vupd v i j x : 0 <= i < vsize v ->
  v.[i := x].[j] = if decide (i = j) then Some x else v.[j].
Proof.
  intros. case_decide; subst; [by apply vlook_vupd_eq|by apply vlook_vupd_ne].
Qed.

Lemma vupd_id v i x : v.[i] = Some x -> v.[i := x] = v.
Proof.
  unfold vlook, vupd. case_match; [|done]. intros. by apply list_insert_id.
Qed.

Lemma vget_ok v i x : v.[i] = Some x -> vget v i = Ok x.
Proof. unfold vget. by intros ->. Qed.

Lemma vget_inv v i x : vget v i = Ok x -> v.[i] = Some x.
Proof. unfold vget. case_match; naive_solver. Qed.

Lemma vset_ok v i x : 0 <= i < vsize v -> vset v i x = Ok v.[i := x].
Proof. intros. unfold vset. by rewrite (proj2 (in_range_true v i)). Qed.

Lemma vupd_vupd v i x y : v.[i := x].[i := y] = v.[i := y].
Proof.
  unfold vupd at 1 3. destruct (in_range v i) eqn:E.
  - assert (in_range v.[i := x] i = true) as ->.
    { apply in_range_true. rewrite vsize_vupd. by apply in_range_true. }
    unfold vupd. rewrite E. apply list_insert_insert_eq.
  - assert (in_range v.[i := x] i = false) as ->.
    { apply not_true_is_false. rewrite in_range_true, vsize_vupd, <- in_range_true. congruence. }
    unfold vupd. by rewrite E.
Qed.

Lemma vget_vupd_eq v i x : 0 <= i < vsize v -> vget v.[i := x] i = Ok x.
Proof. intros. by apply vget_ok, vlook_vupd_eq. Qed.

Lemma vget_vupd_ne v i j x : i <> j -> vget v.[i := x] j = vget v j.
Proof. intros. unfold vget. by rewrite vlook_vupd_ne. Qed.

Lemma vlook_ext v1 v2 : vsize v1 = vsize v2 -> (forall i, v1.[i] = v2.[i]) -> v1 = v2.
Proof.
  unfold vsize. intros Hl H. apply list_eq_same_length with (length v1); [lia|lia|].
  intros i x y Hi H1 H2. specialize (H (Z.of_nat i)).
  pose proof (lookup_lt_Some _ _ _ H1). pose proof (lookup_lt_Some _ _ _ H2).
  unfold vlook, in_range in H. rewrite Nat2Z.id, H1, H2 in H.
  destruct (Z.ltb_spec (Z.of_nat i) (Z.of_nat (length v1))); [|lia].
  destruct (Z.ltb_spec (Z.of_nat i) (Z.of_nat (length v2))); [|lia].
  destruct (Z.leb_spec 0 (Z.of_nat i)); [|lia]. simpl in H. congruence.
Qed.

Lemma vlook_replicate (n : nat) x i : 0 <= i < Z.of_nat n -> (replicate n x).[i] = Some x.
Proof.
  intros H. unfold vlook, in_range. rewrite length_replicate.
  destruct (Z.leb_spec 0 i), (Z.ltb_spec i (Z.of_nat n)); [|lia..]. simpl.
  apply lookup_replicate_2. lia.
Qed.

Lemma vlook_elem_of v i x : v.[i] = Some x -> x ∈ v.
Proof. unfold vlook. case_match; [|done]. apply list_elem_of_lookup_2. Qed.
End Vectors.

Create HintDb dme.
#[export] Hint Resolve u64_range u32_range i64_range vlook_Some_lt vget_ok : dme.

(** [vec_simpl] resolves reads after writes whose indices are decided by the
    context. *)
Ltac vec_simpl :=
  repeat first
    [ rewrite vsize_vupd in *
    | rewrite vlook_vupd_eq by (rewrite ?vsize_vupd; lia)
    | rewrite vlook_vupd_ne by (congruence || lia) ].

(** [run] executes the head of a computation with the successful reads and
    writes found in the context. *)
Ltac run1 :=
  match goal with
  | H : ?v.[?i] = Some _ |- context [vget ?v ?i] => rewrite (vget_ok v i _ H)
  | |- context [vget ?v.[?i := ?x] ?i] => rewrite (vget_vupd_eq v i x) by (rewrite ?vsize_vupd; lia)
  | |- context [vget ?v.[?i := ?x] ?j] => rewrite (vget_vupd_ne v i j x) by (congruence || lia)
  | |- context [?v.[?i := ?x].[?i := ?y]] => rewrite (vupd_vupd v i x y)
  | |- context [vset ?v ?i ?x] => rewrite (vset_ok v i x) by (rewrite ?vsize_vupd; lia)
  | |- context [@mbind result _ _ _ _ (Ok _)] => progress cbn [mbind result_bind]
  | H : ?m = Ok _ |- context [?m] => rewrite H
  end.
Ltac run := repeat run1.

(** [inv_ok H] unpacks a successful bind. *)
Lemma bind_Ok_inv {A B} (m : result A) (f : A -> result B) (b : B) :
  (m ≫= f) = Ok b -> exists a, m = Ok a /\ f a = Ok b.
Proof. destruct m as [a|e]; simpl; [eauto|done]. Qed.

(** ** List lemmas shared by the components *)

Section Lists.
Context {A : Type}.

Lemma filter_cons_case (P : A -> Prop) `{forall x, Decision (P x)} (x : A) (l : list A) :
  filter P (x :: l) = if decide (P x) then x :: filter P l else filter P l.
Proof. reflexivity. Qed.

Lemma filter_comm (P Q : A -> Prop) `{forall x, Decision (P x)} `{forall x, Decision (Q x)}
  (l : list A) : filter P (filter Q l) = filter Q (filter P l).
Proof.
  induction l as [|x l IH]; [done|].
  rewrite !filter_cons. repeat case_decide; rewrite ?filter_cons;
    repeat case_decide; congruence.
Qed.

Lemma filter_all (P : A -> Prop) `{forall x, Decision (P x)} (l : list A) :
  (forall x, x ∈ l -> P x) -> filter P l = l.
Proof.
  induction l as [|x l IH]; intros Hl; [done|].
  rewrite filter_cons_True by (apply Hl; set_solver).
  f_equal. apply IH. set_solver.
Qed.

Lemma filter_none (P : A -> Prop) `{forall x, Decision (P x)} (l : list A) :
  (forall x, x ∈ l -> ~ P x) -> filter P l = [].
Proof.
  induction l as [|x l IH]; intros Hl; [done|].
  rewrite filter_cons_False by (apply Hl; set_solver).
  apply IH. set_solver.
Qed.
End Lists.
