(* ===== verification/Types.v ===== *)
(** * Types: the vocabulary of the engine (include/dme/types.hpp)

    Enumerations keep the constructors of the source, in its order; [to_u8]
    and [of_u8] of each are the [static_cast]s to and from the underlying
    [std::uint8_t].  [Command] and [Event] are the two records that every
    other component exchanges. *)
From stdpp Require Import base numbers strings.
From Stdlib Require Import ZArith Lia.
From S2P Require Import Prelude.
Local Open Scope Z_scope.

Inductive Side : Set := Buy | Sell.

Inductive OrderType : Set := Limit | Market | ImmediateOrCancel | FillOrKill.

Inductive CommandType : Set := New | Cancel | Replace.

Inductive EventType : Set := Accepted | Rejected | Trade | Cancelled | Replaced | Rested.

Inductive RejectReason : Set :=
  | NoReason            (* RejectReason::None *)
  | InvalidQuantity
  | InvalidPrice
  | DuplicateOrderId
  | UnknownOrderId
  | BookCapacity
  | WouldNotFill
  | SequenceGap
  | InvalidSessionSequence
  | RiskLimit
  | GatewayBackpressure.

#[export] Instance Side_eq_dec : EqDecision Side.
Proof. solve_decision. Defined.
#[export] Instance OrderType_eq_dec : EqDecision OrderType.
Proof. solve_decision. Defined.
#[export] Instance CommandType_eq_dec : EqDecision CommandType.
Proof. solve_decision. Defined.
#[export] Instance EventType_eq_dec : EqDecision EventType.
Proof. solve_decision. Defined.
#[export] Instance RejectReason_eq_dec : EqDecision RejectReason.
Proof. solve_decision. Defined.

Record Command : Set := MkCommand {
  c_sequence : Z;
  c_type : CommandType;
  c_side : Side;
  c_order_type : OrderType;
  c_reserved : Z;
  c_order_id : Z;
  c_price : Z;
  c_quantity : Z }.

Record Event : Set := MkEvent {
  e_sequence : Z;
  e_type : EventType;
  e_aggressor_side : Side;
  e_reason : RejectReason;
  e_reserved : Z;
  e_order_id : Z;
  e_contra_order_id : Z;
  e_price : Z;
  e_quantity : Z }.

#[export] Instance Command_eq_dec : EqDecision Command.
Proof. solve_decision. Defined.
#[export] Instance Event_eq_dec : EqDecision Event.
Proof. solve_decision. Defined.

(** The value-initialised records [Command{}] and [Event{}]. *)
Definition Command_zero : Command := MkCommand 0 New Buy Limit 0 0 0 0.
Definition Event_zero : Event := MkEvent 0 Accepted Buy NoReason 0 0 0 0 0.

(** [to_string(EventType)]. *)
Definition to_string (value : EventType) : string :=
  match value with
  | Accepted => "accepted"
  | Rejected => "rejected"
  | Trade => "trade"
  | Cancelled => "cancelled"
  | Replaced => "replaced"
  | Rested => "rested"
  end.

(** The side an aggressor trades against. *)
Definition opposite (side : Side) : Side :=
  match side with Buy => Sell | Sell => Buy end.

Definition is_buy (side : Side) : bool :=
  match side with Buy => true | Sell => false end.

Definition side_to_u8 (s : Side) : Z := match s with Buy => 0 | Sell => 1 end.
Definition order_type_to_u8 (t : OrderType) : Z :=
  match t with Limit => 0 | Market => 1 | ImmediateOrCancel => 2 | FillOrKill => 3 end.
Definition command_type_to_u8 (t : CommandType) : Z :=
  match t with New => 0 | Cancel => 1 | Replace => 2 end.
Definition event_type_to_u8 (t : EventType) : Z :=
  match t with
  | Accepted => 0 | Rejected => 1 | Trade => 2 | Cancelled => 3 | Replaced => 4 | Rested => 5
  end.
Definition reason_to_u8 (r : RejectReason) : Z :=
  match r with
  | NoReason => 0 | InvalidQuantity => 1 | InvalidPrice => 2 | DuplicateOrderId => 3
  | UnknownOrderId => 4 | BookCapacity => 5 | WouldNotFill => 6 | SequenceGap => 7
  | InvalidSessionSequence => 8 | RiskLimit => 9 | GatewayBackpressure => 10
  end.

(** The casts back; [None] stands for a value outside the enumerators. *)
Definition side_of_u8 (z : Z) : option Side :=
  match z with 0 => Some Buy | 1 => Some Sell | _ => None end.
Definition order_type_of_u8 (z : Z) : option OrderType :=
  match z with
  | 0 => Some Limit | 1 => Some Market | 2 => Some ImmediateOrCancel | 3 => Some FillOrKill
  | _ => None
  end.
Definition command_type_of_u8 (z : Z) : option CommandType :=
  match z with 0 => Some New | 1 => Some Cancel | 2 => Some Replace | _ => None end.
Definition event_type_of_u8 (z : Z) : option EventType :=
  match z with
  | 0 => Some Accepted | 1 => Some Rejected | 2 => Some Trade | 3 => Some Cancelled
  | 4 => Some Replaced | 5 => Some Rested | _ => None
  end.
Definition reason_of_u8 (z : Z) : option RejectReason :=
  match z with
  | 0 => Some NoReason | 1 => Some InvalidQuantity | 2 => Some InvalidPrice
  | 3 => Some DuplicateOrderId | 4 => Some UnknownOrderId | 5 => Some BookCapacity
  | 6 => Some WouldNotFill | 7 => Some SequenceGap | 8 => Some InvalidSessionSequence
  | 9 => Some RiskLimit | 10 => Some GatewayBackpressure | _ => None
  end.

(** Fields within the widths of the C++ members. *)
Record command_ok (c : Command) : Prop := {
  cok_sequence : is_u64 (c_sequence c);
  cok_reserved : is_u8 (c_reserved c);
  cok_order_id : is_u64 (c_order_id c);
  cok_price : is_i64 (c_price c);
  cok_quantity : is_u64 (c_quantity c) }.

Record event_ok (e : Event) : Prop := {
  eok_sequence : is_u64 (e_sequence e);
  eok_order_id : is_u64 (e_order_id e);
  eok_contra : is_u64 (e_contra_order_id e);
  eok_price : is_i64 (e_price e);
  eok_quantity : is_u64 (e_quantity e) }.

Lemma opposite_involutive (s : Side) : opposite (opposite s) = s.
Proof. by destruct s. Qed.

Lemma opposite_ne (s : Side) : opposite s <> s.
Proof. by destruct s. Qed.
#[export] Hint Resolve opposite_ne : dme.
