(* ===== verification/OrderIndex.v ===== *)
(** * OrderIndex: what the order book needs from its order-ID index

    [OrderIndexOps] lists the operations [OrderBook] calls on [order_index_];
    [OrderIndexLaws] states what they promise in terms of a finite map from
    order IDs to arena nodes.  The book is proved against this interface;
    [FixedHash] discharges it for the open-addressed table of
    include/dme/fixed_hash.hpp. *)
From stdpp Require Import base gmap numbers.
From Stdlib Require Import ZArith.
From S2P Require Import Prelude.
Local Open Scope Z_scope.

Class OrderIndexOps (I : Type) := {
  index_make : Z -> result I;
  index_find : I -> Z -> result (option Z);
  index_insert : I -> Z -> Z -> result (I * bool);
  index_erase : I -> Z -> result (I * bool)
}.

(** [index_repr t n m]: the index [t], built for [n] entries, holds [m]. *)
Class OrderIndexLaws (I : Type) `{!OrderIndexOps I} := {
  index_repr : I -> Z -> gmap Z Z -> Prop;
  index_make_ok (n : Z) : 0 < n <= 4611686018427387904 ->
    exists t, index_make n = Ok t /\ index_repr t n ∅;
  index_repr_size (t : I) (n : Z) (m : gmap Z Z) :
    index_repr t n m -> Z.of_nat (size m) <= n;
  index_find_ok (t : I) (n : Z) (m : gmap Z Z) (id : Z) :
    index_repr t n m -> index_find t id = Ok (m !! id);
  index_insert_ok (t : I) (n : Z) (m : gmap Z Z) (id node : Z) :
    index_repr t n m -> m !! id = None -> Z.of_nat (size m) < n ->
    exists t', index_insert t id node = Ok (t', true) /\ index_repr t' n (<[id := node]> m);
  index_insert_dup (t : I) (n : Z) (m : gmap Z Z) (id node : Z) :
    index_repr t n m -> is_Some (m !! id) -> index_insert t id node = Ok (t, false);
  index_erase_ok (t : I) (n : Z) (m : gmap Z Z) (id : Z) :
    index_repr t n m -> is_Some (m !! id) ->
    exists t', index_erase t id = Ok (t', true) /\ index_repr t' n (delete id m);
  index_erase_absent (t : I) (n : Z) (m : gmap Z Z) (id : Z) :
    index_repr t n m -> m !! id = None -> index_erase t id = Ok (t, false)
}.
