(* ===== verification/FixedHash.v ===== *)
(** * FixedHash: the fixed-capacity order-ID index (include/dme/fixed_hash.hpp)

    [FixedOrderIndex] is a power-of-two table probed linearly.  The
    definitions below are the class's members; the proofs show that they
    implement the finite map of [OrderIndex], including the probe-chain
    repair of [erase]. *)
From stdpp Require Import base list gmap numbers.
From Stdlib Require Import ZArith Lia.
From S2P Require Import Prelude OrderIndex.
Local Open Scope Z_scope.

Inductive State : Set := Empty | Occupied.

Record Entry : Set := MkEntry { en_id : Z; en_node : Z; en_state : State }.

Definition Entry_zero : Entry := MkEntry 0 0 Empty.

Record FixedOrderIndex : Set := MkIndex { entries : list Entry; mask : Z }.

Definition is_occupied (e : Entry) : bool :=
  match en_state e with Occupied => true | Empty => false end.

(** SplitMix-style finaliser on 64-bit words. *)
Definition hash (value : Z) : Z :=
  let value := Z.lxor value (Z.shiftr value 30) in
  let value := u64 (value * 0xbf58476d1ce4e5b9) in
  let value := Z.lxor value (Z.shiftr value 27) in
  let value := u64 (value * 0x94d049bb133111eb) in
  Z.lxor value (Z.shiftr value 31).

(** [std::size_t{1} << (digits - 2U)] with 64 digits. *)
Definition largest_safe_request : Z := 4611686018427387904.

Definition table_capacity (requested : Z) : result Z :=
  if (requested =? 0) || (largest_safe_request <? requested)
  then Fail InvalidArgument
  else Ok (bit_ceil (u64 (requested * 2))).

(** The constructor. *)
Definition make_index (requested_capacity : Z) : result FixedOrderIndex :=
  capacity ← table_capacity requested_capacity;
  Ok (MkIndex (replicate (Z.to_nat capacity) Entry_zero) (capacity - 1)).

Definition first_slot (t : FixedOrderIndex) (id : Z) : Z := Z.land (hash id) (mask t).
Definition next_slot (t : FixedOrderIndex) (slot : Z) : Z :=
  Z.land (u64 (slot + 1)) (mask t).

Definition put_entry (t : FixedOrderIndex) (slot : Z) (e : Entry) : result FixedOrderIndex :=
  es ← vset (entries t) slot e; Ok (MkIndex es (mask t)).

(** [insert]: [probes] counts the iterations the [for] loop has left. *)
Fixpoint insert_loop (probes : nat) (t : FixedOrderIndex) (id node slot : Z)
  : result (FixedOrderIndex * bool) :=
  match probes with
  | O => Ok (t, false)
  | S probes =>
    entry ← vget (entries t) slot;
    if is_occupied entry && (en_id entry =? id) then Ok (t, false)
    else if negb (is_occupied entry) then
      t' ← put_entry t slot (MkEntry id node Occupied); Ok (t', true)
    else insert_loop probes t id node (next_slot t slot)
  end.

Definition insert (t : FixedOrderIndex) (id node : Z) : result (FixedOrderIndex * bool) :=
  insert_loop (length (entries t)) t id node (first_slot t id).

(** [find]; the returned pointer is the node it points to. *)
Fixpoint find_loop (probes : nat) (t : FixedOrderIndex) (id slot : Z) : result (option Z) :=
  match probes with
  | O => Ok None
  | S probes =>
    entry ← vget (entries t) slot;
    if negb (is_occupied entry) then Ok None
    else if is_occupied entry && (en_id entry =? id) then Ok (Some (en_node entry))
    else find_loop probes t id (next_slot t slot)
  end.

Definition find (t : FixedOrderIndex) (id : Z) : result (option Z) :=
  find_loop (length (entries t)) t id (first_slot t id).

(** The [while] of [erase]: empties and reinserts the cluster that follows
    the hole. *)
Fixpoint repair_loop (fuel : nat) (t : FixedOrderIndex) (next : Z) : result FixedOrderIndex :=
  match fuel with
  | O => Fail OutOfFuel
  | S fuel =>
    displaced ← vget (entries t) next;
    if is_occupied displaced then
      t ← put_entry t next Entry_zero;
      '(t, _) ← insert t (en_id displaced) (en_node displaced);
      repair_loop fuel t (next_slot t next)
    else Ok t
  end.

Fixpoint erase_loop (probes : nat) (t : FixedOrderIndex) (id slot : Z)
  : result (FixedOrderIndex * bool) :=
  match probes with
  | O => Ok (t, false)
  | S probes =>
    entry ← vget (entries t) slot;
    if negb (is_occupied entry) then Ok (t, false)
    else if is_occupied entry && (en_id entry =? id) then
      t' ← put_entry t slot Entry_zero;
      t' ← repair_loop (length (entries t')) t' (next_slot t' slot);
      Ok (t', true)
    else erase_loop probes t id (next_slot t slot)
  end.

Definition erase (t : FixedOrderIndex) (id : Z) : result (FixedOrderIndex * bool) :=
  erase_loop (length (entries t)) t id (first_slot t id).

#[export] Instance fixed_index_ops : OrderIndexOps FixedOrderIndex := {
  index_make := make_index;
  index_find := find;
  index_insert := insert;
  index_erase := erase
}.

(** ** Cyclic intervals

    [between c h j i]: slot [j] lies on the probe path that starts at [h] and
    has not yet reached [i], in a table of [c] slots. *)
Definition between (c h j i : Z) : Prop :=
  h <= j < i \/ (i < h /\ (h <= j < c \/ 0 <= j < i)).

(** Number of steps from [a] to [b]. *)
Definition steps (c a b : Z) : Z := if a <=? b then b - a else b - a + c.

Definition succ_slot (c s : Z) : Z := if s + 1 =? c then 0 else s + 1.

(** What a slot holds. *)
Definition cell (t : FixedOrderIndex) (i : Z) : option (Z * Z) :=
  match (entries t).[i] with
  | Some e => if is_occupied e then Some (en_id e, en_node e) else None
  | None => None
  end.

Record table_wf (t : FixedOrderIndex) (c : Z) : Prop := {
  wf_size : vsize (entries t) = c;
  wf_mask : mask t = c - 1;
  wf_bound : 1 < c <= 9223372036854775808;
  wf_pow2 : exists k, 0 <= k /\ c = 2 ^ k }.

(** Linear probing reaches every occupied slot. *)
Definition chained (t : FixedOrderIndex) (c : Z) : Prop :=
  forall i id node, cell t i = Some (id, node) ->
  forall j, between c (first_slot t id) j i -> cell t j <> None.

Definition unique_ids (t : FixedOrderIndex) : Prop :=
  forall i i' id node node', cell t i = Some (id, node) ->
  cell t i' = Some (id, node') -> i = i'.

Definition holds (t : FixedOrderIndex) (id node : Z) : Prop :=
  exists i, cell t i = Some (id, node).

Definition capacity (t : FixedOrderIndex) : Z := vsize (entries t).

Record table_repr (t : FixedOrderIndex) (n : Z) (m : gmap Z Z) : Prop := {
  tr_wf : table_wf t (capacity t);
  tr_load : 2 * n <= capacity t;
  tr_size : Z.of_nat (size m) <= n;
  tr_chained : chained t (capacity t);
  tr_unique : unique_ids t;
  tr_map : forall id node, m !! id = Some node <-> holds t id node }.

#[export] Instance between_dec (c h j i : Z) : Decision (between c h j i).
Proof. unfold between. apply _. Defined.

(** ** Slots *)

Ltac cyc := unfold between, steps, succ_slot in *; repeat case_match; lia.

Section Slots.
Context {t : FixedOrderIndex} {c : Z} (Hwf : table_wf t c).

Lemma land_mask (x : Z) : Z.land x (mask t) = x mod c.
Proof.
  destruct (wf_pow2 _ _ Hwf) as (k & Hk & Hc).
  rewrite (wf_mask _ _ Hwf), Hc, Z.sub_1_r, <- Z.ones_equiv.
  by apply Z.land_ones.
Qed.

Lemma first_slot_range (id : Z) : 0 <= first_slot t id < c.
Proof.
  unfold first_slot. rewrite land_mask. apply Z.mod_pos_bound.
  pose proof (wf_bound _ _ Hwf). lia.
Qed.

Lemma next_slot_succ (s : Z) : 0 <= s < c -> next_slot t s = succ_slot c s.
Proof.
  intros Hs. pose proof (wf_bound _ _ Hwf). unfold next_slot, succ_slot.
  rewrite land_mask, u64_small by intlia.
  destruct (Z.eqb_spec (s + 1) c) as [->|].
  - apply Z_mod_same_full.
  - apply Z.mod_small. lia.
Qed.

Lemma succ_slot_range (s : Z) : 0 <= s < c -> 0 <= succ_slot c s < c.
Proof. cyc. Qed.

Lemma entry_at (i : Z) : 0 <= i < c -> exists e, (entries t).[i] = Some e /\
  cell t i = if is_occupied e then Some (en_id e, en_node e) else None.
Proof.
  intros Hi. rewrite <- (wf_size _ _ Hwf) in Hi.
  destruct (vlook_lt_is_Some _ _ Hi) as [e He].
  exists e. split; [done|]. unfold cell. by rewrite He.
Qed.

Lemma cell_range (i : Z) : cell t i <> None -> 0 <= i < c.
Proof.
  unfold cell. case_match eqn:E; [|done]. intros _.
  rewrite <- (wf_size _ _ Hwf). by eapply vlook_Some_lt.
Qed.

Lemma put_entry_ok (i : Z) (e : Entry) : 0 <= i < c -> exists t',
  put_entry t i e = Ok t' /\ table_wf t' c /\ mask t' = mask t /\
  (forall j, cell t' j = if decide (i = j)
     then if is_occupied e then Some (en_id e, en_node e) else None
     else cell t j).
Proof.
  intros Hi. pose proof Hi as Hi'. rewrite <- (wf_size _ _ Hwf) in Hi'.
  unfold put_entry. rewrite vset_ok by done. cbn.
  eexists; split; [done|]. split_and!.
  - destruct Hwf; constructor; simpl; rewrite ?vsize_vupd; auto.
  - done.
  - intros j. unfold cell; cbn [entries]. rewrite vlook_vupd by done. by case_decide.
Qed.

Lemma first_slot_mask (t' : FixedOrderIndex) (id : Z) :
  mask t' = mask t -> first_slot t' id = first_slot t id.
Proof. unfold first_slot. by intros ->. Qed.

(** ** The probe loops *)

Lemma find_loop_hit (probes : nat) (id node slot i : Z) :
  0 <= slot < c -> steps c slot i < Z.of_nat probes ->
  cell t i = Some (id, node) ->
  (forall j, between c slot j i -> exists id' node', cell t j = Some (id', node') /\ id' <> id) ->
  find_loop probes t id slot = Ok (Some node).
Proof.
  revert slot. induction probes as [|probes IH]; intros slot Hs Hst Hi Hpath.
  { pose proof (cell_range i ltac:(congruence)). cyc. }
  destruct (entry_at slot Hs) as (e & He & Hc). cbn [find_loop]. run.
  pose proof (cell_range i ltac:(congruence)) as Hir.
  destruct (decide (slot = i)) as [->|Hne].
  - rewrite Hi in Hc. destruct (is_occupied e) eqn:Eo; simplify_eq.
    cbn. by rewrite Z.eqb_refl.
  - destruct (Hpath slot) as (id' & node' & Hsl & Hid); [cyc|].
    rewrite Hsl in Hc. destruct (is_occupied e) eqn:Eo; simplify_eq. cbn.
    destruct (Z.eqb_spec (en_id e) id); [done|].
    rewrite next_slot_succ by done. apply IH; auto using succ_slot_range; [cyc|].
    intros j Hj. apply Hpath. cyc.
Qed.

Lemma find_loop_miss (probes : nat) (id slot : Z) :
  0 <= slot < c -> (forall i node, cell t i <> Some (id, node)) ->
  find_loop probes t id slot = Ok None.
Proof.
  intros Hs Habs. revert slot Hs.
  induction probes as [|probes IH]; intros slot Hs; [done|].
  destruct (entry_at slot Hs) as (e & He & Hc). cbn [find_loop]. run.
  destruct (is_occupied e) eqn:Eo; [|done]. cbn.
  destruct (Z.eqb_spec (en_id e) id) as [<-|]; [by destruct (Habs slot (en_node e))|].
  rewrite next_slot_succ by done. by apply IH, succ_slot_range.
Qed.

Lemma insert_loop_hit (probes : nat) (id node node' slot i : Z) :
  0 <= slot < c -> cell t i = Some (id, node') ->
  (forall j, between c slot j i -> cell t j <> None) ->
  insert_loop probes t id node slot = Ok (t, false).
Proof.
  intros Hs Hi. revert slot Hs.
  induction probes as [|probes IH]; intros slot Hs Hpath; [done|].
  destruct (entry_at slot Hs) as (e & He & Hc). cbn [insert_loop]. run.
  pose proof (cell_range i ltac:(congruence)) as Hir.
  destruct (decide (slot = i)) as [->|Hne].
  - rewrite Hi in Hc. destruct (is_occupied e); simplify_eq. cbn. by rewrite Z.eqb_refl.
  - pose proof (Hpath slot ltac:(cyc)) as Hsl.
    destruct (is_occupied e) eqn:Eo; [|congruence]. cbn.
    destruct (en_id e =? id); [done|].
    rewrite next_slot_succ by done. apply IH; [by apply succ_slot_range|].
    intros j Hj. apply Hpath. cyc.
Qed.

(** Insertion of a fresh key stops at the first empty slot of its path. *)
Lemma insert_loop_fresh (probes : nat) (id node slot i : Z) :
  0 <= slot < c -> 0 <= i < c -> steps c slot i < Z.of_nat probes -> cell t i = None ->
  (forall j node', cell t j <> Some (id, node')) ->
  exists f t', insert_loop probes t id node slot = Ok (t', true) /\
    0 <= f < c /\ cell t f = None /\ (f = i \/ between c slot f i) /\
    (forall j, between c slot j f -> cell t j <> None) /\
    table_wf t' c /\ mask t' = mask t /\
    (forall j, cell t' j = if decide (f = j) then Some (id, node) else cell t j).
Proof.
  intros Hs Hir Hst Hi Habs. revert slot Hs Hst.
  induction probes as [|probes IH]; intros slot Hs Hst; [cyc|].
  destruct (entry_at slot Hs) as (e & He & Hc). cbn [insert_loop]. run.
  destruct (is_occupied e) eqn:Eo; cbn [andb negb].
  - destruct (Z.eqb_spec (en_id e) id) as [<-|]; [by destruct (Habs slot (en_node e))|].
    assert (slot <> i) by congruence.
    rewrite next_slot_succ by done.
    destruct (IH (succ_slot c slot)) as (f & t' & Hok & Hf & Hfe & Hfi & Hp & Hwf' & Hm & Hcell);
      [by apply succ_slot_range|cyc|].
    exists f, t'. split_and!; auto; try lia.
    + cyc.
    + intros j Hj. destruct (decide (j = slot)) as [->|]; [congruence|].
      assert (slot <> f) by congruence. apply Hp. cyc.
  - destruct (put_entry_ok slot (MkEntry id node Occupied) Hs) as (t' & -> & Hwf' & Hm & Hcell).
    exists slot, t'. cbn. split_and!; auto; try lia.
    + cyc.
    + intros j. cyc.
Qed.
End Slots.

(** ** Probe-chain repair

    [repairing t0 s e t next]: the hole left at [s] in the well-chained table
    [t0] is being closed, [e] is the first empty slot after [s], and the slots
    from [next] up to [e] are still to be reinserted. *)
Record repairing (c : Z) (t0 : FixedOrderIndex) (s e : Z) (id0 : Z)
    (t : FixedOrderIndex) (next : Z) : Prop := {
  rp_wf : table_wf t c;
  rp_mask : mask t = mask t0;
  rp_next : next = e \/ between c (succ_slot c s) next e;
  rp_same : forall j, ~ between c s j next -> cell t j = cell t0 j;
  rp_chained : forall i id node, cell t i = Some (id, node) -> ~ between c next i e ->
    forall j, between c (first_slot t0 id) j i -> cell t j <> None;
  rp_unique : unique_ids t;
  rp_holds : forall id node, holds t id node <-> holds t0 id node /\ id <> id0 }.

Section Repair.
Context (c : Z) (t0 : FixedOrderIndex) (s e id0 node0 : Z).
Context (Hwf0 : table_wf t0 c) (Hch0 : chained t0 c) (Hun0 : unique_ids t0).
Context (Hs : cell t0 s = Some (id0, node0)) (He : cell t0 e = None) (Her : 0 <= e < c).
Context (Hcluster : forall j, between c s j e -> cell t0 j <> None).

Lemma repair_slot_range : 0 <= s < c /\ s <> e.
Proof. split; [eapply cell_range; [done|congruence]|congruence]. Qed.

(** The displaced entry moves to a slot [f] between the hole and its old
    place, or back to its old place. *)
Record reinserted (t : FixedOrderIndex) (next id node f : Z) (t2 : FixedOrderIndex) : Prop := {
  ri_wf : table_wf t2 c;
  ri_mask : mask t2 = mask t;
  ri_range : 0 <= f < c;
  ri_where : f = next \/ (between c s f next /\ cell t f = None);
  ri_path : forall j, between c (first_slot t0 id) j f -> next <> j /\ cell t j <> None;
  ri_cell : forall j, cell t2 j = if decide (f = j) then Some (id, node)
              else if decide (next = j) then None else cell t j }.

Section Step.
Context (t : FixedOrderIndex) (next id node : Z).
Context (R : repairing c t0 s e id0 t next) (Hn : cell t next = Some (id, node)).

Lemma repair_next_range : 0 <= next < c.
Proof. eapply cell_range; [apply R|congruence]. Qed.

Lemma repair_next_pending : next <> e /\ between c (succ_slot c s) next e.
Proof.
  destruct repair_slot_range as [Hsr Hse]. pose proof repair_next_range.
  assert (next <> e).
  { intros ->. rewrite (rp_same _ _ _ _ _ _ _ R) in Hn; [congruence|cyc]. }
  split; [done|]. by destruct (rp_next _ _ _ _ _ _ _ R).
Qed.

Lemma repair_reinsert : exists t1 t2 f,
  put_entry t next Entry_zero = Ok t1 /\ insert t1 id node = Ok (t2, true) /\
  reinserted t next id node f t2.
Proof.
  destruct repair_slot_range as [Hsr Hse]. pose proof repair_next_range as Hnr.
  pose proof (rp_wf _ _ _ _ _ _ _ R) as Hwf. destruct repair_next_pending as [Hne Hnext].
  assert (Hn0 : cell t0 next = Some (id, node)).
  { rewrite <- (rp_same _ _ _ _ _ _ _ R); [done|cyc]. }
  destruct (put_entry_ok Hwf next Entry_zero Hnr) as (t1 & Ht1 & Hwf1 & Hm1 & Hc1).
  cbn in Hc1.
  assert (Hh1 : first_slot t1 id = first_slot t0 id).
  { apply first_slot_mask. rewrite Hm1. apply R. }
  pose proof (first_slot_range Hwf0 id) as Hhr.
  destruct (insert_loop_fresh Hwf1 (length (entries t1)) id node (first_slot t1 id) next)
    as (f & t2 & Hins & Hfr & Hfe & Hfi & Hfp & Hwf2 & Hm2 & Hc2); auto.
  { by rewrite Hh1. }
  { rewrite Hh1. pose proof (wf_size _ _ Hwf1). unfold vsize in *. cyc. }
  { rewrite Hc1. by rewrite decide_True. }
  { intros j node'. rewrite Hc1. case_decide; [done|]. intros Hj.
    pose proof (rp_unique _ _ _ _ _ _ _ R _ _ _ _ _ Hn Hj). done. }
  rewrite Hh1 in Hfi, Hfp.
  exists t1, t2, f. split; [done|]. split; [done|]. constructor; auto.
  - congruence.
  - destruct (decide (f = next)) as [|Hfn]; [by left|]. right.
    rewrite Hc1, decide_False in Hfe by done.
    split; [|done]. destruct (decide (between c s f next)) as [|Hnb]; [done|].
    exfalso. destruct Hfi as [?|Hfi]; [done|].
    apply (Hch0 _ _ _ Hn0 f Hfi). by rewrite <- (rp_same _ _ _ _ _ _ _ R).
  - intros j Hj. specialize (Hfp j Hj). rewrite Hc1 in Hfp. case_decide; done.
  - intros j. by rewrite Hc2, Hc1.
Qed.

Lemma repair_chained (f : Z) (t2 : FixedOrderIndex) : reinserted t next id node f t2 ->
  forall i id' node', cell t2 i = Some (id', node') -> ~ between c (succ_slot c next) i e ->
  forall j, between c (first_slot t0 id') j i -> cell t2 j <> None.
Proof.
  intros [_ _ Hfr Hf Hpath Hcell] i id' node' Hi Hnb j Hj.
  destruct repair_slot_range as [Hsr Hse]. pose proof repair_next_range.
  destruct repair_next_pending as [Hne Hnext]. pose proof (rp_wf _ _ _ _ _ _ _ R) as Hwf.
  assert (Hte : cell t e = None) by (rewrite (rp_same _ _ _ _ _ _ _ R); [done|cyc]).
  rewrite Hcell in Hi. rewrite Hcell. destruct (decide (f = j)) as [|Hfj]; [done|].
  destruct (decide (f = i)) as [<-|Hfi'].
  - simplify_eq. destruct (Hpath j Hj). by rewrite decide_False.
  - destruct (decide (next = i)) as [|Hni]; [done|].
    assert (Hchain : forall j, between c (first_slot t0 id') j i -> cell t j <> None).
    { apply (rp_chained _ _ _ _ _ _ _ R i id' node' Hi). cyc. }
    destruct (decide (next = j)) as [<-|]; [|by apply Hchain]. exfalso.
    pose proof (cell_range Hwf i ltac:(congruence)). pose proof (first_slot_range Hwf0 id').
    destruct (decide (i = e)) as [->|]; [congruence|].
    apply (Hchain e); [|done]. cyc.
Qed.

Lemma repair_holds (f : Z) (t2 : FixedOrderIndex) : reinserted t next id node f t2 ->
  unique_ids t2 /\ forall k n, holds t2 k n <-> holds t k n.
Proof.
  intros [_ _ _ Hf _ Hcell]. split.
  - intros i i' k n n'. rewrite !Hcell. repeat case_decide; intros; simplify_eq; auto.
    + exfalso. pose proof (rp_unique _ _ _ _ _ _ _ R next i' _ _ _ Hn ltac:(done)). done.
    + exfalso. pose proof (rp_unique _ _ _ _ _ _ _ R next i _ _ _ Hn ltac:(done)). done.
    + by eapply (rp_unique _ _ _ _ _ _ _ R).
  - intros k n. split; intros (i & Hi).
    + rewrite Hcell in Hi. repeat case_decide; simplify_eq; [by exists next|by exists i].
    + destruct (decide (i = next)) as [->|].
      * exists f. rewrite Hcell. destruct (decide (f = f)); congruence.
      * exists i. rewrite Hcell, (decide_False (P:=next=i)) by done.
        destruct (decide (f = i)) as [->|]; [|done].
        destruct Hf as [->|[_ Hf]]; [done|congruence].
Qed.

Lemma repair_step : exists t1 t2, put_entry t next Entry_zero = Ok t1 /\
  insert t1 id node = Ok (t2, true) /\ repairing c t0 s e id0 t2 (succ_slot c next).
Proof.
  destruct repair_reinsert as (t1 & t2 & f & Hp & Hi & Hr).
  exists t1, t2. split; [done|]. split; [done|].
  destruct (repair_holds f t2 Hr) as [Hu Hh].
  destruct repair_slot_range as [Hsr Hse]. pose proof repair_next_range.
  destruct repair_next_pending as [Hne Hnext].
  constructor; auto.
  - apply Hr.
  - rewrite (ri_mask _ _ _ _ _ _ Hr). apply R.
  - cyc.
  - intros j Hj. rewrite (ri_cell _ _ _ _ _ _ Hr).
    destruct Hr as [_ _ Hfr Hf _ _].
    rewrite decide_False, decide_False by cyc. apply R. cyc.
  - by apply (repair_chained f).
  - intros k n. rewrite Hh. apply R.
Qed.
End Step.

Lemma repair_loop_ok (fuel : nat) (t : FixedOrderIndex) (next : Z) :
  repairing c t0 s e id0 t next -> 0 <= next < c -> steps c next e < Z.of_nat fuel ->
  exists t', repair_loop fuel t next = Ok t' /\ repairing c t0 s e id0 t' e.
Proof.
  revert t next. induction fuel as [|fuel IH]; intros t next R Hnr Hst.
  { cyc. }
  pose proof (rp_wf _ _ _ _ _ _ _ R) as Hwf.
  destruct (entry_at Hwf next Hnr) as (en & Hen & Hc). cbn [repair_loop]. run.
  destruct (is_occupied en) eqn:Eo.
  - destruct (repair_step t next _ _ R Hc) as (t1 & t2 & -> & Hi & R2).
    destruct (repair_next_pending t next _ _ R Hc). cbn. rewrite Hi. cbn.
    rewrite (next_slot_succ (rp_wf _ _ _ _ _ _ _ R2)) by done.
    apply IH; [done|cyc|cyc].
  - exists t. split; [done|].
    destruct (rp_next _ _ _ _ _ _ _ R) as [<-|Hb]; [done|exfalso].
    destruct repair_slot_range as [Hsr Hse].
    apply (Hcluster next); [cyc|]. rewrite <- (rp_same _ _ _ _ _ _ _ R); [done|cyc].
Qed.

Lemma repairing_start (t : FixedOrderIndex) :
  put_entry t0 s Entry_zero = Ok t -> repairing c t0 s e id0 t (succ_slot c s).
Proof.
  intros Hp. destruct repair_slot_range as [Hsr Hse].
  destruct (put_entry_ok Hwf0 s Entry_zero Hsr) as (t' & Hp' & Hwf & Hm & Hc).
  rewrite Hp in Hp'. simplify_eq. cbn in Hc.
  constructor; auto.
  - cyc.
  - intros j Hj. rewrite Hc, decide_False; [done|]. cyc.
  - intros i id node Hi Hnb j Hj. rewrite Hc in Hi. rewrite Hc.
    destruct (decide (s = i)) as [|Hsi]; [done|].
    pose proof (cell_range Hwf0 i ltac:(congruence)). pose proof (first_slot_range Hwf0 id).
    destruct (decide (s = j)) as [<-|]; [exfalso|by eapply Hch0].
    destruct (decide (i = e)) as [->|]; [congruence|].
    apply (Hch0 _ _ _ Hi e); [|done]. cyc.
  - intros i i' k n n'. rewrite !Hc. repeat case_decide; [done..|]. apply Hun0.
  - intros k n. split.
    + intros (i & Hi). rewrite Hc in Hi. case_decide; [done|].
      split; [by exists i|]. intros ->. by pose proof (Hun0 _ _ _ _ _ Hs Hi).
    + intros ((i & Hi) & Hk). exists i. rewrite Hc, decide_False; [done|]. congruence.
Qed.
End Repair.

(** ** The table implements the finite map *)

Lemma first_empty (t : FixedOrderIndex) (c e' : Z) (k : nat) (s : Z) :
  table_wf t c -> 0 <= s < c -> 0 <= e' < c -> cell t e' = None -> steps c s e' <= Z.of_nat k ->
  exists e, 0 <= e < c /\ cell t e = None /\ forall j, between c s j e -> cell t j <> None.
Proof.
  intros Hwf Hs He' He. revert s Hs. induction k as [|k IH]; intros s Hs Hst.
  - assert (s = e') as -> by cyc. exists e'. split; [done|]. split; [done|]. cyc.
  - destruct (cell t s) as [p|] eqn:Es; [|exists s; split; [done|]; split; [done|cyc]].
    assert (s <> e') by congruence.
    destruct (IH (succ_slot c s)) as (e & Hr & Hn & Hp); [cyc|cyc|].
    exists e. split_and!; auto; try lia. intros j Hj.
    destruct (decide (j = s)) as [->|]; [congruence|].
    assert (s <> e) by congruence. apply Hp. cyc.
Qed.

Lemma full_table_size (t : FixedOrderIndex) (n : Z) (m : gmap Z Z) :
  table_repr t n m -> Forall (fun e => is_occupied e = true) (entries t) ->
  capacity t <= Z.of_nat (size m).
Proof.
  intros R Hall. pose proof (tr_wf _ _ _ R) as Hwf. unfold capacity, vsize.
  assert (Hcell : forall i e, entries t !! i = Some e ->
            cell t (Z.of_nat i) = Some (en_id e, en_node e)).
  { intros i e Hi. pose proof (lookup_lt_Some _ _ _ Hi).
    destruct (entry_at Hwf (Z.of_nat i)) as (e' & He' & ->);
      [unfold capacity, vsize; lia|].
    unfold vlook in He'. case_match; [|done]. rewrite Nat2Z.id, Hi in He'. simplify_eq.
    by rewrite (Forall_lookup_1 _ _ _ _ Hall Hi). }
  assert (Hnd : NoDup (en_id <$> entries t)).
  { apply NoDup_alt. intros i j id Hi Hj. rewrite list_lookup_fmap in Hi, Hj.
    apply fmap_Some in Hi as (e1 & Hi & ->). apply fmap_Some in Hj as (e2 & Hj & He).
    pose proof (Hcell _ _ Hi) as H1. pose proof (Hcell _ _ Hj) as H2. rewrite He in H1.
    pose proof (tr_unique _ _ _ R _ _ _ _ _ H1 H2). lia. }
  rewrite <- (length_fmap en_id), <- (size_list_to_set (C:=gset Z) _ Hnd), <- (size_dom m).
  apply inj_le, subseteq_size. intros id Hid.
  apply elem_of_list_to_set, list_elem_of_fmap in Hid as (e & -> & He).
  apply list_elem_of_lookup_1 in He as [i Hi].
  apply elem_of_dom. exists (en_node e). apply (tr_map _ _ _ R). eexists. by apply Hcell.
Qed.

Lemma empty_slot (t : FixedOrderIndex) (n : Z) (m : gmap Z Z) :
  table_repr t n m -> exists e, 0 <= e < capacity t /\ cell t e = None.
Proof.
  intros R. pose proof (wf_bound _ _ (tr_wf _ _ _ R)).
  destruct (decide (Forall (fun e => is_occupied e = true) (entries t))) as [Hall|Hex].
  { pose proof (full_table_size _ _ _ R Hall). pose proof (tr_size _ _ _ R).
    pose proof (tr_load _ _ _ R). lia. }
  apply not_Forall_Exists, Exists_exists in Hex as (e & He & Ho); [|apply _].
  apply list_elem_of_In, list_elem_of_lookup_1 in He as [i Hi].
  pose proof (lookup_lt_Some _ _ _ Hi).
  exists (Z.of_nat i). unfold capacity, vsize. split; [lia|].
  unfold cell, vlook. case_match; [|done]. simplify_eq.
  case_match; [|done]. case_match; [|done]. rewrite Nat2Z.id in *. congruence.
Qed.

Lemma holds_path (t : FixedOrderIndex) (n : Z) (m : gmap Z Z) (i id node : Z) :
  table_repr t n m -> cell t i = Some (id, node) ->
  steps (capacity t) (first_slot t id) i < Z.of_nat (length (entries t)) /\
  forall j, between (capacity t) (first_slot t id) j i ->
    exists id' node', cell t j = Some (id', node') /\ id' <> id.
Proof.
  intros R Hi. pose proof (tr_wf _ _ _ R) as Hwf.
  pose proof (cell_range Hwf i ltac:(congruence)). pose proof (first_slot_range Hwf id).
  split; [unfold capacity, vsize in *; cyc|]. intros j Hj.
  destruct (cell t j) as [[id' node']|] eqn:Ej.
  - exists id', node'. split; [done|]. intros ->.
    pose proof (tr_unique _ _ _ R _ _ _ _ _ Hi Ej). cyc.
  - exfalso. by apply (tr_chained _ _ _ R _ _ _ Hi j Hj).
Qed.

Lemma absent_cells (t : FixedOrderIndex) (n : Z) (m : gmap Z Z) (id : Z) :
  table_repr t n m -> m !! id = None -> forall i node, cell t i <> Some (id, node).
Proof.
  intros R Hm i node Hi. assert (m !! id = Some node); [|congruence].
  apply (tr_map _ _ _ R). by exists i.
Qed.

Lemma find_ok (t : FixedOrderIndex) (n : Z) (m : gmap Z Z) (id : Z) :
  table_repr t n m -> find t id = Ok (m !! id).
Proof.
  intros R. pose proof (tr_wf _ _ _ R) as Hwf. unfold find.
  pose proof (first_slot_range Hwf id).
  destruct (m !! id) as [node|] eqn:Em.
  - apply (tr_map _ _ _ R) in Em as [i Hi]. destruct (holds_path _ _ _ _ _ _ R Hi).
    by eapply (find_loop_hit Hwf).
  - apply (find_loop_miss Hwf); [done|]. by eapply absent_cells.
Qed.

Lemma insert_ok (t : FixedOrderIndex) (n : Z) (m : gmap Z Z) (id node : Z) :
  table_repr t n m -> m !! id = None -> Z.of_nat (size m) < n ->
  exists t', insert t id node = Ok (t', true) /\ table_repr t' n (<[id := node]> m).
Proof.
  intros R Hm Hn. pose proof (tr_wf _ _ _ R) as Hwf.
  destruct (empty_slot _ _ _ R) as (e & Her & He). pose proof (first_slot_range Hwf id).
  destruct (insert_loop_fresh Hwf (length (entries t)) id node (first_slot t id) e)
    as (f & t' & Hok & Hf & Hfe & _ & Hp & Hwf' & Hmask & Hc); auto.
  { unfold capacity, vsize in *. cyc. }
  { by eapply absent_cells. }
  exists t'. split; [done|].
  assert (Hcap : capacity t' = capacity t) by apply (wf_size _ _ Hwf').
  assert (Hfs : forall k, first_slot t' k = first_slot t k) by (intros; by apply first_slot_mask).
  constructor; rewrite ?Hcap.
  - done.
  - apply R.
  - rewrite map_size_insert_None by done. lia.
  - intros i k v Hi j Hj. rewrite Hfs in Hj. rewrite Hc in Hi |- *.
    destruct (decide (f = j)); [done|]. destruct (decide (f = i)); simplify_eq; [by apply Hp|].
    by eapply (tr_chained _ _ _ R).
  - intros i i' k v v'. rewrite !Hc. repeat case_decide; intros; simplify_eq; auto.
    + by edestruct (absent_cells _ _ _ _ R Hm).
    + by edestruct (absent_cells _ _ _ _ R Hm).
    + by eapply (tr_unique _ _ _ R).
  - intros k v. rewrite lookup_insert_Some, (tr_map _ _ _ R). split.
    + intros [[<- <-]|[Hne [i Hi]]].
      * exists f. rewrite Hc. by case_decide.
      * exists i. rewrite Hc. case_decide; [congruence|done].
    + intros [i Hi]. rewrite Hc in Hi. case_decide; simplify_eq; [by left|].
      right. split; [|by exists i]. intros <-. by edestruct (absent_cells _ _ _ _ R Hm).
Qed.

Lemma insert_dup (t : FixedOrderIndex) (n : Z) (m : gmap Z Z) (id node : Z) :
  table_repr t n m -> is_Some (m !! id) -> insert t id node = Ok (t, false).
Proof.
  intros R [v Hm]. pose proof (tr_wf _ _ _ R) as Hwf.
  apply (tr_map _ _ _ R) in Hm as [i Hi].
  eapply (insert_loop_hit Hwf); [by apply first_slot_range|done|].
  intros j Hj. by eapply (tr_chained _ _ _ R).
Qed.

Lemma erase_loop_hit (t : FixedOrderIndex) (c : Z) (probes : nat) (id node slot i : Z) :
  table_wf t c -> 0 <= slot < c -> steps c slot i < Z.of_nat probes ->
  cell t i = Some (id, node) ->
  (forall j, between c slot j i -> exists id' node', cell t j = Some (id', node') /\ id' <> id) ->
  erase_loop probes t id slot =
    (t' ← put_entry t i Entry_zero;
     t' ← repair_loop (length (entries t')) t' (next_slot t' i);
     Ok (t', true)).
Proof.
  intros Hwf. revert slot. induction probes as [|probes IH]; intros slot Hs Hst Hi Hpath.
  { pose proof (cell_range Hwf i ltac:(congruence)). cyc. }
  destruct (entry_at Hwf slot Hs) as (e & He & Hc). cbn [erase_loop]. run.
  pose proof (cell_range Hwf i ltac:(congruence)) as Hir.
  destruct (decide (slot = i)) as [->|Hne].
  - rewrite Hi in Hc. destruct (is_occupied e) eqn:Eo; simplify_eq.
    cbn [negb andb]. by rewrite Z.eqb_refl.
  - destruct (Hpath slot) as (id' & node' & Hsl & Hid); [cyc|].
    rewrite Hsl in Hc. destruct (is_occupied e) eqn:Eo; simplify_eq. cbn [negb andb].
    destruct (Z.eqb_spec (en_id e) id); [done|].
    rewrite (next_slot_succ Hwf) by done. apply IH; auto using succ_slot_range; [cyc|].
    intros j Hj. apply Hpath. cyc.
Qed.

Lemma erase_loop_miss (t : FixedOrderIndex) (c : Z) (probes : nat) (id slot : Z) :
  table_wf t c -> 0 <= slot < c -> (forall i node, cell t i <> Some (id, node)) ->
  erase_loop probes t id slot = Ok (t, false).
Proof.
  intros Hwf Hs Habs. revert slot Hs.
  induction probes as [|probes IH]; intros slot Hs; [done|].
  destruct (entry_at Hwf slot Hs) as (e & He & Hc). cbn [erase_loop]. run.
  destruct (is_occupied e) eqn:Eo; [|done]. cbn.
  destruct (Z.eqb_spec (en_id e) id) as [<-|]; [by destruct (Habs slot (en_node e))|].
  rewrite (next_slot_succ Hwf) by done. by apply IH, succ_slot_range.
Qed.

(** When the repair reaches the end of the cluster the table is whole again. *)
Lemma repaired_repr (t0 t : FixedOrderIndex) (n : Z) (m : gmap Z Z) (s e id0 : Z) :
  table_repr t0 n m -> is_Some (m !! id0) ->
  repairing (capacity t0) t0 s e id0 t e -> table_repr t n (delete id0 m).
Proof.
  intros R [v0 Hv0] P.
  assert (Hcap : capacity t = capacity t0) by apply (wf_size _ _ (rp_wf _ _ _ _ _ _ _ P)).
  constructor; rewrite ?Hcap.
  - apply P.
  - apply R.
  - rewrite map_size_delete_Some by done. pose proof (tr_size _ _ _ R). lia.
  - intros i k v Hi j Hj. rewrite (first_slot_mask (t:=t0)) in Hj by apply P.
    eapply (rp_chained _ _ _ _ _ _ _ P); [done| |done]. cyc.
  - apply P.
  - intros k v. rewrite lookup_delete_Some, (tr_map _ _ _ R), (rp_holds _ _ _ _ _ _ _ P).
    naive_solver.
Qed.

Lemma erase_ok (t : FixedOrderIndex) (n : Z) (m : gmap Z Z) (id : Z) :
  table_repr t n m -> is_Some (m !! id) ->
  exists t', erase t id = Ok (t', true) /\ table_repr t' n (delete id m).
Proof.
  intros R [node Hm]. pose proof (tr_wf _ _ _ R) as Hwf.
  pose proof Hm as Hm'. apply (tr_map _ _ _ R) in Hm' as [i Hi].
  pose proof (cell_range Hwf i ltac:(congruence)) as Hir.
  destruct (empty_slot _ _ _ R) as (e' & He'r & He').
  destruct (first_empty t _ e' (Z.to_nat (capacity t)) i Hwf Hir He'r He')
    as (e & Her & He & Hcl); [cyc|].
  destruct (holds_path _ _ _ _ _ _ R Hi) as [Hst Hpath].
  unfold erase. rewrite (erase_loop_hit _ _ _ _ _ _ _ Hwf (first_slot_range Hwf id) Hst Hi Hpath).
  destruct (put_entry_ok Hwf i Entry_zero Hir) as (t1 & Ht1 & Hwf1 & _). run.
  pose proof (repairing_start _ t i e id node Hwf (tr_chained _ _ _ R) (tr_unique _ _ _ R)
                Hi He Her t1 Ht1) as P.
  destruct (repair_loop_ok _ t i e id node Hwf (tr_chained _ _ _ R) Hi He Her Hcl
              (length (entries t1)) t1 (succ_slot (capacity t) i) P) as (t' & Hrep & P').
  { by apply succ_slot_range. }
  { pose proof (wf_size _ _ Hwf1). unfold vsize in *.
    assert (0 <= succ_slot (capacity t) i < capacity t) by by apply succ_slot_range.
    unfold steps. case_match; lia. }
  rewrite (next_slot_succ Hwf1) by done. run. exists t'. split; [done|].
  by eapply repaired_repr.
Qed.

Lemma erase_absent (t : FixedOrderIndex) (n : Z) (m : gmap Z Z) (id : Z) :
  table_repr t n m -> m !! id = None -> erase t id = Ok (t, false).
Proof.
  intros R Hm. pose proof (tr_wf _ _ _ R) as Hwf.
  apply (erase_loop_miss _ _ _ _ _ Hwf); [by apply first_slot_range|]. by eapply absent_cells.
Qed.

Lemma make_index_ok (n : Z) : 0 < n <= largest_safe_request ->
  exists t, make_index n = Ok t /\ table_repr t n ∅.
Proof.
  intros Hn. unfold largest_safe_request in Hn. unfold make_index, table_capacity.
  destruct (Z.eqb_spec n 0); [lia|].
  destruct (Z.ltb_spec largest_safe_request n); [unfold largest_safe_request in *; lia|].
  cbn [orb]. rewrite u64_small by intlia.
  destruct (bit_ceil_spec (n * 2)) as (k & Hk & Hb & Hle); [lia|]. rewrite Hb. cbn.
  set (t := MkIndex _ _).
  assert (Hcell : forall i, cell t i = None).
  { intros i. unfold cell. destruct ((entries t).[i]) eqn:E; [|done].
    apply vlook_elem_of, elem_of_replicate_inv in E. by subst. }
  assert (Hsize : vsize (entries t) = 2 ^ k).
  { unfold vsize, t; cbn [entries]. rewrite length_replicate. lia. }
  assert (2 ^ k <= 2 ^ 63).
  { destruct (Z_le_gt_dec k 63); [by apply Z.pow_le_mono_r; lia|].
    assert (2 ^ 64 <= 2 ^ k) by (apply Z.pow_le_mono_r; lia). lia. }
  exists t. split; [done|]. constructor; unfold capacity; rewrite ?Hsize.
  - constructor; [done|done|lia|by exists k].
  - lia.
  - rewrite map_size_empty. lia.
  - intros i id node Hi. by rewrite Hcell in Hi.
  - intros i i' id node node' Hi. by rewrite Hcell in Hi.
  - intros id node. rewrite lookup_empty. split; [done|]. intros [i Hi]. by rewrite Hcell in Hi.
Qed.

#[export] Instance fixed_index_laws : OrderIndexLaws FixedOrderIndex := {
  index_repr := table_repr;
  index_make_ok := make_index_ok;
  index_repr_size := tr_size;
  index_find_ok := find_ok;
  index_insert_ok := insert_ok;
  index_insert_dup := insert_dup;
  index_erase_ok := erase_ok;
  index_erase_absent := erase_absent
}.
