(* ===== verification/Bitmap.v ===== *)
(** * Bitmap: the active-price bitmaps of the book
      (src/order_book.cpp, [set_active], [clear_active], [best_index])

    A bitmap is a vector of 64-bit words; bit [i mod 64] of word [i / 64]
    tells whether price level [i] holds an order.  The lemmas characterise
    every operation through [active], the bit of a level. *)
From stdpp Require Import base list numbers.
From Stdlib Require Import ZArith Lia.
From S2P Require Import Prelude Types.
Local Open Scope Z_scope.

Definition no_price : Z := u64_max.

(** [std::countr_zero] and [std::countl_zero] on 64-bit words. *)
Fixpoint trailing_zeros (p : positive) : Z :=
  match p with xO p => 1 + trailing_zeros p | _ => 0 end.
Definition countr_zero (w : Z) : Z :=
  match w with Zpos p => trailing_zeros p | _ => 64 end.
Definition countl_zero (w : Z) : Z := if w =? 0 then 64 else 63 - Z.log2 w.

(** Bodies of [set_active] and [clear_active] on the side's word vector. *)
Definition set_bit (bits : list Z) (index : Z) : result (list Z) :=
  word ← vget bits (index / 64);
  vset bits (index / 64) (Z.lor word (u64 (Z.shiftl 1 (index mod 64)))).

Definition clear_bit (bits : list Z) (index : Z) : result (list Z) :=
  word ← vget bits (index / 64);
  vset bits (index / 64) (Z.land word (u64 (Z.lnot (u64 (Z.shiftl 1 (index mod 64)))))).

(** The two scans of [best_index]: words from the low end, words from the
    high end. *)
Fixpoint lowest_bit (bits : list Z) (word : Z) : Z :=
  match bits with
  | [] => no_price
  | w :: bits =>
    if negb (w =? 0) then word * 64 + countr_zero w else lowest_bit bits (word + 1)
  end.

Fixpoint highest_bit (bits : list Z) (word : nat) : Z :=
  match word with
  | O => no_price
  | S word =>
    let w := nth word bits 0 in
    if negb (w =? 0) then Z.of_nat word * 64 + (63 - countl_zero w)
    else highest_bit bits word
  end.

Definition best_bit (side : Side) (bits : list Z) : Z :=
  match side with
  | Sell => lowest_bit bits 0
  | Buy => highest_bit bits (length bits)
  end.

(** ** Specification *)

Definition active (bits : list Z) (i : Z) : bool :=
  match bits.[i / 64] with Some w => Z.testbit w (i mod 64) | None => false end.

Definition words_ok (bits : list Z) : Prop := Forall is_u64 bits.

(** [better side i j]: level [i] is preferred to [j] on [side]. *)
Definition better (side : Side) (i j : Z) : Prop :=
  match side with Buy => j < i | Sell => i < j end.

(** The index [best_index] promises: the preferred active level, or
    [no_price]. *)
Definition is_best (side : Side) (bits : list Z) (r : Z) : Prop :=
  (r = no_price /\ forall i, 0 <= i -> active bits i = false) \/
  (0 <= r < 64 * vsize bits /\ active bits r = true /\
   forall i, 0 <= i -> active bits i = true -> i = r \/ better side r i).

(** ** Words *)

Lemma trailing_zeros_spec (p : positive) : 0 <= trailing_zeros p /\
  Z.testbit (Zpos p) (trailing_zeros p) = true /\
  forall j, 0 <= j < trailing_zeros p -> Z.testbit (Zpos p) j = false.
Proof.
  induction p as [p _|p [H0 [H1 H2]]|]; cbn [trailing_zeros].
  - split_and!; [lia|done|lia].
  - split_and!; [lia| |].
    + rewrite Pos2Z.inj_xO, Z.add_1_l, Z.double_bits_succ. done.
    + intros j Hj. rewrite Pos2Z.inj_xO.
      destruct (decide (j = 0)) as [->|]; [by rewrite Z.testbit_even_0|].
      replace j with (Z.succ (j - 1)) by lia. rewrite Z.double_bits_succ. apply H2. lia.
  - split_and!; [lia|done|lia].
Qed.

Lemma word_bit_bound (w j : Z) : is_u64 w -> 0 <= j -> Z.testbit w j = true -> j < 64.
Proof.
  intros Hw Hj Hb. destruct (Z_lt_le_dec j 64); [done|]. exfalso.
  rewrite Z.bits_above_log2 in Hb; [done|intlia|].
  destruct (decide (w = 0)) as [->|]; [cbn; lia|].
  assert (Z.log2 w < 64); [|lia]. apply Z.log2_lt_pow2; [|change (2^64) with 18446744073709551616]; intlia.
Qed.

Lemma word_countr (w : Z) : is_u64 w -> w <> 0 ->
  0 <= countr_zero w < 64 /\ Z.testbit w (countr_zero w) = true /\
  forall j, 0 <= j < countr_zero w -> Z.testbit w j = false.
Proof.
  intros Hw Hne. destruct w as [|p|p]; [done| |intlia].
  cbn [countr_zero]. destruct (trailing_zeros_spec p) as (H0 & H1 & H2).
  split_and!; auto. by eapply word_bit_bound.
Qed.

Lemma word_countl (w : Z) : is_u64 w -> w <> 0 ->
  let b := 63 - countl_zero w in
  0 <= b < 64 /\ Z.testbit w b = true /\ forall j, b < j -> Z.testbit w j = false.
Proof.
  intros Hw Hne. unfold countl_zero. destruct (Z.eqb_spec w 0); [done|].
  replace (63 - (63 - Z.log2 w)) with (Z.log2 w) by lia. cbn zeta.
  assert (Hb : Z.testbit w (Z.log2 w) = true) by (apply Z.bit_log2; intlia).
  pose proof (Z.log2_nonneg w). pose proof (word_bit_bound w _ Hw ltac:(done) Hb).
  split_and!; auto; try lia. intros j Hj. apply Z.bits_above_log2; intlia.
Qed.

Lemma word_zero_bits (w : Z) : is_u64 w -> (forall j, 0 <= j < 64 -> Z.testbit w j = false) -> w = 0.
Proof.
  intros Hw H. apply Z.bits_inj'. intros j Hj. rewrite Z.bits_0.
  destruct (Z.testbit w j) eqn:E; [|done].
  rewrite <- E. apply H. split; [done|]. by eapply word_bit_bound.
Qed.

Lemma pow2_word (k : Z) : 0 <= k < 64 -> is_u64 (Z.shiftl 1 k).
Proof.
  intros Hk. rewrite Z.shiftl_1_l.
  assert (0 < 2 ^ k < 2 ^ 64) by (split; [lia|]; apply Z.pow_lt_mono_r; lia). intlia.
Qed.

Lemma u64_testbit (z j : Z) : 0 <= j -> Z.testbit (u64 z) j = (j <? 64) && Z.testbit z j.
Proof.
  intros Hj. unfold u64. change 18446744073709551616 with (2 ^ 64).
  destruct (Z.ltb_spec j 64).
  - by rewrite Z.mod_pow2_bits_low by lia.
  - by rewrite Z.mod_pow2_bits_high by lia.
Qed.

Lemma one_bit (k j : Z) : 0 <= k -> 0 <= j -> Z.testbit (Z.shiftl 1 k) j = (k =? j).
Proof.
  intros Hk Hj. rewrite Z.shiftl_1_l. destruct (Z.eqb_spec k j) as [->|].
  - by apply Z.pow2_bits_true.
  - by apply Z.pow2_bits_false.
Qed.

Lemma word_range_intro (w : Z) : 0 <= w -> (forall j, 64 <= j -> Z.testbit w j = false) -> is_u64 w.
Proof.
  intros Hw H. assert (u64 w = w) as <-; [|apply u64_range].
  apply Z.bits_inj'. intros j Hj. rewrite u64_testbit by done.
  destruct (Z.ltb_spec j 64); [done|]. symmetry. by apply H.
Qed.

Lemma u64_testbit_high (w j : Z) : is_u64 w -> 64 <= j -> Z.testbit w j = false.
Proof.
  intros Hw Hj. destruct (Z.testbit w j) eqn:E; [|done].
  pose proof (word_bit_bound w j Hw ltac:(lia) E). lia.
Qed.

(** ** Setting and clearing a level's bit *)

Section Update.
Context (bits : list Z) (i : Z) (Hw : words_ok bits) (Hi : 0 <= i < 64 * vsize bits).

Lemma word_index : 0 <= i / 64 < vsize bits /\ 0 <= i mod 64 < 64.
Proof. split; [|apply Z.mod_pos_bound; lia]. split; [apply Z.div_pos|apply Z.div_lt_upper_bound]; lia. Qed.

Lemma word_lookup : exists w, bits.[i / 64] = Some w /\ is_u64 w.
Proof.
  destruct (vlook_lt_is_Some bits (i / 64)) as [w E]; [apply word_index|].
  exists w. split; [done|]. eapply Forall_forall; [exact Hw|].
  apply list_elem_of_In. by eapply vlook_elem_of.
Qed.

(** Writing a word changes exactly the bits of that word. *)
Lemma active_write (w : Z) (j : Z) : 0 <= j ->
  active (bits.[i / 64 := w]) j =
    if i / 64 =? j / 64 then Z.testbit w (j mod 64) else active bits j.
Proof.
  intros Hj. destruct word_index. unfold active. rewrite vlook_vupd by done.
  case_decide as E; destruct (Z.eqb_spec (i / 64) (j / 64)); congruence || done.
Qed.

Lemma words_write (w : Z) : is_u64 w -> words_ok (bits.[i / 64 := w]).
Proof.
  intros Hw'. unfold words_ok, vupd. case_match; [|done]. by apply Forall_insert.
Qed.

Lemma same_word_same_bit (j : Z) : i / 64 = j / 64 -> (i mod 64 =? j mod 64) = (i =? j).
Proof.
  intros E. pose proof (Z.div_mod i 64). pose proof (Z.div_mod j 64).
  destruct (Z.eqb_spec i j), (Z.eqb_spec (i mod 64) (j mod 64)); subst; lia.
Qed.

Lemma set_bit_ok : exists bits', set_bit bits i = Ok bits' /\ words_ok bits' /\
  vsize bits' = vsize bits /\ forall j, 0 <= j -> active bits' j = (i =? j) || active bits j.
Proof.
  destruct word_index as [Hd Hm], word_lookup as (w & Hl & Hwd).
  unfold set_bit. rewrite (vget_ok _ _ _ Hl). cbn [mbind result_bind].
  rewrite vset_ok by done. rewrite u64_small by (apply pow2_word; lia).
  eexists; split; [done|]. split_and!; [|apply vsize_vupd|].
  - apply words_write, word_range_intro.
    + apply Z.lor_nonneg. pose proof (pow2_word _ Hm). intlia.
    + intros j Hj. rewrite Z.lor_spec, one_bit, u64_testbit_high by (done || lia).
      destruct (Z.eqb_spec (i mod 64) j); [lia|done].
  - intros j Hj. rewrite active_write by done.
    destruct (Z.eqb_spec (i / 64) (j / 64)) as [E|E].
    + assert (0 <= j mod 64) by (apply Z.mod_pos_bound; lia).
      rewrite Z.lor_spec, one_bit by lia. rewrite same_word_same_bit by done.
      unfold active. rewrite <- E, Hl. apply orb_comm.
    + destruct (Z.eqb_spec i j); [congruence|done].
Qed.

Lemma clear_bit_ok : exists bits', clear_bit bits i = Ok bits' /\ words_ok bits' /\
  vsize bits' = vsize bits /\
  forall j, 0 <= j -> active bits' j = negb (i =? j) && active bits j.
Proof.
  destruct word_index as [Hd Hm], word_lookup as (w & Hl & Hwd).
  unfold clear_bit. rewrite (vget_ok _ _ _ Hl). cbn [mbind result_bind].
  rewrite vset_ok by done. rewrite (u64_small (Z.shiftl _ _)) by (apply pow2_word; lia).
  set (m := u64 (Z.lnot _)). assert (Hmr : is_u64 m) by apply u64_range.
  eexists; split; [done|]. split_and!; [|apply vsize_vupd|].
  - apply words_write, word_range_intro.
    + apply Z.land_nonneg. left. intlia.
    + intros j Hj. by rewrite Z.land_spec, (u64_testbit_high w).
  - intros j Hj. rewrite active_write by done.
    destruct (Z.eqb_spec (i / 64) (j / 64)) as [E|E].
    + pose proof (Z.mod_pos_bound j 64).
      rewrite Z.land_spec. unfold m. rewrite u64_testbit, Z.lnot_spec, one_bit by lia.
      rewrite same_word_same_bit by done.
      destruct (Z.ltb_spec (j mod 64) 64); [|lia]. cbn [andb].
      unfold active. rewrite <- E, Hl. apply andb_comm.
    + destruct (Z.eqb_spec i j); [congruence|done].
Qed.
End Update.

(** ** The best level *)

Lemma active_range (bits : list Z) (i : Z) : 0 <= i -> active bits i = true ->
  i < 64 * vsize bits.
Proof.
  intros Hi. unfold active. case_match eqn:E; [|done]. intros _.
  apply vlook_Some_lt in E. pose proof (Z.div_mod i 64). pose proof (Z.mod_pos_bound i 64). lia.
Qed.

Lemma active_word (bits : list Z) (k : nat) (b : Z) (w : Z) : 0 <= b < 64 ->
  bits !! k = Some w -> active bits (Z.of_nat k * 64 + b) = Z.testbit w b.
Proof.
  intros Hb Hk. unfold active.
  replace ((Z.of_nat k * 64 + b) / 64) with (Z.of_nat k) by (rewrite Z.div_add_l, Z.div_small by lia; lia).
  replace ((Z.of_nat k * 64 + b) mod 64) with b
    by (rewrite Z.add_comm, Z_mod_plus_full, Z.mod_small by lia; lia).
  pose proof (lookup_lt_Some _ _ _ Hk). unfold vlook, in_range. rewrite Nat2Z.id, Hk.
  destruct (Z.leb_spec 0 (Z.of_nat k)); [|lia].
  by destruct (Z.ltb_spec (Z.of_nat k) (Z.of_nat (length bits))); [|lia].
Qed.

(** Every nonnegative index is bit [b] of word [k]. *)
Lemma index_split (i : Z) : 0 <= i -> exists (k : nat) b, 0 <= b < 64 /\ i = Z.of_nat k * 64 + b.
Proof.
  intros Hi. exists (Z.to_nat (i / 64)), (i mod 64).
  pose proof (Z.mod_pos_bound i 64). pose proof (Z.div_mod i 64).
  assert (0 <= i / 64) by (apply Z.div_pos; lia). split; lia.
Qed.

Lemma active_split (bits : list Z) (i : Z) : 0 <= i -> active bits i = true ->
  exists (k : nat) b w, 0 <= b < 64 /\ i = Z.of_nat k * 64 + b /\ bits !! k = Some w /\
    Z.testbit w b = true.
Proof.
  intros Hi Ha. destruct (index_split i Hi) as (k & b & Hb & ->).
  pose proof (active_range _ _ Hi Ha) as Hr. unfold vsize in Hr.
  destruct (lookup_lt_is_Some_2 bits k) as [w Hw]; [lia|].
  rewrite (active_word _ _ _ _ Hb Hw) in Ha. by exists k, b, w.
Qed.

(** Words before [done] are zero: the scan from the low end. *)
Lemma lowest_bit_ok (pre post : list Z) : words_ok post -> Forall (fun w => w = 0) pre ->
  is_best Sell (pre ++ post) (lowest_bit post (Z.of_nat (length pre))).
Proof.
  revert pre. induction post as [|w post IH]; intros pre Hok Hpre; cbn [lowest_bit].
  - left. split; [done|]. intros i Hi. rewrite app_nil_r.
    destruct (active pre i) eqn:E; [|done].
    apply active_split in E as (k & b & w & Hb & -> & Hw & Ht); [|done].
    rewrite (Forall_lookup_1 _ _ _ _ Hpre Hw), Z.bits_0 in Ht. done.
  - apply Forall_cons_1 in Hok as [Hw Hok]. destruct (Z.eqb_spec w 0) as [->|Hne]; cbn [negb].
    + specialize (IH (pre ++ [0]) Hok). rewrite <- app_assoc, length_app in IH.
      cbn [length app] in IH. rewrite Nat2Z.inj_add in IH. apply IH.
      by apply Forall_app_2; [|by constructor].
    + right. destruct (word_countr w Hw Hne) as (Hb & Ht & Hlow).
      assert (Hl : (pre ++ w :: post) !! length pre = Some w) by by apply list_lookup_middle.
      pose proof (lookup_lt_Some _ _ _ Hl). split; [unfold vsize; lia|].
      rewrite (active_word _ _ _ _ Hb Hl). split; [done|]. intros i Hi Ha.
      apply active_split in Ha as (k & b & w' & Hb' & -> & Hw' & Ht'); [|done]. cbn [better].
      destruct (decide (k < length pre)%nat).
      { rewrite lookup_app_l in Hw' by done.
        rewrite (Forall_lookup_1 _ _ _ _ Hpre Hw'), Z.bits_0 in Ht'. done. }
      destruct (decide (k = length pre)) as [->|]; [|lia]. simplify_eq.
      destruct (Z_lt_le_dec b (countr_zero w)); [|lia]. by rewrite Hlow in Ht' by lia.
Qed.

Lemma highest_bit_ok (bits : list Z) (word : nat) : words_ok bits -> (word <= length bits)%nat ->
  Forall (fun w => w = 0) (drop word bits) -> is_best Buy bits (highest_bit bits word).
Proof.
  intros Hok. induction word as [|word IH]; intros Hle Hz; cbn [highest_bit].
  - left. split; [done|]. intros i Hi. rewrite drop_0 in Hz.
    destruct (active bits i) eqn:E; [|done].
    apply active_split in E as (k & b & w & Hb & -> & Hw & Ht); [|done].
    rewrite (Forall_lookup_1 _ _ _ _ Hz Hw), Z.bits_0 in Ht. done.
  - destruct (lookup_lt_is_Some_2 bits word) as [w Hl]; [lia|].
    rewrite (nth_lookup_Some _ _ _ _ Hl : nth word bits 0 = w).
    assert (Hw : is_u64 w) by by eapply Forall_lookup_1.
    destruct (Z.eqb_spec w 0) as [->|Hne]; cbn [negb].
    + apply IH; [lia|]. erewrite drop_S by done. by constructor.
    + right. destruct (word_countl w Hw Hne) as (Hb & Ht & Hhigh).
      split; [unfold vsize; lia|]. rewrite (active_word _ _ _ _ Hb Hl). split; [done|].
      intros i Hi Ha.
      apply active_split in Ha as (k & b & w' & Hb' & -> & Hw' & Ht'); [|done]. cbn [better].
      destruct (decide (S word <= k)%nat).
      { assert (Hd : drop (S word) bits !! (k - S word)%nat = Some w')
          by (rewrite lookup_drop; replace (S word + (k - S word))%nat with k by lia; done).
        rewrite (Forall_lookup_1 _ _ _ _ Hz Hd), Z.bits_0 in Ht'. done. }
      destruct (decide (k = word)) as [->|]; [|lia]. simplify_eq.
      destruct (Z_lt_le_dec (63 - countl_zero w) b); [|lia]. by rewrite Hhigh in Ht'.
Qed.

Lemma best_bit_ok (side : Side) (bits : list Z) : words_ok bits ->
  is_best side bits (best_bit side bits).
Proof.
  intros Hok. destruct side; cbn [best_bit].
  - apply highest_bit_ok; [done|lia|]. by rewrite drop_all.
  - by apply (lowest_bit_ok [] bits).
Qed.
