(* ===== verification/OrderBook.v ===== *)
(** * OrderBook: the matching engine
      (include/dme/order_book.hpp, src/order_book.cpp)

    The record [OrderBook] has the members of the class; every method is one
    definition that threads the book and the caller's event vector.  Vector
    accesses, signed arithmetic and exceptions are explicit in [result].
    [free_nodes_] is kept as the list read from the vector's back, so [back],
    [pop_back] and [push_back] act on its head. *)
From stdpp Require Import base list numbers sorting.
From Stdlib Require Import ZArith Lia.
From S2P Require Import Prelude Types OrderIndex Bitmap.
Local Open Scope Z_scope.

Record BookConfig : Set := MkConfig {
  minimum_price : Z;
  maximum_price : Z;
  tick_size : Z;
  maximum_orders : Z }.

Record BookStats : Set := MkStats {
  last_sequence : Z;
  commands : Z;
  trades : Z;
  rejected : Z;
  resting_count : Z  (* resting_orders *) }.

Record RestingOrder : Set := MkResting {
  ro_id : Z;
  ro_side : Side;
  ro_price : Z;
  ro_quantity : Z;
  ro_priority : Z }.

Definition invalid_node : Z := u32_max.

Record OrderNode : Set := MkNode {
  n_id : Z;
  n_price : Z;
  n_remaining : Z;
  n_priority : Z;
  n_previous : Z;
  n_next : Z;
  n_side : Side }.

Record PriceLevel : Set := MkLevel {
  total_quantity : Z;
  l_head : Z;
  l_tail : Z;
  l_count : Z }.

Definition OrderNode_zero : OrderNode := MkNode 0 0 0 0 invalid_node invalid_node Buy.
Definition PriceLevel_zero : PriceLevel := MkLevel 0 invalid_node invalid_node 0.
Definition BookStats_zero : BookStats := MkStats 0 0 0 0 0.

#[export] Instance RestingOrder_eq_dec : EqDecision RestingOrder.
Proof. solve_decision. Defined.

Record OrderBook (I : Type) : Type := MkBook {
  config : BookConfig;
  price_count : Z;
  bids : list PriceLevel;
  asks : list PriceLevel;
  bid_bits : list Z;
  ask_bits : list Z;
  nodes : list OrderNode;
  free_nodes : list Z;
  order_index : I;
  stats : BookStats }.
Arguments MkBook {I}.
Arguments config {I}. Arguments price_count {I}. Arguments bids {I}. Arguments asks {I}.
Arguments bid_bits {I}. Arguments ask_bits {I}. Arguments nodes {I}. Arguments free_nodes {I}.
Arguments order_index {I}. Arguments stats {I}.

(** ** Assignments to members *)

Section Setters.
Context {I : Type} (b : OrderBook I).

Definition set_bids x := MkBook (config b) (price_count b) x (asks b) (bid_bits b) (ask_bits b)
  (nodes b) (free_nodes b) (order_index b) (stats b).
Definition set_asks x := MkBook (config b) (price_count b) (bids b) x (bid_bits b) (ask_bits b)
  (nodes b) (free_nodes b) (order_index b) (stats b).
Definition set_bid_bits x := MkBook (config b) (price_count b) (bids b) (asks b) x (ask_bits b)
  (nodes b) (free_nodes b) (order_index b) (stats b).
Definition set_ask_bits x := MkBook (config b) (price_count b) (bids b) (asks b) (bid_bits b) x
  (nodes b) (free_nodes b) (order_index b) (stats b).
Definition set_nodes x := MkBook (config b) (price_count b) (bids b) (asks b) (bid_bits b)
  (ask_bits b) x (free_nodes b) (order_index b) (stats b).
Definition set_free_nodes x := MkBook (config b) (price_count b) (bids b) (asks b) (bid_bits b)
  (ask_bits b) (nodes b) x (order_index b) (stats b).
Definition set_order_index (x : I) := MkBook (config b) (price_count b) (bids b) (asks b) (bid_bits b)
  (ask_bits b) (nodes b) (free_nodes b) x (stats b).
Definition set_stats x := MkBook (config b) (price_count b) (bids b) (asks b) (bid_bits b)
  (ask_bits b) (nodes b) (free_nodes b) (order_index b) x.

(** [side == Side::Buy ? bids_ : asks_], and the same for the bitmaps. *)
Definition levels (side : Side) : list PriceLevel :=
  match side with Buy => bids b | Sell => asks b end.
Definition set_levels (side : Side) (x : list PriceLevel) : OrderBook I :=
  match side with Buy => set_bids x | Sell => set_asks x end.
Definition side_bits (side : Side) : list Z :=
  match side with Buy => bid_bits b | Sell => ask_bits b end.
Definition set_side_bits (side : Side) (x : list Z) : OrderBook I :=
  match side with Buy => set_bid_bits x | Sell => set_ask_bits x end.
End Setters.

Definition set_last_sequence (s : BookStats) (x : Z) : BookStats :=
  MkStats x (commands s) (trades s) (rejected s) (resting_count s).
Definition inc_commands (s : BookStats) : BookStats :=
  MkStats (last_sequence s) (u64 (commands s + 1)) (trades s) (rejected s) (resting_count s).
Definition inc_trades (s : BookStats) : BookStats :=
  MkStats (last_sequence s) (commands s) (u64 (trades s + 1)) (rejected s) (resting_count s).
Definition inc_rejected (s : BookStats) : BookStats :=
  MkStats (last_sequence s) (commands s) (trades s) (u64 (rejected s + 1)) (resting_count s).
Definition add_resting_count (s : BookStats) (d : Z) : BookStats :=
  MkStats (last_sequence s) (commands s) (trades s) (rejected s) (u64 (resting_count s + d)).

Definition set_remaining (n : OrderNode) (x : Z) : OrderNode :=
  MkNode (n_id n) (n_price n) x (n_priority n) (n_previous n) (n_next n) (n_side n).
Definition set_previous (n : OrderNode) (x : Z) : OrderNode :=
  MkNode (n_id n) (n_price n) (n_remaining n) (n_priority n) x (n_next n) (n_side n).
Definition set_next (n : OrderNode) (x : Z) : OrderNode :=
  MkNode (n_id n) (n_price n) (n_remaining n) (n_priority n) (n_previous n) x (n_side n).

Definition set_total (l : PriceLevel) (x : Z) : PriceLevel :=
  MkLevel x (l_head l) (l_tail l) (l_count l).
Definition set_head (l : PriceLevel) (x : Z) : PriceLevel :=
  MkLevel (total_quantity l) x (l_tail l) (l_count l).
Definition set_tail (l : PriceLevel) (x : Z) : PriceLevel :=
  MkLevel (total_quantity l) (l_head l) x (l_count l).
Definition set_count (l : PriceLevel) (x : Z) : PriceLevel :=
  MkLevel (total_quantity l) (l_head l) (l_tail l) x.

(** ** Configuration *)

Definition checked_price_count (cfg : BookConfig) : result Z :=
  if (tick_size cfg <=? 0) || (maximum_price cfg <? minimum_price cfg) ||
     (maximum_orders cfg =? 0) || (u32_max <? maximum_orders cfg)
  then Fail InvalidArgument
  else
    too_wide ←
      (if minimum_price cfg <? 0
       then bound ← i64_add i64_max (minimum_price cfg); Ok (bound <? maximum_price cfg)
       else Ok false);
    if (too_wide : bool) then Fail InvalidArgument
    else
      span ← i64_sub (maximum_price cfg) (minimum_price cfg);
      if negb (Z.rem span (tick_size cfg) =? 0) then Fail InvalidArgument
      else
        let count := u64 (u64 (Z.quot span (tick_size cfg)) + 1) in
        if u64_max <? count then Fail InvalidArgument else Ok count.

(** The [for] of the constructor that fills [free_nodes_]. *)
Fixpoint push_free_nodes (i : nat) (free : list Z) : list Z :=
  match i with
  | O => free
  | S i => push_free_nodes i (u32 (Z.of_nat i) :: free)
  end.

(** ** Prices *)

Definition valid_price (cfg : BookConfig) (price : Z) : result bool :=
  if (minimum_price cfg <=? price) && (price <=? maximum_price cfg)
  then d ← i64_sub price (minimum_price cfg); Ok (Z.rem d (tick_size cfg) =? 0)
  else Ok false.

Definition price_index (cfg : BookConfig) (price : Z) : result Z :=
  d ← i64_sub price (minimum_price cfg); Ok (u64 (Z.quot d (tick_size cfg))).

Definition index_price (cfg : BookConfig) (index : Z) : result Z :=
  d ← i64_mul (i64 index) (tick_size cfg); i64_add (minimum_price cfg) d.

(** ** The book *)

Section Book.
Context {I : Type} `{!OrderIndexOps I}.
Implicit Types (b : OrderBook I) (events : list Event).

(** The constructor. *)
Definition make_book (cfg : BookConfig) : result (OrderBook I) :=
  price_count ← checked_price_count cfg;
  order_index ← index_make (maximum_orders cfg);
  let levels := replicate (Z.to_nat price_count) PriceLevel_zero in
  let bits := replicate (Z.to_nat (u64 (price_count + 63) / 64)) 0 in
  Ok (MkBook cfg price_count levels levels bits bits
        (replicate (Z.to_nat (maximum_orders cfg)) OrderNode_zero)
        (push_free_nodes (Z.to_nat (maximum_orders cfg)) [])
        order_index BookStats_zero).

Definition set_active b (side : Side) (index : Z) : result (OrderBook I) :=
  bits ← set_bit (side_bits b side) index; Ok (set_side_bits b side bits).

Definition clear_active b (side : Side) (index : Z) : result (OrderBook I) :=
  bits ← clear_bit (side_bits b side) index; Ok (set_side_bits b side bits).

Definition best_index b (side : Side) : Z := best_bit side (side_bits b side).

Definition best_bid b : result Z :=
  let index := best_index b Buy in
  if index =? no_price then Ok 0 else index_price (config b) index.

Definition best_ask b : result Z :=
  let index := best_index b Sell in
  if index =? no_price then Ok 0 else index_price (config b) index.

Definition quantity_at b (side : Side) (price : Z) : result Z :=
  valid ← valid_price (config b) price;
  if (valid : bool) then
    index ← price_index (config b) price;
    level ← vget (levels b side) index;
    Ok (total_quantity level)
  else Ok 0.

Definition crosses b (aggressor : Side) (limit opposite_index : Z) : result bool :=
  if opposite_index =? no_price then Ok false
  else
    opposite ← index_price (config b) opposite_index;
    Ok (match aggressor with Buy => opposite <=? limit | Sell => limit <=? opposite end).

(** The inner loops of [can_fully_fill]: the next nonempty level above, and
    below.  [None] stands for leaving both loops ([index >= price_count_] and
    the [return false] at index 0). *)
Fixpoint skip_up (fuel : nat) b (lv : list PriceLevel) (index : Z) : result (option Z) :=
  match fuel with
  | O => Fail OutOfFuel
  | S fuel =>
    if index <? price_count b then
      level ← vget lv index;
      if l_count level =? 0 then skip_up fuel b lv (index + 1) else Ok (Some index)
    else Ok None
  end.

Fixpoint skip_down (fuel : nat) (lv : list PriceLevel) (index : Z) : result (option Z) :=
  match fuel with
  | O => Fail OutOfFuel
  | S fuel =>
    level ← vget lv index;
    if l_count level =? 0 then
      if index =? 0 then Ok None else skip_down fuel lv (index - 1)
    else Ok (Some index)
  end.

Definition next_level b (side : Side) (lv : list PriceLevel) (index : Z) : result (option Z) :=
  match side with
  | Buy => skip_up (S (Z.to_nat (price_count b))) b lv (u64 (index + 1))
  | Sell => if index =? 0 then Ok None else skip_down (S (Z.to_nat (price_count b))) lv (index - 1)
  end.

Fixpoint fill_loop (fuel : nat) b (side : Side) (limit quantity available index : Z) : result bool :=
  match fuel with
  | O => Fail OutOfFuel
  | S fuel =>
    crossing ← crosses b side limit index;
    if (crossing : bool) then
      let lv := levels b (opposite side) in
      level ← vget lv index;
      let at_level := total_quantity level in
      if u64 (quantity - available) <=? at_level then Ok true
      else
        next ← next_level b side lv index;
        match next with
        | Some index => fill_loop fuel b side limit quantity (u64 (available + at_level)) index
        | None => Ok false
        end
    else Ok false
  end.

Definition can_fully_fill b (side : Side) (limit quantity : Z) : result bool :=
  fill_loop (S (Z.to_nat (price_count b))) b side limit quantity 0
    (best_index b (opposite side)).

Definition emit events (type : EventType) (command : Command)
    (contra price quantity : Z) (reason : RejectReason) : list Event :=
  events ++ [MkEvent (c_sequence command) type (c_side command) reason 0
               (c_order_id command) contra price quantity].

(** [++stats_.rejected; emit(..., Rejected, command, 0, 0, 0, reason)]. *)
Definition reject b events (command : Command) (reason : RejectReason)
  : OrderBook I * list Event :=
  (set_stats b (inc_rejected (stats b)), emit events Rejected command 0 0 0 reason).

Definition update_node b (index : Z) (f : OrderNode -> OrderNode) : result (OrderBook I) :=
  n ← vget (nodes b) index;
  ns ← vset (nodes b) index (f n);
  Ok (set_nodes b ns).

Definition update_level b (side : Side) (index : Z) (f : PriceLevel -> PriceLevel)
  : result (OrderBook I) :=
  l ← vget (levels b side) index;
  ls ← vset (levels b side) index (f l);
  Ok (set_levels b side ls).

Definition add_resting b (id : Z) (side : Side) (price quantity priority : Z) events
  : result (OrderBook I * list Event) :=
  match free_nodes b with
  | [] => Fail OutOfBounds
  | node_index :: free =>
    let b := set_free_nodes b free in
    b ← update_node b node_index
          (fun _ => MkNode id price quantity priority invalid_node invalid_node side);
    level_index ← price_index (config b) price;
    level ← vget (levels b side) level_index;
    b ← update_node b node_index (fun n => set_previous n (l_tail level));
    b ← (if negb (l_tail level =? invalid_node)
         then update_node b (l_tail level) (fun n => set_next n node_index)
         else update_level b side level_index (fun l => set_head l node_index));
    b ← update_level b side level_index (fun l => set_tail l node_index);
    b ← update_level b side level_index (fun l => set_total l (u64 (total_quantity l + quantity)));
    b ← update_level b side level_index (fun l => set_count l (u32 (l_count l + 1)));
    level ← vget (levels b side) level_index;
    b ← (if l_count level =? 1 then set_active b side level_index else Ok b);
    '(oi, inserted) ← index_insert (order_index b) id node_index;
    let b := set_order_index b oi in
    if negb inserted then Fail LogicError
    else
      let b := set_stats b (add_resting_count (stats b) 1) in
      let event_command := MkCommand priority New side Limit 0 id price quantity in
      Ok (b, emit events Rested event_command 0 price quantity NoReason)
  end.

Definition remove_node b (node_index : Z) : result (OrderBook I) :=
  node ← vget (nodes b) node_index;
  level_index ← price_index (config b) (n_price node);
  let side := n_side node in
  b ← (if negb (n_previous node =? invalid_node)
       then update_node b (n_previous node) (fun p => set_next p (n_next node))
       else update_level b side level_index (fun l => set_head l (n_next node)));
  node ← vget (nodes b) node_index;
  b ← (if negb (n_next node =? invalid_node)
       then update_node b (n_next node) (fun p => set_previous p (n_previous node))
       else update_level b side level_index (fun l => set_tail l (n_previous node)));
  node ← vget (nodes b) node_index;
  b ← update_level b side level_index
        (fun l => set_total l (u64 (total_quantity l - n_remaining node)));
  b ← update_level b side level_index (fun l => set_count l (u32 (l_count l - 1)));
  level ← vget (levels b side) level_index;
  b ← (if l_count level =? 0 then clear_active b (n_side node) level_index else Ok b);
  '(oi, _) ← index_erase (order_index b) (n_id node);
  let b := set_order_index b oi in
  b ← update_node b node_index (fun _ => OrderNode_zero);
  let b := set_free_nodes b (node_index :: free_nodes b) in
  Ok (set_stats b (add_resting_count (stats b) (-1))).

(** The matching [while] of [submit]; the result is the book, the events and
    the quantity that remains. *)
Fixpoint match_loop (fuel : nat) b (command : Command) (effective_limit remaining : Z) events
  : result (OrderBook I * list Event * Z) :=
  match fuel with
  | O => Fail OutOfFuel
  | S fuel =>
    if 0 <? remaining then
      let opposite_side := opposite (c_side command) in
      let opposite_index := best_index b opposite_side in
      crossing ← crosses b (c_side command) effective_limit opposite_index;
      if (crossing : bool) then
        level ← vget (levels b opposite_side) opposite_index;
        let resting_index := l_head level in
        resting ← vget (nodes b) resting_index;
        let traded := Z.min remaining (n_remaining resting) in
        let remaining := u64 (remaining - traded) in
        b ← update_node b resting_index
              (fun n => set_remaining n (u64 (n_remaining n - traded)));
        b ← update_level b opposite_side opposite_index
              (fun l => set_total l (u64 (total_quantity l - traded)));
        let b := set_stats b (inc_trades (stats b)) in
        let events := emit events Trade command (n_id resting) (n_price resting) traded NoReason in
        resting ← vget (nodes b) resting_index;
        b ← (if n_remaining resting =? 0 then remove_node b resting_index else Ok b);
        match_loop fuel b command effective_limit remaining events
      else Ok (b, events, remaining)
    else Ok (b, events, remaining)
  end.

(** One iteration per resting order that is removed and one that stops. *)
Definition match_fuel b : nat := S (S (length (nodes b))).

Definition effective_limit b (command : Command) : Z :=
  match c_order_type command with
  | Market => match c_side command with
              | Buy => maximum_price (config b)
              | Sell => minimum_price (config b)
              end
  | _ => c_price command
  end.

Definition submit b (command : Command) events (replacement : bool)
  : result (OrderBook I * list Event) :=
  if c_quantity command =? 0 then Ok (reject b events command InvalidQuantity)
  else
    valid ← (if negb (bool_decide (c_order_type command = Market))
             then valid_price (config b) (c_price command) else Ok true);
    if negb valid then Ok (reject b events command InvalidPrice)
    else
      found ← (if negb replacement then index_find (order_index b) (c_order_id command)
               else Ok None);
      if bool_decide (is_Some found) then Ok (reject b events command DuplicateOrderId)
      else
        let limit := effective_limit b command in
        fok_ok ← (if bool_decide (c_order_type command = FillOrKill)
                  then can_fully_fill b (c_side command) limit (c_quantity command)
                  else Ok true);
        if negb fok_ok then Ok (reject b events command WouldNotFill)
        else
          fits ← (if bool_decide (free_nodes b = []) &&
                     bool_decide (c_order_type command = Limit)
                  then can_fully_fill b (c_side command) limit (c_quantity command)
                  else Ok true);
          if negb fits then Ok (reject b events command BookCapacity)
          else
            let events := if replacement then events
                          else emit events Accepted command 0 0 0 NoReason in
            '(b, events, remaining) ←
              match_loop (match_fuel b) b command limit (c_quantity command) events;
            if remaining =? 0 then Ok (b, events)
            else if bool_decide (c_order_type command = Limit) then
              add_resting b (c_order_id command) (c_side command) (c_price command) remaining
                (c_sequence command) events
            else Ok (b, emit events Cancelled command 0 (c_price command) remaining NoReason).

Definition cancel b (command : Command) events (replacing : bool)
  : result (OrderBook I * list Event) :=
  found ← index_find (order_index b) (c_order_id command);
  match found with
  | None => Ok (reject b events command UnknownOrderId)
  | Some index =>
    node ← vget (nodes b) index;
    b ← remove_node b index;
    Ok (b, if replacing then events
           else emit events Cancelled command 0 (n_price node) (n_remaining node) NoReason)
  end.

Definition replace b (command : Command) events : result (OrderBook I * list Event) :=
  found ← index_find (order_index b) (c_order_id command);
  match found with
  | None => Ok (reject b events command UnknownOrderId)
  | Some index =>
    bad ← (if c_quantity command =? 0 then Ok true
           else valid ← valid_price (config b) (c_price command); Ok (negb valid));
    if (bad : bool) then
      Ok (reject b events command
            (if c_quantity command =? 0 then InvalidQuantity else InvalidPrice))
    else
      node ← vget (nodes b) index;
      '(b, events) ← cancel b command events true;
      let replacement := MkCommand (c_sequence command) (c_type command) (n_side node) Limit
        (c_reserved command) (c_order_id command) (c_price command) (c_quantity command) in
      let events := emit events Replaced replacement 0 (c_price replacement)
                      (c_quantity replacement) NoReason in
      submit b replacement events true
  end.

Definition process b (command : Command) events : result (OrderBook I * list Event) :=
  if negb (c_sequence command =? u64 (last_sequence (stats b) + 1))
  then Ok (reject b events command SequenceGap)
  else
    let b := set_stats b (inc_commands (set_last_sequence (stats b) (c_sequence command))) in
    match c_type command with
    | New => submit b command events false
    | Cancel => cancel b command events false
    | Replace => replace b command events
    end.

(** A stream of commands, as the engine loop and the replay tool feed it. *)
Fixpoint process_all b (stream : list Command) events : result (OrderBook I * list Event) :=
  match stream with
  | [] => Ok (b, events)
  | command :: stream =>
    '(b, events) ← process b command events;
    process_all b stream events
  end.

(** ** Snapshots of the resting orders *)

Definition node_order (n : OrderNode) : RestingOrder :=
  MkResting (n_id n) (n_side n) (n_price n) (n_remaining n) (n_priority n).

(** The FIFO of one level, by its [next] links. *)
Fixpoint walk (fuel : nat) (ns : list OrderNode) (node : Z) : result (list RestingOrder) :=
  match fuel with
  | O => Fail OutOfFuel
  | S fuel =>
    if node =? invalid_node then Ok []
    else
      order ← vget ns node;
      rest ← walk fuel ns (n_next order);
      Ok (node_order order :: rest)
  end.

Definition level_orders b (side : Side) (price : Z) : result (list RestingOrder) :=
  level ← vget (levels b side) price;
  walk (S (length (nodes b))) (nodes b) (l_head level).

Fixpoint price_loop (todo : nat) b (price : Z) : result (list RestingOrder) :=
  match todo with
  | O => Ok []
  | S todo =>
    buys ← level_orders b Buy price;
    sells ← level_orders b Sell price;
    rest ← price_loop todo b (price + 1);
    Ok (buys ++ sells ++ rest)
  end.

Definition resting_orders b : result (list RestingOrder) :=
  price_loop (Z.to_nat (price_count b)) b 0.

(** [std::stable_sort] by priority: insertion after the equal keys. *)
Fixpoint insert_by_priority (o : RestingOrder) (l : list RestingOrder) : list RestingOrder :=
  match l with
  | [] => [o]
  | x :: l' => if ro_priority o <? ro_priority x then o :: l else x :: insert_by_priority o l'
  end.
Definition stable_sort (orders : list RestingOrder) : list RestingOrder :=
  fold_left (fun sorted o => insert_by_priority o sorted) orders [].

Fixpoint restore_loop (orders : list RestingOrder) b (seq : Z) events
  : result (OrderBook I * list Event) :=
  match orders with
  | [] => Ok (b, events)
  | o :: orders =>
    valid ← valid_price (config b) (ro_price o);
    found ← (if negb valid || (ro_quantity o =? 0) || (seq <? ro_priority o)
             then Ok None else index_find (order_index b) (ro_id o));
    if negb valid || (ro_quantity o =? 0) || (seq <? ro_priority o) ||
       bool_decide (is_Some found)
    then Fail RuntimeError
    else
      '(b, events) ← add_resting b (ro_id o) (ro_side o) (ro_price o) (ro_quantity o)
                       (ro_priority o) events;
      restore_loop orders b seq events
  end.

Definition restore b (seq : Z) (orders : list RestingOrder) : result (OrderBook I) :=
  if negb (resting_count (stats b) =? 0) || negb (last_sequence (stats b) =? 0) ||
     (maximum_orders (config b) <? vsize orders)
  then Fail LogicError
  else
    '(b, _) ← restore_loop (stable_sort orders) b seq [];
    Ok (set_stats b (set_last_sequence (stats b) seq)).
End Book.
