(* ===== verification/BookSpec.v ===== *)
(** * BookSpec: what the order book promises

    The specification of [OrderBook::process]: the resting orders are one
    list in arrival order, an aggressor trades with the earliest order at the
    best price, and nothing else is remembered besides the statistics.  There
    are no ladders, bitmaps, arenas or hash tables here.

    The liquidity test of fill-or-kill orders is a parameter [fill]:
    [ideal_fill] adds up quantities exactly, [machine_fill] adds up the
    64-bit aggregates the book keeps per level. *)
From stdpp Require Import base list numbers.
From Stdlib Require Import ZArith Lia.
From S2P Require Import Prelude Types OrderBook.
Local Open Scope Z_scope.

Record SpecBook : Set := MkSpec {
  sb_config : BookConfig;
  sb_orders : list RestingOrder;
  sb_stats : BookStats }.

(** ** Prices *)

(** Number of ticks of the ladder, and the price of a tick. *)
Definition tick_count (cfg : BookConfig) : Z :=
  (maximum_price cfg - minimum_price cfg) / tick_size cfg + 1.
Definition price_at (cfg : BookConfig) (i : Z) : Z :=
  minimum_price cfg + i * tick_size cfg.

Definition on_ladder (cfg : BookConfig) (price : Z) : bool :=
  (minimum_price cfg <=? price) && (price <=? maximum_price cfg) &&
  ((price - minimum_price cfg) mod tick_size cfg =? 0).

(** Configurations the constructor accepts, with fields of their C++ widths. *)
Record config_ok (cfg : BookConfig) : Prop := {
  cfg_min : is_i64 (minimum_price cfg);
  cfg_max : is_i64 (maximum_price cfg);
  cfg_order : minimum_price cfg <= maximum_price cfg;
  cfg_tick : 0 < tick_size cfg <= i64_max;
  cfg_span : maximum_price cfg - minimum_price cfg <= i64_max;
  cfg_aligned : (maximum_price cfg - minimum_price cfg) mod tick_size cfg = 0;
  cfg_orders : 0 < maximum_orders cfg <= u32_max }.

(** An aggressor on [side] with limit [limit] accepts price [p]. *)
Definition price_crosses (side : Side) (limit p : Z) : bool :=
  match side with Buy => p <=? limit | Sell => limit <=? p end.

(** For an aggressor on [side], price [p] is strictly better than [q]. *)
Definition price_better (side : Side) (p q : Z) : bool :=
  match side with Buy => p <? q | Sell => q <? p end.

(** ** Liquidity *)

Definition crossing (side : Side) (limit : Z) (o : RestingOrder) : bool :=
  bool_decide (ro_side o = opposite side) && price_crosses side limit (ro_price o).

Definition total (orders : list RestingOrder) : Z := foldr (fun o s => ro_quantity o + s) 0 orders.

Definition at_level (side : Side) (price : Z) (o : RestingOrder) : Prop :=
  ro_side o = side /\ ro_price o = price.
#[export] Instance at_level_dec side price o : Decision (at_level side price o).
Proof. unfold at_level. apply _. Defined.

Definition level_total (orders : list RestingOrder) (side : Side) (price : Z) : Z :=
  total (filter (at_level side price) orders).

(** Everything an aggressor could trade with. *)
Definition liquidity (orders : list RestingOrder) (side : Side) (limit : Z) : Z :=
  total (filter (fun o => crossing side limit o = true) orders).

Definition zsum (f : Z -> Z) (l : list Z) : Z := foldr (fun i s => f i + s) 0 l.

Definition ticks (cfg : BookConfig) : list Z :=
  Z.of_nat <$> seq 0 (Z.to_nat (tick_count cfg)).

(** The same sum over the ladder, of aggregates truncated to 64 bits. *)
Definition machine_liquidity (cfg : BookConfig) (orders : list RestingOrder)
    (side : Side) (limit : Z) : Z :=
  zsum (fun i => if price_crosses side limit (price_at cfg i)
                 then u64 (level_total orders (opposite side) (price_at cfg i)) else 0)
       (ticks cfg).

Definition fill_test : Type :=
  BookConfig -> list RestingOrder -> Side -> Z -> Z -> bool.
Definition ideal_fill : fill_test := fun _ orders side limit quantity =>
  quantity <=? liquidity orders side limit.
Definition machine_fill : fill_test := fun cfg orders side limit quantity =>
  quantity <=? machine_liquidity cfg orders side limit.

(** ** Matching *)

(** The earliest order at the best price. *)
Fixpoint best_order (side : Side) (limit : Z) (orders : list RestingOrder) : option RestingOrder :=
  match orders with
  | [] => None
  | o :: orders =>
    match best_order side limit orders with
    | None => if crossing side limit o then Some o else None
    | Some o' =>
      if crossing side limit o && negb (price_better side (ro_price o') (ro_price o))
      then Some o else Some o'
    end
  end.

Definition set_quantity (o : RestingOrder) (q : Z) : RestingOrder :=
  MkResting (ro_id o) (ro_side o) (ro_price o) q (ro_priority o).

Definition find_order (id : Z) (orders : list RestingOrder) : option RestingOrder :=
  list_find (fun o => ro_id o = id) orders ≫= fun p => Some p.2.

Definition remove_order (id : Z) (orders : list RestingOrder) : list RestingOrder :=
  filter (fun o => ro_id o <> id) orders.

(** The order [id] trades [traded]; it leaves the book when nothing remains. *)
Definition reduce_order (id traded : Z) (orders : list RestingOrder) : list RestingOrder :=
  (fun o => if decide (ro_id o = id) then set_quantity o (ro_quantity o - traded) else o)
    <$> orders.
Definition fill_order (o : RestingOrder) (traded : Z) (orders : list RestingOrder)
  : list RestingOrder :=
  if traded =? ro_quantity o then remove_order (ro_id o) orders
  else reduce_order (ro_id o) traded orders.

Definition event (command : Command) (type : EventType) (contra price quantity : Z)
    (reason : RejectReason) : Event :=
  MkEvent (c_sequence command) type (c_side command) reason 0 (c_order_id command)
    contra price quantity.

Definition trade_event (command : Command) (o : RestingOrder) (traded : Z) : Event :=
  event command Trade (ro_id o) (ro_price o) traded NoReason.

Fixpoint spec_match (fuel : nat) (command : Command) (limit remaining : Z)
    (orders : list RestingOrder) : list RestingOrder * list Event * Z :=
  match fuel with
  | O => (orders, [], remaining)
  | S fuel =>
    if 0 <? remaining then
      match best_order (c_side command) limit orders with
      | None => (orders, [], remaining)
      | Some o =>
        let traded := Z.min remaining (ro_quantity o) in
        let '(orders', trades, rest) :=
          spec_match fuel command limit (remaining - traded) (fill_order o traded orders) in
        (orders', trade_event command o traded :: trades, rest)
      end
    else (orders, [], remaining)
  end.

(** ** Commands *)

Section Spec.
Context (fill : fill_test).

Definition spec_reject (sb : SpecBook) (command : Command) (reason : RejectReason)
  : SpecBook * list Event :=
  (MkSpec (sb_config sb) (sb_orders sb) (inc_rejected (sb_stats sb)),
   [event command Rejected 0 0 0 reason]).

Definition spec_limit (cfg : BookConfig) (command : Command) : Z :=
  match c_order_type command with
  | Market => match c_side command with
              | Buy => maximum_price cfg
              | Sell => minimum_price cfg
              end
  | _ => c_price command
  end.

Definition add_trades (st : BookStats) (n : nat) : BookStats :=
  Nat.iter n inc_trades st.

Definition set_resting (st : BookStats) (orders : list RestingOrder) : BookStats :=
  MkStats (last_sequence st) (commands st) (trades st) (rejected st) (Z.of_nat (length orders)).

(** Matching, then resting or cancelling what remains. *)
Definition spec_execute (sb : SpecBook) (command : Command) : SpecBook * list Event :=
  let cfg := sb_config sb in
  let '(orders, trades, rest) :=
    spec_match (S (length (sb_orders sb))) command (spec_limit cfg command)
      (c_quantity command) (sb_orders sb) in
  let st := add_trades (sb_stats sb) (length trades) in
  if rest =? 0 then (MkSpec cfg orders (set_resting st orders), trades)
  else if decide (c_order_type command = Limit) then
    let orders := orders ++ [MkResting (c_order_id command) (c_side command) (c_price command)
                               rest (c_sequence command)] in
    (MkSpec cfg orders (set_resting st orders),
     trades ++ [event command Rested 0 (c_price command) rest NoReason])
  else
    (MkSpec cfg orders (set_resting st orders),
     trades ++ [event command Cancelled 0 (c_price command) rest NoReason]).

Definition spec_full (sb : SpecBook) : bool :=
  maximum_orders (sb_config sb) <=? Z.of_nat (length (sb_orders sb)).

Definition spec_submit (sb : SpecBook) (command : Command) : SpecBook * list Event :=
  let cfg := sb_config sb in
  let limit := spec_limit cfg command in
  let fillable := fill cfg (sb_orders sb) (c_side command) limit (c_quantity command) in
  if c_quantity command =? 0 then spec_reject sb command InvalidQuantity
  else if negb (bool_decide (c_order_type command = Market)) && negb (on_ladder cfg (c_price command))
  then spec_reject sb command InvalidPrice
  else if bool_decide (is_Some (find_order (c_order_id command) (sb_orders sb)))
  then spec_reject sb command DuplicateOrderId
  else if bool_decide (c_order_type command = FillOrKill) && negb fillable
  then spec_reject sb command WouldNotFill
  else if bool_decide (c_order_type command = Limit) && spec_full sb && negb fillable
  then spec_reject sb command BookCapacity
  else
    let '(sb', events) := spec_execute sb command in
    (sb', event command Accepted 0 0 0 NoReason :: events).

Definition spec_remove (sb : SpecBook) (id : Z) : SpecBook :=
  let orders := remove_order id (sb_orders sb) in
  MkSpec (sb_config sb) orders (set_resting (sb_stats sb) orders).

Definition spec_cancel (sb : SpecBook) (command : Command) : SpecBook * list Event :=
  match find_order (c_order_id command) (sb_orders sb) with
  | None => spec_reject sb command UnknownOrderId
  | Some o =>
    (spec_remove sb (c_order_id command),
     [event command Cancelled 0 (ro_price o) (ro_quantity o) NoReason])
  end.

(** The command a replacement executes: a limit order on the original side. *)
Definition replacement_of (command : Command) (side : Side) : Command :=
  MkCommand (c_sequence command) (c_type command) side Limit (c_reserved command)
    (c_order_id command) (c_price command) (c_quantity command).

Definition spec_replace (sb : SpecBook) (command : Command) : SpecBook * list Event :=
  match find_order (c_order_id command) (sb_orders sb) with
  | None => spec_reject sb command UnknownOrderId
  | Some o =>
    if c_quantity command =? 0 then spec_reject sb command InvalidQuantity
    else if negb (on_ladder (sb_config sb) (c_price command))
    then spec_reject sb command InvalidPrice
    else
      let replacement := replacement_of command (ro_side o) in
      let '(sb', events) := spec_execute (spec_remove sb (c_order_id command)) replacement in
      (sb', event replacement Replaced 0 (c_price command) (c_quantity command) NoReason :: events)
  end.

Definition spec_process (sb : SpecBook) (command : Command) : SpecBook * list Event :=
  if negb (c_sequence command =? u64 (last_sequence (sb_stats sb) + 1))
  then spec_reject sb command SequenceGap
  else
    let sb := MkSpec (sb_config sb) (sb_orders sb)
                (inc_commands (set_last_sequence (sb_stats sb) (c_sequence command))) in
    match c_type command with
    | New => spec_submit sb command
    | Cancel => spec_cancel sb command
    | Replace => spec_replace sb command
    end.

Fixpoint spec_run (sb : SpecBook) (commands : list Command) : SpecBook * list Event :=
  match commands with
  | [] => (sb, [])
  | c :: commands =>
    let '(sb1, ev1) := spec_process sb c in
    let '(sb2, ev2) := spec_run sb1 commands in
    (sb2, ev1 ++ ev2)
  end.
End Spec.
