(* ===== verification/Prices.v ===== *)
(** * Prices: the price arithmetic of the book never leaves its widths
      (src/order_book.cpp, [checked_price_count], [valid_price],
      [price_index], [index_price])

    For every configuration the constructor accepts, the conversions between
    prices and ladder indices are exact inverses and no signed operation
    overflows. *)
From stdpp Require Import base list numbers.
From Stdlib Require Import ZArith Lia.
From S2P Require Import Prelude Types OrderBook BookSpec.
Local Open Scope Z_scope.

(** Configurations whose fields fit their C++ types. *)
Record config_fields_ok (cfg : BookConfig) : Prop := {
  cf_min : is_i64 (minimum_price cfg);
  cf_max : is_i64 (maximum_price cfg);
  cf_tick : is_i64 (tick_size cfg);
  cf_orders : is_u64 (maximum_orders cfg) }.

Lemma range_guard_ok (lo hi : Z) : is_i64 lo -> hi - lo <= i64_max ->
  (if lo <? 0 then bound ← i64_add i64_max lo; Ok (bound <? hi) else Ok false) = Ok false.
Proof.
  intros Hlo Hs. destruct (Z.ltb_spec lo 0); [|done].
  unfold i64_add. rewrite i64_checked_ok by intlia. cbn [mbind result_bind].
  destruct (Z.ltb_spec (i64_max + lo) hi); [lia|done].
Qed.

Section Prices.
Context {cfg : BookConfig} (Hcfg : config_ok cfg).

Lemma span_nonneg : 0 <= maximum_price cfg - minimum_price cfg.
Proof. destruct Hcfg. lia. Qed.

Lemma tick_count_bounds :
  0 < tick_count cfg <= 9223372036854775808 /\
  (tick_count cfg - 1) * tick_size cfg = maximum_price cfg - minimum_price cfg.
Proof.
  destruct Hcfg. unfold tick_count.
  pose proof (Z.div_mod (maximum_price cfg - minimum_price cfg) (tick_size cfg)).
  assert (0 <= (maximum_price cfg - minimum_price cfg) / tick_size cfg) by (apply Z.div_pos; lia).
  assert ((maximum_price cfg - minimum_price cfg) / tick_size cfg
          <= maximum_price cfg - minimum_price cfg).
  { apply Z.div_le_upper_bound; [lia|]. nia. }
  split; [intlia|lia].
Qed.

Lemma price_at_range (i : Z) : 0 <= i < tick_count cfg ->
  minimum_price cfg <= price_at cfg i <= maximum_price cfg /\ 0 <= i * tick_size cfg <= i64_max.
Proof.
  intros Hi. destruct tick_count_bounds as [_ Hs], Hcfg. unfold price_at. nia.
Qed.

Lemma price_at_inj (i j : Z) : price_at cfg i = price_at cfg j -> i = j.
Proof. destruct Hcfg. unfold price_at. nia. Qed.

Lemma price_at_mono (i j : Z) : i <= j <-> price_at cfg i <= price_at cfg j.
Proof. destruct Hcfg. unfold price_at. nia. Qed.

Lemma on_ladder_spec (p : Z) :
  on_ladder cfg p = true <-> exists i, 0 <= i < tick_count cfg /\ p = price_at cfg i.
Proof.
  destruct tick_count_bounds as [_ Hs]. destruct Hcfg. unfold on_ladder. split.
  - intros H. apply andb_prop in H as [H Hm]. apply andb_prop in H as [H1 H2].
    apply Z.eqb_eq in Hm.
    pose proof (Z.div_mod (p - minimum_price cfg) (tick_size cfg)).
    exists ((p - minimum_price cfg) / tick_size cfg). unfold price_at. split; [|lia].
    split; [apply Z.div_pos; lia|]. nia.
  - intros (i & Hi & ->). destruct (price_at_range i Hi) as [Hr _].
    unfold price_at in *. replace (minimum_price cfg + i * tick_size cfg - minimum_price cfg)
      with (i * tick_size cfg) by lia.
    rewrite Z_mod_mult, Z.eqb_refl. lia.
Qed.

Lemma on_ladder_range (p : Z) : on_ladder cfg p = true ->
  minimum_price cfg <= p <= maximum_price cfg /\ is_i64 p.
Proof.
  intros (i & Hi & ->)%on_ladder_spec. destruct (price_at_range i Hi) as [Hr _].
  destruct Hcfg. intlia.
Qed.

Lemma valid_price_ok (p : Z) : valid_price cfg p = Ok (on_ladder cfg p).
Proof.
  destruct Hcfg. unfold valid_price, on_ladder.
  destruct (Z.leb_spec (minimum_price cfg) p), (Z.leb_spec p (maximum_price cfg));
    cbn [andb]; [|done..].
  unfold i64_sub. rewrite i64_checked_ok by intlia. cbn [mbind result_bind].
  by rewrite Z.rem_mod_nonneg by lia.
Qed.

Lemma price_index_ok (i : Z) : 0 <= i < tick_count cfg ->
  price_index cfg (price_at cfg i) = Ok i.
Proof.
  intros Hi. destruct (price_at_range i Hi) as [Hr Hm]. destruct tick_count_bounds as [Hc _].
  pose proof (cfg_tick _ Hcfg). unfold price_index, i64_sub, price_at.
  replace (minimum_price cfg + i * tick_size cfg - minimum_price cfg)
    with (i * tick_size cfg) by lia.
  rewrite i64_checked_ok by intlia. cbn [mbind result_bind].
  by rewrite Z.quot_mul, u64_small by intlia.
Qed.

Lemma index_price_ok (i : Z) : 0 <= i < tick_count cfg ->
  index_price cfg i = Ok (price_at cfg i).
Proof.
  intros Hi. destruct (price_at_range i Hi) as [Hr Hm]. destruct tick_count_bounds as [Hc _].
  destruct Hcfg. unfold index_price, i64_mul, i64_add, price_at in *.
  rewrite i64_small by intlia.
  rewrite i64_checked_ok by intlia. cbn [mbind result_bind].
  by rewrite i64_checked_ok by intlia.
Qed.

Lemma checked_price_count_ok : checked_price_count cfg = Ok (tick_count cfg).
Proof.
  destruct tick_count_bounds as [Hc _]. pose proof (cfg_aligned _ Hcfg) as Hal.
  destruct Hcfg. unfold checked_price_count.
  destruct (Z.leb_spec (tick_size cfg) 0), (Z.ltb_spec (maximum_price cfg) (minimum_price cfg)),
    (Z.eqb_spec (maximum_orders cfg) 0), (Z.ltb_spec u32_max (maximum_orders cfg));
    cbn [orb]; try lia.
  rewrite range_guard_ok by intlia.
  cbn [mbind result_bind]. unfold i64_sub. rewrite i64_checked_ok by intlia.
  cbn [mbind result_bind]. rewrite Z.rem_mod_nonneg, Hal by lia. cbn [Z.eqb negb].
  unfold tick_count in *. rewrite Z.quot_div_nonneg by lia.
  assert (0 <= (maximum_price cfg - minimum_price cfg) / tick_size cfg) by (apply Z.div_pos; lia).
  rewrite (u64_small (_ / _)) by intlia. rewrite u64_small by intlia.
  destruct (Z.ltb_spec u64_max ((maximum_price cfg - minimum_price cfg) / tick_size cfg + 1));
    [intlia|done].
Qed.
End Prices.

(** The guard accepts exactly the good configurations, and otherwise throws:
    its own arithmetic never overflows. *)
Lemma checked_price_count_total (cfg : BookConfig) : config_fields_ok cfg ->
  (config_ok cfg /\ checked_price_count cfg = Ok (tick_count cfg)) \/
  (~ config_ok cfg /\ checked_price_count cfg = Fail InvalidArgument).
Proof.
  intros [Hmin Hmax Htick Hord].
  destruct (decide (0 < tick_size cfg)) as [Ht|Ht]; cycle 1.
  { right. split; [intros []; lia|]. unfold checked_price_count.
    destruct (Z.leb_spec (tick_size cfg) 0); [done|lia]. }
  destruct (decide (minimum_price cfg <= maximum_price cfg)) as [Ho|Ho]; cycle 1.
  { right. split; [intros []; lia|]. unfold checked_price_count.
    destruct (Z.ltb_spec (maximum_price cfg) (minimum_price cfg)); [|lia].
    by rewrite orb_true_r. }
  destruct (decide (0 < maximum_orders cfg <= u32_max)) as [Hn|Hn]; cycle 1.
  { right. split; [intros []; lia|]. unfold checked_price_count.
    destruct (Z.eqb_spec (maximum_orders cfg) 0), (Z.ltb_spec u32_max (maximum_orders cfg));
      rewrite ?orb_true_r; try done. intlia. }
  destruct (decide (maximum_price cfg - minimum_price cfg <= i64_max)) as [Hs|Hs]; cycle 1.
  { right. split; [intros []; lia|]. unfold checked_price_count. case_match; [done|].
    destruct (Z.ltb_spec (minimum_price cfg) 0); [|intlia].
    unfold i64_add. rewrite i64_checked_ok by intlia. cbn [mbind result_bind].
    destruct (Z.ltb_spec (i64_max + minimum_price cfg) (maximum_price cfg)); [done|lia]. }
  destruct (decide ((maximum_price cfg - minimum_price cfg) mod tick_size cfg = 0)) as [Ha|Ha].
  { left. assert (Hok : config_ok cfg) by (constructor; auto; intlia).
    split; [done|]. by apply checked_price_count_ok. }
  right. split; [by intros []|]. unfold checked_price_count. case_match; [done|].
  rewrite range_guard_ok by intlia.
  cbn [mbind result_bind]. unfold i64_sub. rewrite i64_checked_ok by intlia.
  cbn [mbind result_bind]. rewrite Z.rem_mod_nonneg by lia.
  by destruct (Z.eqb_spec ((maximum_price cfg - minimum_price cfg) mod tick_size cfg) 0).
Qed.
