(* ===== verification/BookRep.v ===== *)
(** * BookRep: how the book's data structures represent the resting orders

    The ghost list [G] pairs every resting order, in arrival order, with the
    arena node that stores it.  [book_rep b G] is the representation
    invariant: docs/DESIGN.md section 5 lists its clauses.  This file holds the
    linked-list theory and what [add_resting] and [remove_node] write. *)
From Stdlib Require Import ZArith Lia.
From stdpp Require Import base numbers gmap list.
From S2P Require Import Prelude Types OrderIndex Bitmap OrderBook BookSpec Prices.
Local Open Scope Z_scope.

Abbreviation ghost := (list (Z * RestingOrder)).

(** The FIFO of one level. *)
Definition queue (G : ghost) (side : Side) (price : Z) : ghost :=
  filter (fun x => at_level side price x.2) G.

Fixpoint last_or (d : Z) (q : list Z) : Z :=
  match q with [] => d | n :: q => last_or n q end.

(** ** Doubly linked segments

    [dseg ns prev q next]: the arena links the nodes [q] in this order, with
    [prev] before the first and [next] after the last. *)
Fixpoint dseg (ns : list OrderNode) (prev : Z) (q : list Z) (next : Z) : Prop :=
  match q with
  | [] => True
  | n :: q => (exists nd, ns.[n] = Some nd /\ n_previous nd = prev /\ n_next nd = hd next q) /\
              dseg ns n q next
  end.

Record level_rep (ns : list OrderNode) (l : PriceLevel) (q : ghost) : Prop := {
  lr_seg : dseg ns invalid_node q.*1 invalid_node;
  lr_head : l_head l = hd invalid_node q.*1;
  lr_tail : l_tail l = last_or invalid_node q.*1;
  lr_count : l_count l = Z.of_nat (length q);
  lr_total : total_quantity l = u64 (total q.*2) }.

Definition id_map (G : ghost) : gmap Z Z :=
  list_to_map ((fun x => (ro_id x.2, x.1)) <$> G).

Definition order_ok (cfg : BookConfig) (o : RestingOrder) : Prop :=
  on_ladder cfg (ro_price o) = true /\ is_u64 (ro_quantity o).

Section Rep.
Context {I : Type} `{!OrderIndexOps I, !OrderIndexLaws I}.
Implicit Types (b : OrderBook I) (G : ghost).

Record book_rep b G : Prop := {
  br_config : config_ok (config b);
  br_count : price_count b = tick_count (config b);
  br_levels : forall side, vsize (levels b side) = tick_count (config b);
  br_words : forall side, words_ok (side_bits b side) /\
    vsize (side_bits b side) = (tick_count (config b) + 63) / 64;
  br_nodes : vsize (nodes b) = maximum_orders (config b);
  br_arena : free_nodes b ++ G.*1 ≡ₚ Z.of_nat <$> seq 0 (length (nodes b));
  br_ids : NoDup (ro_id <$> G.*2);
  br_index : index_repr (order_index b) (maximum_orders (config b)) (id_map G);
  br_orders : forall n o, (n, o) ∈ G -> order_ok (config b) o;
  br_node : forall n o, (n, o) ∈ G -> exists nd, (nodes b).[n] = Some nd /\ node_order nd = o;
  br_level : forall side i, 0 <= i < tick_count (config b) -> exists l,
    (levels b side).[i] = Some l /\
    level_rep (nodes b) l (queue G side (price_at (config b) i));
  br_active : forall side i, 0 <= i ->
    active (side_bits b side) i = true <->
    exists x, x ∈ queue G side (price_at (config b) i) /\ i < tick_count (config b);
  br_resting : resting_count (stats b) = Z.of_nat (length G) }.
End Rep.

(** ** Linked segments *)

Section Segments.
Implicit Types (ns : list OrderNode) (q : list Z).

Lemma hd_app (d : Z) q1 q2 : hd d (q1 ++ q2) = hd (hd d q2) q1.
Proof. by destruct q1. Qed.

Lemma last_or_snoc (d n : Z) q : last_or d (q ++ [n]) = n.
Proof. revert d. induction q; cbn; auto. Qed.

Lemma last_or_app (d : Z) q1 q2 : last_or d (q1 ++ q2) = last_or (last_or d q1) q2.
Proof. revert d. induction q1; cbn; auto. Qed.

Lemma dseg_app ns prev q1 q2 next :
  dseg ns prev (q1 ++ q2) next <->
  dseg ns prev q1 (hd next q2) /\ dseg ns (last_or prev q1) q2 next.
Proof.
  revert prev. induction q1 as [|n q1 IH]; intros prev; cbn [dseg app].
  - cbn. tauto.
  - rewrite IH, hd_app. cbn. tauto.
Qed.

(** Nodes outside the segment do not matter. *)
Lemma dseg_frame ns ns' prev q next :
  dseg ns prev q next -> (forall n, n ∈ q -> ns'.[n] = ns.[n]) -> dseg ns' prev q next.
Proof.
  revert prev. induction q as [|n q IH]; intros prev; cbn [dseg]; [done|].
  intros [(nd & Hn & Hl) Hq] Hf. split.
  - exists nd. rewrite Hf by set_solver. done.
  - apply IH; [done|]. set_solver.
Qed.

Lemma dseg_node ns prev q next n : dseg ns prev q next -> n ∈ q -> exists nd, ns.[n] = Some nd.
Proof.
  revert prev. induction q as [|m q IH]; intros prev; cbn [dseg]; [set_solver|].
  intros [(nd & Hn & _) Hq] [->|]%elem_of_cons; eauto.
Qed.

(** The links of a node in the middle. *)
Lemma dseg_middle ns prev q1 n q2 next :
  dseg ns prev (q1 ++ n :: q2) next -> exists nd, ns.[n] = Some nd /\
    n_previous nd = last_or prev q1 /\ n_next nd = hd next q2.
Proof. rewrite dseg_app. cbn [dseg]. naive_solver. Qed.

(** Redirecting the [next] of the last node. *)
Lemma dseg_set_next ns prev q m nd next next' :
  dseg ns prev (q ++ [m]) next -> m ∉ q -> ns.[m] = Some nd ->
  dseg (ns.[m := set_next nd next']) prev (q ++ [m]) next'.
Proof.
  rewrite !dseg_app. cbn [dseg hd]. intros [Hq [(nd' & Hn & Hp & _) _]] Hm Hnd.
  pose proof (vlook_Some_lt _ _ _ Hnd) as Hr.
  rewrite Hnd in Hn. injection Hn as <-. split; [|split; [|done]].
  - eapply dseg_frame; [done|]. intros n Hn'. apply vlook_vupd_ne. congruence.
  - exists (set_next nd next'). by rewrite vlook_vupd_eq.
Qed.

(** Redirecting the [previous] of the first node. *)
Lemma dseg_set_previous ns prev prev' q m nd next :
  dseg ns prev (m :: q) next -> m ∉ q -> ns.[m] = Some nd ->
  dseg (ns.[m := set_previous nd prev']) prev' (m :: q) next.
Proof.
  cbn [dseg]. intros [(nd' & Hn & Hp & Hx) Hq] Hm Hnd.
  pose proof (vlook_Some_lt _ _ _ Hnd) as Hr.
  rewrite Hnd in Hn. injection Hn as <-. split.
  - exists (set_previous nd prev'). by rewrite vlook_vupd_eq.
  - eapply dseg_frame; [done|]. intros n Hn'. apply vlook_vupd_ne. congruence.
Qed.

(** ** Writes to the arena *)

(** [add_resting]: the new node and the old tail. *)
Definition link_nodes ns (n tail : Z) (nd : OrderNode) : list OrderNode :=
  if tail =? invalid_node then ns.[n := nd]
  else match ns.[tail] with
       | Some tn => (ns.[n := nd]).[tail := set_next tn n]
       | None => ns.[n := nd]
       end.

(** [remove_node]: the two neighbours. *)
Definition bypass_previous ns (prev next : Z) : list OrderNode :=
  if prev =? invalid_node then ns
  else match ns.[prev] with Some p => ns.[prev := set_next p next] | None => ns end.
Definition bypass_next ns (prev next : Z) : list OrderNode :=
  if next =? invalid_node then ns
  else match ns.[next] with Some p => ns.[next := set_previous p prev] | None => ns end.
Definition unlink_nodes ns (n prev next : Z) : list OrderNode :=
  (bypass_next (bypass_previous ns prev next) prev next).[n := OrderNode_zero].

Definition valid_nodes ns q : Prop := forall n, n ∈ q -> n <> invalid_node.

Lemma dseg_link ns q n nd :
  dseg ns invalid_node q invalid_node -> NoDup q -> n ∉ q -> valid_nodes ns q ->
  0 <= n < vsize ns -> n_previous nd = last_or invalid_node q ->
  n_next nd = invalid_node ->
  dseg (link_nodes ns n (last_or invalid_node q) nd) invalid_node (q ++ [n]) invalid_node.
Proof.
  intros Hs Hnd Hn Hv Hr Hp Hx.
  assert (Hs' : dseg (ns.[n := nd]) invalid_node q invalid_node).
  { eapply dseg_frame; [done|]. intros m Hm. apply vlook_vupd_ne. congruence. }
  unfold link_nodes. destruct q as [|m q _] using rev_ind.
  - cbn. split; [|done]. exists nd. by rewrite vlook_vupd_eq.
  - rewrite last_or_snoc in *.
    assert (m <> n) by set_solver.
    destruct (Z.eqb_spec m invalid_node) as [->|]; [by destruct (Hv invalid_node); set_solver|].
    destruct (dseg_node _ _ _ _ m Hs) as [tn Htn]; [set_solver|]. rewrite Htn.
    assert (Hm : m ∉ q). { apply list.NoDup_app in Hnd as (_ & Hd & _). set_solver. }
    rewrite dseg_app. split.
    + cbn [hd]. eapply dseg_set_next; [done|done|]. by rewrite vlook_vupd_ne.
    + rewrite last_or_snoc. cbn. split; [|done]. exists nd.
      rewrite vlook_vupd_ne by done. by rewrite vlook_vupd_eq.
Qed.

Lemma bypass_next_ok ns q2 prev pv :
  dseg ns pv q2 invalid_node -> NoDup q2 -> valid_nodes ns q2 ->
  dseg (bypass_next ns prev (hd invalid_node q2)) prev q2 invalid_node /\
  (forall m, m ∉ q2 -> (bypass_next ns prev (hd invalid_node q2)).[m] = ns.[m]).
Proof.
  intros Hs Hnd Hv. unfold bypass_next. destruct q2 as [|m q2]; [done|]. cbn [hd].
  destruct (Z.eqb_spec m invalid_node) as [->|]; [by destruct (Hv invalid_node); set_solver|].
  destruct (dseg_node _ _ _ _ m Hs) as [p Hp]; [set_solver|]. rewrite Hp.
  apply list.NoDup_cons in Hnd as [Hm Hnd].
  split; [by eapply dseg_set_previous|].
  intros k Hk. apply vlook_vupd_ne. set_solver.
Qed.

Lemma bypass_previous_ok ns q1 nx next :
  dseg ns invalid_node q1 nx -> NoDup q1 -> valid_nodes ns q1 ->
  dseg (bypass_previous ns (last_or invalid_node q1) next) invalid_node q1 next /\
  (forall m, m ∉ q1 ->
    (bypass_previous ns (last_or invalid_node q1) next).[m] = ns.[m]).
Proof.
  intros Hs Hnd Hv. unfold bypass_previous. destruct q1 as [|m q1 _] using rev_ind; [done|].
  rewrite last_or_snoc.
  destruct (Z.eqb_spec m invalid_node) as [->|]; [by destruct (Hv invalid_node); set_solver|].
  destruct (dseg_node _ _ _ _ m Hs) as [p Hp]; [set_solver|]. rewrite Hp.
  assert (Hm : m ∉ q1). { apply list.NoDup_app in Hnd as (_ & Hd & _). set_solver. }
  split; [by eapply dseg_set_next|].
  intros k Hk. apply vlook_vupd_ne. set_solver.
Qed.

(** Unlinking a node leaves the rest of the segment linked. *)
Lemma dseg_unlink ns q1 n q2 :
  dseg ns invalid_node (q1 ++ n :: q2) invalid_node -> NoDup (q1 ++ n :: q2) ->
  valid_nodes ns (q1 ++ n :: q2) ->
  dseg (unlink_nodes ns n (last_or invalid_node q1) (hd invalid_node q2))
    invalid_node (q1 ++ q2) invalid_node.
Proof.
  intros Hs Hnd Hv. rewrite dseg_app in Hs. cbn [dseg hd] in Hs. destruct Hs as [H1 [_ H2]].
  apply list.NoDup_app in Hnd as (Hnd1 & Hd & Hnd2). apply list.NoDup_cons in Hnd2 as [Hn2 Hnd2].
  unfold unlink_nodes.
  destruct (bypass_previous_ok ns q1 n (hd invalid_node q2) H1 Hnd1) as [H1' F1].
  { intros m Hm. apply Hv. set_solver. }
  set (ns1 := bypass_previous _ _ _) in *.
  destruct (bypass_next_ok ns1 q2 (last_or invalid_node q1) n) as [H2' F2]; [|done| |].
  { eapply dseg_frame; [done|]. intros m Hm. apply F1. intros Hm1. apply (Hd m Hm1). set_solver. }
  { intros m Hm. apply Hv. set_solver. }
  set (ns2 := bypass_next _ _ _) in *.
  apply dseg_app. split; eapply dseg_frame; [|intros m Hm| |intros m Hm].
  - eapply dseg_frame; [exact H1'|]. intros m Hm. apply F2. intros Hm2.
    apply (Hd m Hm). set_solver.
  - apply vlook_vupd_ne. intros ->. apply (Hd m Hm). set_solver.
  - exact H2'.
  - apply vlook_vupd_ne. intros ->. done.
Qed.

(** Link and unlink leave payloads alone. *)
Definition same_orders ns ns' (m : Z) : Prop :=
  forall nd, ns.[m] = Some nd -> exists nd', ns'.[m] = Some nd' /\ node_order nd' = node_order nd.

Lemma link_nodes_orders ns n tail nd m : m <> n -> same_orders ns (link_nodes ns n tail nd) m.
Proof.
  intros Hm x Hx. unfold link_nodes. case_match; [exists x; by rewrite vlook_vupd_ne|].
  destruct (ns.[tail]) as [tn|] eqn:Et; [|exists x; by rewrite vlook_vupd_ne].
  pose proof (vlook_Some_lt _ _ _ Et).
  destruct (decide (tail = m)) as [->|].
  - exists (set_next tn n). rewrite vlook_vupd_eq by (by rewrite vsize_vupd).
    split; [done|]. by simplify_eq.
  - exists x. by rewrite !vlook_vupd_ne.
Qed.

Lemma unlink_nodes_orders ns n prev next m : m <> n ->
  same_orders ns (unlink_nodes ns n prev next) m.
Proof.
  intros Hm x Hx. unfold unlink_nodes. rewrite vlook_vupd_ne by done.
  assert (exists y, (bypass_previous ns prev next).[m] = Some y /\ node_order y = node_order x)
    as (y & Hy & Ho).
  { unfold bypass_previous. case_match; [by exists x|].
    destruct (ns.[prev]) as [p|] eqn:Ep; [|by exists x].
    rewrite vlook_vupd by (by eapply vlook_Some_lt). case_decide; [|by exists x].
    subst. eexists. split; [done|]. by simplify_eq. }
  rewrite <- Ho. unfold bypass_next. case_match; [by exists y|].
  destruct ((bypass_previous ns prev next).[next]) as [p|] eqn:Ep; [|by exists y].
  rewrite vlook_vupd by (by eapply vlook_Some_lt). case_decide; [|by exists y].
  subst. eexists. split; [done|]. by simplify_eq.
Qed.

Lemma vsize_link ns n tail nd : vsize (link_nodes ns n tail nd) = vsize ns.
Proof. unfold link_nodes. repeat case_match; by rewrite ?vsize_vupd. Qed.

Lemma vsize_unlink ns n prev next : vsize (unlink_nodes ns n prev next) = vsize ns.
Proof.
  unfold unlink_nodes, bypass_next, bypass_previous. rewrite vsize_vupd.
  repeat case_match; by rewrite ?vsize_vupd.
Qed.
End Segments.
