(* ===== verification/BookWrites.v ===== *)
(** * BookWrites: the net effect of [add_resting], [remove_node] and a trade

    Each method is executed once, statement by statement, and summarised by
    [write]: one level, one word vector, the arena, the free stack, the index
    and the statistics change, everything else is kept. *)
From Stdlib Require Import ZArith Lia.
From stdpp Require Import base numbers gmap list.
From S2P Require Import Prelude Types OrderIndex Bitmap OrderBook BookSpec Prices BookRep.
Local Open Scope Z_scope.

(** Decides the comparisons of a link with the sentinel. *)
Ltac sentinel_tests :=
  repeat match goal with
  | |- context [?a =? invalid_node] =>
    first [ rewrite (proj2 (Z.eqb_neq a invalid_node)) by congruence
          | rewrite (proj2 (Z.eqb_eq a invalid_node)) by congruence ]; cbn
  end.

Section Writes.
Context {I : Type} `{!OrderIndexOps I}.
Implicit Types (b : OrderBook I).

Definition write b (side : Side) (i : Z) (l : PriceLevel) (bits : list Z)
    (ns : list OrderNode) (free : list Z) (oi : I) (st : BookStats) : OrderBook I :=
  match side with
  | Buy => MkBook (config b) (price_count b) (bids b).[i := l] (asks b) bits (ask_bits b)
             ns free oi st
  | Sell => MkBook (config b) (price_count b) (bids b) (asks b).[i := l] (bid_bits b) bits
              ns free oi st
  end.

(** Reading back what was written. *)
Lemma write_levels b side i l bits ns free oi st s :
  levels (write b side i l bits ns free oi st) s =
    if decide (s = side) then (levels b s).[i := l] else levels b s.
Proof. by destruct side, s. Qed.

Lemma write_bits b side i l bits ns free oi st s :
  side_bits (write b side i l bits ns free oi st) s =
    if decide (s = side) then bits else side_bits b s.
Proof. by destruct side, s. Qed.

Lemma write_config b side i l bits ns free oi st :
  config (write b side i l bits ns free oi st) = config b /\
  price_count (write b side i l bits ns free oi st) = price_count b.
Proof. by destruct side. Qed.

Lemma write_rest b side i l bits ns free oi st :
  let b' := write b side i l bits ns free oi st in
  nodes b' = ns /\ free_nodes b' = free /\ order_index b' = oi /\ stats b' = st.
Proof. by destruct side. Qed.

(** ** [add_resting] *)

Definition new_node (o : RestingOrder) (prev : Z) : OrderNode :=
  MkNode (ro_id o) (ro_price o) (ro_quantity o) (ro_priority o) prev invalid_node (ro_side o).

Definition appended (l : PriceLevel) (n q : Z) : PriceLevel :=
  MkLevel (u64 (total_quantity l + q)) (if l_tail l =? invalid_node then n else l_head l) n
    (u32 (l_count l + 1)).

Lemma add_resting_effect b (o : RestingOrder) n free i l bits oi events :
  free_nodes b = n :: free -> 0 <= n < vsize (nodes b) ->
  price_index (config b) (ro_price o) = Ok i ->
  (levels b (ro_side o)).[i] = Some l ->
  (l_tail l <> invalid_node -> l_tail l <> n /\ is_Some (nodes b).[l_tail l]) ->
  (if u32 (l_count l + 1) =? 1 then set_bit (side_bits b (ro_side o)) i
   else Ok (side_bits b (ro_side o))) = Ok bits ->
  index_insert (order_index b) (ro_id o) n = Ok (oi, true) ->
  add_resting b (ro_id o) (ro_side o) (ro_price o) (ro_quantity o) (ro_priority o) events =
    Ok (write b (ro_side o) i (appended l n (ro_quantity o)) bits
          (link_nodes (nodes b) n (l_tail l) (new_node o (l_tail l))) free oi
          (add_resting_count (stats b) 1),
        events ++ [MkEvent (ro_priority o) Rested (ro_side o) NoReason 0 (ro_id o) 0
                     (ro_price o) (ro_quantity o)]).
Proof.
  destruct b as [cfg pc bd ak bb ab ns fr ix st], o as [id side p q pr]; cbn [config nodes
    free_nodes order_index stats ro_id ro_side ro_price ro_quantity ro_priority].
  intros -> Hn Hi Hl Ht Hb Hins.
  pose proof (vlook_Some_lt _ _ _ Hl) as Hir.
  destruct (vlook_lt_is_Some _ _ Hn) as [n0 Hn0].
  unfold add_resting, update_node, update_level, link_nodes, appended, new_node, emit,
    set_active. cbn [free_nodes set_free_nodes].
  destruct (Z.eqb_spec (l_tail l) invalid_node) as [Hz|Hz].
  - destruct side; cbn in *; repeat (run; cbn); rewrite Hz; cbn; repeat (run; cbn).
    all: destruct (u32 (l_count l + 1) =? 1); simplify_eq; repeat (run; cbn); done.
  - destruct (Ht Hz) as [Hne [tn Htn]]. rewrite Htn.
    pose proof (vlook_Some_lt _ _ _ Htn) as Htr.
    destruct side; cbn in *; repeat (run; cbn);
      (destruct (Z.eqb_spec (l_tail l) invalid_node); [done|]); cbn; repeat (run; cbn).
    all: destruct (u32 (l_count l + 1) =? 1); simplify_eq; repeat (run; cbn); done.
Qed.

(** ** [remove_node] *)

Definition unlinked (l : PriceLevel) (nd : OrderNode) : PriceLevel :=
  MkLevel (u64 (total_quantity l - n_remaining nd))
    (if n_previous nd =? invalid_node then n_next nd else l_head l)
    (if n_next nd =? invalid_node then n_previous nd else l_tail l)
    (u32 (l_count l - 1)).

Definition neighbour (ns : list OrderNode) (n m : Z) : Prop :=
  m <> invalid_node -> m <> n /\ is_Some ns.[m].

Lemma remove_node_effect b n nd i l bits oi e :
  (nodes b).[n] = Some nd -> price_index (config b) (n_price nd) = Ok i ->
  (levels b (n_side nd)).[i] = Some l ->
  neighbour (nodes b) n (n_previous nd) -> neighbour (nodes b) n (n_next nd) ->
  (n_previous nd <> invalid_node -> n_previous nd <> n_next nd) ->
  (if u32 (l_count l - 1) =? 0 then clear_bit (side_bits b (n_side nd)) i
   else Ok (side_bits b (n_side nd))) = Ok bits ->
  index_erase (order_index b) (n_id nd) = Ok (oi, e) ->
  remove_node b n =
    Ok (write b (n_side nd) i (unlinked l nd) bits
          (unlink_nodes (nodes b) n (n_previous nd) (n_next nd)) (n :: free_nodes b) oi
          (add_resting_count (stats b) (-1))).
Proof.
  destruct b as [cfg pc bd ak bb ab ns fr ix st]; cbn [config nodes free_nodes order_index stats].
  intros Hn Hi Hl Hp Hx Hd Hb He.
  pose proof (vlook_Some_lt _ _ _ Hl) as Hir. pose proof (vlook_Some_lt _ _ _ Hn) as Hnr.
  unfold neighbour in *.
  unfold remove_node, update_node, update_level, unlink_nodes, bypass_previous, bypass_next,
    unlinked, clear_active.
  cbn [nodes config]. rewrite (vget_ok _ _ _ Hn). cbn [mbind result_bind]. rewrite Hi.
  cbn [mbind result_bind].
  destruct (Z.eqb_spec (n_previous nd) invalid_node) as [Hpz|Hpz];
    [|destruct (Hp Hpz) as [Hpn [pn Hpl]]; rewrite Hpl; pose proof (vlook_Some_lt _ _ _ Hpl)];
    (destruct (Z.eqb_spec (n_next nd) invalid_node) as [Hxz|Hxz];
     [|destruct (Hx Hxz) as [Hxn [xn Hxl]]; pose proof (vlook_Some_lt _ _ _ Hxl)]);
    try (assert (n_previous nd <> n_next nd) by auto);
    destruct (n_side nd) eqn:Es; cbn in *; repeat (run; cbn); sentinel_tests;
    repeat (run; cbn); sentinel_tests; rewrite ?Es; cbn; repeat (run; cbn); simplify_eq.
  all: destruct (u32 (l_count l - 1) =? 0); simplify_eq; repeat (run; cbn).
  all: try (rewrite (vlook_vupd_ne ns (n_previous nd)) by done); try rewrite Hxl; done.
Qed.
End Writes.
