(* ===== verification/BookInv.v ===== *)
(** * BookInv: [add_resting], [remove_node] and a partial fill preserve the
      representation invariant

    Each lemma takes a represented book, runs the method to a successful end
    and gives the ghost list of the result: appended, filtered, or with one
    quantity reduced. *)
From Stdlib Require Import ZArith Lia.
From stdpp Require Import base numbers gmap list.
From S2P Require Import Prelude Types OrderIndex Bitmap OrderBook BookSpec Prices BookRep.
From S2P Require Import BookWrites.
Local Open Scope Z_scope.

(** ** Ghost lists *)

Lemma total_app (l1 l2 : list RestingOrder) : total (l1 ++ l2) = total l1 + total l2.
Proof. induction l1 as [|o l1 IH]; cbn; [done|]. unfold total in *. lia. Qed.

Lemma total_nonneg (l : list RestingOrder) : (forall o, o ∈ l -> 0 < ro_quantity o) -> 0 <= total l.
Proof.
  induction l as [|o l IH]; intros H; cbn; [done|]. fold (total l).
  pose proof (H o ltac:(set_solver)). assert (0 <= total l) by (apply IH; set_solver). lia.
Qed.

Section Ghost.
Implicit Types (G : ghost).

Lemma elem_of_queue G side p x : x ∈ queue G side p <-> at_level side p x.2 /\ x ∈ G.
Proof. unfold queue. by rewrite list_elem_of_filter. Qed.

Lemma queue_app G1 G2 side p : queue (G1 ++ G2) side p = queue G1 side p ++ queue G2 side p.
Proof. apply filter_app. Qed.

Lemma queue_single n o side p :
  queue [(n, o)] side p = if decide (at_level side p o) then [(n, o)] else [].
Proof. unfold queue. rewrite filter_cons, filter_nil. cbn. done. Qed.

Lemma queue_length G side p : (length (queue G side p) <= length G)%nat.
Proof. apply length_filter. Qed.

Lemma elem_fst G n o : (n, o) ∈ G -> n ∈ G.*1.
Proof. intros H. apply list_elem_of_fmap. by exists (n, o). Qed.

Lemma elem_fst_inv G n : n ∈ G.*1 -> exists o, (n, o) ∈ G.
Proof. intros ([n' o] & -> & H)%list_elem_of_fmap. by exists o. Qed.

Lemma nodup_fst_inj G n o o' : NoDup G.*1 -> (n, o) ∈ G -> (n, o') ∈ G -> o = o'.
Proof.
  intros Hnd H1 H2. apply list_elem_of_lookup in H1 as [i Hi], H2 as [j Hj].
  assert (i = j) as <-; [|congruence].
  eapply (NoDup_lookup _ _ _ n Hnd); rewrite list_lookup_fmap; [by rewrite Hi|by rewrite Hj].
Qed.

Lemma nodup_id_inj G x y : NoDup (ro_id <$> G.*2) -> x ∈ G -> y ∈ G ->
  ro_id x.2 = ro_id y.2 -> x = y.
Proof.
  intros Hnd H1 H2 He. apply list_elem_of_lookup in H1 as [i Hi], H2 as [j Hj].
  assert (i = j) as <-; [|congruence].
  eapply (NoDup_lookup _ _ _ (ro_id x.2) Hnd); rewrite !list_lookup_fmap;
    [by rewrite Hi|by rewrite Hj, He].
Qed.

Lemma NoDup_fmap_filter {A B} (f : A -> B) (P : A -> Prop) `{forall x, Decision (P x)} (l : list A) :
  NoDup (f <$> l) -> NoDup (f <$> filter P l).
Proof.
  induction l as [|x l IH]; [done|]. cbn [fmap list_fmap].
  intros [Hx Hl]%list.NoDup_cons. rewrite filter_cons. case_decide; [|auto].
  cbn. apply list.NoDup_cons. split; [|auto].
  intros (y & Hy & Hin)%list_elem_of_fmap. apply Hx, list_elem_of_fmap. exists y.
  split; [done|]. by apply list_elem_of_filter in Hin as [_ ?].
Qed.

Lemma queue_nodup G side p : NoDup G.*1 -> NoDup (queue G side p).*1.
Proof. apply NoDup_fmap_filter. Qed.

Lemma id_map_keys G : ((fun x : Z * RestingOrder => (ro_id x.2, x.1)) <$> G).*1 = ro_id <$> G.*2.
Proof. rewrite <- !list_fmap_compose. done. Qed.

Lemma id_map_lookup G id n : NoDup (ro_id <$> G.*2) ->
  id_map G !! id = Some n <-> exists o, (n, o) ∈ G /\ ro_id o = id.
Proof.
  intros Hnd. unfold id_map. rewrite <- elem_of_list_to_map by (by rewrite id_map_keys).
  rewrite list_elem_of_fmap. split.
  - intros ([n' o] & [= -> ->] & H). by exists o.
  - intros (o & H & <-). by exists (n, o).
Qed.

Lemma id_map_None G id : NoDup (ro_id <$> G.*2) ->
  id_map G !! id = None <-> id ∉ ro_id <$> G.*2.
Proof.
  intros Hnd. unfold id_map. rewrite <- id_map_keys. symmetry. apply not_elem_of_list_to_map.
Qed.

Lemma id_map_size G : NoDup (ro_id <$> G.*2) -> size (id_map G) = length G.
Proof.
  induction G as [|x G IH]; [done|]. cbn [fmap list_fmap].
  intros [Hx Hnd]%list.NoDup_cons. unfold id_map. cbn [fmap list_fmap list_to_map foldr].
  rewrite map_size_insert_None; [cbn; by rewrite <- (IH Hnd)|]. by apply (id_map_None G).
Qed.

Lemma id_map_app G n o : ro_id o ∉ ro_id <$> G.*2 ->
  id_map (G ++ [(n, o)]) = <[ro_id o := n]> (id_map G).
Proof.
  intros Hfresh. unfold id_map. rewrite fmap_app, list_to_map_app. cbn.
  rewrite <- insert_union_r; [by rewrite map_union_empty|].
  apply not_elem_of_list_to_map_1. by rewrite id_map_keys.
Qed.

Definition gremove (id : Z) G : ghost := filter (fun x => ro_id x.2 <> id) G.

Lemma id_map_remove G id : NoDup (ro_id <$> G.*2) ->
  id_map (gremove id G) = delete id (id_map G).
Proof.
  intros Hnd. apply map_eq. intros k. apply option_eq. intros n.
  rewrite lookup_delete_Some, !id_map_lookup; [|done|].
  - unfold gremove. setoid_rewrite list_elem_of_filter. cbn. naive_solver.
  - unfold gremove. rewrite <- list_fmap_compose in *. by apply NoDup_fmap_filter.
Qed.

Lemma queue_remove G id side p :
  queue (gremove id G) side p = filter (fun x => ro_id x.2 <> id) (queue G side p).
Proof. unfold queue, gremove. apply filter_comm. Qed.

Lemma gremove_snd G id : (gremove id G).*2 = remove_order id G.*2.
Proof.
  unfold gremove, remove_order. induction G as [|x G IH]; [done|].
  cbn [fmap list_fmap]. rewrite !filter_cons. repeat case_decide; try done; cbn; by rewrite IH.
Qed.

(** Removing the order [o] that sits in the middle of its queue. *)
Lemma gremove_split G n o l1 l2 :
  NoDup (ro_id <$> G.*2) -> G = l1 ++ (n, o) :: l2 -> gremove (ro_id o) G = l1 ++ l2.
Proof.
  intros Hnd ->. unfold gremove. rewrite filter_app, filter_cons. cbn.
  rewrite decide_False by tauto.
  rewrite !fmap_app in Hnd. cbn in Hnd. apply list.NoDup_app in Hnd as (_ & Hd & Hnd).
  apply list.NoDup_cons in Hnd as [Hx _].
  rewrite !filter_all; [done| |].
  - intros x Hin He. apply Hx. rewrite <- He. by do 2 apply list_elem_of_fmap_2.
  - intros x Hin He. apply (Hd (ro_id x.2)); [by do 2 apply list_elem_of_fmap_2|].
    rewrite He. set_solver.
Qed.
End Ghost.

(** ** Consequences of the invariant *)

Section RepFacts.
Context {I : Type} `{!OrderIndexOps I, !OrderIndexLaws I}.
Context {b : OrderBook I} {G : ghost} (R : book_rep b G).

Lemma arena_nodup : NoDup (free_nodes b ++ G.*1).
Proof.
  rewrite (br_arena _ _ R). apply (NoDup_fmap_2 Z.of_nat), NoDup_seq.
Qed.

Lemma arena_range n : n ∈ free_nodes b ++ G.*1 -> 0 <= n < vsize (nodes b) /\ n <> invalid_node.
Proof.
  rewrite (br_arena _ _ R). intros (k & -> & Hk)%list_elem_of_fmap.
  apply elem_of_seq in Hk. pose proof (br_nodes _ _ R) as Hn.
  pose proof (cfg_orders _ (br_config _ _ R)).
  assert (Z.of_nat k < vsize (nodes b)) by (unfold vsize; lia).
  split; [lia|]. unfold invalid_node. lia.
Qed.

Lemma live_nodup : NoDup G.*1.
Proof. pose proof arena_nodup as H. by apply list.NoDup_app in H as (_ & _ & ?). Qed.

Lemma live_range n : n ∈ G.*1 -> 0 <= n < vsize (nodes b) /\ n <> invalid_node.
Proof. intros. apply arena_range. set_solver. Qed.

Lemma arena_length : (length (free_nodes b) + length G = length (nodes b))%nat.
Proof.
  pose proof (Permutation_length (br_arena _ _ R)) as H.
  by rewrite length_app, !length_fmap, length_seq in H.
Qed.

Lemma live_count : Z.of_nat (length G) <= maximum_orders (config b).
Proof. pose proof arena_length. pose proof (br_nodes _ _ R). unfold vsize in *. lia. Qed.

(** The free stack is empty exactly when the book is full. *)
Lemma free_empty_full : free_nodes b = [] <-> maximum_orders (config b) <= Z.of_nat (length G).
Proof.
  pose proof arena_length as H. pose proof (br_nodes _ _ R). unfold vsize in *.
  destruct (free_nodes b) as [|n f]; cbn in H; split; try done; lia.
Qed.

Lemma level_of_order n o : (n, o) ∈ G -> exists i l,
  0 <= i < tick_count (config b) /\ ro_price o = price_at (config b) i /\
  price_index (config b) (ro_price o) = Ok i /\ (levels b (ro_side o)).[i] = Some l /\
  level_rep (nodes b) l (queue G (ro_side o) (ro_price o)).
Proof.
  intros Hin. destruct (br_orders _ _ R _ _ Hin) as [Hl _].
  apply (on_ladder_spec (br_config _ _ R)) in Hl as (i & Hi & Hp).
  destruct (br_level _ _ R (ro_side o) i Hi) as (l & Hlv & Hrep).
  exists i, l. rewrite Hp in *. split_and!; auto; try lia.
  by apply price_index_ok; [apply R|].
Qed.

Lemma bits_range side i : 0 <= i < tick_count (config b) -> 0 <= i < 64 * vsize (side_bits b side).
Proof.
  intros Hi. destruct (br_words _ _ R side) as [_ ->].
  pose proof (Z.div_mod (tick_count (config b) + 63) 64).
  pose proof (Z.mod_pos_bound (tick_count (config b) + 63) 64). lia.
Qed.

Lemma queue_valid side p : valid_nodes (nodes b) (queue G side p).*1.
Proof.
  intros n ([n' o] & -> & Hin)%list_elem_of_fmap. apply elem_of_queue in Hin as [_ Hin].
  apply live_range. by eapply elem_fst.
Qed.

(** Two queues that share a node are the same queue. *)
Lemma queues_disjoint n side p side' p' :
  n ∈ (queue G side p).*1 -> n ∈ (queue G side' p').*1 -> side = side' /\ p = p'.
Proof.
  intros ([n1 o1] & -> & H1)%list_elem_of_fmap ([n2 o2] & He & H2)%list_elem_of_fmap.
  cbn in He. subst n2. apply elem_of_queue in H1 as [[H1s H1p] H1], H2 as [[H2s H2p] H2].
  cbn in *. pose proof (nodup_fst_inj _ _ _ _ live_nodup H1 H2). subst. done.
Qed.

Lemma find_live (id : Z) : index_find (order_index b) id = Ok (id_map G !! id).
Proof. eapply index_find_ok. apply R. Qed.
End RepFacts.

(** ** One level changes

    What a write at level [i] of [side] must establish for the ghost list
    [G'] to be represented again. *)
Section WriteRep.
Context {I : Type} `{!OrderIndexOps I, !OrderIndexLaws I}.
Context (b : OrderBook I) (G G' : ghost) (R : book_rep b G).
Context (side : Side) (i : Z) (l : PriceLevel) (bits : list Z) (ns : list OrderNode)
        (free : list Z) (oi : I) (st : BookStats).

Record write_good : Prop := {
  wg_index : 0 <= i < tick_count (config b);
  wg_words : words_ok bits;
  wg_bits : vsize bits = vsize (side_bits b side);
  wg_nodes : vsize ns = vsize (nodes b);
  wg_arena : free ++ G'.*1 ≡ₚ Z.of_nat <$> seq 0 (length (nodes b));
  wg_ids : NoDup (ro_id <$> G'.*2);
  wg_oi : index_repr oi (maximum_orders (config b)) (id_map G');
  wg_orders : forall n o, (n, o) ∈ G' -> order_ok (config b) o;
  wg_node : forall n o, (n, o) ∈ G' -> exists nd, ns.[n] = Some nd /\ node_order nd = o;
  wg_level : level_rep ns l (queue G' side (price_at (config b) i));
  wg_others : forall s p, ~ (s = side /\ p = price_at (config b) i) ->
    queue G' s p = queue G s p /\
    forall n, n ∈ (queue G s p).*1 -> ns.[n] = (nodes b).[n];
  wg_active : forall j, 0 <= j -> active bits j =
    if i =? j then bool_decide (queue G' side (price_at (config b) i) <> [])
    else active (side_bits b side) j;
  wg_resting : resting_count st = Z.of_nat (length G') }.

Lemma level_rep_frame ns' l' (q : ghost) : level_rep (nodes b) l' q ->
  (forall n, n ∈ q.*1 -> ns'.[n] = (nodes b).[n]) -> level_rep ns' l' q.
Proof. intros [Hs Hh Ht Hc Htot] Hf. constructor; auto. by eapply dseg_frame. Qed.

Lemma write_rep : write_good -> book_rep (write b side i l bits ns free oi st) G'.
Proof.
  intros W. pose proof (br_config _ _ R) as Hcfg.
  destruct (write_config b side i l bits ns free oi st) as [Hc Hpc].
  destruct (write_rest b side i l bits ns free oi st) as (Hns & Hfr & Hix & Hst).
  assert (Hlen : length ns = length (nodes b)).
  { pose proof (wg_nodes W). unfold vsize in *. lia. }
  constructor; rewrite ?Hc, ?Hpc, ?Hns, ?Hfr, ?Hix, ?Hst, ?Hlen; try apply W; try apply R.
  - intros s. rewrite write_levels. case_decide; rewrite ?vsize_vupd; apply R.
  - intros s. rewrite write_bits. case_decide as Hs; [|apply R]. rewrite (wg_bits W), <- Hs.
    split; [apply W|apply R].
  - rewrite (wg_nodes W). apply R.
  - intros s j Hj. rewrite write_levels. destruct (br_level _ _ R s j Hj) as (l0 & Hl0 & Hrep).
    destruct (decide (s = side /\ j = i)) as [[-> ->]|Hne].
    { exists l. rewrite decide_True by done. split; [|apply W].
      apply vlook_vupd_eq. by eapply vlook_Some_lt. }
    exists l0. destruct (wg_others W s (price_at (config b) j)) as [-> Hf].
    { intros [-> Hp]. apply Hne. split; [done|]. by eapply price_at_inj. }
    split; [|by apply level_rep_frame].
    case_decide; [|done]. rewrite vlook_vupd_ne; [done|]. naive_solver.
  - intros s j Hj. rewrite write_bits. destruct (decide (s = side)) as [->|Hs].
    + rewrite (wg_active W) by done. destruct (Z.eqb_spec i j) as [<-|Hij].
      * rewrite bool_decide_eq_true. pose proof (wg_index W).
        destruct (queue G' side (price_at (config b) i)) as [|x q]; [|].
        -- split; [done|]. intros (x & Hx & _). by apply elem_of_nil in Hx.
        -- split; [|done]. intros _. exists x. split; [set_solver|lia].
      * rewrite (br_active _ _ R) by done. destruct (wg_others W side (price_at (config b) j))
          as [-> _]; [|done]. intros [_ Hp]. apply Hij. symmetry. by eapply price_at_inj.
    + rewrite (br_active _ _ R) by done.
      by destruct (wg_others W s (price_at (config b) j)) as [-> _]; [naive_solver|].
Qed.
End WriteRep.

(** ** [add_resting] *)

Lemma link_nodes_other (ns : list OrderNode) n tail nd m :
  m <> n -> (tail = invalid_node \/ m <> tail) -> (link_nodes ns n tail nd).[m] = ns.[m].
Proof.
  intros Hn Ht. unfold link_nodes. destruct (Z.eqb_spec tail invalid_node).
  - by rewrite vlook_vupd_ne.
  - destruct Ht; [done|]. case_match; by rewrite !vlook_vupd_ne.
Qed.

Lemma link_nodes_new (ns : list OrderNode) n tail nd :
  0 <= n < vsize ns -> tail <> n -> (link_nodes ns n tail nd).[n] = Some nd.
Proof.
  intros Hn Ht. unfold link_nodes. case_match; [by apply vlook_vupd_eq|].
  case_match; [rewrite vlook_vupd_ne by done|]; by apply vlook_vupd_eq.
Qed.

Lemma last_or_elem (d : Z) (q : list Z) : q <> [] -> last_or d q ∈ q.
Proof.
  revert d. induction q as [|x q IH]; intros d; [done|]. intros _. cbn.
  destruct q; [set_solver|]. apply elem_of_cons. right. by apply IH.
Qed.

Lemma hd_elem (d : Z) (q : list Z) : q <> [] -> hd d q ∈ q.
Proof. destruct q; [done|]. intros _. cbn. set_solver. Qed.

Lemma level_tail_cases ns l q : level_rep ns l q ->
  (l_tail l = invalid_node /\ q = []) \/ l_tail l ∈ q.*1.
Proof.
  intros H. rewrite (lr_tail _ _ _ H). destruct q as [|x q]; [by left|]. right.
  by apply last_or_elem.
Qed.

Section Add.
Context {I : Type} `{!OrderIndexOps I, !OrderIndexLaws I}.
Context (b : OrderBook I) (G : ghost) (R : book_rep b G).
Context (o : RestingOrder) (n : Z) (free : list Z).
Context (Hfree : free_nodes b = n :: free) (Hok : order_ok (config b) o)
        (Hid : ro_id o ∉ ro_id <$> G.*2).

Lemma add_fresh : 0 <= n < vsize (nodes b) /\ n <> invalid_node /\ n ∉ G.*1.
Proof.
  pose proof (arena_nodup R) as H. rewrite Hfree in H. cbn in H.
  apply list.NoDup_cons in H as [H _].
  destruct (arena_range R n) as [H1 H2]; [rewrite Hfree; set_solver|].
  split_and!; try lia. set_solver.
Qed.

Lemma add_room : Z.of_nat (length G) < maximum_orders (config b).
Proof.
  destruct (Z_lt_le_dec (Z.of_nat (length G)) (maximum_orders (config b))) as [|H]; [done|].
  apply (free_empty_full R) in H. congruence.
Qed.

Lemma appended_rep l : level_rep (nodes b) l (queue G (ro_side o) (ro_price o)) ->
  level_rep (link_nodes (nodes b) n (l_tail l) (new_node o (l_tail l)))
    (appended l n (ro_quantity o)) (queue G (ro_side o) (ro_price o) ++ [(n, o)]).
Proof.
  intros H. destruct add_fresh as (Hn & Hni & Hng).
  set (q := queue G (ro_side o) (ro_price o)) in *.
  assert (Hqn : n ∉ q.*1).
  { intros (x & -> & [_ Hx]%elem_of_queue)%list_elem_of_fmap. apply Hng.
    by apply list_elem_of_fmap_2. }
  pose proof (queue_length G (ro_side o) (ro_price o)) as Hlen. fold q in Hlen.
  pose proof (live_count R). pose proof (cfg_orders _ (br_config _ _ R)).
  constructor; rewrite ?fmap_app; cbn [fmap list_fmap fst snd].
  - rewrite (lr_tail _ _ _ H). apply dseg_link; auto.
    + apply H.
    + apply queue_nodup, (live_nodup R).
    + apply (queue_valid R).
  - cbn. destruct (level_tail_cases _ _ _ H) as [[-> ->]|Ht]; [done|].
    destruct (Z.eqb_spec (l_tail l) invalid_node) as [E|].
    + exfalso. apply (queue_valid R _ _ _ Ht). done.
    + rewrite hd_app. rewrite (lr_head _ _ _ H). destruct q.*1; [by apply elem_of_nil in Ht|done].
  - cbn. by rewrite last_or_snoc.
  - cbn. rewrite (lr_count _ _ _ H), length_app, u32_small; cbn; [lia|].
    pose proof add_room. intlia.
  - cbn. rewrite (lr_total _ _ _ H), total_app, u64_idem_add. cbn. f_equal. lia.
Qed.

(** Levels other than the order's keep their queue and their nodes. *)
Lemma add_others l side p : level_rep (nodes b) l (queue G (ro_side o) (ro_price o)) ->
  ~ (side = ro_side o /\ p = ro_price o) ->
  queue (G ++ [(n, o)]) side p = queue G side p /\
  forall m, m ∈ (queue G side p).*1 ->
    (link_nodes (nodes b) n (l_tail l) (new_node o (l_tail l))).[m] = (nodes b).[m].
Proof.
  intros Hl Hne. destruct add_fresh as (Hn & Hni & Hng). split.
  { rewrite queue_app, queue_single, decide_False; [apply app_nil_r|].
    unfold at_level. naive_solver. }
  intros m Hm. apply link_nodes_other.
  - intros ->. apply Hng. apply list_elem_of_fmap in Hm as (x & -> & [_ Hx]%elem_of_queue).
    by apply list_elem_of_fmap_2.
  - destruct (level_tail_cases _ _ _ Hl) as [[? _]|Htl]; [by left|right].
    intros ->. apply Hne. destruct (queues_disjoint R _ _ _ _ _ Htl Hm). done.
Qed.

Lemma add_tail l : level_rep (nodes b) l (queue G (ro_side o) (ro_price o)) ->
  l_tail l <> n /\ (l_tail l <> invalid_node -> is_Some (nodes b).[l_tail l]).
Proof.
  intros Hl. destruct add_fresh as (Hn & Hni & Hng).
  destruct (level_tail_cases _ _ _ Hl) as [[-> _]|Hin]; [done|].
  apply list_elem_of_fmap in Hin as ([m x] & -> & [_ Hin]%elem_of_queue). cbn.
  apply elem_fst in Hin. split; [intros ->; done|].
  intros _. by apply vlook_lt_is_Some, (live_range R).
Qed.

Lemma add_nodes l : level_rep (nodes b) l (queue G (ro_side o) (ro_price o)) ->
  forall m x, (m, x) ∈ G ++ [(n, o)] -> exists nd,
    (link_nodes (nodes b) n (l_tail l) (new_node o (l_tail l))).[m] = Some nd /\
    node_order nd = x.
Proof.
  intros Hl m x Hin. destruct add_fresh as (Hn & Hni & Hng).
  apply elem_of_app in Hin as [Hin|Hin].
  - destruct (br_node _ _ R _ _ Hin) as (nd & Hnd & <-).
    apply link_nodes_orders; [|done]. intros ->. apply Hng. by eapply elem_fst.
  - apply list_elem_of_singleton in Hin as [= -> ->]. eexists. split.
    + apply link_nodes_new; [done|]. by apply add_tail.
    + by destruct o.
Qed.

Lemma add_index : exists oi, index_insert (order_index b) (ro_id o) n = Ok (oi, true) /\
  index_repr oi (maximum_orders (config b)) (id_map (G ++ [(n, o)])).
Proof.
  rewrite id_map_app by done. apply index_insert_ok.
  - apply R.
  - by apply id_map_None; [apply R|].
  - rewrite id_map_size by apply R. apply add_room.
Qed.

(** The bit of the level is set after the append, whether or not it was. *)
Lemma add_bits i l : 0 <= i < tick_count (config b) -> ro_price o = price_at (config b) i ->
  level_rep (nodes b) l (queue G (ro_side o) (ro_price o)) ->
  exists bits, (if u32 (l_count l + 1) =? 1 then set_bit (side_bits b (ro_side o)) i
                else Ok (side_bits b (ro_side o))) = Ok bits /\
    words_ok bits /\ vsize bits = vsize (side_bits b (ro_side o)) /\
    forall j, 0 <= j -> active bits j = (i =? j) || active (side_bits b (ro_side o)) j.
Proof.
  intros Hi Hp Hl. destruct (br_words _ _ R (ro_side o)) as [Hw Hsz].
  pose proof add_room. pose proof (cfg_orders _ (br_config _ _ R)).
  pose proof (queue_length G (ro_side o) (ro_price o)).
  rewrite (lr_count _ _ _ Hl), u32_small by intlia.
  destruct (queue G (ro_side o) (ro_price o)) as [|x q] eqn:Eq.
  - cbn. apply set_bit_ok; [done|]. by apply (bits_range R).
  - destruct (Z.eqb_spec (Z.of_nat (length (x :: q)) + 1) 1) as [E|_]; [cbn in E; lia|].
    eexists. split_and!; [done..|]. intros j Hj. destruct (Z.eqb_spec i j) as [<-|]; [|done].
    apply (br_active _ _ R); [done|]. exists x. rewrite <- Hp, Eq. split; [set_solver|lia].
Qed.

Lemma add_arena : free ++ (G ++ [(n, o)]).*1 ≡ₚ Z.of_nat <$> seq 0 (length (nodes b)).
Proof.
  rewrite <- (br_arena _ _ R), Hfree, fmap_app. cbn.
  rewrite Permutation_middle. by rewrite (Permutation_app_comm G.*1).
Qed.

Lemma add_resting_ok events : exists b',
  add_resting b (ro_id o) (ro_side o) (ro_price o) (ro_quantity o) (ro_priority o) events =
    Ok (b', events ++ [MkEvent (ro_priority o) Rested (ro_side o) NoReason 0 (ro_id o) 0
                        (ro_price o) (ro_quantity o)]) /\
  book_rep b' (G ++ [(n, o)]) /\ config b' = config b /\ free_nodes b' = free /\
  stats b' = add_resting_count (stats b) 1.
Proof.
  destruct add_fresh as (Hn & Hni & Hng). pose proof (br_config _ _ R) as Hcfg.
  pose proof Hok as [Hlad Hq]. apply (on_ladder_spec Hcfg) in Hlad as (i & Hi & Hp).
  destruct (br_level _ _ R (ro_side o) i Hi) as (l & Hlv & Hl). rewrite <- Hp in Hl.
  destruct (add_bits i l Hi Hp Hl) as (bits & Hbits & Hbw & Hbs & Hact).
  destruct add_index as (oi & Hins & Hoi).
  pose proof add_room. pose proof (cfg_orders _ Hcfg). destruct (add_tail l Hl) as [Ht1 Ht2].
  rewrite (add_resting_effect b o n free i l bits oi events Hfree Hn); auto.
  2:{ rewrite Hp. by apply price_index_ok. }
  eexists. split; [done|].
  destruct (write_config b (ro_side o) i (appended l n (ro_quantity o)) bits
    (link_nodes (nodes b) n (l_tail l) (new_node o (l_tail l))) free oi
    (add_resting_count (stats b) 1)) as [Hc _].
  destruct (write_rest b (ro_side o) i (appended l n (ro_quantity o)) bits
    (link_nodes (nodes b) n (l_tail l) (new_node o (l_tail l))) free oi
    (add_resting_count (stats b) 1)) as (_ & Hfr & _ & Hst).
  split; [|done]. apply write_rep with (1 := R). constructor; auto.
  - apply vsize_link.
  - apply add_arena.
  - rewrite !fmap_app. apply list.NoDup_app. split; [apply R|]. cbn. split; [|apply NoDup_singleton].
    intros x Hx. rewrite list_elem_of_singleton. by intros ->.
  - intros m x [Hin|[= -> ->]%list_elem_of_singleton]%elem_of_app; [by eapply (br_orders _ _ R)|done].
  - by apply add_nodes.
  - rewrite <- Hp, queue_app, queue_single, decide_True by done. by apply appended_rep.
  - intros s p. rewrite <- Hp. by apply add_others.
  - intros j Hj. rewrite Hact by done. destruct (Z.eqb_spec i j); [|done]. cbn.
    symmetry. apply bool_decide_eq_true.
    rewrite <- Hp, queue_app, queue_single, decide_True by done. by destruct (queue _ _ _).
  - cbn. rewrite (br_resting _ _ R), length_app, u64_small by intlia. cbn. lia.
Qed.
End Add.

(** ** [remove_node] *)

Lemma unlink_nodes_other (ns : list OrderNode) n prev next m :
  m <> n -> (prev = invalid_node \/ m <> prev) -> (next = invalid_node \/ m <> next) ->
  (unlink_nodes ns n prev next).[m] = ns.[m].
Proof.
  intros Hn Hp Hx. unfold unlink_nodes. rewrite vlook_vupd_ne by done.
  assert ((bypass_previous ns prev next).[m] = ns.[m]) as <-.
  { unfold bypass_previous. destruct (Z.eqb_spec prev invalid_node); [done|].
    destruct Hp; [done|]. case_match; [|done]. by rewrite vlook_vupd_ne. }
  unfold bypass_next. destruct (Z.eqb_spec next invalid_node); [done|].
  destruct Hx; [done|]. case_match; [|done]. by rewrite vlook_vupd_ne.
Qed.

Section Remove.
Context {I : Type} `{!OrderIndexOps I, !OrderIndexLaws I}.
Context (b : OrderBook I) (G : ghost) (R : book_rep b G).
Context (n : Z) (o : RestingOrder) (Hin : (n, o) ∈ G).
Context (q1 q2 : ghost) (Hq : queue G (ro_side o) (ro_price o) = q1 ++ (n, o) :: q2).

Let qn : list Z := q1.*1 ++ n :: q2.*1.

Lemma queue_fst_split : (queue G (ro_side o) (ro_price o)).*1 = qn.
Proof. rewrite Hq, fmap_app. done. Qed.

Lemma qn_nodup : NoDup qn.
Proof. rewrite <- queue_fst_split. apply queue_nodup, (live_nodup R). Qed.

Lemma qn_valid m : m ∈ qn -> m <> invalid_node /\ is_Some (nodes b).[m].
Proof.
  rewrite <- queue_fst_split. intros Hm. split; [by apply (queue_valid R _ _ _ Hm)|].
  apply list_elem_of_fmap in Hm as ([m' x] & -> & [_ Hm]%elem_of_queue).
  apply vlook_lt_is_Some, (live_range R). by eapply elem_fst.
Qed.

(** The neighbours are the sentinel or members of the rest of the queue. *)
Lemma previous_cases : (last_or invalid_node q1.*1 = invalid_node /\ q1 = []) \/
  last_or invalid_node q1.*1 ∈ q1.*1.
Proof. destruct q1 as [|x q]; [by left|]. right. by apply last_or_elem. Qed.

Lemma next_cases : (hd invalid_node q2.*1 = invalid_node /\ q2 = []) \/
  hd invalid_node q2.*1 ∈ q2.*1.
Proof. destruct q2 as [|x q]; [by left|]. right. by apply hd_elem. Qed.

Lemma qn_disjoint m : (m ∈ q1.*1 -> m <> n /\ m ∉ q2.*1) /\ (m ∈ q2.*1 -> m <> n).
Proof.
  pose proof qn_nodup as H. apply list.NoDup_app in H as (_ & Hd & H2).
  apply list.NoDup_cons in H2 as [Hn _]. split.
  - intros Hm. specialize (Hd m Hm). split; set_solver.
  - intros Hm ->. done.
Qed.

Section WithNode.
Context (nd : OrderNode) (l : PriceLevel).
Context (Hnd : (nodes b).[n] = Some nd) (Hord : node_order nd = o).
Context (Hl : level_rep (nodes b) l (queue G (ro_side o) (ro_price o))).

Lemma node_links : n_previous nd = last_or invalid_node q1.*1 /\
  n_next nd = hd invalid_node q2.*1.
Proof.
  pose proof (lr_seg _ _ _ Hl) as Hs. rewrite queue_fst_split in Hs.
  apply dseg_middle in Hs as (nd' & Hn & Hp & Hx). rewrite Hnd in Hn. by injection Hn as <-.
Qed.

Lemma node_neighbours : neighbour (nodes b) n (n_previous nd) /\
  neighbour (nodes b) n (n_next nd) /\
  (n_previous nd <> invalid_node -> n_previous nd <> n_next nd).
Proof.
  destruct node_links as [-> ->]. unfold neighbour. split_and!.
  - intros Hi. destruct previous_cases as [[? _]|Hm]; [done|].
    split; [exact (proj1 (proj1 (qn_disjoint _) Hm))|]. apply qn_valid. unfold qn. set_solver.
  - intros Hi. destruct next_cases as [[? _]|Hm]; [done|].
    split; [exact (proj2 (qn_disjoint _) Hm)|]. apply qn_valid. unfold qn. set_solver.
  - intros Hi. destruct previous_cases as [[? _]|Hm]; [done|].
    destruct next_cases as [[-> _]|Hm2]; [done|]. intros E. rewrite <- E in Hm2.
    by destruct (proj1 (qn_disjoint _) Hm).
Qed.

Lemma unlinked_rep :
  level_rep (unlink_nodes (nodes b) n (n_previous nd) (n_next nd)) (unlinked l nd) (q1 ++ q2).
Proof.
  pose proof (lr_seg _ _ _ Hl) as Hs. rewrite queue_fst_split in Hs.
  pose proof (lr_head _ _ _ Hl) as Hh. pose proof (lr_tail _ _ _ Hl) as Ht.
  pose proof (lr_count _ _ _ Hl) as Hc. pose proof (lr_total _ _ _ Hl) as Htot.
  rewrite Hq in Hc, Htot. rewrite queue_fst_split in Hh, Ht.
  pose proof (queue_length G (ro_side o) (ro_price o)) as Hlen. rewrite Hq in Hlen.
  pose proof (live_count R). pose proof (cfg_orders _ (br_config _ _ R)).
  destruct node_links as [Hp Hx]. unfold qn in *.
  constructor; cbn; rewrite ?fmap_app, ?Hp, ?Hx.
  - apply dseg_unlink; [done|apply qn_nodup|]. intros m Hm. by apply qn_valid.
  - rewrite Hh. destruct previous_cases as [[-> ->]|Hm]; [done|].
    destruct (Z.eqb_spec (last_or invalid_node q1.*1) invalid_node) as [E|].
    + exfalso. rewrite E in Hm. destruct (qn_valid invalid_node); [unfold qn; set_solver|done].
    + rewrite !hd_app. destruct q1.*1; [by apply elem_of_nil in Hm|done].
  - rewrite Ht, !last_or_app. cbn. destruct next_cases as [[-> ->]|Hm]; [done|].
    destruct (Z.eqb_spec (hd invalid_node q2.*1) invalid_node) as [E|].
    + exfalso. rewrite E in Hm. destruct (qn_valid invalid_node); [unfold qn; set_solver|done].
    + destruct q2.*1; [by apply elem_of_nil in Hm|done].
  - rewrite Hc. rewrite length_app in Hlen |- *. rewrite length_app. cbn [length] in *.
    rewrite u32_small by intlia. lia.
  - rewrite Htot, u64_idem_sub. rewrite !fmap_app. cbn [fmap list_fmap snd].
    rewrite !total_app. cbn. fold (total q2.*2). rewrite <- Hord. cbn. f_equal. lia.
Qed.

Lemma remove_others side p : ~ (side = ro_side o /\ p = ro_price o) ->
  queue (gremove (ro_id o) G) side p = queue G side p /\
  forall m, m ∈ (queue G side p).*1 ->
    (unlink_nodes (nodes b) n (n_previous nd) (n_next nd)).[m] = (nodes b).[m].
Proof.
  intros Hne. destruct node_links as [Hp Hx].
  assert (Hout : forall m, m ∈ (queue G side p).*1 -> m ∉ qn).
  { intros m Hm. rewrite <- queue_fst_split. intros Hm'.
    destruct (queues_disjoint R _ _ _ _ _ Hm Hm'). subst. by apply Hne. }
  split.
  - rewrite queue_remove. apply filter_all. intros [m x] Hx' He. cbn in He.
    apply elem_of_queue in Hx' as [[Hs Hpr] Hx']. cbn in *.
    pose proof (nodup_id_inj _ _ _ (br_ids _ _ R) Hx' Hin He) as [= -> ->]. by apply Hne.
  - intros m Hm. specialize (Hout m Hm). unfold qn in Hout.
    apply unlink_nodes_other; [set_solver| |]; rewrite ?Hp, ?Hx.
    + destruct previous_cases as [[-> _]|Hl']; [by left|right]. intros ->. set_solver.
    + destruct next_cases as [[-> _]|Hl']; [by left|right]. intros ->. set_solver.
Qed.
End WithNode.

Lemma queue_removed : queue (gremove (ro_id o) G) (ro_side o) (ro_price o) = q1 ++ q2.
Proof.
  rewrite queue_remove, Hq. apply (gremove_split (q1 ++ (n, o) :: q2) n o q1 q2); [|done].
  rewrite <- Hq. unfold queue. rewrite <- list_fmap_compose.
  apply NoDup_fmap_filter. rewrite list_fmap_compose. apply R.
Qed.

Lemma remove_arena :
  (n :: free_nodes b) ++ (gremove (ro_id o) G).*1 ≡ₚ Z.of_nat <$> seq 0 (length (nodes b)).
Proof.
  rewrite <- (br_arena _ _ R). apply list_elem_of_split in Hin as (g1 & g2 & Hg).
  rewrite (gremove_split G n o g1 g2 (br_ids _ _ R) Hg), Hg, !fmap_app. cbn.
  by rewrite <- Permutation_middle, !Permutation_middle.
Qed.

Lemma remove_length : S (length (gremove (ro_id o) G)) = length G.
Proof.
  apply list_elem_of_split in Hin as (g1 & g2 & Hg).
  rewrite (gremove_split G n o g1 g2 (br_ids _ _ R) Hg), Hg, !length_app. cbn. lia.
Qed.
End Remove.

Section RemoveOk.
Context {I : Type} `{!OrderIndexOps I, !OrderIndexLaws I}.
Context (b : OrderBook I) (G : ghost) (R : book_rep b G).
Context (n : Z) (o : RestingOrder) (Hin : (n, o) ∈ G).

Lemma remove_index : exists oi, index_erase (order_index b) (ro_id o) = Ok (oi, true) /\
  index_repr oi (maximum_orders (config b)) (id_map (gremove (ro_id o) G)).
Proof.
  rewrite id_map_remove by apply R. apply index_erase_ok; [apply R|].
  exists n. apply id_map_lookup; [apply R|]. by exists o.
Qed.

(** The bit is cleared exactly when the queue becomes empty. *)
Lemma remove_bits i l (q1 q2 : ghost) : 0 <= i < tick_count (config b) ->
  ro_price o = price_at (config b) i ->
  level_rep (nodes b) l (queue G (ro_side o) (ro_price o)) ->
  queue G (ro_side o) (ro_price o) = q1 ++ (n, o) :: q2 ->
  exists bits, (if u32 (l_count l - 1) =? 0 then clear_bit (side_bits b (ro_side o)) i
                else Ok (side_bits b (ro_side o))) = Ok bits /\
    words_ok bits /\ vsize bits = vsize (side_bits b (ro_side o)) /\
    forall j, 0 <= j -> active bits j =
      if i =? j then bool_decide (q1 ++ q2 <> []) else active (side_bits b (ro_side o)) j.
Proof.
  intros Hi Hp Hl Hq. destruct (br_words _ _ R (ro_side o)) as [Hw Hsz].
  pose proof (live_count R). pose proof (cfg_orders _ (br_config _ _ R)).
  pose proof (queue_length G (ro_side o) (ro_price o)) as Hlen.
  rewrite (lr_count _ _ _ Hl), Hq in *. rewrite length_app in *. cbn [length] in *.
  rewrite u32_small by intlia.
  destruct (Z.eqb_spec (Z.of_nat (length q1 + S (length q2)) - 1) 0) as [E|E].
  - assert (q1 = [] /\ q2 = []) as [-> ->] by (split; apply nil_length_inv; lia).
    destruct (clear_bit_ok (side_bits b (ro_side o)) i Hw) as (bits & ? & ? & ? & Hact).
    { by apply (bits_range R). }
    exists bits. split_and!; auto. intros j Hj. rewrite Hact by done.
    by destruct (Z.eqb_spec i j).
  - eexists. split_and!; [done..|]. intros j Hj. destruct (Z.eqb_spec i j) as [<-|]; [|done].
    rewrite bool_decide_eq_true_2.
    + apply (br_active _ _ R); [done|]. exists (n, o). rewrite <- Hp. split; [|lia].
      by apply elem_of_queue.
    + intros Hnil. apply app_nil in Hnil as [-> ->]. cbn in E. lia.
Qed.

Lemma remove_node_ok : exists b', remove_node b n = Ok b' /\
  book_rep b' (gremove (ro_id o) G) /\ config b' = config b /\
  free_nodes b' = n :: free_nodes b /\ stats b' = add_resting_count (stats b) (-1).
Proof.
  destruct (level_of_order R n o Hin) as (i & l & Hi & Hp & Hpi & Hlv & Hl).
  destruct (br_node _ _ R n o Hin) as (nd & Hnd & Hord).
  assert (Hqin : (n, o) ∈ queue G (ro_side o) (ro_price o)) by by apply elem_of_queue.
  apply list_elem_of_split in Hqin as (q1 & q2 & Hq).
  destruct (remove_bits i l q1 q2 Hi Hp Hl Hq) as (bits & Hbits & Hbw & Hbs & Hact).
  destruct remove_index as (oi & Her & Hoi).
  destruct (node_neighbours b G R n o Hin q1 q2 Hq nd l Hnd Hord Hl) as (Hnp & Hnx & Hd).
  assert (n_side nd = ro_side o /\ n_price nd = ro_price o /\ n_id nd = ro_id o)
    as (Es & Ep & Ei) by by rewrite <- Hord.
  rewrite (remove_node_effect b n nd i l bits oi true); rewrite ?Es, ?Ep, ?Ei; auto.
  eexists. split; [done|].
  destruct (write_config b (ro_side o) i (unlinked l nd) bits
    (unlink_nodes (nodes b) n (n_previous nd) (n_next nd)) (n :: free_nodes b) oi
    (add_resting_count (stats b) (-1))) as [Hc _].
  destruct (write_rest b (ro_side o) i (unlinked l nd) bits
    (unlink_nodes (nodes b) n (n_previous nd) (n_next nd)) (n :: free_nodes b) oi
    (add_resting_count (stats b) (-1))) as (_ & Hfr & _ & Hst).
  split; [|done].
  pose proof (remove_length b G R n o Hin) as Hlen. pose proof (live_count R).
  pose proof (cfg_orders _ (br_config _ _ R)).
  apply write_rep with (1 := R). constructor; auto.
  - apply vsize_unlink.
  - by apply remove_arena.
  - unfold gremove. rewrite <- list_fmap_compose. apply NoDup_fmap_filter.
    rewrite list_fmap_compose. apply R.
  - intros m x [_ Hx]%list_elem_of_filter. by eapply (br_orders _ _ R).
  - intros m x [Hne Hx]%list_elem_of_filter. cbn in Hne.
    destruct (br_node _ _ R _ _ Hx) as (nd' & Hnd' & <-).
    apply unlink_nodes_orders; [|done]. intros ->. apply Hne.
    by rewrite (nodup_fst_inj _ _ _ _ (live_nodup R) Hx Hin).
  - rewrite <- Hp, (queue_removed b G R n o q1 q2 Hq). by eapply (unlinked_rep b G R n o Hin).
  - intros s p. rewrite <- Hp. by eapply (remove_others b G R n o Hin).
  - intros j Hj. by rewrite Hact, <- Hp, (queue_removed b G R n o q1 q2 Hq).
  - cbn. rewrite (br_resting _ _ R), u64_small by intlia. lia.
Qed.
End RemoveOk.

(** ** A trade reduces one order in place *)

Definition greduce (id t : Z) (G : ghost) : ghost :=
  (fun x => if decide (ro_id x.2 = id) then (x.1, set_quantity x.2 (ro_quantity x.2 - t)) else x)
    <$> G.

Lemma greduce_fst id t G : (greduce id t G).*1 = G.*1.
Proof.
  unfold greduce. rewrite <- list_fmap_compose. apply list_fmap_ext.
  intros i [n o] _. cbn. by case_decide.
Qed.

Lemma greduce_snd id t G : (greduce id t G).*2 = reduce_order id t G.*2.
Proof.
  unfold greduce, reduce_order. rewrite <- !list_fmap_compose. apply list_fmap_ext.
  intros i [n o] _. cbn. by case_decide.
Qed.

Lemma reduce_ids id t l : ro_id <$> reduce_order id t l = ro_id <$> l.
Proof.
  unfold reduce_order. rewrite <- list_fmap_compose. apply list_fmap_ext.
  intros i o _. cbn. by case_decide.
Qed.

Lemma greduce_id_map id t G : id_map (greduce id t G) = id_map G.
Proof.
  unfold id_map, greduce. rewrite <- list_fmap_compose. f_equal. apply list_fmap_ext.
  intros i [n o] _. cbn. by case_decide.
Qed.

Lemma queue_reduce id t G side p : queue (greduce id t G) side p = greduce id t (queue G side p).
Proof.
  unfold queue, greduce. induction G as [|[n o] G IH]; [done|]. cbn [fmap list_fmap].
  rewrite !filter_cons, IH. cbn. destruct (decide (ro_id o = id)); cbn; unfold at_level; cbn.
  - destruct (decide (ro_side o = side /\ ro_price o = p)); [|done]. cbn. by rewrite decide_True.
  - destruct (decide (ro_side o = side /\ ro_price o = p)); [|done]. cbn. by rewrite decide_False.
Qed.

Lemma greduce_other id t (G : ghost) : (forall x, x ∈ G -> ro_id x.2 <> id) -> greduce id t G = G.
Proof.
  intros H. unfold greduce. rewrite <- (list_fmap_id G) at 2. apply list_fmap_ext.
  intros i x Hx. rewrite decide_False; [done|]. apply H. by eapply list_elem_of_lookup_2.
Qed.

Lemma greduce_remove id t G : gremove id (greduce id t G) = gremove id G.
Proof.
  unfold gremove, greduce. induction G as [|[n o] G IH]; [done|]. cbn [fmap list_fmap].
  rewrite !filter_cons, IH. cbn. destruct (decide (ro_id o = id)) as [E|E]; cbn.
  - rewrite !decide_False by tauto. done.
  - by rewrite !decide_True by tauto.
Qed.

Lemma reduce_total id t (l : list RestingOrder) o :
  NoDup (ro_id <$> l) -> o ∈ l -> ro_id o = id -> total (reduce_order id t l) = total l - t.
Proof.
  intros Hnd Hin Hid. unfold reduce_order. induction l as [|x l IH]; [by apply elem_of_nil in Hin|].
  cbn in Hnd |- *. fold (total l). apply list.NoDup_cons in Hnd as [Hx Hnd].
  apply elem_of_cons in Hin as [<-|Hin].
  - rewrite decide_True by done. cbn.
    assert ((fun o0 => if decide (ro_id o0 = id) then set_quantity o0 (ro_quantity o0 - t) else o0)
              <$> l = l) as ->.
    { rewrite <- (list_fmap_id l) at 2. apply list_fmap_ext. intros i y Hy.
      rewrite decide_False; [done|]. intros E. apply Hx. rewrite Hid, <- E.
      apply list_elem_of_fmap_2. by eapply list_elem_of_lookup_2. }
    fold (total l). lia.
  - rewrite decide_False; [|intros E; apply Hx; rewrite E, <- Hid; by apply list_elem_of_fmap_2].
    specialize (IH Hnd Hin). cbn. unfold total in *. lia.
Qed.

(** Writing a quantity does not touch the links. *)
Lemma dseg_set_remaining ns prev q next m nd r :
  dseg ns prev q next -> ns.[m] = Some nd -> dseg (ns.[m := set_remaining nd r]) prev q next.
Proof.
  intros Hs Hm. pose proof (vlook_Some_lt _ _ _ Hm). revert prev Hs.
  induction q as [|k q IH]; intros prev; cbn [dseg]; [done|].
  intros [(x & Hx & Hp & Hn) Hq]. split; [|by apply IH].
  destruct (decide (m = k)) as [->|]; [|exists x; by rewrite vlook_vupd_ne].
  exists (set_remaining nd r). rewrite vlook_vupd_eq by done. by simplify_eq.
Qed.

Section Trade.
Context {I : Type} `{!OrderIndexOps I, !OrderIndexLaws I}.
Context (b : OrderBook I) (G : ghost) (R : book_rep b G).
Context (n t : Z) (o : RestingOrder) (Hin : (n, o) ∈ G) (Ht : 0 <= t <= ro_quantity o).
Context (nd : OrderNode) (Hnd : (nodes b).[n] = Some nd) (Hord : node_order nd = o).

Let ns' : list OrderNode := (nodes b).[n := set_remaining nd (u64 (n_remaining nd - t))].

Lemma trade_quantity : u64 (n_remaining nd - t) = ro_quantity o - t.
Proof.
  destruct (br_orders _ _ R _ _ Hin) as [_ Hq]. rewrite <- Hord in *. cbn in *.
  apply u64_small. intlia.
Qed.

Lemma trade_level l : level_rep (nodes b) l (queue G (ro_side o) (ro_price o)) ->
  level_rep ns' (set_total l (u64 (total_quantity l - t)))
    (queue (greduce (ro_id o) t G) (ro_side o) (ro_price o)).
Proof.
  intros Hl. rewrite queue_reduce. constructor; cbn; rewrite ?greduce_fst.
  - apply dseg_set_remaining; [apply Hl|done].
  - apply Hl.
  - apply Hl.
  - rewrite (lr_count _ _ _ Hl). unfold greduce. by rewrite length_fmap.
  - rewrite (lr_total _ _ _ Hl), u64_idem_sub, greduce_snd.
    rewrite (reduce_total _ _ _ o); [done| |by apply (list_elem_of_fmap_2 snd _ (n, o)), elem_of_queue|done].
    rewrite <- list_fmap_compose. apply NoDup_fmap_filter. rewrite list_fmap_compose. apply R.
Qed.

Lemma trade_others side p : ~ (side = ro_side o /\ p = ro_price o) ->
  queue (greduce (ro_id o) t G) side p = queue G side p /\
  forall m, m ∈ (queue G side p).*1 -> ns'.[m] = (nodes b).[m].
Proof.
  intros Hne. split.
  - rewrite queue_reduce. apply greduce_other. intros [m x] [[Hs Hp] Hx]%elem_of_queue He.
    pose proof (nodup_id_inj _ _ _ (br_ids _ _ R) Hx Hin He) as [= -> ->]. by apply Hne.
  - intros m ([m' x] & -> & [[Hs Hp] Hx]%elem_of_queue)%list_elem_of_fmap.
    apply vlook_vupd_ne. cbn in *. intros <-.
    pose proof (nodup_fst_inj _ _ _ _ (live_nodup R) Hx Hin) as ->. by apply Hne.
Qed.

Lemma trade_orders m x : (m, x) ∈ greduce (ro_id o) t G ->
  order_ok (config b) x /\ exists nd', ns'.[m] = Some nd' /\ node_order nd' = x.
Proof.
  pose proof (vlook_Some_lt _ _ _ Hnd). pose proof trade_quantity as Hq.
  intros ([m' y] & E & Hy)%list_elem_of_fmap. cbn in E.
  destruct (br_orders _ _ R _ _ Hy) as [Hlad Hqty].
  destruct (decide (ro_id y = ro_id o)) as [Hid|Hid].
  - pose proof (nodup_id_inj _ _ _ (br_ids _ _ R) Hy Hin Hid) as [= -> ->].
    injection E as -> ->. split; [split; cbn; [done|intlia]|].
    eexists. unfold ns'. rewrite vlook_vupd_eq by done. split; [done|].
    unfold node_order. cbn. rewrite Hq. by rewrite <- Hord.
  - injection E as -> ->. split; [done|]. destruct (br_node _ _ R _ _ Hy) as (k & Hk & <-).
    exists k. split; [|done]. unfold ns'. rewrite vlook_vupd_ne; [done|]. intros ->.
    pose proof (nodup_fst_inj _ _ _ _ (live_nodup R) Hy Hin). congruence.
Qed.

(** The writes of one trade, before a filled order is removed. *)
Lemma trade_rep i l st : 0 <= i < tick_count (config b) -> ro_price o = price_at (config b) i ->
  (levels b (ro_side o)).[i] = Some l ->
  level_rep (nodes b) l (queue G (ro_side o) (ro_price o)) ->
  resting_count st = resting_count (stats b) ->
  book_rep (write b (ro_side o) i (set_total l (u64 (total_quantity l - t)))
              (side_bits b (ro_side o)) ns' (free_nodes b) (order_index b) st)
           (greduce (ro_id o) t G).
Proof.
  intros Hi Hp Hlv Hl Hst. apply write_rep with (1 := R). constructor; auto.
  - apply R.
  - apply vsize_vupd.
  - rewrite greduce_fst. apply R.
  - rewrite greduce_snd, reduce_ids. apply R.
  - rewrite greduce_id_map. apply R.
  - intros m x Hx. by apply (trade_orders m).
  - intros m x Hx. by apply trade_orders.
  - rewrite <- Hp. by apply trade_level.
  - intros s p. rewrite <- Hp. apply trade_others.
  - intros j Hj. destruct (Z.eqb_spec i j) as [<-|]; [|done].
    rewrite bool_decide_eq_true_2; [|rewrite <- Hp, queue_reduce; intros E].
    + apply (br_active _ _ R); [done|]. exists (n, o). split; [|lia]. rewrite <- Hp.
      by apply elem_of_queue.
    + apply (f_equal length) in E. unfold greduce in E. rewrite length_fmap in E.
      assert ((n, o) ∈ queue G (ro_side o) (ro_price o)) as Hx by by apply elem_of_queue.
      destruct (queue _ _ _); [by apply elem_of_nil in Hx|done].
  - unfold greduce. rewrite Hst, length_fmap. apply R.
Qed.
End Trade.
