(* ===== verification/BookMatch.v ===== *)
(** * BookMatch: the matching loop trades with the earliest order at the best
      price

    The best set bit of the opposite bitmap leads to the head of the best
    queue, which is [best_order] of the specification; one iteration of the
    loop is one step of [spec_match], and the loop's fuel is never used up. *)
From Stdlib Require Import ZArith Lia.
From stdpp Require Import base numbers gmap list.
From S2P Require Import Prelude Types OrderIndex Bitmap OrderBook BookSpec Prices BookRep.
From S2P Require Import BookWrites BookInv.
Local Open Scope Z_scope.

(** ** [best_order] *)

Section BestOrder.
Context (side : Side) (limit : Z).
Implicit Types (l : list RestingOrder) (o : RestingOrder).

Lemma best_order_in l o : best_order side limit l = Some o ->
  o ∈ l /\ crossing side limit o = true.
Proof.
  revert o. induction l as [|x l IH]; intros o; cbn; [done|].
  destruct (best_order side limit l) as [y|].
  - case_match eqn:E; intros [= <-].
    + apply andb_prop in E as [E _]. split; [set_solver|done].
    + destruct (IH y eq_refl). split; [set_solver|done].
  - case_match eqn:E; intros [= <-]. split; [set_solver|done].
Qed.

Lemma best_order_none l : best_order side limit l = None <->
  forall o, o ∈ l -> crossing side limit o = false.
Proof.
  induction l as [|x l IH]; cbn.
  - split; [|done]. intros _ o Ho. by apply elem_of_nil in Ho.
  - destruct (best_order side limit l) as [y|] eqn:E.
    + split; [by case_match|]. intros H. apply best_order_in in E as [Hy Hc].
      rewrite H in Hc; [done|set_solver].
    + destruct (crossing side limit x) eqn:Ex.
      * split; [done|]. intros H. rewrite H in Ex; [done|set_solver].
      * split; [|done]. intros _ o [->|Ho]%elem_of_cons; [done|]. by apply IH.
Qed.

(** The head of the queue at the best price is the order the rule selects. *)
Lemma best_order_head l o q p :
  filter (at_level (opposite side) p) l = o :: q -> price_crosses side limit p = true ->
  (forall x, x ∈ l -> ro_side x = opposite side -> price_better side (ro_price x) p = false) ->
  best_order side limit l = Some o.
Proof.
  intros Hf Hp Hbest. revert Hf. induction l as [|x l IH]; [done|]. cbn [best_order].
  rewrite filter_cons. destruct (decide (at_level (opposite side) p x)) as [[Hs Hx]|Hx].
  - intros [= -> _]. assert (crossing side limit o = true) as ->.
    { unfold crossing. rewrite Hs, Hx, Hp. by rewrite bool_decide_eq_true_2. }
    destruct (best_order side limit l) as [y|] eqn:Ey; [|done].
    apply best_order_in in Ey as [Hy Hc]. unfold crossing in Hc.
    apply andb_prop in Hc as [Hc _]. apply bool_decide_eq_true in Hc.
    rewrite Hx, Hbest; [done|set_solver|done].
  - intros Hf. rewrite IH; [|set_solver|done].
    destruct (crossing side limit x) eqn:Ec; [|done]. cbn.
    unfold crossing in Ec. apply andb_prop in Ec as [Ec _]. apply bool_decide_eq_true in Ec.
    assert (Ho : ro_price o = p).
    { assert (o ∈ filter (at_level (opposite side) p) l) as Ho by (rewrite Hf; set_solver).
      by apply list_elem_of_filter in Ho as [[_ Ho] _]. }
    specialize (Hbest x ltac:(set_solver) Ec). rewrite Ho.
    assert (ro_price x <> p) by (intros Hxp; by apply Hx).
    assert (price_better side p (ro_price x) = true) as ->; [|done].
    destruct side; cbn in *; lia.
Qed.
End BestOrder.

(** ** The best level *)

Section BestLevel.
Context {I : Type} `{!OrderIndexOps I, !OrderIndexLaws I}.
Context {b : OrderBook I} {G : ghost} (R : book_rep b G).

Lemma queue_snd side p : (queue G side p).*2 = filter (at_level side p) G.*2.
Proof.
  unfold queue. clear R. induction G as [|x G' IH]; [done|]. cbn [fmap list_fmap].
  rewrite !filter_cons. case_decide; cbn; by rewrite IH.
Qed.

(** Every order of a side lies at an active level. *)
Lemma order_level side o : o ∈ G.*2 -> ro_side o = side -> exists i,
  0 <= i < tick_count (config b) /\ ro_price o = price_at (config b) i /\
  active (side_bits b side) i = true.
Proof.
  intros ([n o'] & -> & Hin)%list_elem_of_fmap <-. cbn.
  destruct (level_of_order R _ _ Hin) as (i & l & Hi & Hp & _).
  exists i. split_and!; try lia. apply (br_active _ _ R); [lia|].
  exists (n, o'). split; [|lia]. by apply elem_of_queue.
Qed.

Lemma best_index_cases side :
  (best_index b side = no_price /\ forall o, o ∈ G.*2 -> ro_side o <> side) \/
  (exists n o q, 0 <= best_index b side < tick_count (config b) /\
    queue G side (price_at (config b) (best_index b side)) = (n, o) :: q /\
    forall x, x ∈ G.*2 -> ro_side x = side ->
      price_better (opposite side) (ro_price x) (price_at (config b) (best_index b side)) = false).
Proof.
  pose proof (br_config _ _ R) as Hcfg. unfold best_index.
  destruct (best_bit_ok side (side_bits b side)) as [[-> Hnone]|(Hr & Ha & Hbest)]; [apply R|..].
  - left. split; [done|]. intros o Ho Hs. destruct (order_level side o Ho Hs) as (i & Hi & _ & Ha).
    rewrite Hnone in Ha; [done|lia].
  - right. set (r := best_bit side (side_bits b side)) in *.
    apply (br_active _ _ R) in Ha as ([n o] & Hx & Hlt); [|lia].
    destruct (queue G side (price_at (config b) r)) as [|[m y] q] eqn:Eq;
      [by apply elem_of_nil in Hx|].
    exists m, y, q. split_and!; [lia..|done|]. intros x Hin Hs.
    destruct (order_level side x Hin Hs) as (i & Hi & -> & Ha).
    destruct (Hbest i) as [->|Hb]; [lia|done|..].
    + destruct side; cbn; lia.
    + clearbody r. pose proof (price_at_mono Hcfg i r). pose proof (price_at_mono Hcfg r i).
      unfold better, price_better in *. destruct side; cbn [opposite]; lia.
Qed.

Lemma crosses_ok side limit i : 0 <= i < tick_count (config b) ->
  crosses b side limit i = Ok (price_crosses side limit (price_at (config b) i)).
Proof.
  intros Hi. destruct (tick_count_bounds (br_config _ _ R)) as [Hb _]. unfold crosses.
  destruct (Z.eqb_spec i no_price) as [->|]; [unfold no_price in *; intlia|].
  rewrite index_price_ok by (done || apply R). by destruct side.
Qed.

(** What [crosses] on the best opposite index decides, and the order that
    the loop then trades with. *)
Lemma best_crossing side limit :
  let i := best_index b (opposite side) in
  (crosses b side limit i = Ok false /\ best_order side limit G.*2 = None) \/
  (exists n o q l, crosses b side limit i = Ok true /\ best_order side limit G.*2 = Some o /\
    (n, o) ∈ G /\ ro_side o = opposite side /\ 0 <= i < tick_count (config b) /\
    ro_price o = price_at (config b) i /\ (levels b (ro_side o)).[i] = Some l /\
    queue G (ro_side o) (ro_price o) = (n, o) :: q /\
    level_rep (nodes b) l (queue G (ro_side o) (ro_price o))).
Proof.
  cbn. destruct (best_index_cases (opposite side)) as [[-> Hno]|(n & o & q & Hi & Hq & Hbest)].
  - left. split; [done|]. apply best_order_none. intros o Ho. unfold crossing.
    rewrite bool_decide_eq_false_2; [done|]. by apply Hno.
  - set (i := best_index b (opposite side)) in *. rewrite opposite_involutive in Hbest.
    rewrite crosses_ok by done.
    assert ((n, o) ∈ queue G (opposite side) (price_at (config b) i)) as Hin
      by (rewrite Hq; set_solver).
    apply elem_of_queue in Hin as [[Hs Hp] Hin]. cbn in Hs, Hp.
    destruct (price_crosses side limit (price_at (config b) i)) eqn:Ec.
    + right. destruct (br_level _ _ R (opposite side) i Hi) as (l & Hlv & Hl).
      exists n, o, q, l. rewrite Hs, Hp. split_and!; auto; try lia.
      eapply best_order_head; [|exact Ec|exact Hbest].
      rewrite <- queue_snd, Hq. done.
    + left. split; [done|]. apply best_order_none. intros x Hx. unfold crossing.
      case_bool_decide as Hsx; [|done]. specialize (Hbest x Hx Hsx).
      destruct side; cbn in *; lia.
Qed.
End BestLevel.

(** ** One iteration *)

Lemma stats_eta (st : BookStats) r : resting_count st = r ->
  st = MkStats (last_sequence st) (commands st) (trades st) (rejected st) r.
Proof. intros <-. by destruct st. Qed.

Section Step.
Context {I : Type} `{!OrderIndexOps I, !OrderIndexLaws I}.
Implicit Types (b : OrderBook I) (G : ghost).

(** The three writes of a trade are one [write]. *)
Lemma trade_effect b side i l n nd t (st : BookStats) :
  (nodes b).[n] = Some nd -> (levels b side).[i] = Some l ->
  exists b1 b2, update_node b n (fun x => set_remaining x (u64 (n_remaining x - t))) = Ok b1 /\
    update_level b1 side i (fun x => set_total x (u64 (total_quantity x - t))) = Ok b2 /\
    stats b2 = stats b /\
    set_stats b2 st = write b side i (set_total l (u64 (total_quantity l - t))) (side_bits b side)
      ((nodes b).[n := set_remaining nd (u64 (n_remaining nd - t))]) (free_nodes b)
      (order_index b) st.
Proof.
  intros Hn Hl. pose proof (vlook_Some_lt _ _ _ Hn). pose proof (vlook_Some_lt _ _ _ Hl).
  unfold update_node, update_level. destruct b, side; cbn in *; repeat (run; cbn);
    eexists _, _; (split; [done|]); cbn; repeat (run; cbn); done.
Qed.

(** One trade: the specification's order is reduced, or removed when nothing
    remains of it. *)
Lemma match_step b G command limit remaining o :
  book_rep b G -> is_u64 remaining -> 0 < remaining ->
  best_order (c_side command) limit G.*2 = Some o ->
  let t := Z.min remaining (ro_quantity o) in
  exists b1 G1,
    (forall fuel events, match_loop (S fuel) b command limit remaining events =
       match_loop fuel b1 command limit (remaining - t) (events ++ [trade_event command o t])) /\
    book_rep b1 G1 /\ G1.*2 = fill_order o t G.*2 /\ config b1 = config b /\
    stats b1 = set_resting (inc_trades (stats b)) G1.*2.
Proof.
  intros R Hr Hpos Hbest t.
  destruct (best_crossing R (c_side command) limit)
    as [[_ Hn]|(n & o' & q & l & Hc & Ho & Hin & Hs & Hi & Hp & Hlv & Hq & Hl)]; [congruence|].
  rewrite Hbest in Ho. injection Ho as <-. set (i := best_index b _) in *.
  destruct (br_orders _ _ R _ _ Hin) as [_ Hqty]. destruct (br_node _ _ R _ _ Hin) as (nd & Hnd & Hord).
  assert (Ht : 0 <= t <= ro_quantity o) by (unfold t; intlia).
  destruct (trade_effect b (ro_side o) i l n nd t (inc_trades (stats b)) Hnd Hlv)
    as (b1 & b2 & H1 & H2 & Hst2 & H3).
  pose proof (trade_rep b G R n t o Hin Ht nd Hnd Hord i l (inc_trades (stats b)) Hi Hp Hlv Hl eq_refl)
    as R3. rewrite <- H3 in R3.
  assert (Hcf : config (set_stats b2 (inc_trades (stats b))) = config b)
    by (rewrite H3; apply write_config).
  assert (Hin3 : (n, set_quantity o (ro_quantity o - t)) ∈ greduce (ro_id o) t G).
  { apply list_elem_of_fmap. exists (n, o). cbn. by rewrite decide_True. }
  destruct (br_node _ _ R3 _ _ Hin3) as (nd3 & Hnd3 & Hord3).
  assert (Hrem : n_remaining nd3 = ro_quantity o - t) by (injection Hord3; auto).
  assert (Hloop : forall fuel events, match_loop (S fuel) b command limit remaining events =
    (b' ← (if ro_quantity o - t =? 0 then remove_node (set_stats b2 (inc_trades (stats b))) n
           else Ok (set_stats b2 (inc_trades (stats b))));
     match_loop fuel b' command limit (remaining - t) (events ++ [trade_event command o t]))).
  { intros fuel events. cbn [match_loop]. destruct (Z.ltb_spec 0 remaining); [|lia].
    fold i. rewrite Hc, <- Hs. cbn [mbind result_bind].
    rewrite (vget_ok _ _ _ Hlv). cbn [mbind result_bind].
    rewrite (lr_head _ _ _ Hl), Hq. cbn [fmap list_fmap fst hd].
    rewrite (vget_ok _ _ _ Hnd). cbn [mbind result_bind].
    assert (n_remaining nd = ro_quantity o /\ n_id nd = ro_id o /\ n_price nd = ro_price o)
      as (-> & -> & ->) by by rewrite <- Hord.
    fold t. rewrite H1. cbn [mbind result_bind]. rewrite H2. cbn [mbind result_bind].
    rewrite Hst2, (vget_ok _ _ _ Hnd3). cbn [mbind result_bind]. rewrite Hrem.
    rewrite (u64_small (remaining - t)) by (unfold t; intlia). done. }
  unfold fill_order. destruct (Z.eqb_spec (ro_quantity o - t) 0) as [Ez|Ez].
  - destruct (remove_node_ok _ _ R3 n _ Hin3) as (b4 & Hb4 & R4 & Hc4 & _ & Hs4).
    cbn [ro_id set_quantity] in R4. rewrite greduce_remove in R4.
    exists b4, (gremove (ro_id o) G). split_and!; [|done| |congruence|].
    + intros. by rewrite Hloop, Hb4.
    + rewrite (proj2 (Z.eqb_eq _ _)) by lia. apply gremove_snd.
    + rewrite (stats_eta _ _ (br_resting _ _ R4)), Hs4. unfold set_resting. by rewrite length_fmap.
  - exists (set_stats b2 (inc_trades (stats b))), (greduce (ro_id o) t G). split_and!; auto.
    + rewrite (proj2 (Z.eqb_neq _ _)) by lia. apply greduce_snd.
    + rewrite (stats_eta _ _ (br_resting _ _ R3)) at 1. unfold set_resting. by rewrite length_fmap.
Qed.
End Step.

(** ** The loop *)

Lemma set_resting_trades st l l' n :
  set_resting (add_trades (set_resting st l) n) l' = set_resting (add_trades st n) l'.
Proof.
  unfold add_trades. revert st. induction n as [|n IH]; intros st; [done|].
  rewrite !Nat.iter_succ_r. apply (IH (inc_trades st)).
Qed.

Lemma remove_order_length id l : (length (remove_order id l) <= length l)%nat.
Proof. apply length_filter. Qed.

Lemma remove_order_lt o l : o ∈ l -> (length (remove_order (ro_id o) l) < length l)%nat.
Proof.
  induction l as [|x l IH]; intros Hin; [by apply elem_of_nil in Hin|].
  unfold remove_order in *. rewrite filter_cons. case_decide as E; cbn.
  - apply elem_of_cons in Hin as [->|Hin]; [done|]. specialize (IH Hin). lia.
  - pose proof (remove_order_length (ro_id o) l). unfold remove_order in *. lia.
Qed.

(** A trade removes an order or completes the aggressor. *)
Lemma fill_order_progress o remaining l : o ∈ l -> 0 < remaining ->
  (length (fill_order o (Z.min remaining (ro_quantity o)) l) < length l)%nat \/
  (remaining - Z.min remaining (ro_quantity o) = 0 /\
   length (fill_order o (Z.min remaining (ro_quantity o)) l) = length l).
Proof.
  intros Hin Hr. unfold fill_order.
  destruct (Z.eqb_spec (Z.min remaining (ro_quantity o)) (ro_quantity o)).
  - left. by apply remove_order_lt.
  - right. split; [lia|]. unfold reduce_order. by rewrite length_fmap.
Qed.

Section Loop.
Context {I : Type} `{!OrderIndexOps I, !OrderIndexLaws I}.

Lemma match_loop_ok fm fs (b : OrderBook I) (G : ghost) command limit remaining events :
  book_rep b G -> is_u64 remaining ->
  (length G < fm)%nat \/ (remaining = 0 /\ (0 < fm)%nat) ->
  (length G < fs)%nat \/ remaining = 0 ->
  exists b' G' orders trades rest,
    spec_match fs command limit remaining G.*2 = (orders, trades, rest) /\
    match_loop fm b command limit remaining events = Ok (b', events ++ trades, rest) /\
    book_rep b' G' /\ G'.*2 = orders /\ config b' = config b /\
    stats b' = set_resting (add_trades (stats b) (length trades)) orders.
Proof.
  revert fs b G remaining events.
  induction fm as [|fm IH]; intros fs b G remaining events R Hr Hfm Hfs; [lia|].
  destruct (Z.ltb_spec 0 remaining) as [Hpos|Hz]; cycle 1.
  { exists b, G, G.*2, [], remaining.
    rewrite app_nil_r. split_and!; auto.
    - destruct fs; [done|]. cbn. by destruct (Z.ltb_spec 0 remaining); [lia|].
    - cbn [match_loop]. by destruct (Z.ltb_spec 0 remaining); [lia|].
    - rewrite (stats_eta _ _ (br_resting _ _ R)) at 1. unfold set_resting. by rewrite length_fmap. }
  destruct fs as [|fs]; [lia|].
  cbn [spec_match]. rewrite (proj2 (Z.ltb_lt _ _) Hpos).
  destruct (best_order (c_side command) limit G.*2) as [o|] eqn:Eb; cycle 1.
  { exists b, G, G.*2, [], remaining. rewrite app_nil_r. split_and!; auto.
    - cbn [match_loop]. rewrite (proj2 (Z.ltb_lt _ _) Hpos).
      destruct (best_crossing R (c_side command) limit)
        as [[-> _]|(n & o' & q & l & Hc & Ho & _)]; [done|congruence].
    - rewrite (stats_eta _ _ (br_resting _ _ R)) at 1. unfold set_resting. by rewrite length_fmap. }
  destruct (match_step b G command limit remaining o R Hr Hpos Eb)
    as (b1 & G1 & Hstep & R1 & HG1 & Hc1 & Hs1).
  apply best_order_in in Eb as [Hin _].
  assert (0 <= ro_quantity o).
  { apply list_elem_of_fmap in Hin as ([n o'] & -> & Hin).
    destruct (br_orders _ _ R _ _ Hin) as [_ Hq]. cbn. intlia. }
  assert (0 < length G)%nat.
  { destruct G; [by apply elem_of_nil in Hin|cbn; lia]. }
  pose proof (fill_order_progress o remaining G.*2 Hin Hpos) as Hprog.
  rewrite <- HG1, !length_fmap in Hprog.
  set (t := Z.min remaining (ro_quantity o)) in *.
  destruct (IH fs b1 G1 (remaining - t) (events ++ [trade_event command o t]) R1)
    as (b2 & G2 & orders & trades & rest & Hsp & Hml & R2 & HG2 & Hc2 & Hs2);
    [unfold t in *; intlia|lia|lia|].
  exists b2, G2, orders, (trade_event command o t :: trades), rest.
  rewrite HG1 in Hsp. rewrite Hsp. split_and!; auto; [|congruence|].
  - rewrite Hstep, Hml. by rewrite <- app_assoc.
  - rewrite Hs2, Hs1, set_resting_trades. unfold add_trades. cbn [length].
    by rewrite Nat.iter_succ_r.
Qed.
End Loop.
