(* ===== verification/BookFill.v ===== *)
(** * BookFill: the fill-or-kill and capacity test of the book

    [can_fully_fill] walks the ladder from the best opposite level and stops
    as soon as the aggregates reach the quantity.  It always ends, reads only
    existing levels, and decides whether the sum of the 64-bit aggregates of
    the crossing levels reaches the quantity. *)
From Stdlib Require Import ZArith Lia.
From stdpp Require Import base numbers gmap list.
From S2P Require Import Prelude Types OrderIndex Bitmap OrderBook BookSpec Prices BookRep.
From S2P Require Import BookWrites BookInv BookMatch.
Local Open Scope Z_scope.

(** ** Sums over the ladder *)

Section Sums.
Implicit Types (f g : Z -> Z) (l : list Z).

Lemma zsum_ext f g l : (forall i, i ∈ l -> f i = g i) -> zsum f l = zsum g l.
Proof.
  induction l as [|x l IH]; intros H; [done|]. unfold zsum in *. cbn.
  rewrite IH, H by set_solver. done.
Qed.

Lemma zsum_add f g l : zsum (fun i => f i + g i) l = zsum f l + zsum g l.
Proof. induction l as [|x l IH]; [done|]. unfold zsum in *. cbn. lia. Qed.

Lemma zsum_nonneg f l : (forall i, i ∈ l -> 0 <= f i) -> 0 <= zsum f l.
Proof.
  induction l as [|x l IH]; intros H; [done|]. unfold zsum in *. cbn.
  pose proof (H x ltac:(set_solver)). specialize (IH ltac:(set_solver)). lia.
Qed.

Lemma zsum_zero f l : (forall i, i ∈ l -> f i = 0) -> zsum f l = 0.
Proof.
  induction l as [|x l IH]; intros H; [done|]. unfold zsum in *. cbn.
  rewrite IH, H by set_solver. done.
Qed.

Lemma zsum_le f g l : (forall i, i ∈ l -> f i <= g i) -> zsum f l <= zsum g l.
Proof.
  induction l as [|x l IH]; intros H; [done|]. unfold zsum in *. cbn.
  pose proof (H x ltac:(set_solver)). specialize (IH ltac:(set_solver)). lia.
Qed.

Lemma zsum_single f l i : NoDup l -> i ∈ l -> zsum (fun j => if j =? i then f j else 0) l = f i.
Proof.
  induction l as [|x l IH]; intros Hnd Hin; [by apply elem_of_nil in Hin|].
  apply list.NoDup_cons in Hnd as [Hx Hnd]. cbn.
  fold (zsum (fun j => if j =? i then f j else 0) l).
  apply elem_of_cons in Hin as [<-|Hin].
  - rewrite Z.eqb_refl, zsum_zero; [lia|]. intros j Hj.
    destruct (Z.eqb_spec j i); [congruence|done].
  - rewrite (IH Hnd Hin). destruct (Z.eqb_spec x i); [congruence|done].
Qed.
End Sums.

Lemma elem_of_ticks cfg i : i ∈ ticks cfg <-> 0 <= i < tick_count cfg.
Proof.
  unfold ticks. rewrite list_elem_of_fmap. split.
  - intros (k & -> & Hk%elem_of_seq). lia.
  - intros Hi. exists (Z.to_nat i). rewrite elem_of_seq. lia.
Qed.

Lemma ticks_nodup cfg : NoDup (ticks cfg).
Proof. unfold ticks. apply (NoDup_fmap_2 Z.of_nat), NoDup_seq. Qed.

(** [before side i j]: an aggressor on [side] reaches tick [i] before [j]. *)
Definition before (side : Side) (i j : Z) : bool :=
  match side with Buy => i <? j | Sell => j <? i end.

Section Walk.
Context (cfg : BookConfig) (side : Side) (c : Z -> Z).
Context (Hc : forall i, 0 <= i < tick_count cfg -> 0 <= c i).

(** What lies before tick [i], and beyond it. *)
Definition part (i : Z) : Z := zsum (fun j => if before side j i then c j else 0) (ticks cfg).
Definition beyond (i : Z) : Z := zsum (fun j => if before side i j then c j else 0) (ticks cfg).

Lemma walk_split i : 0 <= i < tick_count cfg -> zsum c (ticks cfg) = part i + c i + beyond i.
Proof.
  intros Hi. unfold part, beyond. rewrite <- (zsum_single c (ticks cfg) i);
    [|apply ticks_nodup|by apply elem_of_ticks]. rewrite <- !zsum_add.
  apply zsum_ext. intros j _. unfold before. destruct side, (Z.ltb_spec j i), (Z.ltb_spec i j),
    (Z.eqb_spec j i); lia.
Qed.

Lemma beyond_nonneg i : 0 <= beyond i.
Proof.
  apply zsum_nonneg. intros j Hj%elem_of_ticks. case_match; [by apply Hc|lia].
Qed.

Lemma beyond_zero i : (forall j, 0 <= j < tick_count cfg -> before side i j = true -> c j = 0) ->
  beyond i = 0.
Proof. intros H. apply zsum_zero. intros j Hj%elem_of_ticks. case_match; [by apply H|done]. Qed.

Lemma part_zero i : (forall j, 0 <= j < tick_count cfg -> before side j i = true -> c j = 0) ->
  part i = 0.
Proof. intros H. apply zsum_zero. intros j Hj%elem_of_ticks. case_match; [by apply H|done]. Qed.

(** Moving on to the next tick that holds anything. *)
Lemma part_step i i' : 0 <= i < tick_count cfg -> before side i i' = true ->
  (forall j, 0 <= j < tick_count cfg -> before side i j = true -> before side j i' = true ->
     c j = 0) ->
  part i' = part i + c i.
Proof.
  intros Hi Hb Hz. unfold part. rewrite <- (zsum_single c (ticks cfg) i);
    [|apply ticks_nodup|by apply elem_of_ticks]. rewrite <- zsum_add.
  apply zsum_ext. intros j Hj%elem_of_ticks. specialize (Hz j Hj).
  unfold before in *. destruct side, (Z.ltb_spec j i), (Z.ltb_spec i j), (Z.ltb_spec j i'),
    (Z.ltb_spec i' j), (Z.eqb_spec j i); lia.
Qed.
End Walk.

(** ** The next nonempty level *)

Section Next.
Context {I : Type} `{!OrderIndexOps I, !OrderIndexLaws I}.
Context {b : OrderBook I} {G : ghost} (R : book_rep b G).

Abbreviation level_empty s j := (queue G s (price_at (config b) j) = []).

Lemma level_at s j : 0 <= j < tick_count (config b) -> exists l,
  vget (levels b s) j = Ok l /\ (l_count l =? 0) = bool_decide (level_empty s j) /\
  total_quantity l = u64 (level_total G.*2 s (price_at (config b) j)).
Proof.
  intros Hj. destruct (br_level _ _ R s j Hj) as (l & Hl & Hr). exists l.
  split_and!; [by apply vget_ok| |].
  - rewrite (lr_count _ _ _ Hr). by destruct (queue G s _).
  - rewrite (lr_total _ _ _ Hr). unfold level_total. by rewrite queue_snd.
Qed.

Lemma skip_up_ok s fuel k : 0 <= k <= tick_count (config b) ->
  tick_count (config b) - k < Z.of_nat fuel ->
  (exists j, skip_up fuel b (levels b s) k = Ok (Some j) /\ k <= j < tick_count (config b) /\
     ~ level_empty s j /\ forall x, k <= x < j -> level_empty s x) \/
  (skip_up fuel b (levels b s) k = Ok None /\
     forall x, k <= x < tick_count (config b) -> level_empty s x).
Proof.
  revert k. induction fuel as [|fuel IH]; intros k Hk Hf; [lia|]. cbn [skip_up].
  rewrite (br_count _ _ R). destruct (Z.ltb_spec k (tick_count (config b))); cycle 1.
  { right. split; [done|]. lia. }
  destruct (level_at s k) as (l & -> & Hcount & _); [lia|]. cbn [mbind result_bind].
  rewrite Hcount. case_bool_decide as He.
  - destruct (IH (k + 1)) as [(j & -> & Hj & Hne & Hz)|[-> Hz]]; [lia|lia|..].
    + left. exists j. split_and!; auto; try lia. intros x Hx.
      destruct (decide (x = k)) as [->|]; [done|]. apply Hz. lia.
    + right. split; [done|]. intros x Hx. destruct (decide (x = k)) as [->|]; [done|].
      apply Hz. lia.
  - left. exists k. split_and!; auto; lia.
Qed.

Lemma skip_down_ok s fuel k : 0 <= k < tick_count (config b) -> k < Z.of_nat fuel ->
  (exists j, skip_down fuel (levels b s) k = Ok (Some j) /\ 0 <= j <= k /\
     ~ level_empty s j /\ forall x, j < x <= k -> level_empty s x) \/
  (skip_down fuel (levels b s) k = Ok None /\ forall x, 0 <= x <= k -> level_empty s x).
Proof.
  revert k. induction fuel as [|fuel IH]; intros k Hk Hf; [lia|]. cbn [skip_down].
  destruct (level_at s k) as (l & -> & Hcount & _); [lia|]. cbn [mbind result_bind].
  rewrite Hcount. case_bool_decide as He.
  - destruct (Z.eqb_spec k 0) as [->|].
    { right. split; [done|]. intros x Hx. by assert (x = 0) as -> by lia. }
    destruct (IH (k - 1)) as [(j & -> & Hj & Hne & Hz)|[-> Hz]]; [lia|lia|..].
    + left. exists j. split_and!; auto; try lia. intros x Hx.
      destruct (decide (x = k)) as [->|]; [done|]. apply Hz. lia.
    + right. split; [done|]. intros x Hx. destruct (decide (x = k)) as [->|]; [done|].
      apply Hz. lia.
  - left. exists k. split_and!; auto; lia.
Qed.

Lemma next_level_ok side i : 0 <= i < tick_count (config b) ->
  let s := opposite side in
  (exists j, next_level b side (levels b s) i = Ok (Some j) /\ 0 <= j < tick_count (config b) /\
     before side i j = true /\
     forall x, before side i x = true -> before side x j = true -> level_empty s x) \/
  (next_level b side (levels b s) i = Ok None /\
     forall x, 0 <= x < tick_count (config b) -> before side i x = true -> level_empty s x).
Proof.
  intros Hi s. destruct (tick_count_bounds (br_config _ _ R)) as [Hb _].
  unfold next_level, before. rewrite (br_count _ _ R). destruct side.
  - rewrite u64_small by intlia.
    destruct (skip_up_ok s (S (Z.to_nat (tick_count (config b)))) (i + 1))
      as [(j & -> & Hj & _ & Hz)|[-> Hz]]; [lia|lia|..].
    + left. exists j. split_and!; auto; try lia. intros x H1 H2. apply Hz. lia.
    + right. split; [done|]. intros x H1 H2. apply Hz. lia.
  - destruct (Z.eqb_spec i 0) as [->|].
    { right. split; [done|]. intros. lia. }
    destruct (skip_down_ok s (S (Z.to_nat (tick_count (config b)))) (i - 1))
      as [(j & -> & Hj & _ & Hz)|[-> Hz]]; [lia|lia|..].
    + left. exists j. split_and!; auto; try lia. intros x H1 H2. apply Hz. lia.
    + right. split; [done|]. intros x H1 H2. apply Hz. lia.
Qed.
End Next.

(** ** The walk *)

Section Fill.
Context {I : Type} `{!OrderIndexOps I, !OrderIndexLaws I}.
Context {b : OrderBook I} {G : ghost} (R : book_rep b G) (side : Side) (limit : Z).

(** What one tick adds for the aggressor. *)
Definition contribution (i : Z) : Z :=
  if price_crosses side limit (price_at (config b) i)
  then u64 (level_total G.*2 (opposite side) (price_at (config b) i)) else 0.

Lemma contribution_nonneg i : 0 <= contribution i.
Proof.
  unfold contribution. case_match; [|done].
  pose proof (u64_range (level_total G.*2 (opposite side) (price_at (config b) i))). intlia.
Qed.

Lemma contribution_empty i : queue G (opposite side) (price_at (config b) i) = [] ->
  contribution i = 0.
Proof.
  intros H. unfold contribution, level_total. rewrite <- queue_snd, H. by case_match.
Qed.

(** Beyond a tick that does not cross, nothing crosses. *)
Lemma crosses_before i j : before side i j = true ->
  price_crosses side limit (price_at (config b) i) = false ->
  price_crosses side limit (price_at (config b) j) = false.
Proof.
  intros Hb. pose proof (price_at_mono (br_config _ _ R) i j) as H1.
  pose proof (price_at_mono (br_config _ _ R) j i) as H2.
  unfold before, price_crosses in *. destruct side; lia.
Qed.

Lemma fill_loop_ok fuel quantity available i :
  0 <= i < tick_count (config b) -> is_u64 quantity ->
  match side with Buy => tick_count (config b) - i | Sell => i + 1 end < Z.of_nat fuel ->
  available = part (config b) side contribution i -> 0 <= available < quantity ->
  fill_loop fuel b side limit quantity available i =
    Ok (quantity <=? machine_liquidity (config b) G.*2 side limit).
Proof.
  assert (Hnn : forall x, 0 <= x < tick_count (config b) -> 0 <= contribution x)
    by (intros; apply contribution_nonneg).
  revert available i. induction fuel as [|fuel IH]; intros available i Hi Hq Hf Hav Hlt;
    [destruct side; lia|].
  pose proof (walk_split (config b) side contribution i Hi) as Hsplit.
  change (zsum contribution (ticks (config b)))
    with (machine_liquidity (config b) G.*2 side limit) in Hsplit.
  cbn [fill_loop]. rewrite (crosses_ok R) by done. cbn [mbind result_bind].
  destruct (price_crosses side limit (price_at (config b) i)) eqn:Ec; cycle 1.
  { rewrite (beyond_zero (config b) side contribution i) in Hsplit.
    2:{ intros j Hj Hb. unfold contribution. by rewrite (crosses_before i j). }
    assert (contribution i = 0) by (unfold contribution; by rewrite Ec).
    f_equal. symmetry. apply Z.leb_gt. lia. }
  destruct (level_at R (opposite side) i Hi) as (l & Hl & _ & Htot).
  rewrite Hl. cbn [mbind result_bind].
  assert (total_quantity l = contribution i) as Hci by (unfold contribution; by rewrite Ec).
  rewrite Hci. pose proof (beyond_nonneg (config b) side contribution Hnn i).
  rewrite u64_small by intlia.
  destruct (Z.leb_spec (quantity - available) (contribution i)) as [Hd|Hd].
  { f_equal. symmetry. apply Z.leb_le. lia. }
  pose proof (contribution_nonneg i). rewrite u64_small by intlia.
  destruct (next_level_ok R side i Hi) as [(j & -> & Hj & Hb & Hz)|[-> Hz]];
    cbn [mbind result_bind].
  - apply IH; [done|done| |rewrite (part_step _ _ _ i); [lia|done|done|]|lia].
    + unfold before in Hb. destruct side; lia.
    + intros x _ H1 H2. by apply contribution_empty, Hz.
  - rewrite (beyond_zero (config b) side contribution i) in Hsplit.
    2:{ intros j Hj Hb. by apply contribution_empty, Hz. }
    f_equal. symmetry. apply Z.leb_gt. lia.
Qed.

Lemma can_fully_fill_ok quantity : is_u64 quantity -> 0 < quantity ->
  can_fully_fill b side limit quantity =
    Ok (machine_fill (config b) G.*2 side limit quantity).
Proof.
  intros Hq Hpos. unfold can_fully_fill, machine_fill. rewrite (br_count _ _ R).
  destruct (best_index_cases R (opposite side)) as [[-> Hno]|(n & o & q & Hi & Hqu & Hbest)].
  - cbn. f_equal. symmetry. apply Z.leb_gt. unfold machine_liquidity. rewrite zsum_zero; [done|].
    intros i _. apply contribution_empty. unfold queue. apply filter_none.
    intros x Hx [Hs _]. apply (Hno x.2); [by apply list_elem_of_fmap_2|done].
  - apply fill_loop_ok; auto; [destruct side; lia| |lia].
    symmetry. apply part_zero. intros j Hj Hb. apply contribution_empty, filter_none.
    intros x Hx [Hs Hp]. rewrite opposite_involutive in Hbest.
    specialize (Hbest x.2 ltac:(by apply list_elem_of_fmap_2) Hs). rewrite Hp in Hbest.
    pose proof (price_at_mono (br_config _ _ R) j (best_index b (opposite side))) as H1.
    pose proof (price_at_mono (br_config _ _ R) (best_index b (opposite side)) j) as H2.
    unfold before, price_better in *. destruct side; cbn [opposite] in *; lia.
Qed.
End Fill.
