(* ===== verification/SpecFacts.v ===== *)
(** * SpecFacts: consequences of the specification

    Well-formed books, what a trade does to every sum over the orders, and
    the outcome of matching: the quantity that executes is the smaller of the
    aggressor's quantity and the crossing liquidity. *)
From Stdlib Require Import ZArith Lia.
From stdpp Require Import base numbers gmap list.
From S2P Require Import Prelude Types OrderIndex Bitmap OrderBook BookSpec Prices BookRep.
From S2P Require Import BookWrites BookInv BookMatch BookFill.
Local Open Scope Z_scope.

(** ** Well-formed lists of orders *)

Record orders_wf (cfg : BookConfig) (orders : list RestingOrder) : Prop := {
  ow_ids : NoDup (ro_id <$> orders);
  ow_ladder : forall o, o ∈ orders -> on_ladder cfg (ro_price o) = true;
  ow_quantity : forall o, o ∈ orders -> 0 < ro_quantity o <= u64_max }.

Section Orders.
Context {cfg : BookConfig}.
Implicit Types (l : list RestingOrder) (o : RestingOrder).

Lemma orders_wf_nil : orders_wf cfg [].
Proof. split; [apply NoDup_nil_2|..]; intros o Ho; by apply elem_of_nil in Ho. Qed.

Lemma wf_split l1 o l2 : orders_wf cfg (l1 ++ o :: l2) -> orders_wf cfg (l1 ++ l2) /\
  (forall x, x ∈ l1 ++ l2 -> ro_id x <> ro_id o).
Proof.
  intros [Hid Hlad Hq]. rewrite fmap_app in Hid. cbn in Hid.
  rewrite <- Permutation_middle in Hid. apply list.NoDup_cons in Hid as [Hx Hid].
  rewrite <- fmap_app in Hx, Hid. split.
  - split; [done|..]; intros x Hin; [apply Hlad|apply Hq]; set_solver.
  - intros x Hin He. apply Hx. rewrite <- He. by apply list_elem_of_fmap_2.
Qed.

Lemma remove_order_fresh id l : (forall x, x ∈ l -> ro_id x <> id) -> remove_order id l = l.
Proof. apply filter_all. Qed.

Lemma reduce_order_fresh id t l : (forall x, x ∈ l -> ro_id x <> id) -> reduce_order id t l = l.
Proof.
  intros H. unfold reduce_order. rewrite <- (list_fmap_id l) at 2. apply list_fmap_ext.
  intros i x Hx. rewrite decide_False; [done|]. apply H. by eapply list_elem_of_lookup_2.
Qed.

(** A trade acts on one position. *)
Lemma fill_order_split l1 o l2 t : orders_wf cfg (l1 ++ o :: l2) ->
  fill_order o t (l1 ++ o :: l2) =
    l1 ++ (if t =? ro_quantity o then [] else [set_quantity o (ro_quantity o - t)]) ++ l2.
Proof.
  intros [_ Hf]%wf_split. unfold fill_order. case_match.
  - unfold remove_order. rewrite filter_app, filter_cons_False by tauto.
    rewrite !filter_all; [done|..]; intros x Hx; apply Hf; set_solver.
  - unfold reduce_order. rewrite fmap_app. cbn. rewrite decide_True by done.
    fold (reduce_order (ro_id o) t l1). fold (reduce_order (ro_id o) t l2).
    by rewrite !reduce_order_fresh by (intros x Hx; apply Hf; set_solver).
Qed.

Lemma remove_order_split l1 o l2 : orders_wf cfg (l1 ++ o :: l2) ->
  remove_order (ro_id o) (l1 ++ o :: l2) = l1 ++ l2.
Proof.
  intros [_ Hf]%wf_split. unfold remove_order. rewrite filter_app, filter_cons_False by tauto.
  rewrite !filter_all; [done|..]; intros x Hx; apply Hf; set_solver.
Qed.

Lemma wf_remove id l : orders_wf cfg l -> orders_wf cfg (remove_order id l).
Proof.
  intros [Hid Hlad Hq]. unfold remove_order. split.
  - by apply NoDup_fmap_filter.
  - intros o [_ Ho]%list_elem_of_filter. by apply Hlad.
  - intros o [_ Ho]%list_elem_of_filter. by apply Hq.
Qed.

Lemma wf_fill l o t : orders_wf cfg l -> o ∈ l -> 0 < t <= ro_quantity o ->
  orders_wf cfg (fill_order o t l).
Proof.
  intros Hwf Hin Ht. unfold fill_order. destruct (Z.eqb_spec t (ro_quantity o)).
  { by apply wf_remove. }
  destruct Hwf as [Hid Hlad Hq]. split.
  - by rewrite reduce_ids.
  - intros x (y & -> & Hy)%list_elem_of_fmap. case_decide; cbn; by apply Hlad.
  - intros x (y & -> & Hy)%list_elem_of_fmap. pose proof (Hq y Hy) as Hqy. case_decide as E; [|done].
    assert (y = o) as ->; [|cbn; lia].
    apply list_elem_of_lookup in Hy as [i Hi], Hin as [j Hj].
    assert (i = j) as <-; [|congruence].
    eapply (NoDup_lookup _ _ _ (ro_id o) Hid); rewrite list_lookup_fmap;
      [by rewrite Hi; cbn; rewrite E|by rewrite Hj].
Qed.

Lemma wf_snoc l o : orders_wf cfg l -> ro_id o ∉ ro_id <$> l -> on_ladder cfg (ro_price o) = true ->
  0 < ro_quantity o <= u64_max -> orders_wf cfg (l ++ [o]).
Proof.
  intros [Hid Hlad Hq] Hf Ho Hqo. split.
  - rewrite fmap_app. apply list.NoDup_app. split; [done|]. cbn. split; [|apply NoDup_singleton].
    intros x Hx. rewrite list_elem_of_singleton. by intros ->.
  - intros x [Hx|Hx%list_elem_of_singleton]%elem_of_app; subst; auto.
  - intros x [Hx|Hx%list_elem_of_singleton]%elem_of_app; subst; auto.
Qed.

(** A trade lowers every sum the order takes part in by what is traded. *)
Lemma fill_order_total (P : RestingOrder -> Prop) `{forall o, Decision (P o)} l o t :
  orders_wf cfg l -> o ∈ l -> (forall q, P (set_quantity o q) <-> P o) ->
  total (filter P (fill_order o t l)) =
    total (filter P l) - (if decide (P o) then t else 0).
Proof.
  intros Hwf (l1 & l2 & ->)%list_elem_of_split HP. rewrite (fill_order_split _ _ _ _ Hwf).
  rewrite !filter_app, filter_cons, !total_app. destruct (decide (P o)) as [Ho|Ho].
  - destruct (Z.eqb_spec t (ro_quantity o)).
    + rewrite filter_nil. cbn. fold (total (filter P l2)). lia.
    + rewrite filter_cons_True by (by apply HP). cbn. fold (total (filter P l2)). lia.
  - case_match; [rewrite filter_nil|rewrite filter_cons_False by (by rewrite HP)];
      cbn; lia.
Qed.

Lemma total_le (P : RestingOrder -> Prop) `{forall o, Decision (P o)} l o :
  (forall x, x ∈ l -> 0 <= ro_quantity x) -> o ∈ l -> P o -> ro_quantity o <= total (filter P l).
Proof.
  intros Hq (l1 & l2 & ->)%list_elem_of_split HP.
  assert (Hnn : forall k, (forall x, x ∈ k -> 0 <= ro_quantity x) -> 0 <= total (filter P k)).
  { clear. intros k. induction k as [|x k IH]; intros Hk; [done|]. rewrite filter_cons.
    pose proof (Hk x ltac:(set_solver)). specialize (IH ltac:(set_solver)).
    case_decide; [|done]. cbn. fold (total (filter P k)). lia. }
  rewrite filter_app, filter_cons_True, total_app by done. cbn. fold (total (filter P l2)).
  pose proof (Hnn l1 ltac:(set_solver)). pose proof (Hnn l2 ltac:(set_solver)). lia.
Qed.
End Orders.

(** ** The outcome of matching *)

(** The quantity that events of one type report. *)
Definition quantity_of (t : EventType) (events : list Event) : Z :=
  foldr (fun e s => (if decide (e_type e = t) then e_quantity e else 0) + s) 0 events.
Abbreviation executed := (quantity_of Trade).

Lemma quantity_of_app t l1 l2 : quantity_of t (l1 ++ l2) = quantity_of t l1 + quantity_of t l2.
Proof. induction l1 as [|e l1 IH]; [done|]. unfold quantity_of in *. cbn. lia. Qed.

Lemma quantity_of_other t events : Forall (fun e => e_type e <> t) events ->
  quantity_of t events = 0.
Proof.
  induction 1 as [|e l He _ IH]; [done|]. unfold quantity_of in *. cbn.
  rewrite decide_False by done. lia.
Qed.

Section Matching.
Context {cfg : BookConfig}.
Implicit Types (l : list RestingOrder).

Lemma liquidity_fill side limit l o t : orders_wf cfg l -> o ∈ l -> crossing side limit o = true ->
  liquidity (fill_order o t l) side limit = liquidity l side limit - t.
Proof.
  intros Hwf Hin Hc. unfold liquidity.
  rewrite (fill_order_total (cfg := cfg)) by (done || (intros q; done)).
  by rewrite decide_True.
Qed.

Lemma total_fill l o t : orders_wf cfg l -> o ∈ l -> total (fill_order o t l) = total l - t.
Proof.
  intros Hwf Hin. pose proof (fill_order_total (cfg := cfg) (fun _ => True) l o t Hwf Hin) as H.
  rewrite !filter_all in H by done. rewrite H by done. done.
Qed.

Lemma liquidity_none side limit l : best_order side limit l = None -> liquidity l side limit = 0.
Proof.
  intros H. rewrite best_order_none in H. unfold liquidity. rewrite filter_none; [done|].
  intros o Ho. by rewrite H.
Qed.

Lemma liquidity_ge side limit l o : orders_wf cfg l -> o ∈ l -> crossing side limit o = true ->
  ro_quantity o <= liquidity l side limit.
Proof.
  intros Hwf Hin Hc. apply total_le; [|done|done].
  intros x Hx. pose proof (ow_quantity _ _ Hwf x Hx). lia.
Qed.

Lemma liquidity_nonneg side limit l : orders_wf cfg l -> 0 <= liquidity l side limit.
Proof.
  intros Hwf. destruct (best_order side limit l) as [o|] eqn:E.
  - apply best_order_in in E as [Hin Hc]. pose proof (liquidity_ge _ _ _ _ Hwf Hin Hc).
    pose proof (ow_quantity _ _ Hwf _ Hin). lia.
  - by rewrite liquidity_none.
Qed.

(** What matching leaves behind. *)
Record matched (command : Command) (limit remaining : Z) l
    (l' : list RestingOrder) (trades : list Event) (rest : Z) : Prop := {
  m_rest : rest = remaining - Z.min remaining (liquidity l (c_side command) limit);
  m_wf : orders_wf cfg l';
  m_executed : executed trades = remaining - rest;
  m_liquidity : liquidity l' (c_side command) limit =
    liquidity l (c_side command) limit - (remaining - rest);
  m_total : total l' = total l - (remaining - rest);
  m_ids : forall id, id ∈ ro_id <$> l' -> id ∈ ro_id <$> l;
  m_length : (length l' <= length l)%nat;
  m_trades : Forall (fun e => e_type e = Trade /\ e_order_id e = c_order_id command /\
    e_sequence e = c_sequence command /\ e_aggressor_side e = c_side command /\
    e_contra_order_id e ∈ ro_id <$> l /\
    price_crosses (c_side command) limit (e_price e) = true /\ 0 < e_quantity e) trades }.

Lemma fill_order_ids o t l id : id ∈ ro_id <$> fill_order o t l -> id ∈ ro_id <$> l.
Proof.
  unfold fill_order. case_match.
  - unfold remove_order. intros (x & -> & [_ Hx]%list_elem_of_filter)%list_elem_of_fmap.
    by apply list_elem_of_fmap_2.
  - by rewrite reduce_ids.
Qed.

Lemma spec_match_outcome fuel command limit remaining l l' trades rest :
  orders_wf cfg l -> 0 <= remaining -> (length l < fuel)%nat \/ remaining = 0 ->
  spec_match fuel command limit remaining l = (l', trades, rest) ->
  matched command limit remaining l l' trades rest.
Proof.
  revert remaining l l' trades rest.
  induction fuel as [|fuel IH]; intros remaining l l' trades rest Hwf Hr Hf; cbn [spec_match].
  { intros [= <- <- <-]. pose proof (liquidity_nonneg (c_side command) limit l Hwf).
    split; auto; cbn; try lia; by constructor. }
  destruct (Z.ltb_spec 0 remaining) as [Hpos|Hz]; cycle 1.
  { intros [= <- <- <-]. pose proof (liquidity_nonneg (c_side command) limit l Hwf).
    split; auto; cbn; try lia; by constructor. }
  destruct (best_order (c_side command) limit l) as [o|] eqn:Eb; cycle 1.
  { intros [= <- <- <-]. pose proof (liquidity_none _ _ _ Eb) as E.
    split; auto; rewrite ?E; cbn; try lia; by constructor. }
  apply best_order_in in Eb as [Hin Hc]. pose proof (ow_quantity _ _ Hwf _ Hin) as Hq.
  pose proof (liquidity_ge _ _ _ _ Hwf Hin Hc) as Hge.
  pose proof (fill_order_progress o remaining l Hin Hpos) as Hprog.
  set (t := Z.min remaining (ro_quantity o)) in *.
  assert (Ht : 0 < t <= ro_quantity o) by lia.
  pose proof (liquidity_fill _ _ _ _ t Hwf Hin Hc) as Hliq.
  destruct (spec_match fuel command limit (remaining - t) (fill_order o t l))
    as [[l1 trades1] rest1] eqn:Em.
  intros [= <- <- <-].
  apply IH in Em; [|by apply wf_fill|lia|lia]. destruct Em as [Hrest Hwf' Hex Hl Htot Hids Hlen Htr].
  split; auto.
  - rewrite Hrest, Hliq. lia.
  - change (t + executed trades1 = remaining - rest1). lia.
  - rewrite Hl, Hliq. lia.
  - rewrite Htot, total_fill by done. lia.
  - intros id Hid. eapply fill_order_ids. by apply Hids.
  - lia.
  - constructor.
    + cbn. unfold crossing in Hc. apply andb_prop in Hc as [_ Hc]. split_and!; auto; [|lia].
      by apply list_elem_of_fmap_2.
    + eapply Forall_impl; [exact Htr|]. intros e (?&?&?&?&He&?&?). split_and!; auto.
      by eapply fill_order_ids.
Qed.
End Matching.
Arguments matched : clear implicits.

(** ** Exact liquidity and the machine's liquidity *)

Section Ladder.
Context {cfg : BookConfig} (Hcfg : config_ok cfg).
Implicit Types (l : list RestingOrder).

(** Every order counts at exactly one tick. *)
Lemma liquidity_ladder l side limit : (forall o, o ∈ l -> on_ladder cfg (ro_price o) = true) ->
  liquidity l side limit =
    zsum (fun i => if price_crosses side limit (price_at cfg i)
                   then level_total l (opposite side) (price_at cfg i) else 0) (ticks cfg).
Proof.
  induction l as [|o l IH]; intros Hl.
  { symmetry. apply zsum_zero. intros i _. by case_match. }
  unfold liquidity in *. rewrite filter_cons.
  specialize (IH ltac:(set_solver)).
  pose proof (Hl o ltac:(set_solver)) as Ho. apply (on_ladder_spec Hcfg) in Ho as (k & Hk & Hp).
  transitivity (zsum (fun j => if j =? k then if crossing side limit o then ro_quantity o else 0
                               else 0) (ticks cfg) + total (filter (fun o => crossing side limit o = true) l)).
  { rewrite (zsum_single (fun _ => if crossing side limit o then ro_quantity o else 0));
      [|apply ticks_nodup|by apply elem_of_ticks].
    case_decide as E; [rewrite E; done|]. by destruct (crossing side limit o). }
  rewrite IH, <- zsum_add. apply zsum_ext. intros i Hi%elem_of_ticks.
  unfold level_total. rewrite filter_cons. unfold crossing. rewrite Hp.
  destruct (Z.eqb_spec i k) as [->|Hne].
  - destruct (decide (ro_side o = opposite side)) as [Hs|Hs].
    + rewrite bool_decide_eq_true_2, decide_True by done. cbn [andb]. by destruct (price_crosses side limit (price_at cfg k)).
    + rewrite bool_decide_eq_false_2, decide_False by (done || (unfold at_level; tauto)). done.
  - rewrite decide_False; [done|]. intros [_ E]. apply Hne. symmetry. rewrite Hp in E. by eapply price_at_inj.
Qed.

Lemma level_total_nonneg l side p : orders_wf cfg l -> 0 <= level_total l side p.
Proof.
  intros Hwf. unfold level_total. apply total_nonneg. intros o [_ Ho]%list_elem_of_filter.
  pose proof (ow_quantity _ _ Hwf _ Ho). lia.
Qed.

Lemma machine_liquidity_le l side limit : orders_wf cfg l ->
  machine_liquidity cfg l side limit <= liquidity l side limit.
Proof.
  intros Hwf. rewrite liquidity_ladder by apply Hwf. apply zsum_le. intros i _.
  case_match; [|done]. by apply u64_le, level_total_nonneg.
Qed.

(** No aggregate of a level exceeds 64 bits. *)
Definition no_level_overflow l : Prop :=
  forall side p, level_total l side p <= u64_max.

Lemma machine_liquidity_exact l side limit : orders_wf cfg l -> no_level_overflow l ->
  machine_liquidity cfg l side limit = liquidity l side limit.
Proof.
  intros Hwf Hno. rewrite liquidity_ladder by apply Hwf. apply zsum_ext. intros i _.
  case_match; [|done]. apply u64_small. split; [by apply level_total_nonneg|apply Hno].
Qed.
End Ladder.
