(* ===== verification/BookRefine.v ===== *)
(** * BookRefine: the order book implements its specification

    [refines b sb] relates the book's data structures to the specification's
    list of orders.  The constructor establishes it and every command
    preserves it: each method runs to a normal end (no out-of-range access, no
    signed overflow, no exception, no exhausted loop), emits exactly the
    specified events and leaves a book that refines the specified state. *)
From Stdlib Require Import ZArith Lia.
From stdpp Require Import base numbers gmap list.
From S2P Require Import Prelude Types OrderIndex Bitmap OrderBook BookSpec Prices BookRep.
From S2P Require Import BookWrites BookInv BookMatch BookFill SpecFacts.
Local Open Scope Z_scope.

Section Refine.
Context {I : Type} `{!OrderIndexOps I, !OrderIndexLaws I}.
Implicit Types (b : OrderBook I) (sb : SpecBook) (G : ghost).

Record represents b sb G : Prop := {
  rp_rep : book_rep b G;
  rp_wf : orders_wf (config b) G.*2;
  rp_spec : sb = MkSpec (config b) G.*2 (stats b) }.

Definition refines b sb : Prop := exists G, represents b sb G.

(** [Ok] with events appended, and a book that refines the specified one. *)
Definition outcome (r : result (OrderBook I * list Event)) (events : list Event)
    (spec : SpecBook * list Event) : Prop :=
  exists b', r = Ok (b', events ++ spec.2) /\ refines b' spec.1.

(** ** Statistics do not take part in the representation *)

Lemma book_rep_stats b G st : book_rep b G -> resting_count st = resting_count (stats b) ->
  book_rep (set_stats b st) G.
Proof. intros [] Hst. constructor; try done. cbn. congruence. Qed.

Lemma represents_stats b sb G st : represents b sb G -> resting_count st = resting_count (stats b) ->
  represents (set_stats b st) (MkSpec (sb_config sb) (sb_orders sb) st) G.
Proof. intros [R W ->] Hst. constructor; [by apply book_rep_stats|done|done]. Qed.

Lemma reject_ok b sb G events command reason : represents b sb G ->
  outcome (Ok (reject b events command reason)) events (spec_reject sb command reason).
Proof.
  intros H. eexists. split; [done|]. exists G.
  replace (spec_reject sb command reason).1
    with (MkSpec (sb_config sb) (sb_orders sb) (inc_rejected (stats b)))
    by (rewrite (rp_spec _ _ _ H); done).
  by apply represents_stats.
Qed.

(** ** Looking up an order ID *)

Lemma find_order_in id l o : find_order id l = Some o -> o ∈ l /\ ro_id o = id.
Proof.
  unfold find_order. intros ([i x] & H & [= <-])%bind_Some.
  apply list_find_Some in H as (H & <- & _). split; [|done]. by eapply list_elem_of_lookup_2.
Qed.

Lemma find_order_none id l : find_order id l = None <-> id ∉ ro_id <$> l.
Proof.
  unfold find_order. rewrite bind_None. split.
  - intros [H|([i x] & _ & ?)]; [|done]. apply list_find_None in H.
    intros (o & -> & Ho)%list_elem_of_fmap. rewrite Forall_forall in H. by apply (H o Ho).
  - intros H. left. apply list_find_None, Forall_forall. intros o Ho <-. apply H.
    by apply list_elem_of_fmap_2.
Qed.

Lemma find_cases b sb G id : represents b sb G ->
  (index_find (order_index b) id = Ok None /\ find_order id G.*2 = None) \/
  (exists n o nd, index_find (order_index b) id = Ok (Some n) /\ find_order id G.*2 = Some o /\
    (n, o) ∈ G /\ ro_id o = id /\ (nodes b).[n] = Some nd /\ node_order nd = o).
Proof.
  intros [R W _]. rewrite (find_live R).
  destruct (id_map G !! id) as [n|] eqn:E; [right|left].
  - apply id_map_lookup in E as (o & Hin & Hid); [|apply R].
    destruct (br_node _ _ R _ _ Hin) as (nd & Hnd & Hord). exists n, o, nd. split_and!; auto.
    destruct (find_order id G.*2) as [o'|] eqn:Ef.
    + apply find_order_in in Ef as [Ho' Hid'].
      apply list_elem_of_fmap in Ho' as ([n' x] & -> & Hx). cbn in *.
      by pose proof (nodup_id_inj _ _ _ (br_ids _ _ R) Hx Hin ltac:(cbn; congruence)) as [= -> ->].
    + apply find_order_none in Ef. destruct Ef. rewrite <- Hid.
      by apply list_elem_of_fmap_2, (list_elem_of_fmap_2 snd _ (n, o)).
  - split; [done|]. apply find_order_none. by apply id_map_None in E; [|apply R].
Qed.

(** ** The constructor *)

Lemma push_free_nodes_ok n free : Z.of_nat n <= u32_max ->
  push_free_nodes n free = (Z.of_nat <$> seq 0 n) ++ free.
Proof.
  revert free. induction n as [|n IH]; intros free Hn; [done|]. cbn [push_free_nodes].
  rewrite IH, u32_small by intlia. rewrite seq_S, fmap_app, <- app_assoc. done.
Qed.

Lemma active_replicate n i : active (replicate n 0) i = false.
Proof.
  unfold active. case_match eqn:E; [|done]. apply vlook_elem_of in E.
  apply elem_of_replicate in E as [-> _]. apply Z.testbit_0_l.
Qed.

Lemma make_book_ok cfg : config_ok cfg -> exists b : OrderBook I,
  make_book cfg = Ok b /\ refines b (MkSpec cfg [] BookStats_zero).
Proof.
  intros Hcfg. unfold make_book. rewrite (checked_price_count_ok Hcfg). cbn [mbind result_bind].
  destruct (tick_count_bounds Hcfg) as [Hb _]. pose proof (cfg_orders _ Hcfg) as Ho.
  destruct (index_make_ok (maximum_orders cfg)) as (oi & -> & Hoi); [intlia|].
  cbn [mbind result_bind]. eexists. split; [done|]. exists [].
  assert (Hw : (tick_count cfg + 63) / 64 <= tick_count cfg)
    by (apply Z.div_le_upper_bound; lia).
  assert (0 <= (tick_count cfg + 63) / 64) by (apply Z.div_pos; lia).
  rewrite u64_small by intlia.
  constructor; [|apply orders_wf_nil|done].
  constructor; cbn; auto.
  - intros []; unfold vsize; cbn; rewrite length_replicate; lia.
  - intros side. assert (words_ok (replicate (Z.to_nat ((tick_count cfg + 63) / 64)) 0)).
    { apply Forall_replicate. intlia. }
    destruct side; cbn; (split; [done|]); unfold vsize; rewrite length_replicate; lia.
  - unfold vsize. rewrite length_replicate. lia.
  - rewrite push_free_nodes_ok by lia. by rewrite !app_nil_r, length_replicate.
  - apply NoDup_nil_2.
  - intros n o Hin. by apply elem_of_nil in Hin.
  - intros n o Hin. by apply elem_of_nil in Hin.
  - intros side i Hi. exists PriceLevel_zero. split; [|by constructor].
    destruct side; apply vlook_replicate; lia.
  - intros side i Hi. destruct side; cbn; rewrite active_replicate;
      (split; [done|]); intros (x & Hx & _); by apply elem_of_nil in Hx.
Qed.

(** The constructor throws on every other configuration. *)
Lemma make_book_invalid cfg : config_fields_ok cfg -> ~ config_ok cfg ->
  make_book (I := I) cfg = Fail InvalidArgument.
Proof.
  intros Hf Hn. unfold make_book.
  destruct (checked_price_count_total cfg Hf) as [[? _]|[_ ->]]; done.
Qed.
End Refine.

Section Commands.
Context {I : Type} `{!OrderIndexOps I, !OrderIndexLaws I}.
Implicit Types (b : OrderBook I) (sb : SpecBook) (G : ghost).

(** ** Cancel *)

Lemma remove_represents b sb G n o : represents b sb G -> (n, o) ∈ G ->
  exists b', remove_node b n = Ok b' /\
    represents b' (spec_remove sb (ro_id o)) (gremove (ro_id o) G).
Proof.
  intros [R W ->] Hin. destruct (remove_node_ok b G R n o Hin) as (b' & Hb' & R' & Hc & _ & Hst).
  exists b'. split; [done|]. constructor; [done|..]; rewrite gremove_snd.
  - rewrite Hc. by apply wf_remove.
  - unfold spec_remove. cbn [sb_orders sb_config sb_stats]. rewrite Hc. f_equal.
    rewrite (stats_eta _ _ (br_resting _ _ R')), Hst. unfold set_resting.
    by rewrite <- gremove_snd, length_fmap.
Qed.

Lemma cancel_ok b sb G command events : represents b sb G ->
  outcome (cancel b command events false) events (spec_cancel sb command).
Proof.
  intros H. unfold cancel, spec_cancel. pose proof (rp_spec _ _ _ H) as Hsb.
  destruct (find_cases b sb G (c_order_id command) H)
    as [[-> Hf]|(n & o & nd & -> & Hf & Hin & Hid & Hnd & Hord)]; cbn [mbind result_bind];
    rewrite Hsb at 1; cbn [sb_orders]; rewrite Hf.
  - by eapply reject_ok.
  - rewrite (vget_ok _ _ _ Hnd). cbn [mbind result_bind].
    destruct (remove_represents b sb G n o H Hin) as (b' & -> & H'). cbn [mbind result_bind].
    exists b'. rewrite <- Hord in *. split; [done|]. rewrite Hid in H'. by eexists.
Qed.

(** ** Matching and resting *)

Lemma match_book_ok b sb G command events : represents b sb G -> is_u64 (c_quantity command) ->
  exists b' G' orders trades rest,
    spec_match (S (length (sb_orders sb))) command (spec_limit (sb_config sb) command)
      (c_quantity command) (sb_orders sb) = (orders, trades, rest) /\
    match_loop (match_fuel b) b command (effective_limit b command) (c_quantity command) events =
      Ok (b', events ++ trades, rest) /\
    matched (config b) command (spec_limit (sb_config sb) command) (c_quantity command)
      (sb_orders sb) orders trades rest /\
    represents b' (MkSpec (sb_config sb) orders
      (set_resting (add_trades (sb_stats sb) (length trades)) orders)) G'.
Proof.
  intros [R W ->] Hq. cbn [sb_orders sb_config sb_stats]. unfold match_fuel.
  assert (Hlen : (length G <= length (nodes b))%nat) by (pose proof (arena_length R); lia).
  destruct (match_loop_ok (S (S (length (nodes b)))) (S (length G.*2)) b G command
    (spec_limit (config b) command) (c_quantity command) events R Hq)
    as (b' & G' & orders & trades & rest & Hsp & Hml & R' & HG' & Hc & Hst).
  { left. lia. }
  { left. rewrite length_fmap. lia. }
  assert (Hm : matched (config b) command (spec_limit (config b) command) (c_quantity command)
                 G.*2 orders trades rest).
  { eapply spec_match_outcome; [done|intlia| |done]. left. lia. }
  exists b', G', orders, trades, rest. split_and!; auto.
  constructor; [done|..]; rewrite Hc, HG'; [apply Hm|]. by rewrite Hst.
Qed.

Lemma add_represents b sb G o events : represents b sb G ->
  ro_id o ∉ ro_id <$> sb_orders sb -> on_ladder (sb_config sb) (ro_price o) = true ->
  0 < ro_quantity o <= u64_max -> spec_full sb = false ->
  let orders := sb_orders sb ++ [o] in
  exists b' G', add_resting b (ro_id o) (ro_side o) (ro_price o) (ro_quantity o) (ro_priority o) events =
    Ok (b', events ++ [MkEvent (ro_priority o) Rested (ro_side o) NoReason 0 (ro_id o) 0
                        (ro_price o) (ro_quantity o)]) /\
    represents b' (MkSpec (sb_config sb) orders (set_resting (sb_stats sb) orders)) G'.
Proof.
  intros [R W ->]. cbn [sb_orders sb_config sb_stats]. intros Hid Hp Hq Hfull.
  destruct (free_nodes b) as [|n free] eqn:Ef.
  { apply (free_empty_full R) in Ef. unfold spec_full in Hfull. cbn in Hfull.
    rewrite length_fmap in Hfull. lia. }
  destruct (add_resting_ok b G R o n free Ef) with (events := events)
    as (b' & Hb' & R' & Hc & _ & Hst); [split; [done|intlia]|done|].
  exists b', (G ++ [(n, o)]). split; [done|]. constructor; [done|..]; rewrite Hc, fmap_app.
  - by apply wf_snoc.
  - f_equal. rewrite (stats_eta _ _ (br_resting _ _ R')), Hst. unfold set_resting. cbn.
    by rewrite !length_app, length_fmap.
Qed.

(** The part of [submit] after its guards. *)
Lemma execute_ok b sb G command events : represents b sb G -> is_u64 (c_quantity command) ->
  (c_order_type command = Limit ->
     on_ladder (sb_config sb) (c_price command) = true /\
     (c_order_id command ∉ (ro_id <$> sb_orders sb)) /\
     (spec_full sb = true -> c_quantity command <=
        liquidity (sb_orders sb) (c_side command) (spec_limit (sb_config sb) command))) ->
  outcome ('(b, events, remaining) ←
      match_loop (match_fuel b) b command (effective_limit b command) (c_quantity command) events;
    if remaining =? 0 then Ok (b, events)
    else if bool_decide (c_order_type command = Limit) then
      add_resting b (c_order_id command) (c_side command) (c_price command) remaining
        (c_sequence command) events
    else Ok (b, emit events Cancelled command 0 (c_price command) remaining NoReason))
    events (spec_execute sb command).
Proof.
  intros H Hq Hlim. pose proof (rp_wf _ _ _ H) as W.
  assert (HW : orders_wf (config b) (sb_orders sb)) by (rewrite (rp_spec _ _ _ H); done).
  destruct (match_book_ok b sb G command events H Hq)
    as (b' & G' & orders & trades & rest & Hsp & -> & Hm & H').
  pose proof (liquidity_nonneg (c_side command) (spec_limit (sb_config sb) command) _ HW) as Hnn.
  pose proof (m_rest _ _ _ _ _ _ _ Hm) as Hrest.
  unfold spec_execute. rewrite Hsp. cbn [mbind result_bind].
  destruct (Z.eqb_spec rest 0) as [Hz|Hz]; [by exists b'; split; [done|exists G']|].
  destruct (decide (c_order_type command = Limit)) as [Hl|Hl]; cycle 1.
  { rewrite bool_decide_eq_false_2 by done. exists b'. cbn [fst snd].
    unfold emit. rewrite <- app_assoc. split; [done|]. by exists G'. }
  rewrite bool_decide_eq_true_2 by done. destruct (Hlim Hl) as (Hp & Hid & Hfull).
  destruct (add_represents b' _ G' (MkResting (c_order_id command) (c_side command)
    (c_price command) rest (c_sequence command)) (events ++ trades) H')
    as (b2 & G2 & Hadd & H2); cbn [sb_orders sb_config ro_id ro_price ro_quantity] in *.
  - intros Hin. by apply Hid, (m_ids _ _ _ _ _ _ _ Hm).
  - done.
  - intlia.
  - unfold spec_full in *. cbn [sb_config sb_orders].
    pose proof (m_length _ _ _ _ _ _ _ Hm). apply Z.leb_gt.
    destruct (Z.leb_spec (maximum_orders (sb_config sb)) (Z.of_nat (length (sb_orders sb))));
      [|lia]. specialize (Hfull eq_refl). lia.
  - exists b2. cbn [ro_side ro_priority] in Hadd. rewrite Hadd, <- app_assoc. split; [done|].
    by exists G2.
Qed.

(** ** Submit *)

Lemma price_guard b sb G command : represents b sb G ->
  (if negb (bool_decide (c_order_type command = Market))
   then valid_price (config b) (c_price command) else Ok true) =
  Ok (negb (negb (bool_decide (c_order_type command = Market)) &&
            negb (on_ladder (sb_config sb) (c_price command)))).
Proof.
  intros [R _ ->]. cbn [sb_config]. rewrite valid_price_ok by apply R.
  case_bool_decide; cbn; [done|]. by rewrite negb_involutive.
Qed.

Lemma fill_guard b sb G command (test : bool) : represents b sb G ->
  is_u64 (c_quantity command) -> 0 < c_quantity command ->
  (if test then can_fully_fill b (c_side command) (effective_limit b command) (c_quantity command)
   else Ok true) =
  Ok (negb (test && negb (machine_fill (sb_config sb) (sb_orders sb) (c_side command)
                            (spec_limit (sb_config sb) command) (c_quantity command)))).
Proof.
  intros [R _ ->] Hq Hpos. cbn [sb_config sb_orders]. destruct test; [|done]. cbn [andb].
  rewrite negb_involutive. by apply can_fully_fill_ok.
Qed.

Lemma full_guard b sb G : represents b sb G -> bool_decide (free_nodes b = []) = spec_full sb.
Proof.
  intros [R _ ->]. unfold spec_full. cbn [sb_config sb_orders]. rewrite length_fmap.
  destruct (Z.leb_spec (maximum_orders (config b)) (Z.of_nat (length G))) as [Hf|Hf].
  - apply bool_decide_eq_true. by apply (free_empty_full R).
  - apply bool_decide_eq_false. intros E. apply (free_empty_full R) in E. lia.
Qed.

Lemma machine_fill_sound b sb G side limit quantity : represents b sb G ->
  machine_fill (sb_config sb) (sb_orders sb) side limit quantity = true ->
  quantity <= liquidity (sb_orders sb) side limit.
Proof.
  intros [R W ->]. cbn [sb_config sb_orders]. intros H. unfold machine_fill in H.
  pose proof (machine_liquidity_le (br_config _ _ R) _ side limit W). lia.
Qed.

Lemma submit_ok b sb G command events : represents b sb G -> is_u64 (c_quantity command) ->
  outcome (submit b command events false) events (spec_submit machine_fill sb command).
Proof.
  intros H Hq. unfold submit, spec_submit.
  destruct (Z.eqb_spec (c_quantity command) 0) as [Hz|Hz]; [by eapply reject_ok|].
  assert (Hpos : 0 < c_quantity command) by intlia.
  rewrite (price_guard _ _ _ _ H). cbn [mbind result_bind negb]. rewrite negb_involutive.
  destruct (negb (bool_decide (c_order_type command = Market)) &&
            negb (on_ladder (sb_config sb) (c_price command))) eqn:Ep; [by eapply reject_ok|].
  assert (Hfind : exists f, index_find (order_index b) (c_order_id command) = Ok f /\
    bool_decide (is_Some f) =
      bool_decide (is_Some (find_order (c_order_id command) (sb_orders sb)))).
  { rewrite (rp_spec _ _ _ H). destruct (find_cases b sb G (c_order_id command) H)
      as [[-> Hf]|(n & o & nd & -> & Hf & _)]; cbn [sb_orders]; rewrite Hf; by eexists. }
  destruct Hfind as (f & -> & Hf). cbn [mbind result_bind]. rewrite Hf.
  destruct (bool_decide (is_Some (find_order _ _))) eqn:Hdup; [by eapply reject_ok|].
  apply bool_decide_eq_false in Hdup.
  rewrite (fill_guard _ _ _ _ (bool_decide (c_order_type command = FillOrKill)) H Hq Hpos). cbn [mbind result_bind]. rewrite negb_involutive.
  destruct (bool_decide (c_order_type command = FillOrKill) && _); [by eapply reject_ok|].
  rewrite (fill_guard _ _ _ _ _ H Hq Hpos). cbn [mbind result_bind]. rewrite negb_involutive.
  rewrite (full_guard _ _ _ H), (andb_comm (spec_full sb)).
  destruct (bool_decide (c_order_type command = Limit) && spec_full sb && _) eqn:Ecap;
    [by eapply reject_ok|].
  destruct (execute_ok b sb G command (emit events Accepted command 0 0 0 NoReason) H Hq)
    as (b' & -> & Hb').
  { intros Hl. rewrite Hl in Ep, Ecap. cbn in Ep, Ecap. split_and!.
    - by destruct (on_ladder _ _).
    - apply find_order_none. by apply eq_None_not_Some.
    - intros Hfull. rewrite Hfull in Ecap. cbn in Ecap. apply negb_false_iff in Ecap.
      by eapply machine_fill_sound. }
  destruct (spec_execute sb command) as [sb' ev]. exists b'. split; [|done].
  unfold emit. cbn [fst snd]. by rewrite <- app_assoc.
Qed.

(** The resubmission inside [replace]: the guards hold and are not repeated. *)
Lemma resubmit_ok b sb G command events : represents b sb G -> is_u64 (c_quantity command) ->
  c_order_type command = Limit -> c_quantity command <> 0 ->
  on_ladder (sb_config sb) (c_price command) = true ->
  c_order_id command ∉ (ro_id <$> sb_orders sb) -> spec_full sb = false ->
  outcome (submit b command events true) events (spec_execute sb command).
Proof.
  intros H Hq Hl Hz Hp Hid Hfull. unfold submit. rewrite (proj2 (Z.eqb_neq _ _) Hz).
  rewrite (price_guard _ _ _ _ H). rewrite (full_guard _ _ _ H), Hfull, Hl, Hp. cbn.
  pose proof (execute_ok b sb G command events H Hq) as He. rewrite Hl in He. apply He.
  intros _. split_and!; auto. by rewrite Hfull.
Qed.

(** ** Replace *)

Lemma replace_ok b sb G command events : represents b sb G -> is_u64 (c_quantity command) ->
  outcome (replace b command events) events (spec_replace sb command).
Proof.
  intros H Hq. unfold replace, spec_replace, cancel. pose proof (rp_spec _ _ _ H) as Hsb.
  destruct (find_cases b sb G (c_order_id command) H)
    as [[-> Hf]|(n & o & nd & Hfi & Hf & Hin & Hid & Hnd & Hord)]; cbn [mbind result_bind].
  { rewrite Hsb at 1. cbn [sb_orders]. rewrite Hf. by eapply reject_ok. }
  rewrite Hsb at 1. cbn [sb_orders]. rewrite Hf, Hfi. cbn [mbind result_bind].
  destruct (Z.eqb_spec (c_quantity command) 0) as [Hz|Hz]; [by eapply reject_ok|].
  rewrite valid_price_ok by apply H. cbn [mbind result_bind].
  rewrite Hsb at 1. cbn [sb_config].
  destruct (on_ladder (config b) (c_price command)) eqn:Ep; cbn [negb]; [|by eapply reject_ok].
  rewrite (vget_ok _ _ _ Hnd). cbn [mbind result_bind].
  destruct (remove_represents b sb G n o H Hin) as (b1 & -> & H1). cbn [mbind result_bind].
  assert (n_side nd = ro_side o) as -> by by rewrite <- Hord.
  fold (replacement_of command (ro_side o)). rewrite Hid in H1.
  destruct (resubmit_ok b1 _ _ (replacement_of command (ro_side o))
    (emit events Replaced (replacement_of command (ro_side o)) 0 (c_price command)
       (c_quantity command) NoReason) H1 Hq) as (b2 & Hsub & H2); try done.
  - rewrite Hsb. done.
  - cbn. intros (x & Hx & [Hne _]%list_elem_of_filter)%list_elem_of_fmap. congruence.
  - rewrite Hsb. unfold spec_full, spec_remove. cbn [sb_config sb_orders]. apply Z.leb_gt.
    assert (o ∈ G.*2) as Ho by by apply (list_elem_of_fmap_2 snd _ (n, o)).
    pose proof (remove_order_lt o _ Ho) as Hlt. rewrite Hid, length_fmap in Hlt.
    pose proof (live_count (rp_rep _ _ _ H)). lia.
  - cbn [c_price c_quantity replacement_of] in Hsub |- *. rewrite Hsub.
    destruct (spec_execute _ _) as [sb' ev]. exists b2. split; [|done].
    unfold emit. cbn [fst snd]. by rewrite <- app_assoc.
Qed.

(** ** One command *)

Lemma process_ok b sb command events : refines b sb -> is_u64 (c_quantity command) ->
  outcome (process b command events) events (spec_process machine_fill sb command).
Proof.
  intros [G H] Hq. unfold process, spec_process.
  assert (sb_stats sb = stats b) as -> by by rewrite (rp_spec _ _ _ H).
  case_match; [by eapply reject_ok|].
  assert (H1 : represents (set_stats b (inc_commands (set_last_sequence (stats b) (c_sequence command))))
    (MkSpec (sb_config sb) (sb_orders sb)
       (inc_commands (set_last_sequence (stats b) (c_sequence command)))) G)
    by by apply represents_stats.
  destruct (c_type command); [by eapply submit_ok|by eapply cancel_ok|by eapply replace_ok].
Qed.
End Commands.
