(* ===== verification/SpecStep.v ===== *)
(** * SpecStep: the specification as a transition system

    [spec_step] lists the possible outcomes of one command: a rejection that
    leaves the orders alone, a cancellation, an execution, a replacement.
    Every result of [spec_process] is one of them; the invariants of the book
    are proved by cases on the step. *)
From Stdlib Require Import ZArith Lia.
From stdpp Require Import base numbers gmap list.
From S2P Require Import Prelude Types OrderIndex Bitmap OrderBook BookSpec Prices BookRep.
From S2P Require Import BookWrites BookInv BookMatch BookFill SpecFacts BookRefine.
Local Open Scope Z_scope.

Implicit Types (l : list RestingOrder) (c : Command) (events : list Event).

(** What rests of an order after matching. *)
Definition resting_of c (rest : Z) : RestingOrder :=
  MkResting (c_order_id c) (c_side c) (c_price c) rest (c_sequence c).

Inductive executes (cfg : BookConfig) l c : list RestingOrder -> list Event -> Prop :=
  | exec_filled l1 trades :
      spec_match (S (length l)) c (spec_limit cfg c) (c_quantity c) l = (l1, trades, 0) ->
      executes cfg l c l1 trades
  | exec_rested l1 trades rest :
      spec_match (S (length l)) c (spec_limit cfg c) (c_quantity c) l = (l1, trades, rest) ->
      rest <> 0 -> c_order_type c = Limit ->
      executes cfg l c (l1 ++ [resting_of c rest])
        (trades ++ [event c Rested 0 (c_price c) rest NoReason])
  | exec_cancelled l1 trades rest :
      spec_match (S (length l)) c (spec_limit cfg c) (c_quantity c) l = (l1, trades, rest) ->
      rest <> 0 -> c_order_type c <> Limit ->
      executes cfg l c l1 (trades ++ [event c Cancelled 0 (c_price c) rest NoReason]).

Inductive spec_step (fill : fill_test) (cfg : BookConfig) l c
  : list RestingOrder -> list Event -> Prop :=
  | step_reject reason : reason <> NoReason ->
      spec_step fill cfg l c l [event c Rejected 0 0 0 reason]
  | step_cancel o : c_type c = Cancel -> find_order (c_order_id c) l = Some o ->
      spec_step fill cfg l c (remove_order (c_order_id c) l)
        [event c Cancelled 0 (ro_price o) (ro_quantity o) NoReason]
  | step_new l' events : c_type c = New -> c_quantity c <> 0 ->
      (c_order_type c <> Market -> on_ladder cfg (c_price c) = true) ->
      find_order (c_order_id c) l = None ->
      (c_order_type c = FillOrKill ->
         fill cfg l (c_side c) (spec_limit cfg c) (c_quantity c) = true) ->
      (c_order_type c = Limit -> maximum_orders cfg <= Z.of_nat (length l) ->
         fill cfg l (c_side c) (spec_limit cfg c) (c_quantity c) = true) ->
      executes cfg l c l' events ->
      spec_step fill cfg l c l' (event c Accepted 0 0 0 NoReason :: events)
  | step_replace o l' events : c_type c = Replace -> find_order (c_order_id c) l = Some o ->
      c_quantity c <> 0 -> on_ladder cfg (c_price c) = true ->
      executes cfg (remove_order (c_order_id c) l) (replacement_of c (ro_side o)) l' events ->
      spec_step fill cfg l c l'
        (event (replacement_of c (ro_side o)) Replaced 0 (c_price c) (c_quantity c) NoReason :: events).

(** Statistics after a step, from its events. *)
Definition count_type (t : EventType) events : nat :=
  length (filter (fun e => e_type e = t) events).

Definition add_rejected (st : BookStats) (n : nat) : BookStats := Nat.iter n inc_rejected st.

Definition stats_after (st : BookStats) l events : BookStats :=
  set_resting (add_rejected (add_trades st (count_type Trade events)) (count_type Rejected events)) l.

Section Steps.
Context (fill : fill_test).

Lemma count_type_app t events1 events2 :
  count_type t (events1 ++ events2) = (count_type t events1 + count_type t events2)%nat.
Proof. unfold count_type. by rewrite filter_app, length_app. Qed.

Lemma spec_match_trades fuel c limit remaining l l' trades rest :
  spec_match fuel c limit remaining l = (l', trades, rest) ->
  Forall (fun e => e_type e = Trade) trades.
Proof.
  revert remaining l l' trades rest.
  induction fuel as [|fuel IH]; intros remaining l l' trades rest; cbn [spec_match].
  { intros [= <- <- <-]. constructor. }
  case_match; [|by intros [= <- <- <-]; constructor].
  case_match; [|by intros [= <- <- <-]; constructor].
  destruct (spec_match fuel _ _ _ _) as [[l1 tr] rs] eqn:E. intros [= <- <- <-].
  constructor; [done|]. by eapply IH.
Qed.

Lemma count_trades t events : Forall (fun e => e_type e = Trade) events ->
  count_type t events = if decide (t = Trade) then length events else 0%nat.
Proof.
  intros H. unfold count_type. case_decide as Ht.
  - rewrite filter_all; [done|]. intros e He. rewrite Forall_forall in H. by rewrite Ht, H.
  - rewrite filter_none; [done|]. intros e He. rewrite Forall_forall in H. rewrite H; congruence.
Qed.

Lemma spec_execute_step sb c : let '(sb', events) := spec_execute sb c in
  executes (sb_config sb) (sb_orders sb) c (sb_orders sb') events /\
  sb_config sb' = sb_config sb /\
  sb_stats sb' = set_resting (add_trades (sb_stats sb) (count_type Trade events)) (sb_orders sb') /\
  count_type Rejected events = 0%nat.
Proof.
  unfold spec_execute. destruct (spec_match _ _ _ _ _) as [[l1 trades] rest] eqn:E.
  pose proof (spec_match_trades _ _ _ _ _ _ _ _ E) as Ht.
  pose proof (count_trades Trade trades Ht) as H1. pose proof (count_trades Rejected trades Ht) as H2.
  cbn in H1, H2.
  destruct (Z.eqb_spec rest 0) as [->|Hr]; [|destruct (decide (c_order_type c = Limit))]; cbn [sb_orders sb_config sb_stats];
    rewrite ?count_type_app, ?H1, ?H2; split_and!; try done; cbn; rewrite ?Nat.add_0_r; try done.
  - by constructor.
  - by eapply exec_rested.
  - by eapply exec_cancelled.
Qed.
End Steps.

Lemma spec_reject_step fill (st0 : BookStats) cfg l c reason : reason <> NoReason ->
  resting_count st0 = Z.of_nat (length l) ->
  let '(sb', events) := spec_reject (MkSpec cfg l st0) c reason in
  spec_step fill cfg l c (sb_orders sb') events /\ sb_config sb' = cfg /\
  sb_stats sb' = stats_after st0 (sb_orders sb') events.
Proof.
  intros Hr Hst. cbn. split_and!; [by constructor|done|].
  unfold stats_after, set_resting. cbn. unfold inc_rejected. by rewrite Hst.
Qed.

(** The statistics a command starts from: the sequence counter moves on
    unless the command is out of sequence. *)
Definition stats_before (st : BookStats) c : BookStats :=
  if c_sequence c =? u64 (last_sequence st + 1)
  then inc_commands (set_last_sequence st (c_sequence c)) else st.

(** Every command is one step of the transition system. *)
Lemma spec_process_step fill sb c sb' events :
  resting_count (sb_stats sb) = Z.of_nat (length (sb_orders sb)) ->
  spec_process fill sb c = (sb', events) ->
  spec_step fill (sb_config sb) (sb_orders sb) c (sb_orders sb') events /\
  sb_config sb' = sb_config sb /\
  sb_stats sb' = stats_after (stats_before (sb_stats sb) c) (sb_orders sb') events.
Proof.
  destruct sb as [cfg l st]; cbn [sb_config sb_orders sb_stats]. intros Hst.
  unfold spec_process, stats_before. cbn [sb_config sb_orders sb_stats].
  assert (Hrej : forall st0 reason, resting_count st0 = Z.of_nat (length l) -> reason <> NoReason ->
    spec_reject (MkSpec cfg l st0) c reason = (sb', events) ->
    spec_step fill cfg l c (sb_orders sb') events /\ sb_config sb' = cfg /\
    sb_stats sb' = stats_after st0 (sb_orders sb') events).
  { intros st0 reason H0 Hr E. pose proof (spec_reject_step fill st0 cfg l c reason Hr H0) as H.
    by rewrite E in H. }
  destruct (Z.eqb_spec (c_sequence c) (u64 (last_sequence st + 1))) as [_|Hs]; cbn [negb];
    [|by apply Hrej].
  set (st1 := inc_commands _). assert (H1 : resting_count st1 = Z.of_nat (length l)) by done.
  clearbody st1. destruct (c_type c) eqn:Et.
  - unfold spec_submit. cbn [sb_config sb_orders].
    destruct (Z.eqb_spec (c_quantity c) 0); [by apply Hrej|].
    destruct (negb (bool_decide _) && _) eqn:Ep; [by apply Hrej|].
    destruct (bool_decide (is_Some _)) eqn:Ed; [by apply Hrej|].
    apply bool_decide_eq_false, eq_None_not_Some in Ed.
    destruct (bool_decide (c_order_type c = FillOrKill) && _) eqn:Ef; [by apply Hrej|].
    destruct (bool_decide (c_order_type c = Limit) && _ && _) eqn:Ec; [by apply Hrej|].
    pose proof (spec_execute_step (MkSpec cfg l st1) c) as He.
    destruct (spec_execute (MkSpec cfg l st1) c) as [sb1 ev]. destruct He as (He & Hc & Hs & Hr).
    intros [= <- <-]. cbn [sb_config sb_orders sb_stats] in *. split_and!; [|done|].
    + apply step_new; auto.
      * intros Hm. rewrite bool_decide_eq_false_2 in Ep by done. by destruct (on_ladder _ _).
      * intros E. rewrite E in Ef. cbn in Ef. by apply negb_false_iff in Ef.
      * intros E Hfull. unfold spec_full in Ec. cbn [sb_config sb_orders] in Ec.
        rewrite E, (proj2 (Z.leb_le _ _) Hfull) in Ec. cbn in Ec. by apply negb_false_iff in Ec.
    + rewrite Hs. unfold stats_after. change (count_type Trade (_ :: ev)) with (count_type Trade ev).
      change (count_type Rejected (_ :: ev)) with (count_type Rejected ev). by rewrite Hr.
  - unfold spec_cancel. cbn [sb_orders]. destruct (find_order _ _) as [o|] eqn:Ef; [|by apply Hrej].
    intros [= <- <-]. cbn. split_and!; [by eapply step_cancel|done|done].
  - unfold spec_replace. cbn [sb_orders sb_config].
    destruct (find_order _ _) as [o|] eqn:Ef; [|by apply Hrej].
    destruct (Z.eqb_spec (c_quantity c) 0); [by apply Hrej|].
    destruct (on_ladder cfg (c_price c)) eqn:Ep; [|by apply Hrej]. cbn [negb].
    pose proof (spec_execute_step (spec_remove (MkSpec cfg l st1) (c_order_id c))
      (replacement_of c (ro_side o))) as He.
    destruct (spec_execute _ _) as [sb1 ev]. destruct He as (He & Hc & Hs & Hr).
    intros [= <- <-]. cbn [sb_config sb_orders sb_stats spec_remove] in *. split_and!; [|done|].
    + by eapply step_replace.
    + rewrite Hs, set_resting_trades. unfold stats_after.
      change (count_type Trade (_ :: ev)) with (count_type Trade ev).
      change (count_type Rejected (_ :: ev)) with (count_type Rejected ev). by rewrite Hr.
Qed.
