(* ===== verification/SpecPriority.v ===== *)
(** * SpecPriority: price-time priority, declaratively

    Matching repeatedly takes the earliest order at the best price.  Here the
    crossing orders are ranked once, by price and then by arrival, and the
    aggressor consumes the ranking from its front: both give the same
    trades. *)
From Stdlib Require Import ZArith Lia.
From stdpp Require Import base numbers gmap list sorting.
From S2P Require Import Prelude Types OrderIndex Bitmap OrderBook BookSpec Prices BookRep.
From S2P Require Import BookWrites BookInv BookMatch BookFill SpecFacts.
Local Open Scope Z_scope.

Section Ranking.
Context (side : Side) (limit : Z).
Implicit Types (l : list RestingOrder) (o : RestingOrder).

(** Behind the strictly better prices, ahead of everything that came later. *)
Fixpoint insert_ranked o l : list RestingOrder :=
  match l with
  | [] => [o]
  | x :: l' => if price_better side (ro_price x) (ro_price o) then x :: insert_ranked o l'
               else o :: l
  end.

Definition ranked l : list RestingOrder :=
  foldr (fun o r => if crossing side limit o then insert_ranked o r else r) [] l.

(** Trades of an aggressor with the orders of [l], in this order. *)
Fixpoint consume (command : Command) (remaining : Z) l : list Event * Z :=
  match l with
  | [] => ([], remaining)
  | o :: l =>
    if 0 <? remaining then
      let traded := Z.min remaining (ro_quantity o) in
      let '(events, rest) := consume command (remaining - traded) l in
      (trade_event command o traded :: events, rest)
    else ([], remaining)
  end.

Definition not_worse (x y : RestingOrder) : Prop :=
  price_better side (ro_price y) (ro_price x) = false.

Lemma insert_ranked_perm o l : insert_ranked o l ≡ₚ o :: l.
Proof.
  induction l as [|x l IH]; [done|]. cbn. case_match; [|done]. rewrite IH. solve_Permutation.
Qed.

Lemma insert_ranked_sorted o l : StronglySorted not_worse l -> StronglySorted not_worse (insert_ranked o l).
Proof.
  induction l as [|x l IH]; intros Hs; cbn; [by repeat constructor|].
  apply StronglySorted_cons in Hs as [Hx Hs]. unfold not_worse in *.
  destruct (price_better side (ro_price x) (ro_price o)) eqn:E.
  - apply StronglySorted_cons. split; [|by apply IH]. rewrite insert_ranked_perm.
    constructor; [|done]. unfold price_better in *. destruct side; lia.
  - apply StronglySorted_cons. split; [|by apply StronglySorted_cons].
    constructor; [done|]. eapply Forall_impl; [exact Hx|]. cbn.
    unfold price_better in *. intros y Hy. destruct side; lia.
Qed.

Lemma ranked_sorted l : StronglySorted not_worse (ranked l).
Proof.
  induction l as [|o l IH]; cbn; [constructor|]. case_match; [by apply insert_ranked_sorted|done].
Qed.

Lemma ranked_perm l : ranked l ≡ₚ filter (fun o => crossing side limit o = true) l.
Proof.
  induction l as [|o l IH]; [done|]. cbn [ranked foldr]. rewrite filter_cons.
  destruct (crossing side limit o); [rewrite decide_True by done|by rewrite decide_False by done].
  rewrite insert_ranked_perm. by rewrite <- IH.
Qed.

Lemma ranked_head l : best_order side limit l = head (ranked l).
Proof.
  induction l as [|o l IH]; [done|]. cbn [best_order ranked foldr]. fold (ranked l). rewrite IH.
  destruct (ranked l) as [|x r]; cbn; [by case_match|].
  destruct (crossing side limit o); cbn; [|done]. by destruct (price_better _ _ _).
Qed.

(** Removing an order does not disturb the others. *)
Lemma insert_ranked_remove id o l : StronglySorted not_worse l ->
  remove_order id (insert_ranked o l) =
    if decide (ro_id o = id) then remove_order id l else insert_ranked o (remove_order id l).
Proof.
  unfold remove_order. induction l as [|x l IH]; intros Hs.
  { cbn [insert_ranked]. rewrite filter_cons, !filter_nil. repeat case_decide; tauto. }
  apply StronglySorted_cons in Hs as [Hx Hs]. cbn [insert_ranked].
  assert (Hfront : forall k, k `sublist_of` l -> price_better side (ro_price x) (ro_price o) = false ->
    insert_ranked o k = o :: k).
  { intros k Hk Hb. destruct k as [|y k]; [done|]. cbn.
    assert (not_worse x y) as Hy.
    { rewrite Forall_forall in Hx. apply Hx. eapply elem_of_sublist; [|exact Hk]. set_solver. }
    unfold not_worse in Hy. assert (price_better side (ro_price y) (ro_price o) = false) as ->; [|done].
    unfold price_better in *. destruct side; lia. }
  destruct (price_better side (ro_price x) (ro_price o)) eqn:E.
  - rewrite !filter_cons, IH by done.
    repeat case_decide; try tauto; cbn; rewrite ?E; done.
  - rewrite !(filter_cons _ o), !(filter_cons _ x).
    repeat case_decide; try tauto; cbn; rewrite ?E; try done.
    symmetry. apply Hfront; [apply sublist_filter|done].
Qed.

Lemma ranked_remove id l : ranked (remove_order id l) = remove_order id (ranked l).
Proof.
  induction l as [|o l IH]; [done|]. unfold remove_order at 1. rewrite filter_cons.
  cbn [ranked foldr]. fold (ranked l). fold (remove_order id l).
  destruct (crossing side limit o) eqn:E.
  - rewrite insert_ranked_remove by apply ranked_sorted.
    destruct (decide (ro_id o = id)); [by rewrite decide_False by tauto|].
    rewrite decide_True by done. cbn [ranked foldr]. rewrite E. fold (ranked (remove_order id l)).
    by rewrite IH.
  - case_decide; [|done]. cbn [ranked foldr]. rewrite E. done.
Qed.
End Ranking.

(** Repeated best-order matching is one pass over the ranking. *)
Lemma spec_match_ranked {cfg} fuel command limit remaining l : orders_wf cfg l ->
  (length l < fuel)%nat \/ remaining <= 0 ->
  let '(_, trades, rest) := spec_match fuel command limit remaining l in
  consume command remaining (ranked (c_side command) limit l) = (trades, rest).
Proof.
  revert remaining l. induction fuel as [|fuel IH]; intros remaining l Hwf Hf; cbn [spec_match].
  { destruct (ranked _ _ _); [done|]. cbn. by destruct (Z.ltb_spec 0 remaining); [lia|]. }
  destruct (Z.ltb_spec 0 remaining) as [Hpos|Hz]; cycle 1.
  { destruct (ranked _ _ _); [done|]. cbn. by destruct (Z.ltb_spec 0 remaining); [lia|]. }
  pose proof (ranked_head (c_side command) limit l) as Hh.
  destruct (best_order (c_side command) limit l) as [o|] eqn:Eb; cycle 1.
  { by destruct (ranked (c_side command) limit l). }
  apply best_order_in in Eb as [Hin Hc].
  destruct (ranked (c_side command) limit l) as [|x r] eqn:Er; [done|]. injection Hh as <-.
  pose proof (ow_quantity _ _ Hwf _ Hin) as Hq.
  pose proof (fill_order_progress o remaining l Hin Hpos) as Hprog.
  set (t := Z.min remaining (ro_quantity o)) in *.
  specialize (IH (remaining - t) (fill_order o t l) ltac:(apply wf_fill; [done|done|lia]) ltac:(lia)).
  destruct (spec_match fuel command limit (remaining - t) (fill_order o t l)) as [[l1 trades] rest].
  cbn [consume]. rewrite (proj2 (Z.ltb_lt _ _) Hpos). fold t.
  destruct (Z.eqb_spec t (ro_quantity o)) as [Et|Et].
  - unfold fill_order in IH. rewrite (proj2 (Z.eqb_eq _ _) Et), ranked_remove, Er in IH.
    assert (remove_order (ro_id o) (o :: r) = r) as E; [|rewrite E in IH; by rewrite IH].
    unfold remove_order. rewrite filter_cons_False by tauto. apply filter_all.
    intros y Hy He. assert (NoDup (ro_id <$> o :: r)) as Hnd.
    { rewrite <- Er, ranked_perm. apply NoDup_fmap_filter. apply Hwf. }
    cbn in Hnd. apply list.NoDup_cons in Hnd as [Hnd _]. apply Hnd. rewrite <- He.
    by apply list_elem_of_fmap_2.
  - assert (remaining - t = 0) as Hz by lia. rewrite Hz in IH |- *.
    assert (Hcons : forall k, consume command 0 k = ([], 0)) by by intros [].
    rewrite Hcons in IH |- *. by injection IH as <- <-.
Qed.
