(* ===== verification/SpecInv.v ===== *)
(** * SpecInv: invariants of the specified book

    Well-formedness, an uncrossed book, capacity, time priority and exact
    conservation of quantity, each preserved by every step. *)
From Stdlib Require Import ZArith Lia.
From stdpp Require Import base numbers gmap list sorting.
From S2P Require Import Prelude Types OrderIndex Bitmap OrderBook BookSpec Prices BookRep.
From S2P Require Import BookWrites BookInv BookMatch BookFill SpecFacts BookRefine SpecStep.
Local Open Scope Z_scope.

Implicit Types (l : list RestingOrder) (c : Command) (events : list Event).

Lemma StronglySorted_sublist {A} (R : relation A) (l1 l2 : list A) :
  l1 `sublist_of` l2 -> StronglySorted R l2 -> StronglySorted R l1.
Proof.
  induction 1 as [|x k1 k2 Hk IH|x k1 k2 Hk IH]; intros Hs; [done|..];
    apply StronglySorted_cons in Hs as [Hx Hs]; [|by apply IH].
  apply StronglySorted_cons. split; [|by apply IH].
  rewrite Forall_forall in Hx |- *. intros y Hy. apply Hx. by eapply elem_of_sublist.
Qed.

(** ** What matching does not change *)

(** Everything of an order but its quantity. *)
Definition order_key (o : RestingOrder) : Z * Side * Z * Z :=
  (ro_id o, ro_side o, ro_price o, ro_priority o).

Lemma fill_order_keys o t l : (order_key <$> fill_order o t l) `sublist_of` (order_key <$> l).
Proof.
  unfold fill_order. case_match.
  - apply fmap_sublist, sublist_filter.
  - unfold reduce_order. rewrite <- list_fmap_compose.
    assert (order_key ∘ (fun o0 => if decide (ro_id o0 = ro_id o)
      then set_quantity o0 (ro_quantity o0 - t) else o0) <$> l = order_key <$> l) as ->; [|done].
    apply list_fmap_ext. intros i x _. cbn. by case_decide.
Qed.

Lemma spec_match_keys fuel c limit remaining l l' trades rest :
  spec_match fuel c limit remaining l = (l', trades, rest) ->
  (order_key <$> l') `sublist_of` (order_key <$> l).
Proof.
  revert remaining l l' trades rest.
  induction fuel as [|fuel IH]; intros remaining l l' trades rest; cbn [spec_match].
  { by intros [= <- <- <-]. }
  case_match; [|by intros [= <- <- <-]]. case_match; [|by intros [= <- <- <-]].
  destruct (spec_match fuel _ _ _ _) as [[l1 tr] rs] eqn:E. intros [= <- <- <-].
  etransitivity; [by eapply IH|apply fill_order_keys].
Qed.

Lemma keys_elem l l' o : (order_key <$> l') `sublist_of` (order_key <$> l) -> o ∈ l' ->
  exists o0, o0 ∈ l /\ order_key o0 = order_key o.
Proof.
  intros Hs Ho. assert (order_key o ∈ order_key <$> l) as (x & Hx & Hin)%list_elem_of_fmap.
  { eapply elem_of_sublist; [by apply list_elem_of_fmap_2|done]. }
  by exists x.
Qed.

(** No quantity grows. *)
Definition quantity_bound (q : Z) l : Prop := forall o, o ∈ l -> ro_quantity o <= q.

Lemma fill_order_bound q o t l : 0 <= t -> quantity_bound q l -> quantity_bound q (fill_order o t l).
Proof.
  intros Ht Hq x. unfold fill_order. case_match.
  - intros [_ Hx]%list_elem_of_filter. by apply Hq.
  - intros (y & -> & Hy)%list_elem_of_fmap. pose proof (Hq y Hy). case_decide; cbn; lia.
Qed.

Lemma spec_match_bound q fuel c limit remaining l l' trades rest cfg : orders_wf cfg l ->
  spec_match fuel c limit remaining l = (l', trades, rest) ->
  quantity_bound q l -> quantity_bound q l'.
Proof.
  revert remaining l l' trades rest.
  induction fuel as [|fuel IH]; intros remaining l l' trades rest Hwf; cbn [spec_match].
  { by intros [= <- <- <-]. }
  destruct (Z.ltb_spec 0 remaining); [|by intros [= <- <- <-]].
  destruct (best_order _ _ _) as [o|] eqn:Eb; [|by intros [= <- <- <-]].
  apply best_order_in in Eb as [Hin _]. pose proof (ow_quantity _ _ Hwf _ Hin).
  destruct (spec_match fuel _ _ _ _) as [[l1 tr] rs] eqn:E. intros [= <- <- <-] Hq.
  eapply IH; [|exact E|].
  - apply wf_fill; [done|done|lia].
  - apply fill_order_bound; [lia|done].
Qed.

Lemma level_total_bound q l side p : quantity_bound q l -> 0 <= q ->
  level_total l side p <= q * Z.of_nat (length l).
Proof.
  intros Hq Hpos. unfold level_total. induction l as [|o l IH]; [cbn; lia|].
  rewrite filter_cons. pose proof (Hq o ltac:(set_solver)).
  specialize (IH ltac:(intros x Hx; apply Hq; set_solver)).
  case_decide; cbn [total foldr length]; fold (total (filter (at_level side p) l)); lia.
Qed.

(** ** Execution *)

(** No buyer pays what a seller asks. *)
Definition uncrossed l : Prop := forall x y, x ∈ l -> y ∈ l ->
  ro_side x = Buy -> ro_side y = Sell -> ro_price x < ro_price y.

Lemma uncrossed_keys l l' : (order_key <$> l') `sublist_of` (order_key <$> l) ->
  uncrossed l -> uncrossed l'.
Proof.
  intros Hs Hu x y Hx Hy Hsx Hsy.
  destruct (keys_elem _ _ _ Hs Hx) as (x0 & Hx0 & [= _ Ex1 Ex2 _]).
  destruct (keys_elem _ _ _ Hs Hy) as (y0 & Hy0 & [= _ Ey1 Ey2 _]).
  rewrite <- Ex2, <- Ey2. apply Hu; congruence.
Qed.

Lemma remove_order_keys id l : (order_key <$> remove_order id l) `sublist_of` (order_key <$> l).
Proof. apply fmap_sublist, sublist_filter. Qed.

(** What an order needs before it is executed. *)
Record admissible (cfg : BookConfig) l c : Prop := {
  ad_quantity : 0 < c_quantity c <= u64_max;
  ad_price : c_order_type c = Limit -> on_ladder cfg (c_price c) = true;
  ad_id : c_order_id c ∉ (ro_id <$> l);
  ad_room : c_order_type c = Limit -> maximum_orders cfg <= Z.of_nat (length l) ->
    c_quantity c <= liquidity l (c_side c) (spec_limit cfg c) }.

Section Executes.
Context {cfg : BookConfig} {l : list RestingOrder} {c : Command} {l' : list RestingOrder}
  {events : list Event}.
Context (Hwf : orders_wf cfg l) (Had : admissible cfg l c) (Hex : executes cfg l c l' events).

Lemma exec_outcome l1 trades rest :
  spec_match (S (length l)) c (spec_limit cfg c) (c_quantity c) l = (l1, trades, rest) ->
  matched cfg c (spec_limit cfg c) (c_quantity c) l l1 trades rest /\ 0 <= rest <= c_quantity c.
Proof.
  intros H. pose proof (ad_quantity _ _ _ Had). apply (spec_match_outcome (cfg := cfg)) in H as Hm;
    [|done|lia|left; lia].
  split; [done|]. pose proof (m_rest _ _ _ _ _ _ _ Hm).
  pose proof (liquidity_nonneg (c_side c) (spec_limit cfg c) l Hwf). lia.
Qed.

Lemma exec_wf : orders_wf cfg l'.
Proof.
  pose proof (ad_quantity _ _ _ Had).
  destruct Hex as [l1 tr H1|l1 tr rest H1 Hr Hl|l1 tr rest H1 Hr Hl];
    destruct (exec_outcome _ _ _ H1) as [Hm Hrest]; [apply Hm| |apply Hm].
  apply wf_snoc; cbn; [apply Hm| |by apply (ad_price _ _ _ Had)|lia].
  intros Hin. by apply (ad_id _ _ _ Had), (m_ids _ _ _ _ _ _ _ Hm).
Qed.

(** An order that rests leaves nothing it could have traded with. *)
Lemma exec_no_crossing l1 trades rest x :
  spec_match (S (length l)) c (spec_limit cfg c) (c_quantity c) l = (l1, trades, rest) ->
  rest <> 0 -> x ∈ l1 -> crossing (c_side c) (spec_limit cfg c) x = false.
Proof.
  intros H1 Hr Hx. destruct (exec_outcome _ _ _ H1) as [Hm Hrest].
  destruct (crossing (c_side c) (spec_limit cfg c) x) eqn:E; [|done]. exfalso.
  pose proof (liquidity_ge _ _ _ _ (m_wf _ _ _ _ _ _ _ Hm) Hx E) as Hge.
  pose proof (ow_quantity _ _ (m_wf _ _ _ _ _ _ _ Hm) _ Hx).
  pose proof (m_liquidity _ _ _ _ _ _ _ Hm). pose proof (m_rest _ _ _ _ _ _ _ Hm). lia.
Qed.

Lemma exec_uncrossed : uncrossed l -> uncrossed l'.
Proof.
  intros Hu. destruct Hex as [l1 tr H1|l1 tr rest H1 Hr Hl|l1 tr rest H1 Hr Hl];
    pose proof (uncrossed_keys _ _ (spec_match_keys _ _ _ _ _ _ _ _ H1) Hu) as Hu1; [done| |done].
  assert (Hlim : spec_limit cfg c = c_price c) by (unfold spec_limit; by rewrite Hl).
  assert (Hno : forall x, x ∈ l1 -> ro_side x = opposite (c_side c) ->
    price_crosses (c_side c) (c_price c) (ro_price x) = false).
  { intros x Hx Hs. pose proof (exec_no_crossing _ _ _ x H1 Hr Hx) as Hc.
    rewrite Hlim in Hc. unfold crossing in Hc. by rewrite bool_decide_eq_true_2 in Hc. }
  unfold price_crosses in Hno.
  intros x y [Hx|Hx%list_elem_of_singleton]%elem_of_app
    [Hy|Hy%list_elem_of_singleton]%elem_of_app Hsx Hsy; subst; cbn in *.
  - by apply Hu1.
  - rewrite Hsy in Hno. specialize (Hno x Hx Hsx). lia.
  - rewrite Hsx in Hno. specialize (Hno y Hy Hsy). lia.
  - congruence.
Qed.

Lemma exec_length : Z.of_nat (length l) <= maximum_orders cfg ->
  Z.of_nat (length l') <= maximum_orders cfg.
Proof.
  intros Hlen. destruct Hex as [l1 tr H1|l1 tr rest H1 Hr Hl|l1 tr rest H1 Hr Hl];
    destruct (exec_outcome _ _ _ H1) as [Hm Hrest]; pose proof (m_length _ _ _ _ _ _ _ Hm);
    [lia| |lia].
  rewrite length_app. cbn. pose proof (m_rest _ _ _ _ _ _ _ Hm).
  pose proof (ad_room _ _ _ Had Hl). lia.
Qed.

Lemma exec_bound q : quantity_bound q l -> c_quantity c <= q -> quantity_bound q l'.
Proof.
  intros Hq Hc. destruct Hex as [l1 tr H1|l1 tr rest H1 Hr Hl|l1 tr rest H1 Hr Hl];
    pose proof (spec_match_bound q _ _ _ _ _ _ _ _ _ Hwf H1 Hq) as Hb; [done| |done].
  destruct (exec_outcome _ _ _ H1) as [Hm Hrest].
  intros x [Hx|Hx%list_elem_of_singleton]%elem_of_app; [by apply Hb|]. subst. cbn. lia.
Qed.

(** Time priority: the list stays sorted by sequence number. *)
Lemma exec_sorted : Forall (fun o => ro_priority o < c_sequence c) l ->
  StronglySorted Z.lt (ro_priority <$> l) ->
  StronglySorted Z.lt (ro_priority <$> l') /\ Forall (fun o => ro_priority o <= c_sequence c) l'.
Proof.
  assert (Hkey : forall k : list RestingOrder,
    ro_priority <$> k = (fun x : Z * Side * Z * Z => x.2) <$> (order_key <$> k)).
  { intros k. by rewrite <- list_fmap_compose. }
  intros Hlt Hs.
  assert (Hsub : forall l1, (order_key <$> l1) `sublist_of` (order_key <$> l) ->
    StronglySorted Z.lt (ro_priority <$> l1) /\ Forall (fun o => ro_priority o < c_sequence c) l1).
  { intros l1 Hk. split.
    - eapply StronglySorted_sublist; [|exact Hs]. rewrite !Hkey. by apply fmap_sublist.
    - apply Forall_forall. intros o Ho. destruct (keys_elem _ _ _ Hk Ho) as (x & Hx & [= _ _ _ <-]).
      rewrite Forall_forall in Hlt. by apply Hlt. }
  assert (Hle : forall l1, Forall (fun o => ro_priority o < c_sequence c) l1 ->
    Forall (fun o => ro_priority o <= c_sequence c) l1).
  { intros l1 H. eapply Forall_impl; [exact H|]. cbn. intros. lia. }
  destruct Hex as [l1 tr H1|l1 tr rest H1 Hr Hl|l1 tr rest H1 Hr Hl];
    destruct (Hsub l1 (spec_match_keys _ _ _ _ _ _ _ _ H1)) as [S1 S2]; [by auto| |by auto].
  rewrite fmap_app. split.
  - apply StronglySorted_app_2; [|done|by repeat constructor].
    intros x y (o & -> & Ho)%list_elem_of_fmap ->%list_elem_of_singleton.
    rewrite Forall_forall in S2. by apply S2.
  - apply Forall_app. split; [by apply Hle|]. by repeat constructor.
Qed.
End Executes.

(** ** The invariant of the book *)

Record spec_inv (sb : SpecBook) : Prop := {
  si_config : config_ok (sb_config sb);
  si_wf : orders_wf (sb_config sb) (sb_orders sb);
  si_uncrossed : uncrossed (sb_orders sb);
  si_capacity : Z.of_nat (length (sb_orders sb)) <= maximum_orders (sb_config sb);
  si_resting : resting_count (sb_stats sb) = Z.of_nat (length (sb_orders sb)) }.

(** A liquidity test that never promises more than there is. *)
Definition sound_fill (fill : fill_test) : Prop := forall cfg l side limit q,
  config_ok cfg -> orders_wf cfg l -> fill cfg l side limit q = true ->
  q <= liquidity l side limit.

Lemma ideal_fill_sound : sound_fill ideal_fill.
Proof. intros cfg l side limit q _ _. unfold ideal_fill. lia. Qed.

Lemma machine_fill_is_sound : sound_fill machine_fill.
Proof.
  intros cfg l side limit q Hc Hwf H. unfold machine_fill in H.
  pose proof (machine_liquidity_le Hc l side limit Hwf). lia.
Qed.

Lemma remove_order_absent id l : id ∉ (ro_id <$> remove_order id l).
Proof. intros (x & Hx & [Hne _]%list_elem_of_filter)%list_elem_of_fmap. congruence. Qed.

Section StepAdmissible.
Context {fill : fill_test} (Hfill : sound_fill fill) {cfg : BookConfig} (Hcfg : config_ok cfg).
Context {l : list RestingOrder} {c : Command} (Hwf : orders_wf cfg l) (Hq : is_u64 (c_quantity c)).

Lemma new_admissible : c_quantity c <> 0 ->
  (c_order_type c <> Market -> on_ladder cfg (c_price c) = true) ->
  find_order (c_order_id c) l = None ->
  (c_order_type c = Limit -> maximum_orders cfg <= Z.of_nat (length l) ->
     fill cfg l (c_side c) (spec_limit cfg c) (c_quantity c) = true) ->
  admissible cfg l c.
Proof.
  intros Hz Hp Hid Hcap. split.
  - intlia.
  - intros Hl. apply Hp. by rewrite Hl.
  - by apply find_order_none.
  - intros Hl Hfull. by eapply Hfill, Hcap.
Qed.

Lemma replace_admissible o : find_order (c_order_id c) l = Some o ->
  Z.of_nat (length l) <= maximum_orders cfg ->
  c_quantity c <> 0 -> on_ladder cfg (c_price c) = true ->
  admissible cfg (remove_order (c_order_id c) l) (replacement_of c (ro_side o)).
Proof.
  intros Hf Hlen Hz Hp. apply find_order_in in Hf as [Hin Hid]. split; cbn.
  - intlia.
  - done.
  - apply remove_order_absent.
  - intros _ Hfull. pose proof (remove_order_lt o l Hin). rewrite <- Hid in Hfull. lia.
Qed.
End StepAdmissible.

(** One step keeps the orders well formed, uncrossed and within capacity. *)
Lemma step_inv fill cfg l c l' events : sound_fill fill -> config_ok cfg -> orders_wf cfg l ->
  uncrossed l -> Z.of_nat (length l) <= maximum_orders cfg -> is_u64 (c_quantity c) ->
  spec_step fill cfg l c l' events ->
  orders_wf cfg l' /\ uncrossed l' /\ Z.of_nat (length l') <= maximum_orders cfg.
Proof.
  intros Hfill Hcfg Hwf Hu Hlen Hq [reason Hr|o Ht Hf|l1 ev Ht Hz Hp Hid Hfok Hcap He|o l1 ev Ht Hf Hz Hp He].
  - done.
  - split_and!; [by apply wf_remove|by eapply uncrossed_keys, Hu; apply remove_order_keys|].
    pose proof (remove_order_length (c_order_id c) l). lia.
  - assert (Had : admissible cfg l c) by by eapply new_admissible.
    split_and!; [by eapply exec_wf|by eapply exec_uncrossed|by eapply exec_length].
  - assert (Had : admissible cfg (remove_order (c_order_id c) l) (replacement_of c (ro_side o)))
      by by eapply replace_admissible.
    pose proof (remove_order_length (c_order_id c) l).
    assert (Hwf' := wf_remove (c_order_id c) l Hwf).
    split_and!; [by eapply exec_wf| |eapply exec_length; [exact Hwf'|exact Had|exact He|lia]].
    eapply exec_uncrossed; [exact Hwf'|exact Had|exact He|].
    eapply uncrossed_keys; [apply remove_order_keys|done].
Qed.

Lemma spec_process_inv fill sb c sb' events : sound_fill fill -> spec_inv sb ->
  is_u64 (c_quantity c) -> spec_process fill sb c = (sb', events) -> spec_inv sb'.
Proof.
  intros Hfill [Hc Hwf Hu Hcap Hr] Hq Hp.
  destruct (spec_process_step fill sb c sb' events Hr Hp) as (Hs & Hcf & Hst).
  destruct (step_inv _ _ _ _ _ _ Hfill Hc Hwf Hu Hcap Hq Hs) as (H1 & H2 & H3).
  split; rewrite ?Hcf; auto. by rewrite Hst.
Qed.

Lemma spec_inv_empty cfg : config_ok cfg -> spec_inv (MkSpec cfg [] BookStats_zero).
Proof.
  intros Hc. pose proof (cfg_orders _ Hc). split; cbn; auto; [apply orders_wf_nil| |lia].
  intros x y Hx. by apply elem_of_nil in Hx.
Qed.

Lemma spec_run_inv fill cmds sb sb' events : sound_fill fill -> spec_inv sb ->
  Forall (fun c => is_u64 (c_quantity c)) cmds -> spec_run fill sb cmds = (sb', events) ->
  spec_inv sb'.
Proof.
  intros Hf. revert sb sb' events. induction cmds as [|c cmds IH]; intros sb sb' events Hi Hq; cbn.
  { by intros [= <- <-]. }
  destruct (spec_process fill sb c) as [sb1 ev1] eqn:E1.
  destruct (spec_run fill sb1 cmds) as [sb2 ev2] eqn:E2. intros [= <- <-].
  apply Forall_cons in Hq as [Hq Hqs]. eapply IH; [|done|done]. by eapply spec_process_inv.
Qed.

(** ** Conservation of quantity *)

Lemma quantity_of_cons t e events : quantity_of t (e :: events) =
  (if decide (e_type e = t) then e_quantity e else 0) + quantity_of t events.
Proof. done. Qed.

Lemma total_single o : total [o] = ro_quantity o.
Proof. cbn. lia. Qed.

Lemma quantity_of_nil t : quantity_of t [] = 0.
Proof. done. Qed.

(** Decides the event-type tests of concrete events. *)
Ltac event_types :=
  rewrite ?quantity_of_nil;
  cbn [e_type e_quantity event trade_event ro_quantity resting_of];
  repeat first [rewrite decide_True by done | rewrite decide_False by done].

Lemma trades_other t events : t <> Trade -> Forall (fun e => e_type e = Trade) events ->
  quantity_of t events = 0.
Proof.
  intros Ht H. apply quantity_of_other. eapply Forall_impl; [exact H|]. cbn. congruence.
Qed.

Lemma exec_conservation cfg l c l' events : orders_wf cfg l -> admissible cfg l c ->
  executes cfg l c l' events ->
  quantity_of Trade events + quantity_of Rested events + quantity_of Cancelled events
    = c_quantity c /\
  total l' = total l - quantity_of Trade events + quantity_of Rested events.
Proof.
  intros Hwf Had He.
  destruct He as [l1 tr H1|l1 tr rest H1 Hr Hl|l1 tr rest H1 Hr Hl];
    destruct (exec_outcome Hwf Had _ _ _ H1) as [Hm Hrest];
    pose proof (spec_match_trades _ _ _ _ _ _ _ _ H1) as Ht;
    pose proof (m_executed _ _ _ _ _ _ _ Hm); pose proof (m_total _ _ _ _ _ _ _ Hm);
    pose proof (trades_other Rested tr ltac:(done) Ht);
    pose proof (trades_other Cancelled tr ltac:(done) Ht);
    rewrite ?quantity_of_app, ?quantity_of_cons, ?total_app, ?total_single; event_types; lia.
Qed.

Lemma remove_order_total cfg l o : orders_wf cfg l -> o ∈ l ->
  total (remove_order (ro_id o) l) = total l - ro_quantity o.
Proof.
  intros Hwf (l1 & l2 & ->)%list_elem_of_split. rewrite (remove_order_split l1 o l2 Hwf).
  rewrite !total_app. cbn. fold (total l2). lia.
Qed.

(** The quantity [c] takes out of the book besides trading. *)
Definition withdrawn l c : Z :=
  match find_order (c_order_id c) l with Some o => ro_quantity o | None => 0 end.

Lemma step_conservation fill cfg l c l' events : sound_fill fill -> config_ok cfg ->
  orders_wf cfg l -> Z.of_nat (length l) <= maximum_orders cfg -> is_u64 (c_quantity c) ->
  spec_step fill cfg l c l' events -> count_type Rejected events = 0%nat ->
  match c_type c with
  | New => quantity_of Trade events + quantity_of Rested events + quantity_of Cancelled events
             = c_quantity c /\
           total l' = total l - quantity_of Trade events + quantity_of Rested events
  | Cancel => quantity_of Cancelled events = withdrawn l c /\
              total l' = total l - withdrawn l c
  | Replace => quantity_of Trade events + quantity_of Rested events + quantity_of Cancelled events
                 = c_quantity c /\
               total l' = total l - withdrawn l c - quantity_of Trade events
                          + quantity_of Rested events
  end.
Proof.
  intros Hfill Hcfg Hwf Hlen Hq Hs Hnr. unfold withdrawn.
  destruct Hs as [reason Hr|o Ht Hf|l1 ev Ht Hz Hp Hid Hfok Hcap He|o l1 ev Ht Hf Hz Hp He].
  - cbn in Hnr. done.
  - rewrite Ht, Hf. apply find_order_in in Hf as [Hin Hid]. rewrite <- Hid.
    rewrite (remove_order_total cfg) by done. rewrite quantity_of_cons. event_types. lia.
  - rewrite Ht, !quantity_of_cons. event_types. rewrite !Z.add_0_l.
    apply (exec_conservation cfg l c l1 ev); [done|by eapply new_admissible|done].
  - rewrite Ht, Hf, !quantity_of_cons. event_types. rewrite !Z.add_0_l.
    assert (Had : admissible cfg (remove_order (c_order_id c) l) (replacement_of c (ro_side o)))
      by by eapply replace_admissible.
    destruct (exec_conservation cfg _ _ l1 ev (wf_remove _ _ Hwf) Had He) as [H1 H2].
    cbn [c_quantity replacement_of] in H1. split; [lia|]. rewrite H2.
    apply find_order_in in Hf as [Hin Hid]. rewrite <- Hid, (remove_order_total cfg) by done. lia.
Qed.

(** ** Fill-or-kill *)

Lemma step_fill_or_kill fill cfg l c l' events : sound_fill fill -> config_ok cfg ->
  orders_wf cfg l -> is_u64 (c_quantity c) -> c_type c = New -> c_order_type c = FillOrKill ->
  spec_step fill cfg l c l' events ->
  (l' = l /\ count_type Trade events = 0%nat /\ count_type Rejected events = 1%nat) \/
  (quantity_of Trade events = c_quantity c /\ count_type Rested events = 0%nat /\
   count_type Cancelled events = 0%nat /\ count_type Rejected events = 0%nat).
Proof.
  intros Hfill Hcfg Hwf Hq Hnew Hfok Hs.
  destruct Hs as [reason Hr|o Ht Hf|l1 ev Ht Hz Hp Hid Hff Hcap He|o l1 ev Ht Hf Hz Hp He];
    [by left|congruence| |congruence].
  right. specialize (Hff Hfok). apply Hfill in Hff; [|done|done].
  assert (Had : admissible cfg l c) by by eapply new_admissible.
  assert (Hfull : forall l2 tr rest,
    spec_match (S (length l)) c (spec_limit cfg c) (c_quantity c) l = (l2, tr, rest) -> rest = 0).
  { intros l2 tr rest H. destruct (exec_outcome Hwf Had _ _ _ H) as [Hm _].
    pose proof (m_rest _ _ _ _ _ _ _ Hm). lia. }
  destruct He as [l2 tr H1|l2 tr rest H1 Hrest Hl|l2 tr rest H1 Hrest Hl];
    [|by apply Hfull in H1|by apply Hfull in H1].
  destruct (exec_outcome Hwf Had _ _ _ H1) as [Hm _].
  pose proof (spec_match_trades _ _ _ _ _ _ _ _ H1) as Htr.
  pose proof (m_executed _ _ _ _ _ _ _ Hm).
  assert (Hcount : forall t, t <> Trade -> t <> Accepted ->
    count_type t (event c Accepted 0 0 0 NoReason :: tr) = 0%nat).
  { intros t Hne Hna. change (count_type t ([event c Accepted 0 0 0 NoReason] ++ tr) = 0%nat).
    rewrite count_type_app, (count_trades t tr Htr), decide_False by done.
    unfold count_type. cbn. by rewrite decide_False by congruence. }
  rewrite quantity_of_cons. event_types. split_and!; try by apply Hcount. lia.
Qed.

(** ** Time priority *)

Record in_time (sb : SpecBook) : Prop := {
  it_sequence : is_u64 (last_sequence (sb_stats sb));
  it_sorted : StronglySorted Z.lt (ro_priority <$> sb_orders sb);
  it_past : Forall (fun o => ro_priority o <= last_sequence (sb_stats sb)) (sb_orders sb) }.

Lemma in_time_keys l l' s : (order_key <$> l') `sublist_of` (order_key <$> l) ->
  StronglySorted Z.lt (ro_priority <$> l) -> Forall (fun o => ro_priority o <= s) l ->
  StronglySorted Z.lt (ro_priority <$> l') /\ Forall (fun o => ro_priority o <= s) l'.
Proof.
  intros Hk Hs Hp. split.
  - assert (Hkey : forall k : list RestingOrder,
      ro_priority <$> k = (fun x : Z * Side * Z * Z => x.2) <$> (order_key <$> k))
      by (intros k; by rewrite <- list_fmap_compose).
    eapply StronglySorted_sublist; [|exact Hs]. rewrite !Hkey. by apply fmap_sublist.
  - apply Forall_forall. intros o Ho. destruct (keys_elem _ _ _ Hk Ho) as (x & Hx & [= _ _ _ <-]).
    rewrite Forall_forall in Hp. by apply Hp.
Qed.

Lemma step_sorted fill cfg l c l' events s : spec_step fill cfg l c l' events ->
  s < c_sequence c -> StronglySorted Z.lt (ro_priority <$> l) ->
  Forall (fun o => ro_priority o <= s) l ->
  StronglySorted Z.lt (ro_priority <$> l') /\
  Forall (fun o => ro_priority o <= c_sequence c) l'.
Proof.
  intros Hstep Hlt Hs Hp.
  assert (Hp' : forall k, Forall (fun o => ro_priority o <= s) k ->
    Forall (fun o => ro_priority o <= c_sequence c) k /\
    Forall (fun o => ro_priority o < c_sequence c) k).
  { intros k Hk. split; (eapply Forall_impl; [exact Hk|cbn; intros; lia]). }
  destruct Hstep as [reason Hr|o Ht Hf|l1 ev Ht Hz Hpr Hid Hff Hcap He|o l1 ev Ht Hf Hz Hpr He].
  - split; [done|]. by apply Hp'.
  - destruct (in_time_keys l (remove_order (c_order_id c) l) s (remove_order_keys _ _) Hs Hp).
    split; [done|]. by apply Hp'.
  - eapply exec_sorted; [exact He| |done]. by apply Hp'.
  - destruct (in_time_keys l (remove_order (c_order_id c) l) s (remove_order_keys _ _) Hs Hp)
      as [Hs1 Hp1].
    eapply (exec_sorted (c := replacement_of c (ro_side o))); [exact He| |done]. by apply Hp'.
Qed.

Lemma spec_process_in_time fill sb c sb' events : spec_inv sb -> in_time sb ->
  last_sequence (sb_stats sb) < u64_max ->
  spec_process fill sb c = (sb', events) ->
  in_time sb' /\ last_sequence (sb_stats sb) <= last_sequence (sb_stats sb')
    <= last_sequence (sb_stats sb) + 1.
Proof.
  intros Hi [Hs Hsort Hpast] Hmax Hp.
  destruct (spec_process_step fill sb c sb' events (si_resting _ Hi) Hp) as (Hstep & Hc & Hst).
  assert (Hl : last_sequence (sb_stats sb') = last_sequence (stats_before (sb_stats sb) c)).
  { rewrite Hst. unfold stats_after, set_resting. cbn.
    assert (forall n st, last_sequence (add_rejected st n) = last_sequence st) as ->.
    { intros n st. unfold add_rejected. by induction n. }
    assert (forall n st, last_sequence (add_trades st n) = last_sequence st) as ->; [|done].
    intros n st. unfold add_trades. by induction n. }
  unfold stats_before in Hl. rewrite u64_small in Hl by intlia.
  destruct (Z.eqb_spec (c_sequence c) (last_sequence (sb_stats sb) + 1)) as [E|E].
  - cbn in Hl. rewrite Hl. split; [|lia].
    destruct (step_sorted _ _ _ _ _ _ (last_sequence (sb_stats sb)) Hstep) as [H1 H2];
      [lia|done|done|].
    split; rewrite ?Hl; auto. intlia.
  - unfold spec_process in Hp. rewrite u64_small in Hp by intlia.
    rewrite (proj2 (Z.eqb_neq _ _) E) in Hp. injection Hp as <- <-.
    split; [|cbn in Hl |- *; lia]. by split.
Qed.
