(* ===== verification/BookQueries.v ===== *)
(** * BookQueries: the read-only interface of the book

    [best_bid], [best_ask], [quantity_at] and [resting_orders] in terms of
    the specified list of orders. *)
From Stdlib Require Import ZArith Lia.
From stdpp Require Import base numbers gmap list sorting.
From S2P Require Import Prelude Types OrderIndex Bitmap OrderBook BookSpec Prices BookRep.
From S2P Require Import BookWrites BookInv BookMatch BookFill SpecFacts BookRefine SpecStep.
From S2P Require Import SpecInv.
Local Open Scope Z_scope.

(** The best price of a side: the highest bid, the lowest ask. *)
Fixpoint best_price (side : Side) (l : list RestingOrder) : option Z :=
  match l with
  | [] => None
  | o :: l =>
    if decide (ro_side o = side) then
      match best_price side l with
      | None => Some (ro_price o)
      | Some p => Some (match side with
                        | Buy => Z.max (ro_price o) p
                        | Sell => Z.min (ro_price o) p
                        end)
      end
    else best_price side l
  end.

Lemma best_price_none side l : (forall o, o ∈ l -> ro_side o <> side) -> best_price side l = None.
Proof.
  induction l as [|o l IH]; intros H; [done|]. cbn. rewrite decide_False by (apply H; set_solver).
  apply IH. set_solver.
Qed.

Lemma best_price_in side l p : best_price side l = Some p ->
  exists y, y ∈ l /\ ro_side y = side /\ ro_price y = p.
Proof.
  revert p. induction l as [|z l IH]; intros p E; [done|]. cbn in E.
  case_decide as Hz; [|destruct (IH _ E) as (y & ? & ?); exists y; set_solver].
  destruct (best_price side l) as [p2|].
  - destruct (IH _ eq_refl) as (y & Hy & Hys & <-). injection E as <-.
    destruct side; [destruct (Z.max_spec (ro_price z) (ro_price y)) as [[_ ->]|[_ ->]]
                   |destruct (Z.min_spec (ro_price z) (ro_price y)) as [[_ ->]|[_ ->]]];
      solve [exists y; set_solver|exists z; set_solver].
  - injection E as <-. exists z. set_solver.
Qed.

Lemma best_price_some side l p : (exists o, o ∈ l /\ ro_side o = side /\ ro_price o = p) ->
  (forall x, x ∈ l -> ro_side x = side -> price_better (opposite side) (ro_price x) p = false) ->
  best_price side l = Some p.
Proof.
  induction l as [|x l IH]; intros (o & Hin & Hs & Hp) Hbest; [by apply elem_of_nil in Hin|].
  cbn [best_price].
  assert (Hl : (exists o, o ∈ l /\ ro_side o = side /\ ro_price o = p) -> best_price side l = Some p).
  { intros Ho. apply IH; [done|]. set_solver. }
  pose proof (Hbest x ltac:(set_solver)) as Hx.
  apply elem_of_cons in Hin as [->|Hin].
  - rewrite decide_True by done. rewrite Hp.
    destruct (best_price side l) as [p'|] eqn:E; [|done]. f_equal.
    destruct (best_price_in _ _ _ E) as (y & Hy & Hys & <-).
    pose proof (Hbest y ltac:(set_solver) Hys). unfold price_better, opposite in *.
    destruct side; lia.
  - rewrite Hl by (by exists o). case_decide as Hsx; [|done]. f_equal. specialize (Hx Hsx).
    unfold price_better, opposite in *. destruct side; lia.
Qed.

(** ** Queries *)

Section Queries.
Context {I : Type} `{!OrderIndexOps I, !OrderIndexLaws I}.
Context {b : OrderBook I} {sb : SpecBook} {G : ghost} (H : represents b sb G).

Lemma best_index_price side :
  (if best_index b side =? no_price then Ok 0 else index_price (config b) (best_index b side)) =
  Ok (default 0 (best_price side (sb_orders sb))).
Proof.
  destruct H as [R W ->]. cbn [sb_orders].
  destruct (tick_count_bounds (br_config _ _ R)) as [Hb _].
  destruct (best_index_cases R side) as [[-> Hno]|(n & o & q & Hi & Hq & Hbest)].
  - cbn. by rewrite best_price_none.
  - destruct (Z.eqb_spec (best_index b side) no_price) as [E|_]; [unfold no_price in *; intlia|].
    rewrite index_price_ok by (done || apply R).
    erewrite best_price_some; [done| |exact Hbest].
    assert ((n, o) ∈ queue G side (price_at (config b) (best_index b side))) as Hin
      by (rewrite Hq; set_solver).
    apply elem_of_queue in Hin as [[Hs Hp] Hin]. exists o. split_and!; auto.
    by apply (list_elem_of_fmap_2 snd _ (n, o)).
Qed.

Lemma best_bid_ok : best_bid b = Ok (default 0 (best_price Buy (sb_orders sb))).
Proof. apply best_index_price. Qed.

Lemma best_ask_ok : best_ask b = Ok (default 0 (best_price Sell (sb_orders sb))).
Proof. apply best_index_price. Qed.

Lemma quantity_at_ok side p : quantity_at b side p = Ok (u64 (level_total (sb_orders sb) side p)).
Proof.
  destruct H as [R W ->]. cbn [sb_orders]. pose proof (br_config _ _ R) as Hcfg.
  unfold quantity_at. rewrite valid_price_ok by done. cbn [mbind result_bind].
  destruct (on_ladder (config b) p) eqn:E.
  - apply (on_ladder_spec Hcfg) in E as (i & Hi & ->).
    rewrite price_index_ok by done. cbn [mbind result_bind].
    destruct (level_at R side i Hi) as (l & -> & _ & Ht). cbn. by rewrite Ht.
  - unfold level_total. rewrite filter_none; [done|]. intros o Ho [_ Hp].
    pose proof (ow_ladder _ _ W o Ho) as Hl. congruence.
Qed.
End Queries.

(** ** [resting_orders] *)

(** Ladder order: prices ascending, bids before asks, first come first. *)
Definition ladder_order (cfg : BookConfig) (l : list RestingOrder) : list RestingOrder :=
  ticks cfg ≫= fun i => filter (at_level Buy (price_at cfg i)) l ++
                        filter (at_level Sell (price_at cfg i)) l.

Section Enumerate.
Context {I : Type} `{!OrderIndexOps I, !OrderIndexLaws I}.
Context {b : OrderBook I} {G : ghost} (R : book_rep b G).

Lemma walk_ok (q : ghost) fuel prev : (length q < fuel)%nat ->
  dseg (nodes b) prev q.*1 invalid_node -> (forall x, x ∈ q -> x ∈ G) ->
  walk fuel (nodes b) (hd invalid_node q.*1) = Ok q.*2.
Proof.
  revert fuel prev. induction q as [|[n o] q IH]; intros fuel prev Hf Hs Hin;
    (destruct fuel as [|fuel]; [cbn in Hf; lia|]); cbn [walk].
  { done. }
  cbn [fmap list_fmap fst snd hd] in *. cbn [dseg] in Hs. destruct Hs as [(nd & Hnd & _ & Hx) Hs].
  destruct (live_range R n) as [_ Hne]; [apply (elem_fst G n o); set_solver|].
  rewrite (proj2 (Z.eqb_neq _ _) Hne), (vget_ok _ _ _ Hnd). cbn [mbind result_bind].
  rewrite Hx, (IH fuel n); [|cbn in Hf; lia|done|set_solver]. cbn [mbind result_bind].
  destruct (br_node _ _ R n o) as (nd' & Hnd' & <-); [set_solver|]. congruence.
Qed.

Lemma level_orders_ok side i : 0 <= i < tick_count (config b) ->
  level_orders b side i = Ok (filter (at_level side (price_at (config b) i)) G.*2).
Proof.
  intros Hi. destruct (br_level _ _ R side i Hi) as (l & Hl & Hr). unfold level_orders.
  rewrite (vget_ok _ _ _ Hl). cbn [mbind result_bind].
  rewrite (lr_head _ _ _ Hr), (walk_ok _ _ invalid_node), queue_snd; [done|..].
  - pose proof (queue_length G side (price_at (config b) i)). pose proof (arena_length R). lia.
  - apply Hr.
  - intros x Hx. by apply elem_of_queue in Hx as [_ ?].
Qed.

Lemma price_loop_ok todo (k : nat) : Z.of_nat (k + todo) <= tick_count (config b) ->
  price_loop todo b (Z.of_nat k) = Ok ((Z.of_nat <$> seq k todo) ≫= fun i =>
    filter (at_level Buy (price_at (config b) i)) G.*2 ++
    filter (at_level Sell (price_at (config b) i)) G.*2).
Proof.
  revert k. induction todo as [|todo IH]; intros k Hk; [done|]. cbn [price_loop].
  rewrite !level_orders_ok by lia. cbn [mbind result_bind].
  replace (Z.of_nat k + 1) with (Z.of_nat (S k)) by lia. rewrite IH by lia.
  cbn [mbind result_bind seq fmap list_fmap list_bind]. by rewrite <- app_assoc.
Qed.

Lemma resting_orders_ok : resting_orders b = Ok (ladder_order (config b) G.*2).
Proof.
  destruct (tick_count_bounds (br_config _ _ R)) as [Hb _].
  unfold resting_orders, ladder_order, ticks. rewrite (br_count _ _ R).
  apply (price_loop_ok _ 0). lia.
Qed.
End Enumerate.

(** Every resting order is listed exactly once. *)
Lemma ladder_order_perm cfg l : config_ok cfg ->
  (forall o, o ∈ l -> on_ladder cfg (ro_price o) = true) -> ladder_order cfg l ≡ₚ l.
Proof.
  intros Hcfg. induction l as [|o l IH]; intros Hl.
  { unfold ladder_order. induction (ticks cfg); [done|]. cbn. done. }
  pose proof (Hl o ltac:(set_solver)) as Ho. apply (on_ladder_spec Hcfg) in Ho as (k & Hk & Hp).
  specialize (IH ltac:(set_solver)).
  transitivity (o :: ladder_order cfg l); [|by rewrite IH]. clear IH. unfold ladder_order.
  pose proof (ticks_nodup cfg) as Hnd. apply elem_of_ticks, list_elem_of_split in Hk as (t1 & t2 & Ht).
  rewrite Ht in Hnd |- *. rewrite !bind_app, !bind_cons.
  assert (Hsame : forall (t : list Z) i, k ∉ t -> i ∈ t ->
    filter (at_level Buy (price_at cfg i)) (o :: l) ++ filter (at_level Sell (price_at cfg i)) (o :: l)
    = filter (at_level Buy (price_at cfg i)) l ++ filter (at_level Sell (price_at cfg i)) l).
  { intros t i Hkt Hi. rewrite !filter_cons_False; [done|..]; intros [_ E]; rewrite Hp in E;
      apply price_at_inj in E; try done; congruence. }
  assert (Hbind : forall t : list Z, k ∉ t -> (t ≫= fun i => filter (at_level Buy (price_at cfg i)) (o :: l) ++
      filter (at_level Sell (price_at cfg i)) (o :: l)) =
    (t ≫= fun i => filter (at_level Buy (price_at cfg i)) l ++ filter (at_level Sell (price_at cfg i)) l)).
  { intros t. induction t as [|i t IHt]; intros Hkt; [done|]. rewrite !bind_cons.
    rewrite (Hsame (i :: t) i) by set_solver. rewrite IHt by set_solver. done. }
  apply list.NoDup_app in Hnd as (_ & Hd & Hnd2). apply list.NoDup_cons in Hnd2 as [Hk2 _].
  rewrite !Hbind by set_solver. rewrite !filter_cons. rewrite <- Hp.
  destruct (decide (at_level Buy (ro_price o) o)) as [[H1 _]|H1],
    (decide (at_level Sell (ro_price o) o)) as [[H2 _]|H2].
  - congruence.
  - solve_Permutation.
  - solve_Permutation.
  - exfalso. destruct (ro_side o) eqn:Es; [by apply H1|by apply H2].
Qed.

(** Queries do not depend on the order of the list. *)
Lemma best_price_perm side l1 l2 : l1 ≡ₚ l2 -> best_price side l1 = best_price side l2.
Proof.
  induction 1 as [|x l1 l2 _ IH|x y l|l1 l2 l3 _ IH1 _ IH2]; [done| | |congruence].
  - cbn. by rewrite IH.
  - cbn. destruct (decide (ro_side x = side)), (decide (ro_side y = side)); try done.
    destruct (best_price side l); f_equal; destruct side; lia.
Qed.

Lemma level_total_perm l1 l2 side p : l1 ≡ₚ l2 -> level_total l1 side p = level_total l2 side p.
Proof.
  intros Hp. unfold level_total. pose proof (filter_Permutation (at_level side p) _ _ Hp) as H.
  clear Hp. induction H; cbn; unfold total in *; cbn in *; lia.
Qed.

(** Each level keeps its order of arrival. *)
Lemma ladder_order_level cfg l side p : config_ok cfg ->
  (forall o, o ∈ l -> on_ladder cfg (ro_price o) = true) ->
  filter (at_level side p) (ladder_order cfg l) = filter (at_level side p) l.
Proof.
  intros Hcfg Hl.
  assert (Htick : forall i, filter (at_level side p) (filter (at_level Buy (price_at cfg i)) l ++
      filter (at_level Sell (price_at cfg i)) l) =
    if decide (price_at cfg i = p) then filter (at_level side p) l else []).
  { intros i. rewrite filter_app. case_decide as Hp.
    - subst p. destruct side.
      + rewrite (filter_all _ (filter (at_level Buy _) l)), (filter_none _ (filter (at_level Sell _) l)),
          app_nil_r; [done|..]; unfold at_level; intros x [[H1 H2] _]%list_elem_of_filter;
          [intros [H3 _]; congruence|done].
      + rewrite (filter_none _ (filter (at_level Buy _) l)), (filter_all _ (filter (at_level Sell _) l));
          [done|..]; unfold at_level; intros x [[H1 H2] _]%list_elem_of_filter;
          [done|intros [H3 _]; congruence].
    - rewrite !filter_none; [done|..]; intros x [[_ H1] _]%list_elem_of_filter [_ H2]; congruence. }
  assert (Hbind : forall t, filter (at_level side p) (t ≫= fun i =>
      filter (at_level Buy (price_at cfg i)) l ++ filter (at_level Sell (price_at cfg i)) l) =
    t ≫= fun i => if decide (price_at cfg i = p) then filter (at_level side p) l else []).
  { induction t as [|i t IH]; [done|]. rewrite !bind_cons, filter_app, Htick, IH. done. }
  unfold ladder_order. rewrite Hbind.
  destruct (decide (on_ladder cfg p = true)) as [Hp|Hp].
  - apply (on_ladder_spec Hcfg) in Hp as (k & Hk & ->).
    pose proof (ticks_nodup cfg) as Hnd.
    apply elem_of_ticks, list_elem_of_split in Hk as (t1 & t2 & Ht). rewrite Ht in Hnd |- *.
    apply list.NoDup_app in Hnd as (_ & Hd & Hnd2). apply list.NoDup_cons in Hnd2 as [Hk2 _].
    assert (Hnil : forall t : list Z, k ∉ t -> (t ≫= fun i => if decide (price_at cfg i = price_at cfg k)
        then filter (at_level side (price_at cfg k)) l else []) = []).
    { induction t as [|i t IH]; intros Hkt; [done|]. rewrite bind_cons, decide_False, IH; [done|set_solver|].
      intros E. apply (price_at_inj Hcfg) in E. set_solver. }
    rewrite bind_app, bind_cons, !Hnil by set_solver. rewrite decide_True by done. by rewrite app_nil_r.
  - rewrite (filter_none _ l); [|intros o Ho [_ <-]; by apply Hp, Hl].
    induction (ticks cfg) as [|i t IH]; [done|]. rewrite bind_cons, IH. by case_decide.
Qed.
