(* ===== verification/BookSnapshot.v ===== *)
(** * BookSnapshot: restoring a book from its resting orders

    [restore] accepts exactly the valid snapshots and rebuilds the list of
    orders sorted by priority; restoring the [resting_orders] of a book gives
    back the same orders in the same time priority. *)
From Stdlib Require Import ZArith Lia.
From stdpp Require Import base numbers gmap list sorting.
From S2P Require Import Prelude Types OrderIndex Bitmap OrderBook BookSpec Prices BookRep.
From S2P Require Import BookWrites BookInv BookMatch BookFill SpecFacts BookRefine SpecStep.
From S2P Require Import SpecInv BookQueries.
Local Open Scope Z_scope.

Implicit Types (l orders : list RestingOrder).

(** ** The sort *)

Definition priority_le (x y : RestingOrder) : Prop := ro_priority x <= ro_priority y.

Lemma insert_by_priority_perm o l : insert_by_priority o l ≡ₚ o :: l.
Proof.
  induction l as [|x l IH]; [done|]. cbn. case_match; [done|]. rewrite IH. solve_Permutation.
Qed.

Lemma insert_by_priority_sorted o l : StronglySorted priority_le l ->
  StronglySorted priority_le (insert_by_priority o l).
Proof.
  induction l as [|x l IH]; intros Hs; cbn; [by repeat constructor|].
  apply StronglySorted_cons in Hs as [Hx Hs]. unfold priority_le in *.
  destruct (Z.ltb_spec (ro_priority o) (ro_priority x)).
  - apply StronglySorted_cons. split; [|by apply StronglySorted_cons].
    constructor; [lia|]. eapply Forall_impl; [exact Hx|]. cbn. intros. lia.
  - apply StronglySorted_cons. split; [|by apply IH].
    rewrite insert_by_priority_perm. constructor; [lia|done].
Qed.

Lemma stable_sort_perm orders : stable_sort orders ≡ₚ orders.
Proof.
  unfold stable_sort. cut (forall acc, fold_left (fun s o => insert_by_priority o s) orders acc
                                       ≡ₚ orders ++ acc).
  { intros H. by rewrite H, app_nil_r. }
  induction orders as [|o orders IH]; intros acc; [done|]. cbn.
  rewrite IH, insert_by_priority_perm. solve_Permutation.
Qed.

Lemma stable_sort_sorted orders : StronglySorted priority_le (stable_sort orders).
Proof.
  unfold stable_sort. cut (forall acc, StronglySorted priority_le acc -> StronglySorted priority_le
    (fold_left (fun s o => insert_by_priority o s) orders acc)).
  { intros H. apply H. constructor. }
  induction orders as [|o orders IH]; intros acc Ha; [done|]. cbn.
  apply IH. by apply insert_by_priority_sorted.
Qed.

(** Distinct priorities determine the order. *)
Lemma stable_sort_unique orders l : orders ≡ₚ l -> StronglySorted Z.lt (ro_priority <$> l) ->
  stable_sort orders = l.
Proof.
  intros Hp Hs.
  assert (Hle : StronglySorted priority_le l /\ forall x y, x ∈ l -> y ∈ l ->
    ro_priority x = ro_priority y -> x = y).
  { clear Hp orders. induction l as [|o l IH].
    { split; [constructor|]. intros x y Hx. by apply elem_of_nil in Hx. }
    cbn in Hs. apply StronglySorted_cons in Hs as [Ho Hs]. destruct (IH Hs) as [H1 H2].
    rewrite Forall_fmap, Forall_forall in Ho. cbn in Ho. split.
    - apply StronglySorted_cons. split; [|done]. apply Forall_forall. intros x Hx.
      specialize (Ho x Hx). unfold priority_le. lia.
    - intros x y [->|Hx]%elem_of_cons [->|Hy]%elem_of_cons He; [done| | |by apply H2].
      + specialize (Ho y Hy). lia.
      + specialize (Ho x Hx). lia. }
  destruct Hle as [H1 H2]. apply (StronglySorted_unique_strong priority_le).
  - intros x y Hx Hy Hxy Hyx. rewrite stable_sort_perm, Hp in Hx. unfold priority_le in *.
    apply H2; [done|done|lia].
  - apply stable_sort_sorted.
  - done.
  - by rewrite stable_sort_perm.
Qed.

(** ** Valid snapshots *)

(** The test of one order in the loop of [restore]. *)
Definition order_valid (cfg : BookConfig) (seq : Z) (ids : list Z) (o : RestingOrder) : bool :=
  on_ladder cfg (ro_price o) && negb (ro_quantity o =? 0) && (ro_priority o <=? seq) &&
  bool_decide (ro_id o ∉ ids).

Fixpoint orders_valid (cfg : BookConfig) (seq : Z) (ids : list Z) orders : bool :=
  match orders with
  | [] => true
  | o :: orders => order_valid cfg seq ids o && orders_valid cfg seq (ids ++ [ro_id o]) orders
  end.

(** Quantities fit their C++ type. *)
Definition quantities_ok orders : Prop := Forall (fun o => is_u64 (ro_quantity o)) orders.

Section Restore.
Context {I : Type} `{!OrderIndexOps I, !OrderIndexLaws I}.
Implicit Types (b : OrderBook I) (sb : SpecBook) (G : ghost).

Lemma restore_loop_ok orders b sb G seq events : represents b sb G -> quantities_ok orders ->
  Z.of_nat (length (sb_orders sb) + length orders) <= maximum_orders (sb_config sb) ->
  let l := sb_orders sb ++ orders in
  (orders_valid (sb_config sb) seq (ro_id <$> sb_orders sb) orders = true /\
   exists b' ev, restore_loop orders b seq events = Ok (b', ev) /\
     refines b' (MkSpec (sb_config sb) l (set_resting (sb_stats sb) l))) \/
  (orders_valid (sb_config sb) seq (ro_id <$> sb_orders sb) orders = false /\
   restore_loop orders b seq events = Fail RuntimeError).
Proof.
  revert b sb G events. induction orders as [|o orders IH]; intros b sb G events H Hq Hlen.
  { left. split; [done|]. exists b, events. split; [done|]. exists G. cbn. rewrite app_nil_r.
    destruct H as [R W ->]. constructor; [done|done|]. cbn. f_equal.
    rewrite (stats_eta _ _ (br_resting _ _ R)) at 2. unfold set_resting. by rewrite length_fmap. }
  apply Forall_cons in Hq as [Hqo Hq]. cbn [restore_loop orders_valid length] in *.
  rewrite valid_price_ok by apply H. cbn [mbind result_bind].
  assert (Hcfg : config b = sb_config sb) by by rewrite (rp_spec _ _ _ H).
  rewrite Hcfg. unfold order_valid.
  assert (Hfind : exists f, index_find (order_index b) (ro_id o) = Ok f /\
    bool_decide (is_Some f) = negb (bool_decide (ro_id o ∉ (ro_id <$> sb_orders sb)))).
  { rewrite (rp_spec _ _ _ H). cbn [sb_orders].
    destruct (find_cases b sb G (ro_id o) H) as [[-> Hf]|(n & x & nd & -> & Hf & _)];
      eexists; (split; [done|]).
    - apply find_order_none in Hf. by rewrite (bool_decide_eq_true_2 _ Hf).
    - rewrite (bool_decide_eq_false_2 (ro_id o ∉ _)); [done|]. rewrite <- find_order_none. congruence. }
  destruct Hfind as (f & Hf & Hfd).
  destruct (on_ladder (sb_config sb) (ro_price o)) eqn:Ep; cbn [negb orb andb mbind result_bind];
    [|by right].
  destruct (Z.eqb_spec (ro_quantity o) 0) as [Ez|Ez]; cbn [negb orb andb mbind result_bind];
    [by right|].
  destruct (Z.ltb_spec seq (ro_priority o)) as [Es|Es]; cbn [orb mbind result_bind].
  { right. by rewrite (proj2 (Z.leb_gt _ _) Es). }
  rewrite (proj2 (Z.leb_le _ _) Es), Hf. cbn [mbind result_bind andb].
  rewrite Hfd. destruct (bool_decide (ro_id o ∉ _)) eqn:Ed; cbn [negb andb]; [|by right].
  apply bool_decide_eq_true in Ed.
  destruct (add_represents b sb G o events H Ed Ep) as (b' & G' & -> & H').
  { intlia. }
  { unfold spec_full. apply Z.leb_gt. lia. }
  cbn [mbind result_bind].
  destruct (IH b' _ G' (events ++ [MkEvent (ro_priority o) Rested (ro_side o) NoReason 0 (ro_id o) 0
              (ro_price o) (ro_quantity o)]) H' Hq) as [(Hv & b2 & ev & Hr & H2)|[Hv Hr]];
    cbn [sb_orders sb_config sb_stats] in *; rewrite ?length_app in *; cbn [length] in *;
    [lia|left|right]; rewrite fmap_app in Hv; (split; [done|]); [|done].
  exists b2, ev. split; [done|]. by rewrite <- app_assoc in H2.
Qed.

(** [restore] on a book that is still empty. *)
Lemma restore_ok b cfg seq orders : refines b (MkSpec cfg [] BookStats_zero) -> quantities_ok orders ->
  let sorted := stable_sort orders in
  (Z.of_nat (length orders) <= maximum_orders cfg /\ orders_valid cfg seq [] sorted = true /\
   exists b', restore b seq orders = Ok b' /\
     refines b' (MkSpec cfg sorted (set_resting (MkStats seq 0 0 0 0) sorted))) \/
  (Z.of_nat (length orders) <= maximum_orders cfg /\ orders_valid cfg seq [] sorted = false /\
   restore b seq orders = Fail RuntimeError) \/
  (maximum_orders cfg < Z.of_nat (length orders) /\ restore b seq orders = Fail LogicError).
Proof.
  intros [G H] Hq sorted. unfold restore.
  assert (Hst : stats b = BookStats_zero /\ config b = cfg).
  { pose proof (rp_spec _ _ _ H) as E. by injection E. }
  destruct Hst as [-> ->]. cbn [resting_count last_sequence BookStats_zero Z.eqb negb orb].
  unfold vsize. destruct (Z.ltb_spec (maximum_orders cfg) (Z.of_nat (length orders))) as [Hc|Hc].
  { by right; right. }
  assert (Hqs : quantities_ok sorted).
  { unfold quantities_ok, sorted. by rewrite stable_sort_perm. }
  destruct (restore_loop_ok sorted b _ G seq [] H Hqs) as [(Hv & b' & ev & Hr & H2)|[Hv Hr]];
    cbn [sb_orders sb_config sb_stats length fmap list_fmap] in *.
  - unfold sorted. rewrite stable_sort_perm. lia.
  - left. split_and!; [done|done|]. fold sorted. rewrite Hr. cbn [mbind result_bind].
    eexists. split; [done|]. destruct H2 as [G2 H2]. exists G2. destruct H2 as [R2 W2 E2].
    injection E2 as E1 E3 E4.
    constructor; [by apply book_rep_stats|done|]. cbn [set_stats config stats].
    rewrite <- E4. by f_equal.
  - right. left. fold sorted. by rewrite Hr.
Qed.
End Restore.
