(* ===== verification/BookRun.v ===== *)
(** * BookRun: streams of commands

    Refinement, invariants and determinism over whole command streams, and
    the independence of future events from the statistics of the past. *)
From Stdlib Require Import ZArith Lia.
From stdpp Require Import base numbers gmap list sorting.
From S2P Require Import Prelude Types OrderIndex Bitmap OrderBook BookSpec Prices BookRep.
From S2P Require Import BookWrites BookInv BookMatch BookFill SpecFacts BookRefine SpecStep.
From S2P Require Import SpecInv BookQueries BookSnapshot.
Local Open Scope Z_scope.

Abbreviation empty_spec cfg := (MkSpec cfg [] BookStats_zero).
Abbreviation quantities_u64 cmds := (Forall (fun c => is_u64 (c_quantity c)) cmds).

(** ** Refinement of a stream *)

Section Run.
Context {I : Type} `{!OrderIndexOps I, !OrderIndexLaws I}.
Implicit Types (b : OrderBook I).

Lemma process_all_ok cmds b sb events : refines b sb -> quantities_u64 cmds ->
  outcome (process_all b cmds events) events (spec_run machine_fill sb cmds).
Proof.
  revert b sb events. induction cmds as [|c cmds IH]; intros b sb events H Hq; cbn.
  { exists b. cbn. by rewrite app_nil_r. }
  apply Forall_cons in Hq as [Hq Hqs].
  destruct (process_ok b sb c events H Hq) as (b1 & -> & H1). cbn [mbind result_bind].
  destruct (spec_process machine_fill sb c) as [sb1 ev1].
  destruct (IH b1 sb1 (events ++ ev1) H1 Hqs) as (b2 & Hb2 & H2). cbn [fst snd] in *. rewrite Hb2.
  destruct (spec_run machine_fill sb1 cmds) as [sb2 ev2]. exists b2.
  by rewrite <- app_assoc.
Qed.
End Run.

(** ** The exact liquidity test *)

Lemma fill_tests_agree cfg l side limit q : config_ok cfg -> orders_wf cfg l -> no_level_overflow l ->
  machine_fill cfg l side limit q = ideal_fill cfg l side limit q.
Proof.
  intros Hc Hwf Hno. unfold machine_fill, ideal_fill. by rewrite machine_liquidity_exact.
Qed.

Lemma spec_process_exact sb c : spec_inv sb -> no_level_overflow (sb_orders sb) ->
  spec_process machine_fill sb c = spec_process ideal_fill sb c.
Proof.
  intros Hi Hno. unfold spec_process. case_match; [done|]. case_match; try done.
  unfold spec_submit. cbn [sb_config sb_orders].
  by rewrite (fill_tests_agree _ _ _ _ _ (si_config _ Hi) (si_wf _ Hi) Hno).
Qed.

Lemma step_bound fill cfg l c l' events q : sound_fill fill -> config_ok cfg -> orders_wf cfg l ->
  Z.of_nat (length l) <= maximum_orders cfg -> is_u64 (c_quantity c) -> c_quantity c <= q ->
  spec_step fill cfg l c l' events -> quantity_bound q l -> quantity_bound q l'.
Proof.
  intros Hfill Hcfg Hwf Hlen Hqc Hc Hs Hq.
  assert (Hrem : quantity_bound q (remove_order (c_order_id c) l)).
  { intros x [_ Hx]%list_elem_of_filter. by apply Hq. }
  destruct Hs as [reason Hr|o Ht Hf|l1 ev Ht Hz Hp Hid Hfok Hcap He|o l1 ev Ht Hf Hz Hp He].
  - done.
  - done.
  - eapply exec_bound; [exact Hwf|by eapply new_admissible|exact He|done|done].
  - eapply exec_bound; [by apply wf_remove|by eapply replace_admissible|exact He|done|done].
Qed.

(** Quantities of at most [q] cannot overflow an aggregate when [q] times the
    capacity fits 64 bits. *)
Lemma bound_no_overflow q sb : spec_inv sb -> quantity_bound q (sb_orders sb) -> 0 <= q ->
  q * maximum_orders (sb_config sb) <= u64_max -> no_level_overflow (sb_orders sb).
Proof.
  intros Hi Hq Hpos Hmax side p. pose proof (level_total_bound q _ side p Hq Hpos).
  pose proof (si_capacity _ Hi). nia.
Qed.

Lemma spec_run_exact q cmds sb : spec_inv sb -> quantity_bound q (sb_orders sb) -> 0 <= q ->
  q * maximum_orders (sb_config sb) <= u64_max ->
  Forall (fun c => 0 <= c_quantity c <= q /\ is_u64 (c_quantity c)) cmds ->
  spec_run machine_fill sb cmds = spec_run ideal_fill sb cmds.
Proof.
  revert sb. induction cmds as [|c cmds IH]; intros sb Hi Hq Hpos Hmax Hc; [done|]. cbn.
  apply Forall_cons in Hc as [[[_ Hcq] Hcu] Hcs].
  rewrite spec_process_exact; [|done|by eapply bound_no_overflow].
  destruct (spec_process ideal_fill sb c) as [sb1 ev1] eqn:E.
  pose proof (spec_process_inv _ _ _ _ _ ideal_fill_sound Hi Hcu E) as Hi1.
  destruct (spec_process_step _ _ _ _ _ (si_resting _ Hi) E) as (Hs & Hcf & _).
  rewrite IH; auto; [|by rewrite Hcf].
  eapply step_bound; [apply ideal_fill_sound|apply Hi|apply Hi|apply Hi| |exact Hcq|exact Hs|done].
  done.
Qed.

(** ** Statistics do not influence what follows *)

(** Books that differ at most in the counters of commands, trades and
    rejections. *)
Record same_book (sb1 sb2 : SpecBook) : Prop := {
  sm_config : sb_config sb1 = sb_config sb2;
  sm_orders : sb_orders sb1 = sb_orders sb2;
  sm_sequence : last_sequence (sb_stats sb1) = last_sequence (sb_stats sb2) }.

#[export] Instance same_book_equivalence : Equivalence same_book.
Proof.
  split.
  - by intros sb.
  - intros x y []. by split.
  - intros x y z [] []. split; congruence.
Qed.

Lemma iter_last_sequence (f : BookStats -> BookStats) n st :
  (forall s, last_sequence (f s) = last_sequence s) ->
  last_sequence (Nat.iter n f st) = last_sequence st.
Proof. intros Hf. induction n as [|n IH]; [done|]. cbn. by rewrite Hf. Qed.

Definition same_result (r1 r2 : SpecBook * list Event) : Prop :=
  same_book r1.1 r2.1 /\ r1.2 = r2.2.

Lemma spec_execute_same c sb1 sb2 : same_book sb1 sb2 ->
  same_result (spec_execute sb1 c) (spec_execute sb2 c).
Proof.
  intros [Hc Ho Hs]. unfold spec_execute. rewrite <- Hc, <- Ho.
  destruct (spec_match _ _ _ _ _) as [[l1 trades] rest].
  assert (Hl : forall st l, last_sequence (set_resting (add_trades st (length trades)) l)
                            = last_sequence st).
  { intros st l. cbn. unfold add_trades. by rewrite iter_last_sequence. }
  destruct (rest =? 0); [|destruct (decide (c_order_type c = Limit))]; (split; [|done]);
    split; cbn [fst sb_config sb_orders sb_stats]; rewrite ?Hl; done.
Qed.

Lemma spec_remove_same id sb1 sb2 : same_book sb1 sb2 ->
  same_book (spec_remove sb1 id) (spec_remove sb2 id).
Proof. intros [Hc Ho Hs]. split; cbn; congruence. Qed.

#[export] Instance spec_process_proper fill c :
  Proper (same_book ==> same_result) (fun sb => spec_process fill sb c).
Proof.
  intros [cfg l s1] [cfg' l' s2] [Hc Ho Hs]. cbn in Hc, Ho, Hs. subst cfg' l'.
  assert (Hrej : forall st1 st2 reason, last_sequence st1 = last_sequence st2 ->
    same_result (spec_reject (MkSpec cfg l st1) c reason) (spec_reject (MkSpec cfg l st2) c reason))
    by by repeat split.
  unfold spec_process. cbn [sb_config sb_orders sb_stats]. rewrite <- Hs.
  case_match; [by apply Hrej|].
  set (st1 := inc_commands (set_last_sequence s1 (c_sequence c))).
  set (st2 := inc_commands (set_last_sequence s2 (c_sequence c))).
  assert (H' : same_book (MkSpec cfg l st1) (MkSpec cfg l st2)) by by split.
  destruct (c_type c).
  - unfold spec_submit. pose proof (spec_execute_same c _ _ H') as He.
    unfold spec_full. cbn [sb_config sb_orders]. repeat (case_match; [by apply Hrej|]).
    destruct (spec_execute (MkSpec cfg l st1) c) as [x1 e1],
      (spec_execute (MkSpec cfg l st2) c) as [x2 e2].
    destruct He as [He1 He2]. split; [done|]. cbn in *. by rewrite He2.
  - unfold spec_cancel. cbn [sb_orders]. case_match; [|by apply Hrej].
    split; [|done]. by apply spec_remove_same.
  - unfold spec_replace. cbn [sb_orders sb_config].
    destruct (find_order (c_order_id c) l) as [o|]; [|by apply Hrej].
    repeat (case_match; [by apply Hrej|]).
    pose proof (spec_execute_same (replacement_of c (ro_side o)) _ _
                  (spec_remove_same (c_order_id c) _ _ H')) as He.
    destruct (spec_execute (spec_remove (MkSpec cfg l st1) (c_order_id c)) _) as [x1 e1],
      (spec_execute (spec_remove (MkSpec cfg l st2) (c_order_id c)) _) as [x2 e2].
    destruct He as [He1 He2]. split; [done|]. cbn in *. by rewrite He2.
Qed.

#[export] Instance spec_run_proper fill cmds :
  Proper (same_book ==> same_result) (fun sb => spec_run fill sb cmds).
Proof.
  induction cmds as [|c cmds IH]; intros sb1 sb2 H; [by split|]. cbn.
  pose proof (spec_process_proper fill c _ _ H) as [H1 H2]. cbn in H1, H2.
  destruct (spec_process fill sb1 c) as [x1 e1], (spec_process fill sb2 c) as [x2 e2]. cbn in *.
  specialize (IH x1 x2 H1) as [H3 H4]. cbn in H3, H4.
  destruct (spec_run fill x1 cmds) as [y1 f1], (spec_run fill x2 cmds) as [y2 f2]. cbn in *.
  split; [done|]. cbn. by rewrite H2, H4.
Qed.

(** ** Time priority along a stream *)

Lemma in_time_empty cfg : in_time (empty_spec cfg).
Proof. split; cbn; [intlia|constructor|constructor]. Qed.

Lemma spec_run_in_time fill cmds sb sb' events : sound_fill fill -> spec_inv sb -> in_time sb ->
  last_sequence (sb_stats sb) + Z.of_nat (length cmds) <= u64_max ->
  quantities_u64 cmds -> spec_run fill sb cmds = (sb', events) -> in_time sb'.
Proof.
  intros Hf. revert sb sb' events.
  induction cmds as [|c cmds IH]; intros sb sb' events Hi Ht Hl Hq; cbn.
  { by intros [= <- <-]. }
  destruct (spec_process fill sb c) as [sb1 ev1] eqn:E1.
  destruct (spec_run fill sb1 cmds) as [sb2 ev2] eqn:E2. intros [= <- <-].
  apply Forall_cons in Hq as [Hq Hqs]. cbn [length] in Hl.
  destruct (spec_process_in_time fill sb c sb1 ev1 Hi Ht ltac:(lia) E1) as [Ht1 Hl1].
  eapply IH; [by eapply spec_process_inv|done|lia|done|done].
Qed.

(** ** Restoring a snapshot of a book *)

Lemma orders_valid_wf cfg s l ids : orders_wf cfg l -> Forall (fun o => ro_priority o <= s) l ->
  (forall o, o ∈ l -> ro_id o ∉ ids) -> orders_valid cfg s ids l = true.
Proof.
  revert ids. induction l as [|o l IH]; intros ids Hwf Hp Hf; [done|]. cbn.
  pose proof (ow_ladder _ _ Hwf o ltac:(set_solver)) as Hl.
  pose proof (ow_quantity _ _ Hwf o ltac:(set_solver)) as Hq.
  apply Forall_cons in Hp as [Hpo Hp].
  destruct (wf_split [] o l Hwf) as [Hwf' Hne]. cbn in Hwf', Hne.
  unfold order_valid. rewrite Hl, (proj2 (Z.eqb_neq _ _)), (proj2 (Z.leb_le _ _) Hpo) by lia.
  rewrite bool_decide_eq_true_2 by (apply Hf; set_solver). cbn. apply IH; auto.
  intros x Hx [Hin|Hin%list_elem_of_singleton]%elem_of_app.
  - by apply (Hf x); [set_solver|].
  - by apply (Hne x).
Qed.

Section Resume.
Context {I : Type} `{!OrderIndexOps I, !OrderIndexLaws I}.
Implicit Types (b : OrderBook I).

(** A fresh book restored from [resting_orders] holds the same orders in the
    same priority. *)
Lemma restore_resting_orders b sb b0 : refines b sb -> spec_inv sb -> in_time sb ->
  refines b0 (empty_spec (sb_config sb)) ->
  exists orders b', resting_orders b = Ok orders /\
    restore b0 (last_sequence (stats b)) orders = Ok b' /\
    refines b' (MkSpec (sb_config sb) (sb_orders sb)
      (set_resting (MkStats (last_sequence (sb_stats sb)) 0 0 0 0) (sb_orders sb))).
Proof.
  intros [G [R W ->]] Hi Ht H0. cbn [sb_config sb_orders sb_stats] in *.
  exists (ladder_order (config b) G.*2).
  assert (Hperm : ladder_order (config b) G.*2 ≡ₚ G.*2)
    by (apply ladder_order_perm; [apply R|apply W]).
  assert (Hsort : stable_sort (ladder_order (config b) G.*2) = G.*2)
    by (apply stable_sort_unique; [done|apply Ht]).
  assert (Hq : quantities_ok (ladder_order (config b) G.*2)).
  { unfold quantities_ok. rewrite Hperm, Forall_forall. intros o Ho.
    pose proof (ow_quantity _ _ W o Ho). intlia. }
  pose proof (si_capacity _ Hi) as Hcap. cbn in Hcap.
  destruct (restore_ok b0 (config b) (last_sequence (stats b)) _ H0 Hq)
    as [(_ & _ & b' & Hr & H')|[(_ & Hv & _)|[Hlt _]]].
  - exists b'. split_and!; [by apply resting_orders_ok|done|]. by rewrite Hsort in H'.
  - rewrite Hsort, orders_valid_wf in Hv; [done|done|apply Ht|]. intros o _. by apply not_elem_of_nil.
  - rewrite Hperm in Hlt. lia.
Qed.
End Resume.

Lemma spec_run_config fill cmds sb sb' events : sound_fill fill -> spec_inv sb ->
  quantities_u64 cmds -> spec_run fill sb cmds = (sb', events) -> sb_config sb' = sb_config sb.
Proof.
  intros Hf. revert sb sb' events. induction cmds as [|c cmds IH]; intros sb sb' events Hi Hq; cbn.
  { by intros [= <- <-]. }
  destruct (spec_process fill sb c) as [sb1 ev1] eqn:E1.
  destruct (spec_run fill sb1 cmds) as [sb2 ev2] eqn:E2. intros [= <- <-].
  apply Forall_cons in Hq as [Hq Hqs].
  destruct (spec_process_step _ _ _ _ _ (si_resting _ Hi) E1) as (_ & <- & _).
  eapply IH; [|done|done]. by eapply spec_process_inv.
Qed.

Lemma refines_orders {I} `{!OrderIndexOps I, !OrderIndexLaws I} (b : OrderBook I) sb :
  refines b sb -> resting_orders b = Ok (ladder_order (sb_config sb) (sb_orders sb)).
Proof. intros [G [R W ->]]. by apply resting_orders_ok. Qed.
