(* ===== verification/Engine.v ===== *)
(** * Engine: the order book with its hash index, from construction on

    [Engine] is the book over [FixedOrderIndex]; [reachable] are the states a
    process goes through: construction, then any number of commands.  Every
    reachable state refines a specified book that satisfies the invariant. *)
From Stdlib Require Import ZArith Lia.
From stdpp Require Import base numbers gmap list sorting.
From S2P Require Import Prelude Types OrderIndex FixedHash Bitmap OrderBook BookSpec Prices.
From S2P Require Import BookRep BookWrites BookInv BookMatch BookFill SpecFacts BookRefine.
From S2P Require Import SpecStep SpecPriority SpecInv BookQueries BookSnapshot BookRun.
Local Open Scope Z_scope.

Abbreviation Engine := (OrderBook FixedOrderIndex).

Inductive reachable (cfg : BookConfig) : Engine -> Prop :=
  | reach_make b : config_ok cfg -> make_book cfg = Ok b -> reachable cfg b
  | reach_process b command events b' events' : reachable cfg b -> is_u64 (c_quantity command) ->
      process b command events = Ok (b', events') -> reachable cfg b'.

(** A specified book behind the data structures. *)
Definition models (cfg : BookConfig) (b : Engine) (sb : SpecBook) : Prop :=
  refines b sb /\ spec_inv sb /\ sb_config sb = cfg.

Lemma process_models cfg b sb c events : models cfg b sb -> is_u64 (c_quantity c) ->
  exists b' sb' ev, process b c events = Ok (b', events ++ ev) /\
    spec_process machine_fill sb c = (sb', ev) /\ models cfg b' sb'.
Proof.
  intros (Hr & Hi & Hc) Hq. destruct (process_ok b sb c events Hr Hq) as (b' & Hp & Hr').
  destruct (spec_process machine_fill sb c) as [sb' ev] eqn:E. cbn in *.
  exists b', sb', ev. split_and!; auto. split_and!; auto.
  - by eapply spec_process_inv; [apply machine_fill_is_sound|exact Hi|exact Hq|].
  - destruct (spec_process_step _ _ _ _ _ (si_resting _ Hi) E) as (_ & -> & _). done.
Qed.

Lemma make_models cfg b : config_ok cfg -> make_book cfg = Ok b -> models cfg b (empty_spec cfg).
Proof.
  intros Hc Hb. destruct (make_book_ok (I := FixedOrderIndex) cfg Hc) as (b' & Hb' & H).
  assert (b' = b) as -> by congruence. split_and!; [done|by apply spec_inv_empty|done].
Qed.

Lemma reachable_models cfg b : reachable cfg b -> exists sb, models cfg b sb.
Proof.
  induction 1 as [b Hc Hb|b c events b' events' _ (sb & IH) Hq Hp].
  - eexists. by eapply make_models.
  - destruct (process_models cfg b sb c events IH Hq) as (b2 & sb2 & ev & Hp2 & _ & H2).
    exists sb2. congruence.
Qed.

Lemma reachable_all cfg b cmds events b' events' : reachable cfg b -> quantities_u64 cmds ->
  process_all b cmds events = Ok (b', events') -> reachable cfg b'.
Proof.
  revert b events. induction cmds as [|c cmds IH]; intros b events Hr Hq; cbn.
  { by intros [= <- <-]. }
  apply Forall_cons in Hq as [Hq Hqs]. destruct (process b c events) as [[b1 ev1]|] eqn:E; [|done].
  cbn. apply IH; [|done]. by eapply reach_process.
Qed.

(** A stream from a fresh book. *)
Lemma run_models cfg cmds : config_ok cfg -> quantities_u64 cmds -> Z.of_nat (length cmds) <= u64_max ->
  exists (b0 b : Engine) sb events, make_book cfg = Ok b0 /\ refines b0 (empty_spec cfg) /\
    process_all b0 cmds [] = Ok (b, events) /\
    spec_run machine_fill (empty_spec cfg) cmds = (sb, events) /\ models cfg b sb /\ in_time sb.
Proof.
  intros Hc Hq Hlen. pose proof (spec_inv_empty cfg Hc) as Hi.
  destruct (make_book_ok (I := FixedOrderIndex) cfg Hc) as (b0 & Hb0 & H0).
  destruct (process_all_ok cmds b0 _ [] H0 Hq) as (b & Hp & Hb).
  destruct (spec_run machine_fill (empty_spec cfg) cmds) as [sb events] eqn:E.
  exists b0, b, sb, events. split_and!; auto.
  - split_and!; [done|by eapply spec_run_inv; [apply machine_fill_is_sound| | |exact E]|].
    exact (spec_run_config _ _ _ _ _ machine_fill_is_sound Hi Hq E).
  - eapply spec_run_in_time; [apply machine_fill_is_sound|exact Hi|apply in_time_empty| |exact Hq|exact E].
    cbn [sb_stats last_sequence BookStats_zero]. lia.
Qed.

(** Books with the same orders and sequence have the same future. *)
Lemma same_future (b b' : Engine) sb sb' cmds : refines b sb -> refines b' sb' -> same_book sb sb' ->
  quantities_u64 cmds -> exists b1 b2 events,
    process_all b cmds [] = Ok (b1, events) /\ process_all b' cmds [] = Ok (b2, events) /\
    resting_orders b1 = resting_orders b2.
Proof.
  intros Hb Hb' Hsame Hq.
  destruct (process_all_ok cmds b sb [] Hb Hq) as (b1 & Hp1 & H1).
  destruct (process_all_ok cmds b' sb' [] Hb' Hq) as (b2 & Hp2 & H2).
  pose proof (spec_run_proper machine_fill cmds _ _ Hsame) as [Hs1 Hs2]. cbn in Hs1, Hs2.
  exists b1, b2, (spec_run machine_fill sb cmds).2. rewrite Hs2 at 2. split_and!; auto.
  rewrite (refines_orders b1 _ H1), (refines_orders b2 _ H2).
  by rewrite (sm_config _ _ Hs1), (sm_orders _ _ Hs1).
Qed.

(** What a model says about the observable orders. *)
Lemma models_orders cfg b sb : models cfg b sb -> exists os,
  resting_orders b = Ok os /\ os = ladder_order cfg (sb_orders sb) /\ os ≡ₚ sb_orders sb.
Proof.
  intros ([G [R W ->]] & Hi & Hc). cbn in *. subst cfg.
  exists (ladder_order (config b) G.*2). split_and!; [by apply resting_orders_ok|done|].
  apply ladder_order_perm; [apply R|apply W].
Qed.

Lemma total_perm (l1 l2 : list RestingOrder) : l1 ≡ₚ l2 -> total l1 = total l2.
Proof. induction 1; cbn; unfold total in *; cbn in *; lia. Qed.

Lemma find_order_perm id l1 l2 : l1 ≡ₚ l2 -> NoDup (ro_id <$> l1) ->
  find_order id l1 = find_order id l2.
Proof.
  intros Hp Hnd. destruct (find_order id l1) as [o|] eqn:E1.
  - destruct (find_order id l2) as [o'|] eqn:E2.
    + apply find_order_in in E1 as [H1 I1], E2 as [H2 I2]. rewrite <- Hp in H2.
      apply list_elem_of_lookup in H1 as [i Hi], H2 as [j Hj].
      assert (i = j) as <-; [|congruence].
      eapply (NoDup_lookup _ _ _ id Hnd); rewrite list_lookup_fmap;
        [by rewrite Hi; cbn; rewrite I1|by rewrite Hj; cbn; rewrite I2].
    + exfalso. apply find_order_none in E2. apply E2. apply find_order_in in E1 as [H1 <-].
      rewrite <- Hp. by apply list_elem_of_fmap_2.
  - symmetry. apply find_order_none. rewrite <- Hp. by apply find_order_none.
Qed.

Lemma withdrawn_perm l1 l2 c : l1 ≡ₚ l2 -> NoDup (ro_id <$> l1) -> withdrawn l1 c = withdrawn l2 c.
Proof. intros Hp Hnd. unfold withdrawn. by rewrite (find_order_perm _ l1 l2). Qed.

(** ** A small session, for the concrete instances of the theorems *)

Definition demo_config : BookConfig := MkConfig 90 110 1 4.

Definition demo_commands : list Command :=
  [ MkCommand 1 New Sell Limit 0 1 100 5;
    MkCommand 2 New Sell Limit 0 2 100 7;
    MkCommand 3 New Buy Limit 0 3 101 8;
    MkCommand 4 New Buy Limit 0 4 99 3 ].

Definition no_book : Engine :=
  MkBook demo_config 0 [] [] [] [] [] [] (MkIndex [] 0) BookStats_zero.

Definition book_after (cmds : list Command) : Engine :=
  match (b ← make_book demo_config; process_all b cmds []) with
  | Ok (b, _) => b
  | Fail _ => no_book
  end.

Definition demo_book : Engine := book_after demo_commands.

Lemma demo_config_ok : config_ok demo_config.
Proof. constructor; vm_compute; intuition discriminate. Qed.

Lemma book_after_reachable cmds : quantities_u64 cmds -> reachable demo_config (book_after cmds).
Proof.
  intros Hq. destruct (make_book_ok (I := FixedOrderIndex) demo_config demo_config_ok) as (b0 & Hb0 & H0).
  destruct (process_all_ok cmds b0 _ [] H0 Hq) as (b & Hp & _).
  eapply reachable_all; [by apply (reach_make _ b0 demo_config_ok)|exact Hq|].
  unfold book_after. rewrite Hb0. cbn [mbind result_bind]. rewrite Hp. reflexivity.
Qed.

Lemma demo_reachable : reachable demo_config demo_book.
Proof. apply book_after_reachable. unfold demo_commands. repeat constructor; vm_compute; intuition discriminate. Qed.
