(* ===== verification/BookTheorems.v ===== *)
(** * BookTheorems: the properties of the matching engine

    The theorems speak about [Engine]: the book with its hash index, built by
    its constructor and driven by commands.  Each one applies the lemmas of the
    component files to the model behind a reachable state. *)
From Stdlib Require Import ZArith Lia.
From stdpp Require Import base numbers gmap list sorting.
From S2P Require Import Prelude Types OrderIndex FixedHash Bitmap OrderBook BookSpec Prices.
From S2P Require Import BookRep BookWrites BookInv BookMatch BookFill SpecFacts BookRefine.
From S2P Require Import SpecStep SpecPriority SpecInv BookQueries BookSnapshot BookRun Engine.
Local Open Scope Z_scope.

(** Discharges the ground side conditions of the concrete instances. *)
Ltac ground := repeat constructor; vm_compute; intuition discriminate.

(** ** Refinement *)

(** C1: For every accepted configuration and every stream of commands, the
    engine is constructed and processes the whole stream without an
    out-of-range access, a signed overflow, an exception or an endless loop;
    the events are exactly those of the specification, and the final data
    structures represent the specified orders. *)
Theorem engine_refines_specification (cfg : BookConfig) (stream : list Command) :
  config_ok cfg -> quantities_u64 stream ->
  exists (b0 b : Engine) sb events,
    make_book cfg = Ok b0 /\ process_all b0 stream [] = Ok (b, events) /\
    spec_run machine_fill (empty_spec cfg) stream = (sb, events) /\ refines b sb.
Proof.
  intros Hc Hq. destruct (make_book_ok (I := FixedOrderIndex) cfg Hc) as (b0 & Hb0 & H0).
  destruct (process_all_ok stream b0 _ [] H0 Hq) as (b & Hp & Hb).
  destruct (spec_run machine_fill (empty_spec cfg) stream) as [sb events].
  by exists b0, b, sb, events.
Qed.

Lemma engine_refines_specification_witness :
  exists (b0 b : Engine) sb events,
    make_book demo_config = Ok b0 /\ process_all b0 demo_commands [] = Ok (b, events) /\
    spec_run machine_fill (empty_spec demo_config) demo_commands = (sb, events) /\ refines b sb.
Proof.
  apply (engine_refines_specification demo_config demo_commands); [apply demo_config_ok|].
  unfold demo_commands. ground.
Defined.

(** C6: When no quantity exceeds [q] and [q] times the capacity fits 64 bits,
    the 64-bit aggregates never wrap and the engine implements the ideal
    specification, whose fill-or-kill and capacity tests add up quantities
    exactly. *)
Theorem engine_exact_liquidity (cfg : BookConfig) (q : Z) (stream : list Command) :
  config_ok cfg -> q * maximum_orders cfg <= u64_max ->
  Forall (fun c => 0 <= c_quantity c <= q) stream ->
  exists (b0 b : Engine) sb events,
    make_book cfg = Ok b0 /\ process_all b0 stream [] = Ok (b, events) /\
    spec_run ideal_fill (empty_spec cfg) stream = (sb, events) /\ refines b sb.
Proof.
  intros Hc Hq Hs. pose proof (cfg_orders _ Hc) as Ho.
  destruct (decide (0 <= q)) as [Hpos|Hneg]; cycle 1.
  { destruct (make_book_ok (I := FixedOrderIndex) cfg Hc) as (b0 & Hb0 & H0).
    destruct stream as [|c s]; [by exists b0, b0, (empty_spec cfg), []|].
    apply Forall_cons in Hs as [? _]. lia. }
  assert (Hu : Forall (fun c => 0 <= c_quantity c <= q /\ is_u64 (c_quantity c)) stream).
  { eapply Forall_impl; [exact Hs|]. cbn. intros c Hcq. split; [done|]. ints. nia. }
  destruct (make_book_ok (I := FixedOrderIndex) cfg Hc) as (b0 & Hb0 & H0).
  destruct (process_all_ok stream b0 _ [] H0) as (b & Hp & Hb).
  { eapply Forall_impl; [exact Hu|]. cbn. tauto. }
  rewrite (spec_run_exact q) in Hp, Hb; auto; try by apply spec_inv_empty.
  2, 3: intros o Ho'; by apply elem_of_nil in Ho'.
  destruct (spec_run ideal_fill (empty_spec cfg) stream) as [sb events].
  by exists b0, b, sb, events.
Qed.

Lemma engine_exact_liquidity_witness :
  exists (b0 b : Engine) sb events,
    make_book demo_config = Ok b0 /\ process_all b0 demo_commands [] = Ok (b, events) /\
    spec_run ideal_fill (empty_spec demo_config) demo_commands = (sb, events) /\ refines b sb.
Proof.
  apply (engine_exact_liquidity demo_config 1000 demo_commands); [apply demo_config_ok|..].
  - vm_compute. discriminate.
  - unfold demo_commands. ground.
Defined.

(** C4: In every reachable state the representation invariant of the book holds:
    arena and free stack partition the nodes, every level links exactly its
    FIFO with the right endpoints, count and aggregate, every activity bit
    tells whether its level is empty, the index maps every live ID to its
    node, and the statistics count the resting orders.  The orders are well
    formed, fit the capacity, and no bid reaches an ask. *)
Theorem reachable_invariant (cfg : BookConfig) (b : Engine) : reachable cfg b ->
  exists G, book_rep b G /\ config b = cfg /\ orders_wf cfg G.*2 /\ uncrossed G.*2 /\
    Z.of_nat (length G) <= maximum_orders cfg.
Proof.
  intros (sb & [G [R W ->]] & Hi & Hc)%reachable_models. cbn in Hc. subst cfg. exists G.
  split_and!; [done|done|done|apply Hi|]. pose proof (si_capacity _ Hi) as H. cbn in H.
  by rewrite length_fmap in H.
Qed.

Lemma reachable_invariant_witness :
  exists G, book_rep demo_book G /\ config demo_book = demo_config /\
    orders_wf demo_config G.*2 /\ uncrossed G.*2 /\
    Z.of_nat (length G) <= maximum_orders demo_config.
Proof. exact (reachable_invariant demo_config demo_book demo_reachable). Defined.

(** ** Matching *)

(** C3: Price-time priority: whatever the aggressor, the matching loop ends and
    its trades are those of one pass over the crossing orders ranked by price
    and, within a price, by arrival, each at the resting order's price. *)
Theorem matching_price_time_priority (cfg : BookConfig) (b : Engine) (command : Command)
    (events : list Event) : reachable cfg b -> is_u64 (c_quantity command) ->
  exists sb b' trades rest, refines b sb /\
    match_loop (match_fuel b) b command (effective_limit b command) (c_quantity command) events =
      Ok (b', events ++ trades, rest) /\
    consume command (c_quantity command)
      (ranked (c_side command) (spec_limit cfg command) (sb_orders sb)) = (trades, rest).
Proof.
  intros (sb & [G H] & Hi & Hc)%reachable_models Hq.
  destruct (match_book_ok b sb G command events H Hq) as (b' & G' & l & trades & rest & Hs & Hm & _).
  exists sb, b', trades, rest. split_and!; [by exists G|done|].
  pose proof (spec_match_ranked (S (length (sb_orders sb))) command (spec_limit cfg command)
    (c_quantity command) (sb_orders sb) (si_wf _ Hi) ltac:(left; lia)) as Hk.
  rewrite Hc in Hs. by rewrite Hs in Hk.
Qed.

Lemma matching_price_time_priority_witness :
  let command := MkCommand 5 New Buy Market 0 9 0 6 in
  exists sb b' trades rest, refines demo_book sb /\
    match_loop (match_fuel demo_book) demo_book command (effective_limit demo_book command) 6 [] =
      Ok (b', [] ++ trades, rest) /\
    consume command 6 (ranked Buy (spec_limit demo_config command) (sb_orders sb)) = (trades, rest).
Proof.
  apply (matching_price_time_priority demo_config demo_book (MkCommand 5 New Buy Market 0 9 0 6) []).
  - exact demo_reachable.
  - vm_compute. intuition discriminate.
Defined.

(** The fill-or-kill test: [can_fully_fill] ends, reads only existing levels
    and answers whether the aggregates of the crossing levels reach the
    quantity; a positive answer is a promise that matching keeps in full. *)
Theorem can_fully_fill_sound (cfg : BookConfig) (b : Engine) (command : Command)
    (events : list Event) : reachable cfg b -> is_u64 (c_quantity command) ->
  0 < c_quantity command ->
  exists sb answer, refines b sb /\
    can_fully_fill b (c_side command) (effective_limit b command) (c_quantity command) = Ok answer /\
    answer = machine_fill cfg (sb_orders sb) (c_side command) (spec_limit cfg command)
               (c_quantity command) /\
    (answer = true -> exists b' trades,
       match_loop (match_fuel b) b command (effective_limit b command) (c_quantity command) events =
         Ok (b', events ++ trades, 0)).
Proof.
  intros (sb & [G H] & Hi & Hc)%reachable_models Hq Hpos.
  destruct (match_book_ok b sb G command events H Hq)
    as (b' & G' & l & trades & rest & Hs & Hm & Hout & _).
  pose proof (rp_spec _ _ _ H) as Hsb. pose proof (rp_rep _ _ _ H) as R.
  exists sb, (machine_fill cfg (sb_orders sb) (c_side command) (spec_limit cfg command)
                (c_quantity command)).
  split_and!; [by exists G| |done|].
  - rewrite <- Hc, Hsb. by apply can_fully_fill_ok.
  - intros Ha. rewrite <- Hc in Ha. apply (machine_fill_sound b sb G) in Ha; [|done].
    pose proof (m_rest _ _ _ _ _ _ _ Hout). exists b', trades.
    assert (rest = 0) as -> by lia. done.
Qed.

Lemma can_fully_fill_sound_witness :
  let command := MkCommand 5 New Buy FillOrKill 0 9 105 4 in
  exists sb answer, refines demo_book sb /\
    can_fully_fill demo_book Buy (effective_limit demo_book command) 4 = Ok answer /\
    answer = machine_fill demo_config (sb_orders sb) Buy (spec_limit demo_config command) 4 /\
    (answer = true -> exists b' trades,
       match_loop (match_fuel demo_book) demo_book command (effective_limit demo_book command) 4 [] =
         Ok (b', [] ++ trades, 0)).
Proof.
  apply (can_fully_fill_sound demo_config demo_book (MkCommand 5 New Buy FillOrKill 0 9 105 4) []).
  - exact demo_reachable.
  - vm_compute. intuition discriminate.
  - vm_compute. reflexivity.
Defined.

(** C11: A fill-or-kill order either is rejected without a trade and leaves the
    resting orders as they were, or trades its whole quantity: it never rests
    and nothing of it is cancelled. *)
Theorem fill_or_kill_all_or_nothing (cfg : BookConfig) (b : Engine) (command : Command)
    (events : list Event) : reachable cfg b -> is_u64 (c_quantity command) ->
  c_type command = New -> c_order_type command = FillOrKill ->
  exists b' ev, process b command events = Ok (b', events ++ ev) /\
    ((resting_orders b' = resting_orders b /\ count_type Trade ev = 0%nat /\
      count_type Rejected ev = 1%nat) \/
     (quantity_of Trade ev = c_quantity command /\ count_type Rested ev = 0%nat /\
      count_type Cancelled ev = 0%nat /\ count_type Rejected ev = 0%nat)).
Proof.
  intros (sb & H)%reachable_models Hq Ht Ho.
  destruct (process_models cfg b sb command events H Hq) as (b' & sb' & ev & Hp & Hs & H').
  exists b', ev. split; [done|]. pose proof H as (_ & Hi & Hc).
  destruct (spec_process_step _ _ _ _ _ (si_resting _ Hi) Hs) as (Hstep & _ & _).
  destruct (step_fill_or_kill _ _ _ _ _ _ machine_fill_is_sound (si_config _ Hi) (si_wf _ Hi)
    Hq Ht Ho Hstep) as [(Hl & H1 & H2)|H2]; [left|by right].
  split_and!; [|done|done].
  destruct (models_orders _ _ _ H) as (os & -> & -> & _).
  destruct (models_orders _ _ _ H') as (os' & -> & -> & _). by rewrite Hl.
Qed.

Lemma fill_or_kill_all_or_nothing_witness :
  let command := MkCommand 5 New Buy FillOrKill 0 9 105 400 in
  exists b' ev, process demo_book command [] = Ok (b', [] ++ ev) /\
    ((resting_orders b' = resting_orders demo_book /\ count_type Trade ev = 0%nat /\
      count_type Rejected ev = 1%nat) \/
     (quantity_of Trade ev = 400 /\ count_type Rested ev = 0%nat /\
      count_type Cancelled ev = 0%nat /\ count_type Rejected ev = 0%nat)).
Proof.
  apply (fill_or_kill_all_or_nothing demo_config demo_book
           (MkCommand 5 New Buy FillOrKill 0 9 105 400) []).
  - exact demo_reachable.
  - vm_compute. intuition discriminate.
  - reflexivity.
  - reflexivity.
Defined.

(** A command is rejected, with one event and the orders as they were, or
    rejects nothing. *)
Lemma step_rejected fill cfg l c l' ev : spec_step fill cfg l c l' ev ->
  (l' = l /\ exists reason, reason <> NoReason /\ ev = [event c Rejected 0 0 0 reason]) \/
  count_type Rejected ev = 0%nat.
Proof.
  assert (He : forall l0 c0 l1 ev0 h, e_type h <> Rejected -> executes cfg l0 c0 l1 ev0 ->
    count_type Rejected (h :: ev0) = 0%nat).
  { intros l0 c0 l1 ev0 h Hh Hx. change (h :: ev0) with ([h] ++ ev0). rewrite count_type_app.
    replace (count_type Rejected [h]) with 0%nat by (unfold count_type; by rewrite filter_cons_False).
    destruct Hx as [l2 tr H1|l2 tr rest H1 _ _|l2 tr rest H1 _ _];
      rewrite ?count_type_app, (count_trades Rejected) by (by eapply spec_match_trades); done. }
  intros [reason Hr|o _ _|l1 ev0 _ _ _ _ _ _ Hx|o l1 ev0 _ _ _ _ Hx].
  - left. split; [done|]. by exists reason.
  - by right.
  - right. by eapply He.
  - right. by eapply He.
Qed.

(** C12: Quantity is conserved by every command.  A rejected command emits one
    event and leaves the resting orders, their quantities included, as they
    were.  Otherwise what a new or replacing order brings is traded, rests or
    is cancelled, and the total of the book changes by exactly what rests,
    minus what trades, minus what a cancellation or replacement withdraws. *)
Theorem quantity_conservation (cfg : BookConfig) (b : Engine) (command : Command)
    (events : list Event) : reachable cfg b -> is_u64 (c_quantity command) ->
  exists b' ev l l', process b command events = Ok (b', events ++ ev) /\
    resting_orders b = Ok l /\ resting_orders b' = Ok l' /\
    ((l' = l /\ exists reason, reason <> NoReason /\ ev = [event command Rejected 0 0 0 reason]) \/
     (count_type Rejected ev = 0%nat /\
      match c_type command with
      | New => quantity_of Trade ev + quantity_of Rested ev + quantity_of Cancelled ev
                 = c_quantity command /\
               total l' = total l - quantity_of Trade ev + quantity_of Rested ev
      | Cancel => quantity_of Cancelled ev = withdrawn l command /\
                  total l' = total l - withdrawn l command
      | Replace => quantity_of Trade ev + quantity_of Rested ev + quantity_of Cancelled ev
                     = c_quantity command /\
                   total l' = total l - withdrawn l command - quantity_of Trade ev
                              + quantity_of Rested ev
      end)).
Proof.
  intros (sb & H)%reachable_models Hq.
  destruct (process_models cfg b sb command events H Hq) as (b' & sb' & ev & Hp & Hs & H').
  destruct (models_orders _ _ _ H) as (l & Hl & El & Hpl).
  destruct (models_orders _ _ _ H') as (l' & Hl' & El' & Hpl').
  exists b', ev, l, l'. split_and!; [done..|]. pose proof H as (_ & Hi & Hc).
  destruct (spec_process_step _ _ _ _ _ (si_resting _ Hi) Hs) as (Hstep & _ & _).
  destruct (step_rejected _ _ _ _ _ _ Hstep) as [[E Hr]|Hnr]; [left|right].
  { split; [|done]. by rewrite El, El', E. }
  split; [done|]. rewrite (total_perm _ _ Hpl), (total_perm _ _ Hpl'), (withdrawn_perm l (sb_orders sb)).
  - by apply (step_conservation machine_fill (sb_config sb)); [apply machine_fill_is_sound|apply Hi..| | |].
  - done.
  - rewrite Hpl. apply Hi.
Qed.

Lemma quantity_conservation_witness :
  exists b' ev l l', process demo_book (MkCommand 5 New Buy Limit 0 9 105 6) [] = Ok (b', [] ++ ev) /\
    resting_orders demo_book = Ok l /\ resting_orders b' = Ok l' /\
    ((l' = l /\ exists reason, reason <> NoReason /\
        ev = [event (MkCommand 5 New Buy Limit 0 9 105 6) Rejected 0 0 0 reason]) \/
     (count_type Rejected ev = 0%nat /\
      quantity_of Trade ev + quantity_of Rested ev + quantity_of Cancelled ev = 6 /\
      total l' = total l - quantity_of Trade ev + quantity_of Rested ev)).
Proof.
  apply (quantity_conservation demo_config demo_book (MkCommand 5 New Buy Limit 0 9 105 6) []).
  - exact demo_reachable.
  - vm_compute. intuition discriminate.
Defined.

(** ** Events, statistics and sequencing *)

(** The events of a command that executes: a head, trades, and what happens
    to a remainder. *)
Definition execution_shape (limit : bool) (head : EventType) (ev : list Event) : Prop :=
  exists h trades tail, ev = h :: trades ++ tail /\ e_type h = head /\
    Forall (fun e => e_type e = Trade) trades /\
    (tail = [] \/ exists e, tail = [e] /\ e_type e = if limit then Rested else Cancelled).

Lemma executes_shape cfg l c l' ev h : executes cfg l c l' ev ->
  execution_shape (bool_decide (c_order_type c = Limit)) (e_type h) (h :: ev).
Proof.
  intros [l1 tr H1|l1 tr rest H1 Hr Hl|l1 tr rest H1 Hr Hl];
    pose proof (spec_match_trades _ _ _ _ _ _ _ _ H1) as Ht.
  - exists h, tr, []. rewrite app_nil_r. split_and!; auto.
  - exists h, tr, [event c Rested 0 (c_price c) rest NoReason]. split_and!; auto.
    right. eexists. split; [done|]. by rewrite bool_decide_eq_true_2.
  - exists h, tr, [event c Cancelled 0 (c_price c) rest NoReason]. split_and!; auto.
    right. eexists. split; [done|]. by rewrite bool_decide_eq_false_2.
Qed.

(** C26: The event order of docs/DESIGN.md section 6: a command emits either one
    rejection, with the resting orders unchanged, or, by its type,
    [Accepted], trades and an optional remainder that rests for a limit order
    and is cancelled otherwise; one [Cancelled]; or [Replaced], trades and an
    optional [Rested]. *)
Theorem process_event_order (cfg : BookConfig) (b : Engine) (command : Command)
    (events : list Event) : reachable cfg b -> is_u64 (c_quantity command) ->
  exists b' ev, process b command events = Ok (b', events ++ ev) /\
    ((exists e, ev = [e] /\ e_type e = Rejected /\ e_reason e <> NoReason /\
        resting_orders b' = resting_orders b) \/
     match c_type command with
     | New => execution_shape (bool_decide (c_order_type command = Limit)) Accepted ev
     | Cancel => exists e, ev = [e] /\ e_type e = Cancelled
     | Replace => execution_shape true Replaced ev
     end).
Proof.
  intros (sb & H)%reachable_models Hq.
  destruct (process_models cfg b sb command events H Hq) as (b' & sb' & ev & Hp & Hs & H').
  exists b', ev. split; [done|]. pose proof H as (_ & Hi & Hc).
  destruct (spec_process_step _ _ _ _ _ (si_resting _ Hi) Hs) as (Hstep & _ & _).
  destruct (models_orders _ _ _ H) as (os & -> & -> & _).
  destruct (models_orders _ _ _ H') as (os' & -> & -> & _).
  remember (sb_orders sb') as l' eqn:El.
  destruct Hstep as [reason Hr|o Ht Hf|l1 ev Ht Hz Hpr Hid Hff Hcap He|o l1 ev Ht Hf Hz Hpr He].
  - left. eexists. by split_and!.
  - right. rewrite Ht. eexists. by split.
  - right. rewrite Ht. by eapply (executes_shape _ _ _ _ _ (event _ Accepted _ _ _ _)).
  - right. rewrite Ht.
    exact (executes_shape _ _ (replacement_of command (ro_side o)) _ _
             (event (replacement_of command (ro_side o)) Replaced 0 _ _ NoReason) He).
Qed.

Lemma process_event_order_witness :
  exists b' ev, process demo_book (MkCommand 5 New Buy ImmediateOrCancel 0 9 105 60) [] =
      Ok (b', [] ++ ev) /\
    ((exists e, ev = [e] /\ e_type e = Rejected /\ e_reason e <> NoReason /\
        resting_orders b' = resting_orders demo_book) \/
     execution_shape (bool_decide (ImmediateOrCancel = Limit)) Accepted ev).
Proof.
  apply (process_event_order demo_config demo_book
           (MkCommand 5 New Buy ImmediateOrCancel 0 9 105 60) []).
  - exact demo_reachable.
  - vm_compute. intuition discriminate.
Defined.

Lemma iter_counter (f : BookStats -> BookStats) (g : BookStats -> Z) n st :
  (forall s, g (f s) = u64 (g s + 1)) -> u64 (g (Nat.iter n f st)) = u64 (g st + Z.of_nat n).
Proof.
  intros Hf. induction n as [|n IH]; [f_equal; cbn; lia|].
  change (Nat.iter (S n) f st) with (f (Nat.iter n f st)). rewrite Hf, (u64_small (u64 _)) by apply u64_range.
  rewrite <- u64_idem_add, IH, u64_idem_add. f_equal. lia.
Qed.

Lemma iter_keeps {A} (f : BookStats -> BookStats) (g : BookStats -> A) n st :
  (forall s, g (f s) = g s) -> g (Nat.iter n f st) = g st.
Proof. intros Hf. induction n as [|n IH]; [done|]. change (Nat.iter (S n) f st) with (f (Nat.iter n f st)). by rewrite Hf. Qed.

(** The statistics are exact, modulo the 64-bit width of the counters: the
    sequence advances exactly for the next contiguous sequence number, trades
    and rejections are counted by the events, and [resting_orders] is the
    number of orders in the book. *)
Theorem process_statistics (cfg : BookConfig) (b : Engine) (command : Command)
    (events : list Event) : reachable cfg b -> is_u64 (c_quantity command) ->
  exists b' ev l', process b command events = Ok (b', events ++ ev) /\
    resting_orders b' = Ok l' /\ resting_count (stats b') = Z.of_nat (length l') /\
    let next := u64 (last_sequence (stats b) + 1) in
    let admitted := c_sequence command =? next in
    last_sequence (stats b') = (if admitted then next else last_sequence (stats b)) /\
    commands (stats b') = (if admitted then u64 (commands (stats b) + 1) else commands (stats b)) /\
    u64 (trades (stats b')) = u64 (trades (stats b) + Z.of_nat (count_type Trade ev)) /\
    u64 (rejected (stats b')) = u64 (rejected (stats b) + Z.of_nat (count_type Rejected ev)).
Proof.
  intros (sb & H)%reachable_models Hq.
  destruct (process_models cfg b sb command events H Hq) as (b' & sb' & ev & Hp & Hs & H').
  destruct (models_orders _ _ _ H') as (l' & Hl' & _ & Hpl').
  exists b', ev, l'. pose proof H as ([G HG] & Hi & Hc). pose proof H' as ([G' HG'] & Hi' & _).
  assert (sb_stats sb = stats b) as Hst by by rewrite (rp_spec _ _ _ HG).
  assert (sb_stats sb' = stats b') as Hst' by by rewrite (rp_spec _ _ _ HG').
  destruct (spec_process_step _ _ _ _ _ (si_resting _ Hi) Hs) as (_ & _ & Hafter).
  rewrite Hst, Hst' in Hafter. split; [done|]. split; [done|].
  split; [rewrite <- Hst', (si_resting _ Hi'); by rewrite Hpl'|].
  rewrite Hafter. cbn zeta. split_and!.
  - unfold stats_after, set_resting, add_rejected, add_trades. cbn [last_sequence].
    rewrite !iter_keeps by done. unfold stats_before.
    destruct (Z.eqb_spec (c_sequence command) (u64 (last_sequence (stats b) + 1))); [|done]. done.
  - unfold stats_after, set_resting, add_rejected, add_trades. cbn [commands].
    rewrite !iter_keeps by done. unfold stats_before. by destruct (c_sequence command =? _).
  - unfold stats_after, set_resting, add_rejected. cbn [trades]. rewrite iter_keeps by done.
    unfold add_trades. rewrite (iter_counter inc_trades trades) by done.
    unfold stats_before. by destruct (c_sequence command =? _).
  - unfold stats_after, set_resting, add_rejected. cbn [rejected].
    rewrite (iter_counter inc_rejected rejected) by done. unfold add_trades.
    rewrite (iter_keeps inc_trades rejected) by done.
    unfold stats_before. by destruct (c_sequence command =? _).
Qed.

Lemma process_statistics_witness :
  exists b' ev l', process demo_book (MkCommand 9 Cancel Buy Limit 0 1 0 0) [] = Ok (b', [] ++ ev) /\
    resting_orders b' = Ok l' /\ resting_count (stats b') = Z.of_nat (length l') /\
    let next := u64 (last_sequence (stats demo_book) + 1) in
    let admitted := 9 =? next in
    last_sequence (stats b') = (if admitted then next else last_sequence (stats demo_book)) /\
    commands (stats b') =
      (if admitted then u64 (commands (stats demo_book) + 1) else commands (stats demo_book)) /\
    u64 (trades (stats b')) = u64 (trades (stats demo_book) + Z.of_nat (count_type Trade ev)) /\
    u64 (rejected (stats b')) = u64 (rejected (stats demo_book) + Z.of_nat (count_type Rejected ev)).
Proof.
  apply (process_statistics demo_config demo_book (MkCommand 9 Cancel Buy Limit 0 1 0 0) []).
  - exact demo_reachable.
  - vm_compute. intuition discriminate.
Defined.

(** Why [process] refuses a replacement: the tests in the order of the code. *)
Definition replace_refusal (cfg : BookConfig) (last : Z) (l : list RestingOrder) (command : Command)
  : option RejectReason :=
  if negb (c_sequence command =? u64 (last + 1)) then Some SequenceGap
  else if bool_decide (find_order (c_order_id command) l = None) then Some UnknownOrderId
  else if c_quantity command =? 0 then Some InvalidQuantity
  else if on_ladder cfg (c_price command) then None else Some InvalidPrice.

(** The replacement of [o] executed on the other orders [l0]: it trades in
    price-time priority up to its new price, and what remains is appended
    under the same identifier, on the same side, with a new priority. *)
Definition replaced_by (o : RestingOrder) (command : Command) (l0 l' : list RestingOrder) (ev : list Event) : Prop :=
  let replacement := replacement_of command (ro_side o) in
  exists l1 trades rest,
    spec_match (S (length l0)) replacement (c_price command) (c_quantity command) l0 = (l1, trades, rest) /\
    0 <= rest /\ quantity_of Trade trades + rest = c_quantity command /\
    (c_order_id command ∉ (ro_id <$> l1)) /\
    ev = event replacement Replaced 0 (c_price command) (c_quantity command) NoReason :: trades ++
         (if rest =? 0 then [] else [event replacement Rested 0 (c_price command) rest NoReason]) /\
    l' = l1 ++ (if rest =? 0 then [] else
           [MkResting (c_order_id command) (ro_side o) (c_price command) rest (c_sequence command)]).

Lemma executes_replaced cfg l o command l' ev : orders_wf cfg l ->
  admissible cfg l (replacement_of command (ro_side o)) ->
  executes cfg l (replacement_of command (ro_side o)) l' ev ->
  replaced_by o command l l'
    (event (replacement_of command (ro_side o)) Replaced 0 (c_price command) (c_quantity command) NoReason :: ev).
Proof.
  intros Hwf Had [l1 tr H1|l1 tr rest H1 Hr Hl|l1 tr rest H1 Hr Hl]; [| |done];
    destruct (exec_outcome Hwf Had _ _ _ H1) as [Hm Hrest]; pose proof (m_executed _ _ _ _ _ _ _ Hm) as Hx;
    assert (Hid : c_order_id command ∉ (ro_id <$> l1))
      by (intros Hin; by apply (ad_id _ _ _ Had), (m_ids _ _ _ _ _ _ _ Hm));
    change (c_quantity (replacement_of command (ro_side o))) with (c_quantity command) in *.
  - exists l1, tr, 0. rewrite !app_nil_r. split_and!; auto; lia.
  - exists l1, tr, rest. rewrite (proj2 (Z.eqb_neq _ _) Hr). split_and!; auto; lia.
Qed.

(** C27: A replacement is refused exactly when its sequence number is not the
    next, its ID does not rest, its quantity is zero or its price is not on the
    ladder (tested in this order, and never for capacity); it then emits that
    one rejection and leaves the orders as they were.  Otherwise the order
    leaves the book and its replacement, of the new quantity and price and on
    the original side, trades with the other orders in price-time priority;
    what remains of it rests under the same ID as the last order of the book
    in arrival order, so its place is lost. *)
Theorem replace_semantics (cfg : BookConfig) (b : Engine) (command : Command)
    (events : list Event) : reachable cfg b -> is_u64 (c_quantity command) ->
  c_type command = Replace ->
  exists sb b' ev sb', refines b sb /\ process b command events = Ok (b', events ++ ev) /\
    refines b' sb' /\
    match replace_refusal cfg (last_sequence (stats b)) (sb_orders sb) command with
    | Some reason => ev = [event command Rejected 0 0 0 reason] /\ sb_orders sb' = sb_orders sb
    | None => exists o, find_order (c_order_id command) (sb_orders sb) = Some o /\
        replaced_by o command (remove_order (c_order_id command) (sb_orders sb)) (sb_orders sb') ev
    end.
Proof.
  intros (sb & H)%reachable_models Hq Ht.
  destruct (process_models cfg b sb command events H Hq) as (b' & sb' & ev & Hp & Hs & H').
  exists sb, b', ev, sb'. split_and!; [apply H|done|apply H'|]. clear Hp H'.
  pose proof H as ([G HG] & Hi & <-).
  assert (Hst : sb_stats sb = stats b) by by rewrite (rp_spec _ _ _ HG).
  unfold spec_process in Hs. rewrite Ht, Hst in Hs. unfold replace_refusal.
  destruct (negb _); [by injection Hs as <- <-|].
  unfold spec_replace in Hs. cbn [sb_orders sb_config] in Hs.
  destruct (find_order _ _) as [o|] eqn:Ef; [|by injection Hs as <- <-].
  rewrite bool_decide_eq_false_2 by done.
  destruct (Z.eqb_spec (c_quantity command) 0) as [Ez|Ez]; [by injection Hs as <- <-|].
  destruct (on_ladder (sb_config sb) (c_price command)) eqn:Ep; cbn [negb] in Hs; [|by injection Hs as <- <-].
  exists o. split; [done|]. match type of Hs with context [spec_execute ?s ?c] =>
    pose proof (spec_execute_step s c) as He; destruct (spec_execute s c) as [sb1 ev1] end.
  destruct He as (He & _). injection Hs as <- <-. cbn [spec_remove sb_orders sb_config] in He.
  eapply executes_replaced; [by apply wf_remove, (si_wf _ Hi)| |exact He].
  eapply replace_admissible; [done|done|apply Hi|done|done].
Qed.

Lemma replace_semantics_witness :
  let command := MkCommand 5 Replace Buy Limit 0 2 104 6 in
  exists sb b' ev sb', refines demo_book sb /\ process demo_book command [] = Ok (b', [] ++ ev) /\
    refines b' sb' /\
    match replace_refusal demo_config (last_sequence (stats demo_book)) (sb_orders sb) command with
    | Some reason => ev = [event command Rejected 0 0 0 reason] /\ sb_orders sb' = sb_orders sb
    | None => exists o, find_order 2 (sb_orders sb) = Some o /\
        replaced_by o command (remove_order 2 (sb_orders sb)) (sb_orders sb') ev
    end.
Proof.
  apply (replace_semantics demo_config demo_book (MkCommand 5 Replace Buy Limit 0 2 104 6) []).
  - exact demo_reachable.
  - vm_compute. intuition discriminate.
  - reflexivity.
Defined.
