(* ===== verification/StateTheorems.v ===== *)
(** * StateTheorems: construction, queries, snapshots and the hash index

    What the constructor accepts, what the read-only methods return, how a
    snapshot is restored, and the hash table as a finite map. *)
From Stdlib Require Import ZArith Lia.
From stdpp Require Import base numbers gmap list sorting.
From S2P Require Import Prelude Types OrderIndex FixedHash Bitmap OrderBook BookSpec Prices.
From S2P Require Import BookRep BookWrites BookInv BookMatch BookFill SpecFacts BookRefine.
From S2P Require Import SpecStep SpecPriority SpecInv BookQueries BookSnapshot BookRun Engine.
Local Open Scope Z_scope.

(** ** Construction *)

(** The constructor is total on configurations of the declared widths: it
    builds an empty book exactly for the valid ones and throws
    [std::invalid_argument] for all others, and its own range arithmetic never
    overflows. *)
Theorem constructor_total (cfg : BookConfig) : config_fields_ok cfg ->
  (config_ok cfg /\ exists b : Engine, make_book cfg = Ok b /\ refines b (empty_spec cfg)) \/
  (~ config_ok cfg /\ make_book (I := FixedOrderIndex) cfg = Fail InvalidArgument).
Proof.
  intros Hf. destruct (checked_price_count_total cfg Hf) as [[Hc _]|[Hn _]]; [left|right].
  - split; [done|]. by apply make_book_ok.
  - split; [done|]. by apply make_book_invalid.
Qed.

(** The widest range whose span still overflows a signed 64-bit integer. *)
Definition wide_config : BookConfig := MkConfig i64_min i64_max 1 16.

Lemma constructor_total_witness :
  (config_ok wide_config /\ exists b : Engine, make_book wide_config = Ok b /\
     refines b (empty_spec wide_config)) \/
  (~ config_ok wide_config /\ make_book (I := FixedOrderIndex) wide_config = Fail InvalidArgument).
Proof.
  apply (constructor_total wide_config). constructor; vm_compute; intuition discriminate.
Defined.

(** Prices and ladder indices are exact inverses for every accepted
    configuration: an index becomes a valid price that maps back to it, a
    price is valid exactly when it is some index's price, and none of the
    conversions overflows. *)
Theorem price_index_round_trip (cfg : BookConfig) (i p : Z) : config_ok cfg ->
  0 <= i < tick_count cfg ->
  index_price cfg i = Ok (price_at cfg i) /\
  valid_price cfg (price_at cfg i) = Ok true /\
  price_index cfg (price_at cfg i) = Ok i /\
  (valid_price cfg p = Ok true <->
   exists j, 0 <= j < tick_count cfg /\ index_price cfg j = Ok p).
Proof.
  intros Hc Hi. rewrite !valid_price_ok by done. split_and!.
  - by apply index_price_ok.
  - f_equal. apply (on_ladder_spec Hc). by exists i.
  - by apply price_index_ok.
  - split.
    + intros [= Hl]. apply (on_ladder_spec Hc) in Hl as (j & Hj & ->). exists j.
      split; [done|]. by apply index_price_ok.
    + intros (j & Hj & Hp). rewrite (index_price_ok Hc j Hj) in Hp. injection Hp as <-.
      f_equal. apply (on_ladder_spec Hc). by exists j.
Qed.

Lemma price_index_round_trip_witness :
  index_price demo_config 7 = Ok (price_at demo_config 7) /\
  valid_price demo_config (price_at demo_config 7) = Ok true /\
  price_index demo_config (price_at demo_config 7) = Ok 7 /\
  (valid_price demo_config 97 = Ok true <->
   exists j, 0 <= j < tick_count demo_config /\ index_price demo_config j = Ok 97).
Proof.
  apply (price_index_round_trip demo_config 7 97); [apply demo_config_ok|].
  vm_compute. intuition discriminate.
Defined.

(** ** Queries *)

(** In every reachable state the read-only methods return what the resting
    orders say: the highest bid and the lowest ask (0 for an empty side), and
    the aggregate of any price, modulo its 64-bit width; the best bid is below
    the best ask. *)
Theorem queries_correct (cfg : BookConfig) (b : Engine) (side : Side) (p : Z) : reachable cfg b ->
  exists l, resting_orders b = Ok l /\
    best_bid b = Ok (default 0 (best_price Buy l)) /\
    best_ask b = Ok (default 0 (best_price Sell l)) /\
    quantity_at b side p = Ok (u64 (level_total l side p)) /\
    forall bid ask, best_price Buy l = Some bid -> best_price Sell l = Some ask -> bid < ask.
Proof.
  intros (sb & H)%reachable_models. destruct (models_orders _ _ _ H) as (l & Hl & _ & Hpl).
  destruct H as ([G HG] & Hi & Hc). exists l. split; [done|].
  rewrite !(best_price_perm _ l _ Hpl), (level_total_perm l _ _ _ Hpl). split_and!.
  - by eapply best_bid_ok.
  - by eapply best_ask_ok.
  - by eapply quantity_at_ok.
  - intros bid ask (x & Hx & Hxs & <-)%best_price_in (y & Hy & Hys & <-)%best_price_in.
    by apply (si_uncrossed _ Hi).
Qed.

Lemma queries_correct_witness :
  exists l, resting_orders demo_book = Ok l /\
    best_bid demo_book = Ok (default 0 (best_price Buy l)) /\
    best_ask demo_book = Ok (default 0 (best_price Sell l)) /\
    quantity_at demo_book Sell 100 = Ok (u64 (level_total l Sell 100)) /\
    forall bid ask, best_price Buy l = Some bid -> best_price Sell l = Some ask -> bid < ask.
Proof. exact (queries_correct demo_config demo_book Sell 100 demo_reachable). Defined.

(** [resting_orders] lists every resting order exactly once: prices
    ascending, bids before asks, and each level in the order of arrival. *)
Theorem resting_orders_complete (cfg : BookConfig) (b : Engine) : reachable cfg b ->
  exists sb l, refines b sb /\ resting_orders b = Ok l /\ l ≡ₚ sb_orders sb /\
    forall side p, filter (at_level side p) l = filter (at_level side p) (sb_orders sb).
Proof.
  intros (sb & H)%reachable_models. destruct (models_orders _ _ _ H) as (l & Hl & -> & Hpl).
  exists sb, (ladder_order cfg (sb_orders sb)). destruct H as (Hr & Hi & Hc).
  split_and!; [done|done|done|]. intros side p. subst cfg.
  apply ladder_order_level; [apply Hi|apply Hi].
Qed.

Lemma resting_orders_complete_witness :
  exists sb l, refines demo_book sb /\ resting_orders demo_book = Ok l /\ l ≡ₚ sb_orders sb /\
    forall side p, filter (at_level side p) l = filter (at_level side p) (sb_orders sb).
Proof. exact (resting_orders_complete demo_config demo_book demo_reachable). Defined.

(** ** Snapshots *)

(** C14: Snapshot round trip: after any stream shorter than the sequence space,
    restoring [resting_orders] into a fresh book succeeds, gives back the same
    orders, and from then on the restored book and the original answer every
    further stream with the same events and end with the same orders. *)
Theorem snapshot_resume (cfg : BookConfig) (past future : list Command) :
  config_ok cfg -> quantities_u64 past -> quantities_u64 future ->
  Z.of_nat (length past) <= u64_max ->
  exists (b0 b b' b1 b2 : Engine) events orders ev,
    make_book cfg = Ok b0 /\ process_all b0 past [] = Ok (b, events) /\
    resting_orders b = Ok orders /\
    restore b0 (last_sequence (stats b)) orders = Ok b' /\ resting_orders b' = Ok orders /\
    process_all b future [] = Ok (b1, ev) /\ process_all b' future [] = Ok (b2, ev) /\
    resting_orders b1 = resting_orders b2.
Proof.
  intros Hc Hq Hq' Hlen.
  destruct (run_models cfg past Hc Hq Hlen) as (b0 & b & sb & events & Hb0 & H0 & Hp & _ & (Hb & Hi & Hcf) & Ht).
  destruct (restore_resting_orders b sb b0 Hb Hi Ht) as (orders & b' & Ho & Hr & Hb');
    [by rewrite Hcf|].
  set (sb' := MkSpec _ _ _) in Hb'. assert (Hsame : same_book sb sb') by by split.
  destruct (same_future b b' sb sb' future Hb Hb' Hsame Hq') as (b1 & b2 & ev & Hp1 & Hp2 & Hf).
  exists b0, b, b', b1, b2, events, orders, ev. split_and!; auto.
  rewrite (refines_orders b' sb') by done. rewrite <- Ho. by rewrite (refines_orders b sb).
Qed.

Lemma snapshot_resume_witness :
  exists (b0 b b' b1 b2 : Engine) events orders ev,
    make_book demo_config = Ok b0 /\ process_all b0 demo_commands [] = Ok (b, events) /\
    resting_orders b = Ok orders /\
    restore b0 (last_sequence (stats b)) orders = Ok b' /\ resting_orders b' = Ok orders /\
    process_all b [MkCommand 5 New Sell Market 0 7 0 2] [] = Ok (b1, ev) /\
    process_all b' [MkCommand 5 New Sell Market 0 7 0 2] [] = Ok (b2, ev) /\
    resting_orders b1 = resting_orders b2.
Proof.
  apply (snapshot_resume demo_config demo_commands [MkCommand 5 New Sell Market 0 7 0 2]);
    [apply demo_config_ok|..].
  - unfold demo_commands. repeat constructor; vm_compute; intuition discriminate.
  - repeat constructor; vm_compute; intuition discriminate.
  - vm_compute. discriminate.
Defined.

(** C38: [restore] on a fresh book never goes wrong: it succeeds exactly when the
    orders fit the capacity and each has a valid price, a nonzero quantity, a
    priority not above the sequence and a new ID; otherwise it throws
    [std::runtime_error], or [std::logic_error] when there are too many.  The
    restored book lists the orders by priority. *)
Theorem restore_total (cfg : BookConfig) (b0 : Engine) (seq : Z) (orders : list RestingOrder) :
  config_ok cfg -> make_book cfg = Ok b0 -> quantities_ok orders ->
  let sorted := stable_sort orders in
  sorted ≡ₚ orders /\ StronglySorted priority_le sorted /\
  if Z.of_nat (length orders) <=? maximum_orders cfg then
    if orders_valid cfg seq [] sorted then
      exists b, restore b0 seq orders = Ok b /\
        refines b (MkSpec cfg sorted (set_resting (MkStats seq 0 0 0 0) sorted))
    else restore b0 seq orders = Fail RuntimeError
  else restore b0 seq orders = Fail LogicError.
Proof.
  intros Hc Hb Hq sorted. split; [apply stable_sort_perm|]. split; [apply stable_sort_sorted|].
  destruct (make_models cfg b0 Hc Hb) as (H0 & _).
  destruct (restore_ok b0 cfg seq orders H0 Hq) as [(H1 & Hv & H2)|[(H1 & Hv & H2)|[H1 H2]]].
  - fold sorted in Hv. by rewrite (proj2 (Z.leb_le _ _) H1), Hv.
  - fold sorted in Hv. by rewrite (proj2 (Z.leb_le _ _) H1), Hv.
  - by rewrite (proj2 (Z.leb_gt _ _) H1).
Qed.

Lemma restore_total_witness :
  let orders := [MkResting 8 Buy 95 3 6; MkResting 9 Sell 99 4 2] in
  exists b0 : Engine, make_book demo_config = Ok b0 /\
    let sorted := stable_sort orders in
    sorted ≡ₚ orders /\ StronglySorted priority_le sorted /\
    exists b, restore b0 6 orders = Ok b /\
      refines b (MkSpec demo_config sorted (set_resting (MkStats 6 0 0 0 0) sorted)).
Proof.
  cbv zeta. destruct (make_book_ok (I := FixedOrderIndex) demo_config demo_config_ok) as (b0 & Hb0 & _).
  exists b0. split; [exact Hb0|].
  refine (restore_total demo_config b0 6 [MkResting 8 Buy 95 3 6; MkResting 9 Sell 99 4 2]
           demo_config_ok Hb0 _).
  repeat constructor; vm_compute; intuition discriminate.
Defined.

(** ** The aggregate of a level wraps *)

Lemma machine_liquidity_perm cfg l1 l2 side limit : l1 ≡ₚ l2 ->
  machine_liquidity cfg l1 side limit = machine_liquidity cfg l2 side limit.
Proof. intros Hp. apply zsum_ext. intros i _. by rewrite (level_total_perm _ _ _ _ Hp). Qed.

(** The aggregates add up to less than what rests only when one of them has
    passed 64 bits. *)
Lemma liquidity_shortfall cfg l side limit : config_ok cfg -> orders_wf cfg l ->
  machine_liquidity cfg l side limit < liquidity l side limit ->
  exists p, on_ladder cfg p = true /\ price_crosses side limit p = true /\
    u64_max < level_total l (opposite side) p.
Proof.
  intros Hc Hwf Hlt.
  destruct (decide (Exists (fun i => price_crosses side limit (price_at cfg i) = true /\
    u64_max < level_total l (opposite side) (price_at cfg i)) (ticks cfg))) as [He|Hne].
  { apply list.Exists_exists in He as (i & Hi%elem_of_ticks & Hx & Ht).
    exists (price_at cfg i). split_and!; [|done..]. apply (on_ladder_spec Hc). by exists i. }
  exfalso. rewrite (liquidity_ladder Hc) in Hlt by apply Hwf.
  enough (machine_liquidity cfg l side limit = zsum (fun i => if price_crosses side limit (price_at cfg i)
    then level_total l (opposite side) (price_at cfg i) else 0) (ticks cfg)) by lia.
  apply zsum_ext. intros i Hi. case_match eqn:E; [|done]. apply u64_small.
  split; [by eapply level_total_nonneg|]. apply Z.nlt_ge. intros Ht. apply Hne, list.Exists_exists. by exists i.
Qed.

(** When everything that crosses is at one price, only its aggregate counts. *)
Lemma machine_liquidity_one cfg l side limit p : config_ok cfg -> on_ladder cfg p = true ->
  price_crosses side limit p = true ->
  (forall o, o ∈ l -> crossing side limit o = true -> ro_price o = p) ->
  machine_liquidity cfg l side limit = u64 (level_total l (opposite side) p).
Proof.
  intros Hc (i & Hi & ->)%(on_ladder_spec Hc) Hx Hone.
  rewrite <- (zsum_single (fun j => u64 (level_total l (opposite side) (price_at cfg j))) (ticks cfg) i);
    [|apply ticks_nodup|by apply elem_of_ticks].
  apply zsum_ext. intros j _. destruct (Z.eqb_spec j i) as [->|Hne]; [by rewrite Hx|].
  case_match eqn:E; [|done]. unfold level_total. rewrite filter_none; [done|].
  intros o Ho [Hs Hp]. apply Hne, (price_at_inj Hc). rewrite <- Hp. apply Hone; [done|].
  unfold crossing. rewrite bool_decide_eq_true_2 by done. by rewrite Hp.
Qed.

Lemma orders_wf_perm cfg l1 l2 : l1 ≡ₚ l2 -> orders_wf cfg l1 -> orders_wf cfg l2.
Proof.
  intros Hp [H1 H2 H3]. split; [by rewrite <- Hp|..]; intros o; rewrite <- Hp; [apply H2|apply H3].
Qed.

(** The decision on a fill-or-kill order that passes the other tests. *)
Lemma fill_or_kill_decision cfg l st c : c_sequence c = u64 (last_sequence st + 1) -> c_type c = New ->
  c_order_type c = FillOrKill -> c_quantity c <> 0 -> on_ladder cfg (c_price c) = true ->
  find_order (c_order_id c) l = None ->
  (spec_process machine_fill (MkSpec cfg l st) c).2 = [event c Rejected 0 0 0 WouldNotFill] <->
  machine_liquidity cfg l (c_side c) (c_price c) < c_quantity c.
Proof.
  intros Hs Ht Ho Hq Hp Hid. unfold spec_process. cbn [sb_stats sb_config sb_orders].
  rewrite Hs, Z.eqb_refl, Ht. cbn [negb]. unfold spec_submit. cbn [sb_config sb_orders].
  rewrite (proj2 (Z.eqb_neq _ _) Hq), Hp, Hid, (bool_decide_eq_false_2 (is_Some None)) by (by intros [??]).
  rewrite andb_false_r, (bool_decide_eq_true_2 (c_order_type c = FillOrKill)) by done.
  rewrite (bool_decide_eq_false_2 (c_order_type c = Limit)) by congruence. cbn [andb].
  unfold machine_fill, spec_limit. rewrite Ho.
  destruct (Z.leb_spec (c_quantity c) (machine_liquidity cfg l (c_side c) (c_price c))); cbn [negb].
  - destruct (spec_execute _ _). split; [done|lia].
  - done.
Qed.

(** C40: What the 64-bit aggregates decide about a fill-or-kill order that passes
    the other tests, on any reachable book: it is refused exactly when the
    aggregates of the crossing levels, each modulo 2^64, add up to less than
    its quantity.  An order without enough exact liquidity is always refused.
    One that has enough is refused only when the orders of a crossing level add
    up to more than 64 bits, and [quantity_at] then reports the wrapped sum; and
    it is refused whenever all that crosses is at one price whose wrapped sum is
    below its quantity. *)
Theorem aggregate_overflow_refuses_fill (cfg : BookConfig) (b : Engine) (command : Command)
    (events : list Event) (l : list RestingOrder) :
  reachable cfg b -> resting_orders b = Ok l -> is_u64 (c_quantity command) ->
  c_sequence command = u64 (last_sequence (stats b) + 1) -> c_type command = New ->
  c_order_type command = FillOrKill -> c_quantity command <> 0 -> on_ladder cfg (c_price command) = true ->
  find_order (c_order_id command) l = None ->
  let side := c_side command in
  let limit := c_price command in
  exists b' ev, process b command events = Ok (b', events ++ ev) /\
    let refused := ev = [event command Rejected 0 0 0 WouldNotFill] in
    (refused <-> machine_liquidity cfg l side limit < c_quantity command) /\
    (liquidity l side limit < c_quantity command -> refused) /\
    (refused -> c_quantity command <= liquidity l side limit ->
       exists p, on_ladder cfg p = true /\ price_crosses side limit p = true /\
         u64_max < level_total l (opposite side) p /\
         quantity_at b (opposite side) p = Ok (u64 (level_total l (opposite side) p))) /\
    (forall p, on_ladder cfg p = true -> price_crosses side limit p = true ->
       (forall o, o ∈ l -> crossing side limit o = true -> ro_price o = p) ->
       u64 (level_total l (opposite side) p) < c_quantity command -> refused).
Proof.
  intros (sb & H)%reachable_models Hl Hq Hs Ht Ho Hz Hp Hid side limit.
  destruct (process_models cfg b sb command events H Hq) as (b' & sb' & ev & Hpr & Hsp & _).
  exists b', ev. split; [done|]. intros refused. destruct (models_orders _ _ _ H) as (os & Hos & _ & Hperm).
  assert (os = l) as -> by congruence. pose proof H as ([G HG] & Hi & Hc).
  assert (Hst : sb_stats sb = stats b) by by rewrite (rp_spec _ _ _ HG).
  assert (Hwf : orders_wf cfg l) by (rewrite <- Hc; eapply orders_wf_perm; [symmetry; exact Hperm|apply Hi]).
  assert (Hcfg : config_ok cfg) by (rewrite <- Hc; apply Hi).
  assert (Hiff : refused <-> machine_liquidity cfg l side limit < c_quantity command).
  { rewrite (machine_liquidity_perm _ _ _ _ _ Hperm). rewrite (find_order_perm _ _ _ Hperm) in Hid by apply Hwf.
    destruct sb as [cfg' lo st]. cbn in Hc, Hst, Hid. subst cfg' st.
    pose proof (fill_or_kill_decision cfg lo (stats b) command Hs Ht Ho Hz Hp Hid) as Hd.
    rewrite Hsp in Hd. exact Hd. }
  split; [done|]. pose proof (machine_liquidity_le Hcfg l side limit Hwf) as Hle. split_and!.
  - intros Hlt. apply Hiff. lia.
  - intros Hr%Hiff Hge. destruct (liquidity_shortfall cfg l side limit Hcfg Hwf) as (p & H1 & H2 & H3); [lia|].
    exists p. split_and!; auto. rewrite (level_total_perm _ _ _ _ Hperm). by apply (quantity_at_ok HG).
  - intros p H1 H2 H3 H4. apply Hiff. by rewrite (machine_liquidity_one cfg l side limit p).
Qed.

(** Two sells of 2^63 rest at one price; a buy of one unit is refused. *)
Definition half : Z := 9223372036854775808.

Definition overflow_book : Engine :=
  book_after [MkCommand 1 New Sell Limit 0 1 100 half; MkCommand 2 New Sell Limit 0 2 100 half].

Lemma aggregate_overflow_refuses_fill_witness :
  let command := MkCommand 3 New Buy FillOrKill 0 3 100 1 in
  let l := [MkResting 1 Sell 100 half 1; MkResting 2 Sell 100 half 2] in
  liquidity l Buy 100 = 2 ^ 64 /\ quantity_at overflow_book Sell 100 = Ok 0 /\
  exists b' ev, process overflow_book command [] = Ok (b', [] ++ ev) /\
    ev = [event command Rejected 0 0 0 WouldNotFill].
Proof.
  cbv zeta. split; [vm_compute; reflexivity|]. split; [vm_compute; reflexivity|].
  destruct (aggregate_overflow_refuses_fill demo_config overflow_book (MkCommand 3 New Buy FillOrKill 0 3 100 1) []
    [MkResting 1 Sell 100 half 1; MkResting 2 Sell 100 half 2]) as (b' & ev & Hp & _ & _ & _ & H).
  - apply book_after_reachable. repeat constructor; vm_compute; intuition discriminate.
  - vm_compute. reflexivity.
  - vm_compute. intuition discriminate.
  - vm_compute. reflexivity.
  - reflexivity.
  - reflexivity.
  - discriminate.
  - reflexivity.
  - vm_compute. reflexivity.
  - exists b', ev. split; [exact Hp|]. apply (H 100).
    + reflexivity.
    + reflexivity.
    + intros o [->|[->|[]%not_elem_of_nil]%elem_of_cons]%elem_of_cons _; reflexivity.
    + vm_compute. reflexivity.
Defined.

(** ** The hash index *)

Inductive IndexOp : Set := OpInsert (id node : Z) | OpErase (id : Z) | OpFind (id : Z).

Inductive IndexAnswer : Set := Flag (b : bool) | Node (n : option Z).

Definition index_step (t : FixedOrderIndex) (op : IndexOp) : result (FixedOrderIndex * IndexAnswer) :=
  match op with
  | OpInsert id node => '(t, ok) ← insert t id node; Ok (t, Flag ok)
  | OpErase id => '(t, ok) ← erase t id; Ok (t, Flag ok)
  | OpFind id => n ← find t id; Ok (t, Node n)
  end.

Fixpoint index_run (t : FixedOrderIndex) (ops : list IndexOp)
  : result (FixedOrderIndex * list IndexAnswer) :=
  match ops with
  | [] => Ok (t, [])
  | op :: ops =>
    '(t, a) ← index_step t op; '(t, rest) ← index_run t ops; Ok (t, a :: rest)
  end.

Definition map_step (m : gmap Z Z) (op : IndexOp) : gmap Z Z * IndexAnswer :=
  match op with
  | OpInsert id node => if decide (is_Some (m !! id)) then (m, Flag false)
                        else (<[id := node]> m, Flag true)
  | OpErase id => (delete id m, Flag (bool_decide (is_Some (m !! id))))
  | OpFind id => (m, Node (m !! id))
  end.

(** The map never holds more than [n] entries. *)
Fixpoint fits (n : Z) (m : gmap Z Z) (ops : list IndexOp) : bool :=
  (Z.of_nat (size m) <=? n) &&
  match ops with [] => true | op :: ops => fits n (map_step m op).1 ops end.

Fixpoint map_run (m : gmap Z Z) (ops : list IndexOp) : list IndexAnswer :=
  match ops with [] => [] | op :: ops => (map_step m op).2 :: map_run (map_step m op).1 ops end.

Lemma fits_size n m ops : fits n m ops = true -> Z.of_nat (size m) <= n.
Proof. destruct ops; cbn [fits]; intros [H _]%andb_prop; lia. Qed.

Lemma index_run_ok t n m ops : table_repr t n m -> fits n m ops = true ->
  exists t', index_run t ops = Ok (t', map_run m ops).
Proof.
  revert t m. induction ops as [|op ops IH]; intros t m R Hf; [by exists t|].
  cbn [fits index_run map_run] in *. apply andb_prop in Hf as [_ Hf].
  assert (Hstep : exists t1, index_step t op = Ok (t1, (map_step m op).2) /\
    table_repr t1 n (map_step m op).1).
  { destruct op as [id node|id|id]; cbn [index_step map_step] in *.
    - destruct (decide (is_Some (m !! id))) as [Hs|Hs].
      + rewrite (insert_dup t n m id node R Hs). by exists t.
      + apply eq_None_not_Some in Hs.
        assert (Hsize : Z.of_nat (size m) < n).
        { cbn [fst] in Hf. apply fits_size in Hf. rewrite map_size_insert_None in Hf by done. lia. }
        destruct (insert_ok t n m id node R Hs Hsize) as (t1 & -> & R1). by exists t1.
    - destruct (decide (is_Some (m !! id))) as [Hs|Hs].
      + destruct (erase_ok t n m id R Hs) as (t1 & -> & R1). exists t1. cbn.
        by rewrite bool_decide_eq_true_2.
      + rewrite bool_decide_eq_false_2 by done. apply eq_None_not_Some in Hs.
        rewrite (erase_absent t n m id R Hs). exists t. cbn. split; [done|].
        by rewrite delete_id.
    - rewrite (find_ok t n m id R). by exists t. }
  destruct Hstep as (t1 & -> & R1). cbn [mbind result_bind].
  destruct (IH t1 _ R1 Hf) as (t2 & ->). by exists t2.
Qed.

(** C7: The open-addressed table is a finite map: built for [n] entries, it
    answers every sequence of insertions, deletions and lookups that never
    holds more than [n] IDs exactly as a map does, whatever the collisions and
    the cluster repairs of deletion. *)
Theorem hash_index_is_map (n : Z) (ops : list IndexOp) :
  0 < n <= largest_safe_request -> fits n ∅ ops = true ->
  exists t t', make_index n = Ok t /\ index_run t ops = Ok (t', map_run ∅ ops).
Proof.
  intros Hn Hf. destruct (make_index_ok n Hn) as (t & Ht & R).
  destruct (index_run_ok t n ∅ ops R Hf) as (t' & Hr). by exists t, t'.
Qed.

Lemma hash_index_is_map_witness :
  let ops := [OpInsert 1 10; OpInsert 2 20; OpErase 1; OpFind 2; OpFind 1; OpInsert 2 30] in
  exists t t', make_index 2 = Ok t /\ index_run t ops = Ok (t', map_run ∅ ops).
Proof.
  apply (hash_index_is_map 2 [OpInsert 1 10; OpInsert 2 20; OpErase 1; OpFind 2; OpFind 1; OpInsert 2 30]).
  - vm_compute. intuition discriminate.
  - vm_compute. reflexivity.
Defined.
