(* ===== verification/Bytes.v ===== *)
(** * Bytes: little-endian integers in byte vectors
      (src/protocol.cpp, [put_u16] ... [get_u64])

    A span of bytes is a list of 8-bit values; [put] and [get] are the loops
    of the source with bounds-checked accesses.  [written] describes what a
    store changes, and the two reading lemmas say what is then read at the
    same and at other offsets. *)
From Stdlib Require Import ZArith Lia.
From stdpp Require Import base numbers list.
From S2P Require Import Prelude.
Local Open Scope Z_scope.

Definition bytes_ok (bs : list Z) : Prop := Forall is_u8 bs.

(** [static_cast<std::byte>((value >> (index * 8U)) & 0xffU)]. *)
Definition byte_of (value : Z) (index : Z) : Z := Z.land (Z.shiftr value (index * 8)) 255.

(** The store loop: bytes [index], ..., of [value] at [offset + index]. *)
Fixpoint put (todo : nat) (index : Z) (output : list Z) (offset value : Z) : result (list Z) :=
  match todo with
  | O => Ok output
  | S todo =>
    output ← vset output (offset + index) (byte_of value index);
    put todo (index + 1) output offset value
  end.

(** The load loop. *)
Fixpoint get (todo : nat) (index : Z) (input : list Z) (offset value : Z) : result Z :=
  match todo with
  | O => Ok value
  | S todo =>
    b ← vget input (offset + index);
    get todo (index + 1) input offset (Z.lor value (Z.shiftl b (index * 8)))
  end.

Definition put_u8 (output : list Z) (offset value : Z) : result (list Z) :=
  vset output offset (u8 value).
Definition put_u16 := put 2 0.
Definition put_u32 := put 4 0.
Definition put_u64 := put 8 0.
Definition get_u16 (input : list Z) (offset : Z) : result Z := get 2 0 input offset 0.
Definition get_u32 (input : list Z) (offset : Z) : result Z := get 4 0 input offset 0.
Definition get_u64 (input : list Z) (offset : Z) : result Z := get 8 0 input offset 0.

(** [n] bytes at [offset] became the little-endian [value]; nothing else
    changed. *)
Record written (d d' : list Z) (offset n value : Z) : Prop := {
  w_size : vsize d' = vsize d;
  w_in : forall i, 0 <= i < n -> d'.[offset + i] = Some (byte_of value i);
  w_out : forall j, j < offset \/ offset + n <= j -> d'.[j] = d.[j] }.

Lemma put_ok todo index d offset value : 0 <= index -> 0 <= offset ->
  offset + index + Z.of_nat todo <= vsize d ->
  exists d', put todo index d offset value = Ok d' /\ vsize d' = vsize d /\
    (forall i, index <= i < index + Z.of_nat todo -> d'.[offset + i] = Some (byte_of value i)) /\
    (forall j, j < offset + index \/ offset + index + Z.of_nat todo <= j -> d'.[j] = d.[j]).
Proof.
  revert index d. induction todo as [|todo IH]; intros index d Hi Ho Hs; cbn [put].
  { exists d. split_and!; auto. intros i ?. lia. }
  rewrite vset_ok by lia. cbn [mbind result_bind].
  destruct (IH (index + 1) (d.[offset + index := byte_of value index])) as (d' & -> & Hsz & Hin & Hout);
    [lia|lia|rewrite vsize_vupd; lia|].
  exists d'. split_and!; [done|by rewrite Hsz, vsize_vupd|..].
  - intros i Hi'. destruct (decide (i = index)) as [->|]; [|apply Hin; lia].
    rewrite Hout by lia. apply vlook_vupd_eq. lia.
  - intros j Hj. rewrite Hout by lia. apply vlook_vupd_ne. lia.
Qed.

Lemma put_written n d offset value : 0 <= offset -> offset + Z.of_nat n <= vsize d ->
  exists d', put n 0 d offset value = Ok d' /\ written d d' offset (Z.of_nat n) value.
Proof.
  intros Ho Hs. destruct (put_ok n 0 d offset value) as (d' & Hp & Hsz & Hin & Hout); [lia..|].
  exists d'. split; [done|]. split; [done|..].
  - intros i Hi. apply Hin. lia.
  - intros j Hj. apply Hout. lia.
Qed.

Lemma byte_of_u8 (value : Z) : byte_of value 0 = u8 value.
Proof.
  unfold byte_of, u8. rewrite Z.shiftr_0_r. by rewrite (Z.land_ones _ 8).
Qed.

Lemma put_u8_written d offset value : 0 <= offset < vsize d ->
  exists d', put_u8 d offset value = Ok d' /\ written d d' offset 1 value.
Proof.
  intros Ho. unfold put_u8. rewrite vset_ok by done. eexists. split; [done|]. split.
  - apply vsize_vupd.
  - intros i Hi. assert (i = 0) as -> by lia. rewrite Z.add_0_r, byte_of_u8. by apply vlook_vupd_eq.
  - intros j Hj. apply vlook_vupd_ne. lia.
Qed.

(** ** Reading *)

Lemma byte_of_bits value i j : 0 <= i -> 0 <= j ->
  Z.testbit (byte_of value i) j = (j <? 8) && Z.testbit value (i * 8 + j).
Proof.
  intros Hi Hj. unfold byte_of. rewrite Z.land_spec, Z.shiftr_spec by lia.
  change 255 with (Z.ones 8). rewrite Z.testbit_ones_nonneg by lia.
  rewrite andb_comm, Z.add_comm. done.
Qed.

(** [get] reassembles what the bytes of a value say. *)
Lemma get_ok todo index d offset value acc : 0 <= index ->
  (forall i, index <= i < index + Z.of_nat todo -> d.[offset + i] = Some (byte_of value i)) ->
  acc = Z.land value (Z.ones (index * 8)) ->
  get todo index d offset acc = Ok (Z.land value (Z.ones ((index + Z.of_nat todo) * 8))).
Proof.
  revert index acc. induction todo as [|todo IH]; intros index acc Hi Hd ->; cbn [get].
  { by rewrite Z.add_0_r. }
  rewrite (vget_ok _ _ _ (Hd index ltac:(lia))). cbn [mbind result_bind].
  rewrite (IH (index + 1)); [do 3 f_equal; lia|lia|intros i Hii; apply Hd; lia|].
  apply Z.bits_inj'. intros j Hj.
  rewrite Z.lor_spec, !Z.land_spec, Z.shiftl_spec, !Z.testbit_ones_nonneg by lia.
  destruct (Z.ltb_spec j (index * 8)), (Z.ltb_spec j ((index + 1) * 8)); try lia.
  - rewrite (Z.testbit_neg_r _ (j - index * 8)) by lia. by rewrite orb_false_r.
  - rewrite byte_of_bits by lia. rewrite (proj2 (Z.ltb_lt _ _)) by lia.
    rewrite andb_false_r, andb_true_r. cbn. f_equal. lia.
  - rewrite byte_of_bits by lia. rewrite (proj2 (Z.ltb_ge _ _)) by lia.
    by rewrite !andb_false_r.
Qed.

Lemma get_ext todo index d d' offset acc :
  (forall i, index <= i < index + Z.of_nat todo -> d'.[offset + i] = d.[offset + i]) ->
  get todo index d' offset acc = get todo index d offset acc.
Proof.
  revert index acc. induction todo as [|todo IH]; intros index acc Hd; cbn [get]; [done|].
  unfold vget. rewrite (Hd index) by lia. destruct (d.[offset + index]); [|done]. cbn.
  apply IH. intros i Hi. apply Hd. lia.
Qed.

Lemma get_same n d d' offset value : written d d' offset (Z.of_nat n) value ->
  0 <= value < 2 ^ (Z.of_nat n * 8) -> get n 0 d' offset 0 = Ok value.
Proof.
  intros W Hv. rewrite (get_ok n 0 d' offset value); [|lia|intros i Hi; apply W; lia|].
  - rewrite Z.add_0_l, Z.land_ones, Z.mod_small by lia. done.
  - by rewrite Z.land_0_r.
Qed.

Lemma get_other m n d d' offset offset' value : written d d' offset n value ->
  offset' + Z.of_nat m <= offset \/ offset + n <= offset' ->
  get m 0 d' offset' 0 = get m 0 d offset' 0.
Proof. intros W Hd. apply get_ext. intros i Hi. apply W. lia. Qed.

Lemma vget_same d d' offset value : written d d' offset 1 value -> is_u8 value ->
  vget d' offset = Ok value.
Proof.
  intros W Hv. apply vget_ok. rewrite <- (Z.add_0_r offset), (w_in _ _ _ _ _ W) by lia.
  rewrite byte_of_u8. unfold u8. rewrite Z.mod_small by intlia. done.
Qed.

Lemma vget_other n d d' offset j value : written d d' offset n value ->
  j < offset \/ offset + n <= j -> vget d' j = vget d j.
Proof. intros W Hj. unfold vget. by rewrite (w_out _ _ _ _ _ W). Qed.

(** Loads inside a byte vector always succeed, with a value of their width. *)
Lemma get_total todo index d offset acc : bytes_ok d -> 0 <= index -> 0 <= offset ->
  offset + index + Z.of_nat todo <= vsize d -> 0 <= acc < 2 ^ (index * 8) ->
  exists v, get todo index d offset acc = Ok v /\ 0 <= v < 2 ^ ((index + Z.of_nat todo) * 8).
Proof.
  intros Hd. revert index acc. induction todo as [|todo IH]; intros index acc Hi Ho Hs Ha; cbn [get].
  { exists acc. by rewrite Z.add_0_r. }
  destruct (vlook_lt_is_Some d (offset + index)) as [b Hb]; [lia|].
  rewrite (vget_ok _ _ _ Hb). cbn [mbind result_bind].
  assert (Hbb : 0 <= b < 2 ^ 8).
  { apply vlook_elem_of in Hb. unfold bytes_ok in Hd. rewrite Forall_forall in Hd.
    specialize (Hd b Hb). ints. lia. }
  destruct (IH (index + 1) (Z.lor acc (Z.shiftl b (index * 8)))) as (v & Hv & Hr); [lia|lia|lia|..].
  - split; [apply Z.lor_nonneg; split; [lia|]; apply Z.shiftl_nonneg; lia|].
    rewrite Z.shiftl_mul_pow2 by lia. replace ((index + 1) * 8) with (index * 8 + 8) by lia.
    rewrite Z.pow_add_r by lia.
    rewrite <- (Z.mod_small acc (2 ^ (index * 8))) by lia. rewrite <- Z.land_ones by lia.
    assert (Z.lor (Z.land acc (Z.ones (index * 8))) (b * 2 ^ (index * 8)) =
            Z.land acc (Z.ones (index * 8)) + b * 2 ^ (index * 8)) as ->.
    { rewrite <- Z.shiftl_mul_pow2 by lia. symmetry. apply Z.add_nocarry_lor. apply Z.bits_inj'.
      intros j Hj. rewrite !Z.land_spec, Z.shiftl_spec, Z.testbit_ones_nonneg, Z.bits_0 by lia.
      destruct (Z.ltb_spec j (index * 8)).
      - rewrite (Z.testbit_neg_r b) by lia. by rewrite andb_false_r.
      - by rewrite andb_false_r. }
    rewrite Z.land_ones, Z.mod_small by lia. nia.
  - exists v. split; [done|]. replace (index + Z.of_nat (S todo)) with (index + 1 + Z.of_nat todo) by lia.
    done.
Qed.
