(* ===== verification/Protocol.v ===== *)
(** * Protocol: the DME1 binary frames
      (include/dme/protocol.hpp, src/protocol.cpp)

    Encoders write into a caller-owned byte vector, decoders read a prefix of
    a receive buffer; every access is bounds-checked.  An enumeration that is
    cast from a byte has a constructor for the bytes outside its
    enumerators. *)
From Stdlib Require Import ZArith Lia.
From stdpp Require Import base numbers list.
From S2P Require Import Prelude Types Bytes.
Local Open Scope Z_scope.

Definition magic : Z := 0x31454d44.
Definition version : Z := 1.
Definition header_size : Z := 24.
Definition maximum_frame_size : Z := 80.

Inductive MessageType : Set :=
  | NewOrder | CancelOrder | ReplaceOrder | ExecutionEvent
  | UnknownMessage (value : Z).

Definition message_type_to_u8 (t : MessageType) : Z :=
  match t with
  | NewOrder => 1 | CancelOrder => 2 | ReplaceOrder => 3 | ExecutionEvent => 128
  | UnknownMessage value => value
  end.
Definition message_type_of_u8 (value : Z) : MessageType :=
  match value with
  | 1 => NewOrder | 2 => CancelOrder | 3 => ReplaceOrder | 128 => ExecutionEvent
  | _ => UnknownMessage value
  end.

Inductive DecodeStatus : Set :=
  | DecodeOk | NeedMoreData | InvalidMagic | UnsupportedVersion | InvalidLength
  | UnknownMessageType | InvalidField.

Record Request : Set := MkRequest {
  rq_session_id : Z;
  rq_client_sequence : Z;
  rq_command : Command }.

Record Response : Set := MkResponse {
  rs_session_id : Z;
  rs_client_sequence : Z;
  rs_event : Event }.

Definition Request_zero : Request := MkRequest 0 0 Command_zero.
Definition Response_zero : Response := MkResponse 0 0 Event_zero.

Record RequestDecodeResult : Set := MkRequestDecode {
  qd_status : DecodeStatus;
  qd_bytes_consumed : Z;
  qd_request : Request }.

Record ResponseDecodeResult : Set := MkResponseDecode {
  sd_status : DecodeStatus;
  sd_bytes_consumed : Z;
  sd_response : Response }.

#[export] Instance DecodeStatus_eq_dec : EqDecision DecodeStatus.
Proof. solve_decision. Defined.
#[export] Instance MessageType_eq_dec : EqDecision MessageType.
Proof. solve_decision. Defined.

Definition valid_side (value : Z) : bool := value <=? side_to_u8 Sell.
Definition valid_order_type (value : Z) : bool := value <=? order_type_to_u8 FillOrKill.

Definition wire_type (type : CommandType) : MessageType :=
  match type with New => NewOrder | Cancel => CancelOrder | Replace => ReplaceOrder end.

Definition encode_header (output : list Z) (type : MessageType) (length session sequence : Z)
  : result (list Z) :=
  output ← put_u32 output 0 magic;
  output ← put_u8 output 4 version;
  output ← put_u8 output 5 (message_type_to_u8 type);
  output ← put_u16 output 6 length;
  output ← put_u32 output 8 session;
  output ← put_u32 output 12 0;
  put_u64 output 16 sequence.

(** The out-parameters of [validate_header], set when the status is [Ok]. *)
Record Header : Set := MkHeader {
  h_type : MessageType;
  h_length : Z;
  h_session : Z;
  h_sequence : Z }.

Definition validate_header (input : list Z) : result (DecodeStatus + Header) :=
  if vsize input <? header_size then Ok (inl NeedMoreData)
  else
    m ← get_u32 input 0;
    if negb (m =? magic) then Ok (inl InvalidMagic)
    else
      v ← vget input 4;
      if negb (v =? version) then Ok (inl UnsupportedVersion)
      else
        frame_length ← get_u16 input 6;
        if (frame_length <? header_size) || (maximum_frame_size <? frame_length)
        then Ok (inl InvalidLength)
        else if vsize input <? frame_length then Ok (inl NeedMoreData)
        else
          t ← vget input 5;
          session ← get_u32 input 8;
          sequence ← get_u64 input 16;
          Ok (inr (MkHeader (message_type_of_u8 t) frame_length session sequence)).

Definition request_frame_size (type : CommandType) : Z :=
  match type with New => 52 | Cancel => 32 | Replace => 48 end.
Definition response_frame_size : Z := 68.

(** The result is the returned flag, [bytes_written] and the buffer. *)
Definition encode_request (request : Request) (destination : list Z)
  : result (bool * Z * list Z) :=
  let command := rq_command request in
  let length := request_frame_size (c_type command) in
  if (length =? 0) || (vsize destination <? length) || (rq_session_id request =? 0) ||
     (rq_client_sequence request =? 0) || (c_order_id command =? 0)
  then Ok (false, 0, destination)
  else
    d ← encode_header destination (wire_type (c_type command)) (u16 length)
          (rq_session_id request) (rq_client_sequence request);
    d ← match c_type command with
        | New =>
          d ← put_u8 d (header_size + 0) (side_to_u8 (c_side command));
          d ← put_u8 d (header_size + 1) (order_type_to_u8 (c_order_type command));
          d ← put_u16 d (header_size + 2) 0;
          d ← put_u64 d (header_size + 4) (c_order_id command);
          d ← put_u64 d (header_size + 12) (u64 (c_price command));
          put_u64 d (header_size + 20) (c_quantity command)
        | Cancel => put_u64 d header_size (c_order_id command)
        | Replace =>
          d ← put_u64 d header_size (c_order_id command);
          d ← put_u64 d (header_size + 8) (u64 (c_price command));
          put_u64 d (header_size + 16) (c_quantity command)
        end;
    Ok (true, length, d).

Definition decode_failure (status : DecodeStatus) : RequestDecodeResult :=
  MkRequestDecode status 0 Request_zero.

(** The payload of a request; [None] for a side or order type outside the
    enumerators. *)
Definition decode_payload (input : list Z) (type : CommandType) : result (option Command) :=
  match type with
  | New =>
    side ← vget input (header_size + 0);
    order_type ← vget input (header_size + 1);
    if negb (valid_side side) || negb (valid_order_type order_type) then Ok None
    else
      order_id ← get_u64 input (header_size + 4);
      price ← get_u64 input (header_size + 12);
      quantity ← get_u64 input (header_size + 20);
      Ok (s ← side_of_u8 side; t ← order_type_of_u8 order_type;
          Some (MkCommand 0 New s t 0 order_id (i64 price) quantity))
  | Cancel =>
    order_id ← get_u64 input header_size;
    Ok (Some (MkCommand 0 Cancel Buy Limit 0 order_id 0 0))
  | Replace =>
    order_id ← get_u64 input header_size;
    price ← get_u64 input (header_size + 8);
    quantity ← get_u64 input (header_size + 16);
    Ok (Some (MkCommand 0 Replace Buy Limit 0 order_id (i64 price) quantity))
  end.

Definition decode_request (input : list Z) : result RequestDecodeResult :=
  header ← validate_header input;
  match header with
  | inl status => Ok (decode_failure status)
  | inr h =>
    match (match h_type h with
           | NewOrder => Some New | CancelOrder => Some Cancel | ReplaceOrder => Some Replace
           | _ => None
           end) with
    | None => Ok (decode_failure UnknownMessageType)
    | Some command_type =>
      if negb (h_length h =? request_frame_size command_type) || (h_session h =? 0) ||
         (h_sequence h =? 0)
      then Ok (decode_failure InvalidField)
      else
        payload ← decode_payload input command_type;
        match payload with
        | None => Ok (decode_failure InvalidField)
        | Some command =>
          if c_order_id command =? 0 then Ok (decode_failure InvalidField)
          else Ok (MkRequestDecode DecodeOk (h_length h)
                     (MkRequest (h_session h) (h_sequence h) command))
        end
    end
  end.

Definition encode_response (response : Response) (destination : list Z)
  : result (bool * Z * list Z) :=
  let length := response_frame_size in
  let event := rs_event response in
  if (vsize destination <? length) || (rs_session_id response =? 0) ||
     (rs_client_sequence response =? 0)
  then Ok (false, 0, destination)
  else
    d ← encode_header destination ExecutionEvent (u16 length)
          (rs_session_id response) (rs_client_sequence response);
    d ← put_u8 d (header_size + 0) (event_type_to_u8 (e_type event));
    d ← put_u8 d (header_size + 1) (side_to_u8 (e_aggressor_side event));
    d ← put_u8 d (header_size + 2) (reason_to_u8 (e_reason event));
    d ← put_u8 d (header_size + 3) 0;
    d ← put_u64 d (header_size + 4) (e_order_id event);
    d ← put_u64 d (header_size + 12) (e_contra_order_id event);
    d ← put_u64 d (header_size + 20) (u64 (e_price event));
    d ← put_u64 d (header_size + 28) (e_quantity event);
    d ← put_u64 d (header_size + 36) (e_sequence event);
    Ok (true, length, d).

Definition response_failure (status : DecodeStatus) : ResponseDecodeResult :=
  MkResponseDecode status 0 Response_zero.

Definition decode_response (input : list Z) : result ResponseDecodeResult :=
  header ← validate_header input;
  match header with
  | inl status => Ok (response_failure status)
  | inr h =>
    if negb (bool_decide (h_type h = ExecutionEvent))
    then Ok (response_failure UnknownMessageType)
    else if negb (h_length h =? response_frame_size) || (h_session h =? 0) || (h_sequence h =? 0)
    then Ok (response_failure InvalidField)
    else
      event_type ← vget input (header_size + 0);
      side ← vget input (header_size + 1);
      reason ← vget input (header_size + 2);
      if (event_type_to_u8 Rested <? event_type) || negb (valid_side side) ||
         (reason_to_u8 GatewayBackpressure <? reason)
      then Ok (response_failure InvalidField)
      else
        order_id ← get_u64 input (header_size + 4);
        contra_order_id ← get_u64 input (header_size + 12);
        price ← get_u64 input (header_size + 20);
        quantity ← get_u64 input (header_size + 28);
        sequence ← get_u64 input (header_size + 36);
        match event_type_of_u8 event_type, side_of_u8 side, reason_of_u8 reason with
        | Some t, Some s, Some r =>
          Ok (MkResponseDecode DecodeOk (h_length h)
                (MkResponse (h_session h) (h_sequence h)
                   (MkEvent sequence t s r 0 order_id contra_order_id (i64 price) quantity)))
        | _, _, _ => Ok (response_failure InvalidField)
        end
  end.
