(* ===== verification/ProtocolFacts.v ===== *)
(** * ProtocolFacts: round trips, totality and framing of the protocol *)
From Stdlib Require Import ZArith Lia.
From stdpp Require Import base numbers list.
From S2P Require Import Prelude Types Bytes Protocol.
Local Open Scope Z_scope.

(** ** Stores and loads, automatically *)

Lemma put_u16_written d o v : 0 <= o -> o + 2 <= vsize d ->
  exists d', put_u16 d o v = Ok d' /\ written d d' o 2 v.
Proof. intros. by apply (put_written 2). Qed.
Lemma put_u32_written d o v : 0 <= o -> o + 4 <= vsize d ->
  exists d', put_u32 d o v = Ok d' /\ written d d' o 4 v.
Proof. intros. by apply (put_written 4). Qed.
Lemma put_u64_written d o v : 0 <= o -> o + 8 <= vsize d ->
  exists d', put_u64 d o v = Ok d' /\ written d d' o 8 v.
Proof. intros. by apply (put_written 8). Qed.

Lemma get_u16_same d d' o v : written d d' o 2 v -> 0 <= v <= u16_max -> get_u16 d' o = Ok v.
Proof. intros W Hv. apply (get_same 2 d); [done|]. cbn. ints. lia. Qed.
Lemma get_u32_same d d' o v : written d d' o 4 v -> is_u32 v -> get_u32 d' o = Ok v.
Proof. intros W Hv. apply (get_same 4 d); [done|]. cbn. ints. lia. Qed.
Lemma get_u64_same d d' o v : written d d' o 8 v -> is_u64 v -> get_u64 d' o = Ok v.
Proof. intros W Hv. apply (get_same 8 d); [done|]. cbn. ints. lia. Qed.
Lemma get_u16_other n d d' o o' v : written d d' o n v -> o' + 2 <= o \/ o + n <= o' ->
  get_u16 d' o' = get_u16 d o'.
Proof. intros W H. by apply (get_other 2 n d d' o o' v). Qed.
Lemma get_u32_other n d d' o o' v : written d d' o n v -> o' + 4 <= o \/ o + n <= o' ->
  get_u32 d' o' = get_u32 d o'.
Proof. intros W H. by apply (get_other 4 n d d' o o' v). Qed.
Lemma get_u64_other n d d' o o' v : written d d' o n v -> o' + 8 <= o \/ o + n <= o' ->
  get_u64 d' o' = get_u64 d o'.
Proof. intros W H. by apply (get_other 8 n d d' o o' v). Qed.

(** [stores] runs a sequence of stores, keeping a [written] fact for each. *)
Ltac sizes := repeat match goal with W : written _ _ _ _ _ |- _ => rewrite (w_size _ _ _ _ _ W) end.
Ltac store lem :=
  let d := fresh "d" in let E := fresh "E" in let W := fresh "W" in
  edestruct lem as (d & E & W); [..|rewrite E; cbn [mbind result_bind]]; [unfold header_size; sizes; lia..|].
Ltac stores :=
  repeat match goal with
  | |- context [put_u8 ?d ?o ?v] => store (put_u8_written d o v)
  | |- context [put_u16 ?d ?o ?v] => store (put_u16_written d o v)
  | |- context [put_u32 ?d ?o ?v] => store (put_u32_written d o v)
  | |- context [put_u64 ?d ?o ?v] => store (put_u64_written d o v)
  end.

Ltac width := first [done | apply u64_range | unfold magic, version in *; intlia].

(** [loads] reads back through the stores. *)
Ltac load1 :=
  match goal with
  | W : written ?d ?d' ?o ?n ?v |- context [vget ?d' ?j] =>
    first [rewrite (vget_same d d' o v W) by width
          |rewrite (vget_other n d d' o j v W) by (unfold header_size; lia)]
  | W : written ?d ?d' ?o ?n ?v |- context [get_u16 ?d' ?j] =>
    first [rewrite (get_u16_same d d' o v W) by width
          |rewrite (get_u16_other n d d' o j v W) by (unfold header_size; lia)]
  | W : written ?d ?d' ?o ?n ?v |- context [get_u32 ?d' ?j] =>
    first [rewrite (get_u32_same d d' o v W) by width
          |rewrite (get_u32_other n d d' o j v W) by (unfold header_size; lia)]
  | W : written ?d ?d' ?o ?n ?v |- context [get_u64 ?d' ?j] =>
    first [rewrite (get_u64_same d d' o v W) by width
          |rewrite (get_u64_other n d d' o j v W) by (unfold header_size; lia)]
  end.
Ltac loads := repeat (load1; cbn [mbind result_bind]).

(** ** Headers *)

(** The fields a valid header holds. *)
Record header_at (d : list Z) (type : MessageType) (length session sequence : Z) : Prop := {
  ha_magic : get_u32 d 0 = Ok magic;
  ha_version : vget d 4 = Ok version;
  ha_type : vget d 5 = Ok (message_type_to_u8 type);
  ha_length : get_u16 d 6 = Ok length;
  ha_session : get_u32 d 8 = Ok session;
  ha_sequence : get_u64 d 16 = Ok sequence }.

Lemma header_at_written d d' o n v type len session sequence :
  header_at d type len session sequence -> written d d' o n v -> header_size <= o ->
  header_at d' type len session sequence.
Proof.
  unfold header_size. intros [] W Ho.
  split; rewrite ?(get_u32_other _ _ _ _ _ _ W), ?(get_u16_other _ _ _ _ _ _ W),
    ?(get_u64_other _ _ _ _ _ _ W), ?(vget_other _ _ _ _ _ _ W) by lia; done.
Qed.

Lemma message_type_u8 type : (forall v, type <> UnknownMessage v) -> is_u8 (message_type_to_u8 type) /\
  message_type_of_u8 (message_type_to_u8 type) = type.
Proof. intros H. destruct type; cbn; try (split; [intlia|done]). by destruct (H value). Qed.

Lemma encode_header_ok d type len session sequence : header_size <= vsize d ->
  (forall v, type <> UnknownMessage v) -> 0 <= len <= u16_max -> is_u32 session -> is_u64 sequence ->
  exists d', encode_header d type len session sequence = Ok d' /\ vsize d' = vsize d /\
    header_at d' type len session sequence /\ forall j, header_size <= j -> d'.[j] = d.[j].
Proof.
  unfold header_size. intros Hs Ht Hl Hse Hq. destruct (message_type_u8 type Ht) as [Htu _].
  unfold encode_header. stores. eexists. split; [reflexivity|].
  split; [by sizes|]. split.
  - split; loads; done.
  - intros j Hj. repeat match goal with W : written _ ?x _ _ _ |- context [?x.[_]] =>
      rewrite (w_out _ _ _ _ _ W) by lia end. done.
Qed.

Lemma validate_header_at d type len session sequence : header_at d type len session sequence ->
  header_size <= len <= maximum_frame_size -> len <= vsize d ->
  validate_header d = Ok (inr (MkHeader (message_type_of_u8 (message_type_to_u8 type)) len session sequence)).
Proof.
  unfold header_size, maximum_frame_size. intros [Hm Hv Ht Hl Hs Hq] Hb Hsz. unfold validate_header.
  unfold header_size, maximum_frame_size.
  rewrite (proj2 (Z.ltb_ge _ _)), Hm by lia. cbn [mbind result_bind]. rewrite Z.eqb_refl. cbn [negb].
  rewrite Hv. cbn [mbind result_bind]. rewrite Z.eqb_refl. cbn [negb].
  rewrite Hl. cbn [mbind result_bind].
  rewrite (proj2 (Z.ltb_ge len 24)), (proj2 (Z.ltb_ge 80 len)), (proj2 (Z.ltb_ge (vsize d) len)) by lia.
  cbn [orb]. rewrite Ht. cbn [mbind result_bind]. rewrite Hs. cbn [mbind result_bind]. by rewrite Hq.
Qed.

(** ** Requests *)

(** The part of a command that travels. *)
Definition wire_command (c : Command) : Command :=
  match c_type c with
  | New => MkCommand 0 New (c_side c) (c_order_type c) 0 (c_order_id c) (c_price c) (c_quantity c)
  | Cancel => MkCommand 0 Cancel Buy Limit 0 (c_order_id c) 0 0
  | Replace => MkCommand 0 Replace Buy Limit 0 (c_order_id c) (c_price c) (c_quantity c)
  end.

(** Requests of the declared widths that may be sent. *)
Record request_ok (r : Request) : Prop := {
  ro_session : is_u32 (rq_session_id r) /\ rq_session_id r <> 0;
  ro_sequence : is_u64 (rq_client_sequence r) /\ rq_client_sequence r <> 0;
  ro_command : command_ok (rq_command r);
  ro_order : c_order_id (rq_command r) <> 0 }.

Lemma side_codec s : is_u8 (side_to_u8 s) /\ valid_side (side_to_u8 s) = true /\
  side_of_u8 (side_to_u8 s) = Some s.
Proof. destruct s; repeat split; try done; intlia. Qed.

Lemma order_type_codec t : is_u8 (order_type_to_u8 t) /\
  valid_order_type (order_type_to_u8 t) = true /\
  order_type_of_u8 (order_type_to_u8 t) = Some t.
Proof. destruct t; repeat split; try done; intlia. Qed.

Lemma event_codec (t : EventType) (r : RejectReason) :
  is_u8 (event_type_to_u8 t) /\ is_u8 (reason_to_u8 r) /\
  (event_type_to_u8 Rested <? event_type_to_u8 t) = false /\
  (reason_to_u8 GatewayBackpressure <? reason_to_u8 r) = false /\
  event_type_of_u8 (event_type_to_u8 t) = Some t /\ reason_of_u8 (reason_to_u8 r) = Some r.
Proof. split_and!; destruct t, r; try done; intlia. Qed.

Lemma frame_size_bounds type : header_size <= request_frame_size type <= maximum_frame_size /\
  request_frame_size type <> 0 /\ u16 (request_frame_size type) = request_frame_size type.
Proof. by destruct type. Qed.

(** The payload that [encode_request] writes is the one [decode_payload]
    reads. *)
Lemma encode_request_ok r d : request_ok r -> request_frame_size (c_type (rq_command r)) <= vsize d ->
  let n := request_frame_size (c_type (rq_command r)) in
  exists d', encode_request r d = Ok (true, n, d') /\ vsize d' = vsize d /\
    header_at d' (wire_type (c_type (rq_command r))) n (rq_session_id r) (rq_client_sequence r) /\
    decode_payload d' (c_type (rq_command r)) = Ok (Some (wire_command (rq_command r))) /\
    forall j, n <= j -> d'.[j] = d.[j].
Proof.
  intros [[Hs Hs0] [Hq Hq0] [_ _ Hid Hp Hqty] Hid0] Hsz n. unfold encode_request.
  destruct (frame_size_bounds (c_type (rq_command r))) as (Hb & Hnz & Hu16). fold n in Hb, Hnz, Hu16, Hsz |- *.
  rewrite (proj2 (Z.eqb_neq n 0)), (proj2 (Z.ltb_ge _ _)), (proj2 (Z.eqb_neq (rq_session_id r) 0)),
    (proj2 (Z.eqb_neq (rq_client_sequence r) 0)), (proj2 (Z.eqb_neq (c_order_id _) 0)) by done.
  cbn [orb]. rewrite Hu16. unfold header_size, maximum_frame_size in Hb.
  destruct (encode_header_ok d (wire_type (c_type (rq_command r))) n (rq_session_id r)
    (rq_client_sequence r)) as (d0 & -> & Hsz0 & Hh & Hout); auto.
  { unfold header_size. lia. }
  { intros v. by destruct (c_type (rq_command r)). }
  { ints. lia. }
  cbn [mbind result_bind]. unfold n, wire_command in *. clear n.
  destruct (side_codec (c_side (rq_command r))) as (Hc1 & Hc2 & Hc3).
  destruct (order_type_codec (c_order_type (rq_command r))) as (Ht1 & Ht2 & Ht3).
  pose proof (i64_of_u64 _ Hp) as Hprice.
  destruct (c_type (rq_command r)); cbn [request_frame_size] in *;
    stores; eexists; (split; [reflexivity|]); (split; [sizes; done|]);
    (split; [repeat (eapply header_at_written; [|eassumption|unfold header_size; lia]); done|]);
    (split; [unfold decode_payload; loads; rewrite ?Hc2, ?Ht2, ?Hc3, ?Ht3, ?Hprice; cbn;
             loads; rewrite ?Hprice; done|]);
    intros j Hj; unfold header_size in *;
    repeat match goal with W : written _ ?x _ _ _ |- context [?x.[_]] =>
      rewrite (w_out _ _ _ _ _ W) by lia end; apply Hout; unfold header_size; lia.
Qed.

Lemma decode_request_ok d type len session sequence command : header_at d (wire_type type) len session sequence ->
  len = request_frame_size type -> len <= vsize d -> session <> 0 -> sequence <> 0 ->
  decode_payload d type = Ok (Some command) -> c_order_id command <> 0 ->
  decode_request d = Ok (MkRequestDecode DecodeOk len (MkRequest session sequence command)).
Proof.
  intros Hh -> Hsz Hs Hq Hp Hid. unfold decode_request.
  rewrite (validate_header_at _ _ _ _ _ Hh) by (done || apply frame_size_bounds).
  cbn [mbind result_bind h_type h_length h_session h_sequence].
  replace (message_type_of_u8 (message_type_to_u8 (wire_type type))) with (wire_type type)
    by by destruct type.
  replace (match wire_type type with NewOrder => Some New | CancelOrder => Some Cancel
    | ReplaceOrder => Some Replace | _ => None end) with (Some type) by by destruct type.
  rewrite Z.eqb_refl, (proj2 (Z.eqb_neq _ _) Hs), (proj2 (Z.eqb_neq _ _) Hq). cbn [negb orb].
  rewrite Hp. cbn [mbind result_bind]. by rewrite (proj2 (Z.eqb_neq _ _) Hid).
Qed.

(** ** Responses *)

Record response_ok (r : Response) : Prop := {
  so_session : is_u32 (rs_session_id r) /\ rs_session_id r <> 0;
  so_sequence : is_u64 (rs_client_sequence r) /\ rs_client_sequence r <> 0;
  so_event : event_ok (rs_event r) }.

(** The part of an event that travels: all of it but the reserved byte. *)
Definition wire_event (e : Event) : Event :=
  MkEvent (e_sequence e) (e_type e) (e_aggressor_side e) (e_reason e) 0 (e_order_id e)
    (e_contra_order_id e) (e_price e) (e_quantity e).

Lemma response_round_trip_ok r d : response_ok r -> response_frame_size <= vsize d ->
  exists d', encode_response r d = Ok (true, response_frame_size, d') /\ vsize d' = vsize d /\
    (forall j, response_frame_size <= j -> d'.[j] = d.[j]) /\
    decode_response d' = Ok (MkResponseDecode DecodeOk response_frame_size
      (MkResponse (rs_session_id r) (rs_client_sequence r) (wire_event (rs_event r)))).
Proof.
  intros [[Hs Hs0] [Hq Hq0] [Hseq Hid Hcid Hp Hqty]] Hsz. unfold encode_response.
  unfold response_frame_size in *.
  rewrite (proj2 (Z.ltb_ge _ _)), (proj2 (Z.eqb_neq (rs_session_id r) 0)),
    (proj2 (Z.eqb_neq (rs_client_sequence r) 0)) by done. cbn [orb].
  destruct (encode_header_ok d ExecutionEvent (u16 68) (rs_session_id r) (rs_client_sequence r))
    as (d0 & -> & Hsz0 & Hh & Hout); auto.
  { unfold header_size. lia. }
  { cbv. intuition discriminate. }
  cbn [mbind result_bind].
  destruct (side_codec (e_aggressor_side (rs_event r))) as (Hc1 & Hc2 & Hc3).
  destruct (event_codec (e_type (rs_event r)) (e_reason (rs_event r)))
    as (He1 & Hr1 & He2 & Hr2 & He3 & Hr3).
  pose proof (i64_of_u64 _ Hp) as Hprice.
  stores. eexists. split; [reflexivity|]. split; [by sizes|]. split.
  { intros j Hj. unfold header_size in *.
    repeat match goal with W : written _ ?x _ _ _ |- context [?x.[_]] =>
      rewrite (w_out _ _ _ _ _ W) by lia end. apply Hout. unfold header_size. lia. }
  unfold decode_response. erewrite validate_header_at; cycle 1.
  { repeat (eapply header_at_written; [|eassumption|unfold header_size; lia]). exact Hh. }
  { by vm_compute. }
  { by sizes; rewrite Hsz0. }
  cbn [mbind result_bind h_type h_length h_session h_sequence message_type_to_u8 message_type_of_u8].
  rewrite bool_decide_eq_true_2 by done. cbn [negb].
  rewrite (proj2 (Z.eqb_neq _ _) Hs0), (proj2 (Z.eqb_neq _ _) Hq0). cbn [negb orb].
  change (u16 68 =? response_frame_size) with true. cbn [negb orb].
  loads. rewrite He2, Hc2, Hr2. cbn [negb orb]. loads. by rewrite He3, Hc3, Hr3, Hprice.
Qed.

(** ** Framing: fragments and coalesced frames *)

Lemma vlook_app_l {A} (a b : list A) j : j < vsize a -> (a ++ b).[j] = a.[j].
Proof.
  unfold vsize. intros Hj. unfold vlook, in_range. rewrite length_app.
  destruct (Z.leb_spec 0 j); [|done]. cbn [andb].
  rewrite (proj2 (Z.ltb_lt j (Z.of_nat (length a + length b)))), (proj2 (Z.ltb_lt _ _) Hj) by lia.
  apply lookup_app_l. lia.
Qed.

Lemma vget_app_l a b j : j < vsize a -> vget (a ++ b) j = vget (a : list Z) j.
Proof. intros. unfold vget. by rewrite vlook_app_l. Qed.

Lemma get_app_l m a b o : o + Z.of_nat m <= vsize a -> get m 0 (a ++ b) o 0 = get m 0 a o 0.
Proof. intros. apply get_ext. intros i Hi. apply vlook_app_l. lia. Qed.

Lemma vsize_app {A} (a b : list A) : vsize (a ++ b) = vsize a + vsize b.
Proof. unfold vsize. rewrite length_app. lia. Qed.

Lemma vsize_nonneg {A} (a : list A) : 0 <= vsize a.
Proof. unfold vsize. lia. Qed.

(** What an accepted header guarantees. *)
Lemma validate_header_inv d h : validate_header d = Ok (inr h) ->
  header_size <= h_length h <= maximum_frame_size /\ h_length h <= vsize d /\
  get_u32 d 0 = Ok magic /\ vget d 4 = Ok version /\ get_u16 d 6 = Ok (h_length h).
Proof.
  unfold validate_header. destruct (Z.ltb_spec (vsize d) header_size); [done|].
  intros (m & Hm & H1)%bind_Ok_inv. destruct (Z.eqb_spec m magic) as [->|]; [|done].
  apply bind_Ok_inv in H1 as (v & Hv & H1). destruct (Z.eqb_spec v version) as [->|]; [|done].
  cbn [negb] in H1. apply bind_Ok_inv in H1 as (len & Hl & H1).
  destruct (Z.ltb_spec len header_size), (Z.ltb_spec maximum_frame_size len); try done.
  cbn [orb] in H1. destruct (Z.ltb_spec (vsize d) len); [done|].
  apply bind_Ok_inv in H1 as (t & _ & H1). apply bind_Ok_inv in H1 as (s & _ & H1).
  apply bind_Ok_inv in H1 as (q & _ & H1). injection H1 as <-. cbn. split_and!; auto; lia.
Qed.

Lemma validate_header_app d more r : validate_header d = Ok r -> r <> inl NeedMoreData ->
  validate_header (d ++ more) = Ok r.
Proof.
  unfold validate_header. pose proof (vsize_nonneg more). rewrite vsize_app.
  destruct (Z.ltb_spec (vsize d) header_size); [by intros [= <-]|].
  unfold header_size in *. rewrite (proj2 (Z.ltb_ge (vsize d + vsize more) 24)) by lia.
  unfold get_u32, get_u16, get_u64. rewrite !get_app_l, !vget_app_l by lia.
  intros H1 Hr. revert H1.
  destruct (get 4 0 d 0 0) as [m|]; [|done]. cbn [mbind result_bind].
  destruct (negb (m =? magic)); [done|].
  destruct (vget d 4) as [v|]; [|done]. cbn [mbind result_bind].
  destruct (negb (v =? version)); [done|].
  destruct (get 2 0 d 6 0) as [len|]; [|done]. cbn [mbind result_bind].
  destruct ((len <? 24) || (maximum_frame_size <? len)); [done|].
  destruct (Z.ltb_spec (vsize d) len); [by intros [= <-]|].
  by rewrite (proj2 (Z.ltb_ge (vsize d + vsize more) len)) by lia.
Qed.

Lemma decode_payload_app d more type : request_frame_size type <= vsize d ->
  decode_payload (d ++ more) type = decode_payload d type.
Proof.
  intros Hs. unfold decode_payload, get_u64, header_size.
  destruct type; cbn [request_frame_size] in Hs; rewrite !get_app_l, ?vget_app_l by lia; done.
Qed.

(** Bytes that follow a decided frame do not change the decision. *)
Lemma decode_request_app d more r : decode_request d = Ok r -> qd_status r <> NeedMoreData ->
  decode_request (d ++ more) = Ok r.
Proof.
  unfold decode_request. intros (h & Hh & H1)%bind_Ok_inv Hr.
  rewrite (validate_header_app d more h Hh); cycle 1.
  { intros ->. injection H1 as <-. done. }
  cbn [mbind result_bind]. destruct h as [status|h]; [done|].
  destruct (validate_header_inv d h Hh) as (_ & Hsz & _).
  destruct (match h_type h with NewOrder => Some New | CancelOrder => Some Cancel
    | ReplaceOrder => Some Replace | _ => None end) as [type|]; [|done].
  destruct (Z.eqb_spec (h_length h) (request_frame_size type)) as [E|]; [|done].
  rewrite decode_payload_app by lia. done.
Qed.

Lemma vlook_take {A} (a : list A) (k : nat) j : j < Z.of_nat k -> (take k a).[j] = a.[j].
Proof.
  intros Hj. unfold vlook, in_range. rewrite length_take.
  destruct (Z.leb_spec 0 j); [|done]. cbn [andb].
  destruct (Z.ltb_spec j (Z.of_nat (length a))), (Z.ltb_spec j (Z.of_nat (k `min` length a)));
    try lia; [|done]. apply lookup_take_lt. lia.
Qed.

Lemma get_take m (k : nat) a o : o + Z.of_nat m <= Z.of_nat k -> get m 0 (take k a) o 0 = get m 0 a o 0.
Proof. intros. apply get_ext. intros i Hi. apply vlook_take. lia. Qed.

(** A strict prefix of a frame asks for more data. *)
Lemma decode_request_prefix d r (k : nat) : decode_request d = Ok r -> qd_status r = DecodeOk ->
  Z.of_nat k < qd_bytes_consumed r -> decode_request (take k d) = Ok (decode_failure NeedMoreData).
Proof.
  unfold decode_request. intros (h & Hh & H1)%bind_Ok_inv Hr Hk.
  destruct h as [status|h]; [injection H1 as <-; by cbn in Hr, Hk; lia|].
  destruct (validate_header_inv d h Hh) as (Hb & Hsz & Hm & Hv & Hl).
  assert (Hc : qd_bytes_consumed r = h_length h).
  { destruct (match h_type h with NewOrder => Some New | CancelOrder => Some Cancel
      | ReplaceOrder => Some Replace | _ => None end) as [type|]; [|by injection H1 as <-].
    destruct (_ || _); [by injection H1 as <-|]. apply bind_Ok_inv in H1 as (p & _ & H1).
    destruct p as [c|]; [|by injection H1 as <-].
    destruct (c_order_id c =? 0); by injection H1 as <-. }
  assert (Hlen : vsize (take k d) = Z.of_nat k).
  { unfold vsize in *. rewrite length_take. lia. }
  assert (validate_header (take k d) = Ok (inl NeedMoreData)) as ->; [|done].
  unfold validate_header. rewrite Hlen. destruct (Z.ltb_spec (Z.of_nat k) header_size); [done|].
  unfold header_size, maximum_frame_size, get_u32, get_u16, vget in *.
  rewrite !get_take, !vlook_take by lia.
  rewrite Hm. cbn [mbind result_bind]. rewrite Z.eqb_refl. cbn [negb].
  destruct (d.[4]); [|done]. injection Hv as ->. cbn [mbind result_bind]. rewrite Z.eqb_refl. cbn [negb].
  rewrite Hl. cbn [mbind result_bind].
  rewrite (proj2 (Z.ltb_ge (h_length h) 24)), (proj2 (Z.ltb_ge 80 (h_length h))) by lia. cbn [orb].
  by rewrite (proj2 (Z.ltb_lt (Z.of_nat k) (h_length h))) by lia.
Qed.

(** ** Totality on arbitrary bytes *)

Section Total.
Context {d : list Z} (Hd : bytes_ok d).

Lemma vget_byte j : 0 <= j < vsize d -> exists v, vget d j = Ok v /\ is_u8 v.
Proof.
  intros Hj. destruct (vlook_lt_is_Some d j Hj) as [v Hv]. exists v.
  split; [by apply vget_ok|]. apply vlook_elem_of in Hv. unfold bytes_ok in Hd.
  rewrite Forall_forall in Hd. by apply Hd.
Qed.

Lemma get_u16_total o : 0 <= o -> o + 2 <= vsize d -> exists v, get_u16 d o = Ok v /\ 0 <= v <= u16_max.
Proof.
  intros Ho Hs. destruct (get_total 2 0 d o 0 Hd) as (v & Hv & Hr); [lia..|].
  exists v. split; [done|]. cbn in Hr. intlia.
Qed.
Lemma get_u32_total o : 0 <= o -> o + 4 <= vsize d -> exists v, get_u32 d o = Ok v /\ is_u32 v.
Proof.
  intros Ho Hs. destruct (get_total 4 0 d o 0 Hd) as (v & Hv & Hr); [lia..|].
  exists v. split; [done|]. cbn in Hr. intlia.
Qed.
Lemma get_u64_total o : 0 <= o -> o + 8 <= vsize d -> exists v, get_u64 d o = Ok v /\ is_u64 v.
Proof.
  intros Ho Hs. destruct (get_total 8 0 d o 0 Hd) as (v & Hv & Hr); [lia..|].
  exists v. split; [done|]. cbn in Hr. intlia.
Qed.

(** [read lem as v] runs one load. *)
Tactic Notation "read" constr(lem) "as" ident(v) := let E := fresh "E" in
  edestruct lem as (v & E & ?); [..|rewrite E; cbn [mbind result_bind]]; [unfold header_size in *; lia..|].

Lemma validate_header_total : exists r, validate_header d = Ok r /\
  match r with
  | inl status => status <> DecodeOk
  | inr h => header_size <= h_length h <= vsize d /\ is_u32 (h_session h) /\ is_u64 (h_sequence h)
  end.
Proof.
  unfold validate_header. destruct (Z.ltb_spec (vsize d) header_size) as [|Hs]; [by eexists|].
  unfold header_size, maximum_frame_size in *.
  read (get_u32_total 0) as m. case_match; [by eexists|].
  read (vget_byte 4) as v. case_match; [by eexists|].
  read (get_u16_total 6) as len. destruct (Z.ltb_spec len 24), (Z.ltb_spec 80 len); try by eexists.
  cbn [orb]. destruct (Z.ltb_spec (vsize d) len); [by eexists|].
  read (vget_byte 5) as t. read (get_u32_total 8) as s. read (get_u64_total 16) as q.
  eexists. split; [done|]. cbn. split_and!; auto; lia.
Qed.

Lemma decode_payload_total type : request_frame_size type <= vsize d ->
  exists p, decode_payload d type = Ok p /\
    match p with Some c => command_ok c /\ c_type c = type | None => True end.
Proof.
  intros Hs. unfold decode_payload. destruct type; cbn [request_frame_size] in Hs.
  - read (vget_byte (header_size + 0)) as s. read (vget_byte (header_size + 1)) as t.
    destruct (negb (valid_side s) || negb (valid_order_type t)); [by eexists|].
    read (get_u64_total (header_size + 4)) as id. read (get_u64_total (header_size + 12)) as p.
    read (get_u64_total (header_size + 20)) as q. eexists. split; [done|].
    destruct (side_of_u8 s), (order_type_of_u8 t); try done. cbn. split; [|done].
    constructor; cbn; auto; try apply i64_range; intlia.
  - read (get_u64_total header_size) as id. eexists. split; [done|].
    split; [|done]. constructor; cbn; auto; intlia.
  - read (get_u64_total header_size) as id. read (get_u64_total (header_size + 8)) as p.
    read (get_u64_total (header_size + 16)) as q. eexists. split; [done|].
    split; [|done]. constructor; cbn; auto; try apply i64_range; intlia.
Qed.

Lemma decode_request_total : exists r, decode_request d = Ok r /\
  (qd_status r = DecodeOk -> request_ok (qd_request r) /\
     qd_bytes_consumed r = request_frame_size (c_type (rq_command (qd_request r))) /\
     0 < qd_bytes_consumed r <= vsize d) /\
  (qd_status r <> DecodeOk -> r = decode_failure (qd_status r)).
Proof.
  unfold decode_request. destruct validate_header_total as (h & -> & Hh). cbn [mbind result_bind].
  destruct h as [status|h]; [by eexists|]. destruct Hh as (Hl & Hs & Hq).
  destruct (match h_type h with NewOrder => Some New | CancelOrder => Some Cancel
    | ReplaceOrder => Some Replace | _ => None end) as [type|]; [|by eexists].
  destruct (Z.eqb_spec (h_length h) (request_frame_size type)) as [E|]; [|by eexists].
  destruct (Z.eqb_spec (h_session h) 0); [by eexists|].
  destruct (Z.eqb_spec (h_sequence h) 0); [by eexists|]. cbn [negb orb].
  destruct (decode_payload_total type) as (p & -> & Hp); [lia|]. cbn [mbind result_bind].
  destruct p as [c|]; [|by eexists]. destruct Hp as [Hc Ht].
  destruct (Z.eqb_spec (c_order_id c) 0); [by eexists|].
  eexists. split; [done|]. cbn. split; [|done]. intros _. rewrite Ht.
  destruct (frame_size_bounds type) as [Hb _]. unfold header_size in *. split_and!; auto; try lia.
  by constructor.
Qed.

Lemma decode_response_total : exists r, decode_response d = Ok r /\
  (sd_status r = DecodeOk -> response_ok (sd_response r) /\ sd_bytes_consumed r = response_frame_size /\
     response_frame_size <= vsize d) /\
  (sd_status r <> DecodeOk -> r = response_failure (sd_status r)).
Proof.
  unfold decode_response. destruct validate_header_total as (h & -> & Hh). cbn [mbind result_bind].
  destruct h as [status|h]; [by eexists|]. destruct Hh as (Hl & Hs & Hq).
  destruct (negb (bool_decide _)); [by eexists|].
  destruct (Z.eqb_spec (h_length h) response_frame_size) as [E|]; [|by eexists].
  destruct (Z.eqb_spec (h_session h) 0); [by eexists|].
  destruct (Z.eqb_spec (h_sequence h) 0); [by eexists|]. cbn [negb orb].
  unfold response_frame_size in *.
  read (vget_byte (header_size + 0)) as et. read (vget_byte (header_size + 1)) as s.
  read (vget_byte (header_size + 2)) as rs.
  destruct (_ || _ || _); [by eexists|].
  read (get_u64_total (header_size + 4)) as id. read (get_u64_total (header_size + 12)) as cid.
  read (get_u64_total (header_size + 20)) as p. read (get_u64_total (header_size + 28)) as q.
  read (get_u64_total (header_size + 36)) as sq.
  destruct (event_type_of_u8 et), (side_of_u8 s), (reason_of_u8 rs); try by eexists.
  eexists. split; [done|]. cbn. split; [|done]. intros _. split_and!; auto; [|lia].
  constructor; cbn; auto. constructor; cbn; auto; try apply i64_range.
Qed.
End Total.
