(* ===== verification/Gateway.v ===== *)
(** * Gateway: session validation and risk limits
      (include/dme/gateway.hpp, src/gateway.cpp)

    [SessionValidator] is the admission test of one connection.  The runner of
    the same source file is in Runner. *)
From Stdlib Require Import ZArith Lia.
From stdpp Require Import base numbers list.
From S2P Require Import Prelude Types Protocol.
Local Open Scope Z_scope.

Record RiskLimits : Set := MkLimits {
  rl_maximum_quantity : Z;
  rl_maximum_price : Z;
  rl_maximum_notional : Z }.

Definition RiskLimits_default : RiskLimits := MkLimits 1000000 1000000000 100000000000.

Record SessionValidator : Set := MkValidator {
  sv_session_id : Z;
  sv_next_sequence : Z;
  sv_limits : RiskLimits }.

Definition make_validator (session_id : Z) (limits : RiskLimits) : SessionValidator :=
  MkValidator session_id 1 limits.

Definition violates_risk (limits : RiskLimits) (command : Command) : bool :=
  if bool_decide (c_type command = Cancel) then false
  else if (c_quantity command =? 0) || (rl_maximum_quantity limits <? c_quantity command) then true
  else if bool_decide (c_order_type command = Market) && bool_decide (c_type command = New) then false
  else if (c_price command <=? 0) || (rl_maximum_price limits <? c_price command) then true
  else
    let price := u64 (c_price command) in
    if negb (price =? 0) && (rl_maximum_notional limits / price <? c_quantity command) then true
    else rl_maximum_notional limits <? u64 (price * c_quantity command).

Definition validate_and_advance (v : SessionValidator) (request : Request)
  : SessionValidator * RejectReason :=
  if negb (rq_session_id request =? sv_session_id v) ||
     negb (rq_client_sequence request =? sv_next_sequence v)
  then (v, InvalidSessionSequence)
  else
    let v := MkValidator (sv_session_id v) (u64 (sv_next_sequence v + 1)) (sv_limits v) in
    if violates_risk (sv_limits v) (rq_command request) then (v, RiskLimit) else (v, NoReason).

Definition gateway_rejection (request : Request) (reason : RejectReason) : Event :=
  let c := rq_command request in
  MkEvent 0 Rejected (c_side c) reason 0 (c_order_id c) 0 (c_price c) (c_quantity c).

(** A connection's requests, one after the other. *)
Fixpoint validate_all (v : SessionValidator) (requests : list Request)
  : SessionValidator * list RejectReason :=
  match requests with
  | [] => (v, [])
  | r :: requests =>
    let '(v, reason) := validate_and_advance v r in
    let '(v, reasons) := validate_all v requests in
    (v, reason :: reasons)
  end.

(** ** The limits, exactly *)

(** The rule in exact arithmetic. *)
Definition exceeds_limits (limits : RiskLimits) (c : Command) : Prop :=
  c_type c <> Cancel /\
  (c_quantity c = 0 \/ rl_maximum_quantity limits < c_quantity c \/
   (~ (c_order_type c = Market /\ c_type c = New) /\
    (c_price c <= 0 \/ rl_maximum_price limits < c_price c \/
     rl_maximum_notional limits < c_price c * c_quantity c))).

Lemma violates_risk_exact limits c : command_ok c -> is_u64 (rl_maximum_notional limits) ->
  violates_risk limits c = true <-> exceeds_limits limits c.
Proof.
  intros [_ _ _ Hp Hq] Hn. unfold violates_risk, exceeds_limits.
  destruct (decide (c_type c = Cancel)) as [Ht|Ht].
  { rewrite bool_decide_eq_true_2 by done. split; [done|]. tauto. }
  rewrite (bool_decide_eq_false_2 (c_type c = Cancel)) by done.
  destruct (Z.eqb_spec (c_quantity c) 0) as [|Hz]; [cbn; tauto|].
  destruct (Z.ltb_spec (rl_maximum_quantity limits) (c_quantity c)); [cbn; tauto|]. cbn [orb].
  destruct (decide (c_order_type c = Market /\ c_type c = New)) as [[Hm Hnew]|Hm].
  { rewrite !bool_decide_eq_true_2 by done. cbn. split; [done|]. intros (_ & [?|[?|[? _]]]); tauto || lia. }
  replace (bool_decide (c_order_type c = Market) && bool_decide (c_type c = New)) with false.
  2:{ symmetry. repeat case_bool_decide; tauto. }
  destruct (Z.leb_spec (c_price c) 0); [cbn; tauto|].
  destruct (Z.ltb_spec (rl_maximum_price limits) (c_price c)); [cbn; tauto|]. cbn [orb].
  rewrite (u64_small (c_price c)) by intlia.
  rewrite (proj2 (Z.eqb_neq (c_price c) 0)) by lia. cbn [negb andb].
  pose proof (Z.div_mod (rl_maximum_notional limits) (c_price c) ltac:(lia)) as Hdm.
  pose proof (Z.mod_pos_bound (rl_maximum_notional limits) (c_price c) ltac:(lia)) as Hmod.
  destruct (Z.ltb_spec (rl_maximum_notional limits / c_price c) (c_quantity c)) as [Hlt|Hge].
  - split; [|done]. intros _. split; [done|]. right. right. split; [done|]. right. right. nia.
  - assert (c_price c * c_quantity c <= rl_maximum_notional limits) by nia.
    rewrite u64_small by (ints; nia).
    destruct (Z.ltb_spec (rl_maximum_notional limits) (c_price c * c_quantity c)); [lia|].
    split; [done|]. intros (_ & [?|[?|[_ [?|[?|?]]]]]); lia.
Qed.

(** ** The session discipline *)

(** The requests that consumed a sequence number. *)
Fixpoint consumed_sequences (requests : list Request) (reasons : list RejectReason) : list Z :=
  match requests, reasons with
  | r :: requests, reason :: reasons =>
    if decide (reason = InvalidSessionSequence) then consumed_sequences requests reasons
    else rq_client_sequence r :: consumed_sequences requests reasons
  | _, _ => []
  end.

Lemma validate_all_ok requests v : is_u64 (sv_next_sequence v) ->
  sv_next_sequence v + Z.of_nat (length requests) <= u64_max ->
  let '(v', reasons) := validate_all v requests in
  length reasons = length requests /\
  sv_session_id v' = sv_session_id v /\ sv_limits v' = sv_limits v /\
  consumed_sequences requests reasons =
    (fun k => sv_next_sequence v + Z.of_nat k) <$>
      seq 0 (Z.to_nat (sv_next_sequence v' - sv_next_sequence v)) /\
  sv_next_sequence v <= sv_next_sequence v' <= sv_next_sequence v + Z.of_nat (length requests) /\
  Forall2 (fun r reason =>
    (reason = InvalidSessionSequence \/ reason = RiskLimit \/ reason = NoReason) /\
    (reason <> InvalidSessionSequence -> rq_session_id r = sv_session_id v) /\
    (reason = NoReason -> violates_risk (sv_limits v) (rq_command r) = false)) requests reasons.
Proof.
  revert v. induction requests as [|r requests IH]; intros v Hu Hl; cbn [validate_all length].
  { split_and!; auto; try lia. by rewrite Z.sub_diag. }
  cbn [length] in Hl. unfold validate_and_advance.
  destruct (Z.eqb_spec (rq_session_id r) (sv_session_id v)) as [Hs|Hs]; cbn [negb orb]; cycle 1.
  { specialize (IH v Hu ltac:(lia)). destruct (validate_all v requests) as [v' reasons].
    destruct IH as (H1 & H2 & H3 & H4 & H5 & H6). cbn [length consumed_sequences].
    split_and!; auto; try lia. constructor; [|done]. split_and!; auto; [|done]. intros H. done. }
  destruct (Z.eqb_spec (rq_client_sequence r) (sv_next_sequence v)) as [Hq|Hq]; cbn [negb]; cycle 1.
  { specialize (IH v Hu ltac:(lia)). destruct (validate_all v requests) as [v' reasons].
    destruct IH as (H1 & H2 & H3 & H4 & H5 & H6). cbn [length consumed_sequences].
    split_and!; auto; try lia. constructor; [|done]. by split_and!; auto. }
  set (v1 := MkValidator _ _ _). assert (Hn : sv_next_sequence v1 = sv_next_sequence v + 1).
  { unfold v1. cbn. apply u64_small. intlia. }
  assert (Hv1 : sv_session_id v1 = sv_session_id v /\ sv_limits v1 = sv_limits v) by done.
  clearbody v1. destruct Hv1 as [Hv1 Hv2].
  specialize (IH v1 ltac:(rewrite Hn; intlia) ltac:(lia)).
  assert (Hcons : forall v' reasons, consumed_sequences requests reasons =
      (fun k => sv_next_sequence v1 + Z.of_nat k) <$> seq 0 (Z.to_nat (sv_next_sequence v' - sv_next_sequence v1)) ->
    sv_next_sequence v1 <= sv_next_sequence v' ->
    rq_client_sequence r :: consumed_sequences requests reasons =
      (fun k => sv_next_sequence v + Z.of_nat k) <$> seq 0 (Z.to_nat (sv_next_sequence v' - sv_next_sequence v))).
  { intros v' reasons -> Hle.
    replace (Z.to_nat (sv_next_sequence v' - sv_next_sequence v))
      with (S (Z.to_nat (sv_next_sequence v' - sv_next_sequence v1))) by lia.
    cbn [seq fmap list_fmap]. f_equal; [lia|]. rewrite <- fmap_S_seq, <- list_fmap_compose.
    apply list_fmap_ext. intros i x _. cbn. lia. }
  rewrite Hv2. destruct (violates_risk (sv_limits v) (rq_command r)) eqn:Ev;
    destruct (validate_all v1 requests) as [v' reasons];
    destruct IH as (H1 & H2 & H3 & H4 & H5 & H6); rewrite Hv1, Hv2 in *;
    cbn [length consumed_sequences]; split_and!; auto; try lia;
    try (rewrite decide_False by done; by apply Hcons; [|lia]);
    constructor; auto; by split_and!; auto.
Qed.
