(* ===== verification/Spsc.v ===== *)
(** * Spsc: the single-producer single-consumer ring
      (include/dme/spsc_queue.hpp)

    The ring is a power-of-two buffer with two indices.  [try_push] and
    [try_pop] are the methods; [step] splits them at their atomic operations,
    so that a producer and a consumer interleave arbitrarily.  The acquire and
    release orders of the source make every store to the buffer visible
    before the index that publishes it; the interleaving model is the
    sequentially consistent reading of those accesses, [SpscWeak] has the
    weaker one. *)
From Stdlib Require Import ZArith Lia.
From stdpp Require Import base numbers list.
From S2P Require Import Prelude.
Local Open Scope Z_scope.

Record SpscQueue (T : Type) : Type := MkQueue {
  buffer : list T;
  mask : Z;
  head : Z;
  tail : Z }.
Arguments MkQueue {T}. Arguments buffer {T}. Arguments mask {T}.
Arguments head {T}. Arguments tail {T}.

Definition largest_power_of_two : Z := 9223372036854775808.

Definition storage_capacity (minimum : Z) : result Z :=
  if (minimum =? 0) || (largest_power_of_two <=? minimum) then Fail InvalidArgument
  else Ok (bit_ceil (u64 (minimum + 1))).

Section Queue.
Context {T : Type}.
Implicit Types (q : SpscQueue T) (v : T).

Definition make_queue (zero : T) (minimum_capacity : Z) : result (SpscQueue T) :=
  capacity ← storage_capacity minimum_capacity;
  Ok (MkQueue (replicate (Z.to_nat capacity) zero) (capacity - 1) 0 0).

Definition next_index q (i : Z) : Z := Z.land (u64 (i + 1)) (mask q).

Definition try_push q v : result (SpscQueue T * bool) :=
  let next := next_index q (tail q) in
  if next =? head q then Ok (q, false)
  else
    bs ← vset (buffer q) (tail q) v;
    Ok (MkQueue bs (mask q) (head q) next, true).

Definition try_pop q : result (SpscQueue T * option T) :=
  if head q =? tail q then Ok (q, None)
  else
    v ← vget (buffer q) (head q);
    Ok (MkQueue (buffer q) (mask q) (next_index q (head q)) (tail q), Some v).

(** ** The methods at the grain of their atomic operations *)

Inductive Producer : Type :=
  | PIdle                        (* outside [try_push] *)
  | PLoaded (v : T) (t : Z)      (* tail loaded *)
  | PReady (v : T) (t : Z)       (* head compared, space found *)
  | PWrote (v : T) (t : Z).      (* buffer written, tail not yet stored *)

Inductive Consumer : Type :=
  | CIdle                        (* outside [try_pop] *)
  | CLoaded (h : Z)              (* head loaded *)
  | CReady (h : Z)               (* tail compared, value found *)
  | CRead (h : Z) (v : T).       (* value read, head not yet stored *)

Record System : Type := MkSystem {
  queue_of : SpscQueue T;
  producer : Producer;
  consumer : Consumer;
  pushed : list T;               (* values whose push has published *)
  popped : list T }.             (* values whose pop has released its slot *)

Inductive step : System -> System -> Prop :=
  | push_start q c us os v :
      step (MkSystem q PIdle c us os) (MkSystem q (PLoaded v (tail q)) c us os)
  | push_full q c us os v t : next_index q t = head q ->
      step (MkSystem q (PLoaded v t) c us os) (MkSystem q PIdle c us os)
  | push_space q c us os v t : next_index q t <> head q ->
      step (MkSystem q (PLoaded v t) c us os) (MkSystem q (PReady v t) c us os)
  | push_write q c us os v t bs : vset (buffer q) t v = Ok bs ->
      step (MkSystem q (PReady v t) c us os)
           (MkSystem (MkQueue bs (mask q) (head q) (tail q)) (PWrote v t) c us os)
  | push_publish q c us os v t :
      step (MkSystem q (PWrote v t) c us os)
           (MkSystem (MkQueue (buffer q) (mask q) (head q) (next_index q t)) PIdle c (us ++ [v]) os)
  | pop_start q p us os :
      step (MkSystem q p CIdle us os) (MkSystem q p (CLoaded (head q)) us os)
  | pop_empty q p us os h : h = tail q ->
      step (MkSystem q p (CLoaded h) us os) (MkSystem q p CIdle us os)
  | pop_ready q p us os h : h <> tail q ->
      step (MkSystem q p (CLoaded h) us os) (MkSystem q p (CReady h) us os)
  | pop_read q p us os h v : vget (buffer q) h = Ok v ->
      step (MkSystem q p (CReady h) us os) (MkSystem q p (CRead h v) us os)
  | pop_release q p us os h v :
      step (MkSystem q p (CRead h v) us os)
           (MkSystem (MkQueue (buffer q) (mask q) (next_index q h) (tail q)) p CIdle us (os ++ [v])).

Inductive reaches (q0 : SpscQueue T) : System -> Prop :=
  | reaches_start : reaches q0 (MkSystem q0 PIdle CIdle [] [])
  | reaches_step s s' : reaches q0 s -> step s s' -> reaches q0 s'.

(** ** What the ring holds *)

Definition slots q : Z := vsize (buffer q).

(** The slot [k] positions after [i]. *)
Definition ahead q (i k : Z) : Z := (i + k) mod slots q.

Record holds q (items : list T) : Prop := {
  qh_size : exists e, 1 <= e <= 63 /\ slots q = 2 ^ e;
  qh_mask : mask q = slots q - 1;
  qh_head : 0 <= head q < slots q;
  qh_tail : tail q = ahead q (head q) (vsize items);
  qh_room : vsize items < slots q;
  qh_items : forall k x, items.[k] = Some x -> (buffer q).[ahead q (head q) k] = Some x }.
End Queue.
Arguments Producer : clear implicits.
Arguments Consumer : clear implicits.
Arguments System : clear implicits.

Section Ring.
Context {T : Type}.
Implicit Types (q : SpscQueue T) (v : T) (items : list T).

Lemma slots_pos q items : holds q items -> 2 <= slots q <= 2 ^ 63.
Proof.
  intros H. destruct (qh_size _ _ H) as (e & He & ->). split.
  - change 2 with (2 ^ 1) at 1. apply Z.pow_le_mono_r; lia.
  - apply Z.pow_le_mono_r; lia.
Qed.

Lemma next_index_ok q items i : holds q items -> 0 <= i < slots q -> next_index q i = ahead q i 1.
Proof.
  intros H Hi. pose proof (slots_pos q items H). unfold next_index, ahead.
  destruct (qh_size _ _ H) as (e & He & Hs). rewrite (qh_mask _ _ H).
  replace (slots q - 1) with (Z.ones e) by (rewrite Z.ones_equiv; lia).
  rewrite Z.land_ones by lia. rewrite <- Hs. rewrite u64_small by (ints; lia). done.
Qed.

Lemma ahead_range q items i k : holds q items -> 0 <= ahead q i k < slots q.
Proof. intros H. pose proof (slots_pos q items H). unfold ahead. apply Z.mod_pos_bound. lia. Qed.

Lemma ahead_ahead q i j k : ahead q (ahead q i j) k = ahead q i (j + k).
Proof. unfold ahead. rewrite Zplus_mod_idemp_l. f_equal. lia. Qed.

Lemma ahead_inj q items i j k : holds q items -> 0 <= j < slots q -> 0 <= k < slots q ->
  ahead q i j = ahead q i k -> j = k.
Proof.
  intros H Hj Hk E. pose proof (slots_pos q items H) as Hp. unfold ahead in E.
  pose proof (Z.div_mod (i + j) (slots q) ltac:(lia)).
  pose proof (Z.div_mod (i + k) (slots q) ltac:(lia)). rewrite E in *.
  assert ((i + j) / slots q = (i + k) / slots q) by nia. nia.
Qed.

Lemma head_zero q items : holds q items -> ahead q (head q) 0 = head q.
Proof. intros H. unfold ahead. rewrite Z.add_0_r. apply Z.mod_small. apply H. Qed.

(** The tests of the methods. *)
Lemma full_test q items : holds q items ->
  (next_index q (tail q) = head q <-> vsize items = slots q - 1).
Proof.
  intros H. pose proof (slots_pos q items H) as Hp. pose proof (qh_room _ _ H) as Hr.
  rewrite (next_index_ok q items); [|done|rewrite (qh_tail _ _ H); by eapply ahead_range].
  rewrite (qh_tail _ _ H), ahead_ahead. rewrite <- (head_zero q items H) at 2. split.
  - intros E. destruct (decide (vsize items + 1 = slots q)) as [|Hne]; [lia|].
    apply (ahead_inj q items) in E; [|done|unfold vsize in *; lia|lia]. unfold vsize in *. lia.
  - intros E. replace (vsize items + 1) with (slots q) by lia. unfold ahead.
    rewrite <- Z.add_0_r at 1. rewrite Z.add_0_r. replace (head q + slots q) with (head q + 1 * slots q) by lia.
    rewrite Z.mod_add by lia. by rewrite Z.add_0_r.
Qed.

Lemma empty_test q items : holds q items -> (head q = tail q <-> items = []).
Proof.
  intros H. pose proof (slots_pos q items H) as Hp. pose proof (qh_room _ _ H) as Hr.
  rewrite (qh_tail _ _ H). rewrite <- (head_zero q items H) at 1. split.
  - intros E. apply (ahead_inj q items) in E; [|done|lia|unfold vsize in *; lia].
    unfold vsize in E. destruct items; [done|cbn in E; lia].
  - by intros ->.
Qed.

Lemma vlook_snoc (l : list T) x k y : (l ++ [x]).[k] = Some y ->
  (k < vsize l /\ l.[k] = Some y) \/ (k = vsize l /\ y = x).
Proof.
  intros H. pose proof (vlook_Some_lt _ _ _ H) as Hr. unfold vlook, in_range, vsize in *.
  rewrite length_app in *. cbn [length] in *.
  rewrite (proj2 (Z.leb_le _ _)), (proj2 (Z.ltb_lt k (Z.of_nat (length l + 1)))) in H by lia.
  cbn [andb] in H. destruct (decide (k < Z.of_nat (length l))).
  - left. rewrite lookup_app_l in H by lia.
    rewrite (proj2 (Z.leb_le _ _)), (proj2 (Z.ltb_lt k (Z.of_nat (length l)))) by lia. done.
  - right. assert (Z.to_nat k = length l) as E by lia. rewrite E, list_lookup_middle in H by done.
    split; [lia|congruence].
Qed.

Lemma ahead_slots q q' i k : slots q' = slots q -> ahead q' i k = ahead q i k.
Proof. intros E. unfold ahead. by rewrite E. Qed.

(** Writing the free slot at the tail leaves the items alone. *)
Lemma write_holds q items v : holds q items ->
  exists bs, vset (buffer q) (tail q) v = Ok bs /\
    holds (MkQueue bs (mask q) (head q) (tail q)) items /\ bs.[tail q] = Some v.
Proof.
  intros H. pose proof (slots_pos q items H) as Hp.
  assert (Ht : 0 <= tail q < slots q) by (rewrite (qh_tail _ _ H); by eapply ahead_range).
  exists ((buffer q).[tail q := v]). rewrite vset_ok by done. split; [done|].
  set (q' := MkQueue _ _ _ _). assert (Hsl : slots q' = slots q) by apply vsize_vupd.
  split; [|by apply vlook_vupd_eq].
  constructor; rewrite ?Hsl, ?(ahead_slots q q' _ _ Hsl); try apply H.
  intros k x Hk. pose proof (vlook_Some_lt _ _ _ Hk). pose proof (qh_room _ _ H).
  rewrite (ahead_slots q q' _ _ Hsl). cbn [buffer head q'].
  rewrite vlook_vupd_ne; [by apply (qh_items _ _ H)|].
  rewrite (qh_tail _ _ H). intros E. apply (ahead_inj q items) in E; [lia|done|lia|lia].
Qed.

(** Publishing the written slot appends it. *)
Lemma publish_holds q items v : holds q items -> vsize items < slots q - 1 ->
  (buffer q).[tail q] = Some v ->
  holds (MkQueue (buffer q) (mask q) (head q) (next_index q (tail q))) (items ++ [v]).
Proof.
  intros H Hroom Hv. pose proof (slots_pos q items H).
  assert (Ht : 0 <= tail q < slots q) by (rewrite (qh_tail _ _ H); by eapply ahead_range).
  assert (Hsz : vsize (items ++ [v]) = vsize items + 1).
  { unfold vsize. rewrite length_app. cbn. lia. }
  set (q' := MkQueue _ _ _ _). assert (Hsl : slots q' = slots q) by done.
  constructor; rewrite ?Hsl, ?(ahead_slots q q' _ _ Hsl), ?Hsz; try apply H.
  - cbn [tail head q']. rewrite (next_index_ok q items) by done. by rewrite (qh_tail _ _ H), ahead_ahead.
  - lia.
  - intros k x Hk. rewrite (ahead_slots q q' _ _ Hsl). cbn [buffer head q'].
    apply vlook_snoc in Hk as [[_ Hk]|[-> ->]]; [by apply (qh_items _ _ H)|].
    rewrite <- Hv. f_equal. symmetry. apply (qh_tail _ _ H).
Qed.

(** Releasing the head drops the first item. *)
Lemma release_holds q items v : holds q (v :: items) ->
  (buffer q).[head q] = Some v /\
  holds (MkQueue (buffer q) (mask q) (next_index q (head q)) (tail q)) items.
Proof.
  intros H. pose proof (slots_pos q _ H). pose proof (qh_head _ _ H).
  assert (Hsz : vsize (v :: items) = vsize items + 1) by (unfold vsize; cbn [length]; lia).
  pose proof (qh_room _ _ H). split.
  { rewrite <- (head_zero q _ H). by apply (qh_items _ _ H). }
  set (q' := MkQueue _ _ _ _). assert (Hsl : slots q' = slots q) by done.
  assert (Hh : head q' = ahead q (head q) 1) by (cbn; by apply (next_index_ok q (v :: items))).
  constructor; rewrite ?Hsl, ?(ahead_slots q q' _ _ Hsl), ?Hh; try apply H.
  - by eapply ahead_range.
  - cbn [tail q']. rewrite (qh_tail _ _ H), ahead_ahead, Hsz. f_equal. lia.
  - lia.
  - intros k x Hk. rewrite (ahead_slots q q' _ _ Hsl), ahead_ahead. cbn [buffer q'].
    pose proof (vlook_Some_lt _ _ _ Hk).
    apply (qh_items _ _ H). unfold vlook, in_range, vsize in *. cbn [length].
    rewrite (proj2 (Z.leb_le _ _)), (proj2 (Z.ltb_lt _ _)) in Hk by lia. cbn [andb] in Hk.
    rewrite (proj2 (Z.leb_le _ _)), (proj2 (Z.ltb_lt (1 + k) _)) by lia. cbn [andb].
    replace (Z.to_nat (1 + k)) with (S (Z.to_nat k)) by lia. done.
Qed.
End Ring.

(** ** The methods, one at a time *)

Section Methods.
Context {T : Type}.
Implicit Types (q : SpscQueue T) (v : T) (items : list T).

Lemma try_push_ok q items v : holds q items ->
  (vsize items < slots q - 1 /\ exists q', try_push q v = Ok (q', true) /\ holds q' (items ++ [v]) /\
     slots q' = slots q) \/
  (vsize items = slots q - 1 /\ try_push q v = Ok (q, false)).
Proof.
  intros H. pose proof (qh_room _ _ H). unfold try_push.
  destruct (Z.eqb_spec (next_index q (tail q)) (head q)) as [E|E].
  - right. split; [|done]. by apply (full_test q items H).
  - left. assert (vsize items < slots q - 1).
    { destruct (decide (vsize items = slots q - 1)) as [Hf|]; [|lia].
      by apply (full_test q items H) in Hf. }
    split; [done|]. destruct (write_holds q items v H) as (bs & Hb & Hh & Hv).
    rewrite Hb. cbn [mbind result_bind]. eexists. split; [done|].
    assert (Hs : vsize bs = slots q).
    { unfold vset in Hb. case_match; [|done]. injection Hb as <-. apply vsize_vupd. }
    split; [|done]. apply (publish_holds (MkQueue bs (mask q) (head q) (tail q)) items v Hh);
      [|done]. unfold slots. cbn [buffer]. rewrite Hs. lia.
Qed.

Lemma try_pop_ok q items : holds q items ->
  match items with
  | [] => try_pop q = Ok (q, None)
  | v :: items => exists q', try_pop q = Ok (q', Some v) /\ holds q' items /\ slots q' = slots q
  end.
Proof.
  intros H. unfold try_pop. destruct (Z.eqb_spec (head q) (tail q)) as [E|E].
  - apply (empty_test q items H) in E as ->. done.
  - destruct items as [|v items]; [by destruct E; apply (empty_test q [] H)|].
    destruct (release_holds q items v H) as [Hv Hr]. rewrite (vget_ok _ _ _ Hv).
    cbn [mbind result_bind]. eexists. by split_and!.
Qed.

(** A ring with nothing in it. *)
Lemma empty_ring_holds (bs : list T) e : 1 <= e <= 63 -> vsize bs = 2 ^ e ->
  holds (MkQueue bs (2 ^ e - 1) 0 0) [].
Proof.
  intros He Hs. assert (2 ^ 1 <= 2 ^ e) by (apply Z.pow_le_mono_r; lia).
  constructor; unfold slots, ahead; cbn [buffer mask head tail]; rewrite ?Hs; try lia.
  - by exists e.
  - unfold slots. cbn [buffer]. rewrite Hs. cbn. by rewrite Z.mod_0_l by lia.
  - unfold vsize. cbn. lia.
  - intros k x Hk. by apply vlook_elem_of, elem_of_nil in Hk.
Qed.

Lemma make_queue_ok (zero : T) n : is_u64 n ->
  if (n =? 0) || (largest_power_of_two <=? n) then make_queue zero n = Fail InvalidArgument
  else exists q, make_queue zero n = Ok q /\ holds q [] /\ n <= slots q - 1 < 2 * n + 1.
Proof.
  intros Hn. unfold make_queue, storage_capacity.
  destruct (Z.eqb_spec n 0); [done|]. destruct (Z.leb_spec largest_power_of_two n) as [|Hl]; [done|].
  unfold largest_power_of_two in Hl. cbn [orb]. rewrite u64_small by intlia.
  destruct (bit_ceil_spec (n + 1)) as (e & He & -> & Hb); [intlia|]. cbn [mbind result_bind].
  assert (Hs : vsize (replicate (Z.to_nat (2 ^ e)) zero) = 2 ^ e).
  { unfold vsize. rewrite length_replicate. lia. }
  assert (1 <= e <= 63).
  { split.
    - destruct (decide (e = 0)) as [->|]; [cbn in Hb; intlia|lia].
    - destruct (Z_le_gt_dec e 63); [done|].
      assert (2 ^ 64 <= 2 ^ e) by (apply Z.pow_le_mono_r; lia). lia. }
  eexists. split; [done|]. split; [by apply empty_ring_holds|]. unfold slots. cbn [buffer]. lia.
Qed.
End Methods.

(** ** Producer and consumer together *)

Section System.
Context {T : Type}.
Implicit Types (s : System T) (items : list T).

Definition producer_ok (q : SpscQueue T) items (p : Producer T) : Prop :=
  match p with
  | PIdle => True
  | PLoaded _ t => t = tail q
  | PReady _ t => t = tail q /\ vsize items < slots q - 1
  | PWrote v t => t = tail q /\ vsize items < slots q - 1 /\ (buffer q).[t] = Some v
  end.

Definition consumer_ok (q : SpscQueue T) items (c : Consumer T) : Prop :=
  match c with
  | CIdle => True
  | CLoaded h => h = head q
  | CReady h => h = head q /\ items <> []
  | CRead h v => h = head q /\ exists rest, items = v :: rest
  end.

Record system_inv (n : Z) s items : Prop := {
  in_holds : holds (queue_of s) items;
  in_slots : slots (queue_of s) = n;
  in_fifo : pushed s = popped s ++ items;
  in_producer : producer_ok (queue_of s) items (producer s);
  in_consumer : consumer_ok (queue_of s) items (consumer s) }.

Lemma ring_step_inv n s s' items : system_inv n s items -> step s s' -> exists items', system_inv n s' items'.
Proof.
  intros [Hh Hn Hf Hp Hc] Hs. destruct Hs; cbn in *.
  - exists items. by constructor.
  - exists items. by constructor.
  - exists items. constructor; auto. cbn. split; [done|]. subst t.
    pose proof (qh_room _ _ Hh). destruct (decide (vsize items = slots q - 1)) as [Hfull|]; [|lia].
    by apply (full_test q items Hh) in Hfull.
  - exists items. destruct Hp as [-> Hroom].
    destruct (write_holds q items v Hh) as (bs' & Hb & Hh' & Hv).
    rewrite Hb in H. injection H as ->.
    assert (Hsl : vsize bs = slots q).
    { unfold vset in Hb. case_match; [|done]. injection Hb as <-. apply vsize_vupd. }
    constructor; cbn; auto; [by unfold slots; cbn; rewrite Hsl|].
    unfold slots in *. cbn in *. by rewrite Hsl.
  - exists (items ++ [v]). destruct Hp as (-> & Hroom & Hv). constructor; cbn; auto.
    + by apply publish_holds.
    + by rewrite Hf, app_assoc.
    + destruct c; cbn in *; auto.
      * destruct Hc as [-> Hne]. split; [done|]. by destruct items.
      * destruct Hc as [-> [rest ->]]. split; [done|]. by exists (rest ++ [v]).
  - exists items. by constructor.
  - exists items. by constructor.
  - exists items. constructor; auto. cbn. split; [done|]. intros ->. subst h.
    by apply H, (empty_test q [] Hh).
  - exists items. destruct Hc as [-> Hne]. constructor; auto. cbn. split; [done|].
    destruct items as [|x rest]; [done|]. destruct (release_holds q rest x Hh) as [Hx _].
    rewrite (vget_ok _ _ _ Hx) in H. injection H as ->. by exists rest.
  - destruct Hc as [-> [rest ->]]. exists rest. destruct (release_holds q rest v Hh) as [_ Hr].
    assert (Hsz : vsize (v :: rest) = vsize rest + 1) by (unfold vsize; cbn [length]; lia).
    constructor; cbn; auto; [by rewrite Hf, <- app_assoc|].
    destruct p; cbn in *; auto; unfold slots in *; cbn in *; rewrite Hsz in Hp; split_and!; try apply Hp; lia.
Qed.

Lemma reaches_inv q0 s : holds q0 [] -> reaches q0 s -> exists items, system_inv (slots q0) s items.
Proof.
  intros H0. induction 1 as [|s s' _ (items & IH) Hs].
  - exists []. by constructor.
  - by eapply ring_step_inv.
Qed.
End System.
