(* ===== verification/SpscWeak.v ===== *)
(** * SpscWeak: the ring under release/acquire memory
      (include/dme/spsc_queue.hpp)

    [Spsc] interleaves the atomic accesses of the ring as if memory were
    sequentially consistent.  Here the same two methods run on the memory
    model their [memory_order] arguments ask for, as an operational machine in
    the style of view semantics:
    - an atomic index is its modification order, a list of messages; a load
      returns any message not older than the thread already knows of, so an
      index that the other thread advanced long ago may still be read;
    - a thread's view records, per index, the newest message it knows of, and,
      per thread, how many of that thread's buffer accesses happen before its
      next step; a release store attaches the view to its message, an acquire
      load joins it, a relaxed load does not;
    - buffer elements are not atomic: each remembers the stamps of the last
      write and read, and an access that the view does not order after the
      other thread's last conflicting access is a data race.

    Each index has one writer, so a store is always the newest message of its
    modification order.  Loads return messages already written: there are no
    values out of thin air. *)
From Stdlib Require Import ZArith Lia.
From stdpp Require Import base numbers list.
From S2P Require Import Prelude Spsc.
Local Open Scope Z_scope.

(** ** Views *)

Inductive index_name : Set := Head | Tail.

Record View : Set := MkView {
  seen_head : Z;       (* position in the modification order of [head_] *)
  seen_tail : Z;       (* position in the modification order of [tail_] *)
  seen_writes : Z;     (* buffer writes of the producer that happen before *)
  seen_reads : Z }.    (* buffer reads of the consumer that happen before *)

Definition view_bot : View := MkView 0 0 0 0.

Definition view_join (v w : View) : View :=
  MkView (Z.max (seen_head v) (seen_head w)) (Z.max (seen_tail v) (seen_tail w))
    (Z.max (seen_writes v) (seen_writes w)) (Z.max (seen_reads v) (seen_reads w)).

Definition seen (v : View) (l : index_name) : Z :=
  match l with Head => seen_head v | Tail => seen_tail v end.

(** The view after observing message [k] of [l]. *)
Definition see (l : index_name) (k : Z) (v : View) : View :=
  match l with
  | Head => MkView (Z.max k (seen_head v)) (seen_tail v) (seen_writes v) (seen_reads v)
  | Tail => MkView (seen_head v) (Z.max k (seen_tail v)) (seen_writes v) (seen_reads v)
  end.

(** ** Memory *)

Record Message : Set := MkMessage { m_value : Z; m_view : View }.

Record Cell (T : Type) : Type := MkCell {
  contents : T;
  write_stamp : Z;     (* number of the producer's write that stored it *)
  read_stamp : Z }.    (* number of the consumer's last read of it *)
Arguments MkCell {T}. Arguments contents {T}. Arguments write_stamp {T}. Arguments read_stamp {T}.

Record Memory (T : Type) : Type := MkMemory {
  cells : list (Cell T);
  heads : list Message;
  tails : list Message }.
Arguments MkMemory {T}. Arguments cells {T}. Arguments heads {T}. Arguments tails {T}.

Section Machine.
Context {T : Type}.
Implicit Types (mem : Memory T) (v : View).

Definition history mem (l : index_name) : list Message :=
  match l with Head => heads mem | Tail => tails mem end.

Definition load_relaxed mem (l : index_name) v (k : Z) : option (Z * View) :=
  if k <? seen v l then None
  else m ← (history mem l).[k]; Some (m_value m, see l k v).

Definition load_acquire mem (l : index_name) v (k : Z) : option (Z * View) :=
  if k <? seen v l then None
  else m ← (history mem l).[k]; Some (m_value m, view_join (see l k v) (m_view m)).

Definition store_release mem (l : index_name) v (x : Z) : Memory T * View :=
  let v := see l (vsize (history mem l)) v in
  (match l with
   | Head => MkMemory (cells mem) (heads mem ++ [MkMessage x v]) (tails mem)
   | Tail => MkMemory (cells mem) (heads mem) (tails mem ++ [MkMessage x v])
   end, v).

(** The producer writes an element, the consumer reads one. *)
Definition write_cell mem v (i : Z) (x : T) : result (Memory T * View) :=
  c ← vget (cells mem) i;
  let v := MkView (seen_head v) (seen_tail v) (seen_writes v + 1) (seen_reads v) in
  Ok (MkMemory ((cells mem).[i := MkCell x (seen_writes v) (read_stamp c)]) (heads mem) (tails mem), v).

Definition read_cell mem v (i : Z) : result (T * Memory T * View) :=
  c ← vget (cells mem) i;
  let v := MkView (seen_head v) (seen_tail v) (seen_writes v) (seen_reads v + 1) in
  Ok (contents c,
      MkMemory ((cells mem).[i := MkCell (contents c) (write_stamp c) (seen_reads v)]) (heads mem) (tails mem),
      v).

(** The other thread's last access is not ordered before this one. *)
Definition write_races mem v (i : Z) : Prop :=
  exists c, (cells mem).[i] = Some c /\ seen_reads v < read_stamp c.
Definition read_races mem v (i : Z) : Prop :=
  exists c, (cells mem).[i] = Some c /\ seen_writes v < write_stamp c.

(** ** The methods, one memory access per step *)

Record WeakSystem : Type := MkWeak {
  memory : Memory T;
  pview : View;
  cview : View;
  pstate : Producer T;
  cstate : Consumer T;
  w_pushed : list T;               (* values whose push returned true *)
  w_popped : list T }.             (* values whose pop returned true *)

Definition weak_next (mask i : Z) : Z := Z.land (u64 (i + 1)) mask.

Inductive weak_step (mask : Z) : WeakSystem -> WeakSystem -> Prop :=
  | weak_push_start mem p c cs us os x k t p' :
      load_relaxed mem Tail p k = Some (t, p') ->
      weak_step mask (MkWeak mem p c PIdle cs us os) (MkWeak mem p' c (PLoaded x t) cs us os)
  | weak_push_full mem p c cs us os x t k h p' :
      load_acquire mem Head p k = Some (h, p') -> weak_next mask t = h ->
      weak_step mask (MkWeak mem p c (PLoaded x t) cs us os) (MkWeak mem p' c PIdle cs us os)
  | weak_push_space mem p c cs us os x t k h p' :
      load_acquire mem Head p k = Some (h, p') -> weak_next mask t <> h ->
      weak_step mask (MkWeak mem p c (PLoaded x t) cs us os) (MkWeak mem p' c (PReady x t) cs us os)
  | weak_push_write mem p c cs us os x t mem' p' :
      write_cell mem p t x = Ok (mem', p') ->
      weak_step mask (MkWeak mem p c (PReady x t) cs us os) (MkWeak mem' p' c (PWrote x t) cs us os)
  | weak_push_publish mem p c cs us os x t mem' p' :
      store_release mem Tail p (weak_next mask t) = (mem', p') ->
      weak_step mask (MkWeak mem p c (PWrote x t) cs us os) (MkWeak mem' p' c PIdle cs (us ++ [x]) os)
  | weak_pop_start mem p c ps us os k h c' :
      load_relaxed mem Head c k = Some (h, c') ->
      weak_step mask (MkWeak mem p c ps CIdle us os) (MkWeak mem p c' ps (CLoaded h) us os)
  | weak_pop_empty mem p c ps us os h k t c' :
      load_acquire mem Tail c k = Some (t, c') -> h = t ->
      weak_step mask (MkWeak mem p c ps (CLoaded h) us os) (MkWeak mem p c' ps CIdle us os)
  | weak_pop_ready mem p c ps us os h k t c' :
      load_acquire mem Tail c k = Some (t, c') -> h <> t ->
      weak_step mask (MkWeak mem p c ps (CLoaded h) us os) (MkWeak mem p c' ps (CReady h) us os)
  | weak_pop_read mem p c ps us os h x mem' c' :
      read_cell mem c h = Ok (x, mem', c') ->
      weak_step mask (MkWeak mem p c ps (CReady h) us os) (MkWeak mem' p c' ps (CRead h x) us os)
  | weak_pop_release mem p c ps us os h x mem' c' :
      store_release mem Head c (weak_next mask h) = (mem', c') ->
      weak_step mask (MkWeak mem p c ps (CRead h x) us os) (MkWeak mem' p c' ps CIdle us (os ++ [x])).

(** The constructor's stores happen before both threads start. *)
Definition weak_start (q : SpscQueue T) : WeakSystem :=
  MkWeak (MkMemory ((fun x => MkCell x 0 0) <$> buffer q)
            [MkMessage (head q) view_bot] [MkMessage (tail q) view_bot])
    view_bot view_bot PIdle CIdle [] [].

Inductive weak_reaches (q : SpscQueue T) : WeakSystem -> Prop :=
  | weak_reaches_start : weak_reaches q (weak_start q)
  | weak_reaches_step s s' : weak_reaches q s -> weak_step (mask q) s s' -> weak_reaches q s'.

(** The next access of a thread races with one the other thread has made. *)
Definition racing (s : WeakSystem) : Prop :=
  (exists x t, pstate s = PReady x t /\ write_races (memory s) (pview s) t) \/
  (exists h, cstate s = CReady h /\ read_races (memory s) (cview s) h).
End Machine.
Arguments WeakSystem : clear implicits.

(** ** The invariant *)

(** A view that knows at most [n] published pushes, [m] published pops, [w]
    buffer writes and [r] buffer reads, and knows every access that the
    messages it knows of were published after. *)
Record view_ok (n m w r : Z) (v : View) : Prop := {
  vo_head : 0 <= seen_head v <= m;
  vo_tail : 0 <= seen_tail v <= n;
  vo_writes : seen_tail v <= seen_writes v <= w;
  vo_reads : seen_head v <= seen_reads v <= r }.

Lemma view_ok_bot n m w r : 0 <= n -> 0 <= m -> 0 <= w -> 0 <= r -> view_ok n m w r view_bot.
Proof. intros. constructor; cbn; lia. Qed.

Lemma view_ok_mono n m w r n' m' w' r' v :
  view_ok n m w r v -> n <= n' -> m <= m' -> w <= w' -> r <= r' -> view_ok n' m' w' r' v.
Proof. intros [] ????. constructor; lia. Qed.

Lemma view_ok_join n m w r v v' :
  view_ok n m w r v -> view_ok n m w r v' -> view_ok n m w r (view_join v v').
Proof. intros [] []. constructor; cbn; lia. Qed.

(** Messages [0 .. count] of an index: message [k] carries slot [k] and was
    published knowing itself. *)
Record messages_ok (slot : Z -> Z) (n m w r : Z) (l : index_name) (msgs : list Message) : Prop := {
  mo_size : vsize msgs = (match l with Head => m | Tail => n end) + 1;
  mo_each : forall k msg, msgs.[k] = Some msg ->
    m_value msg = slot k /\ seen (m_view msg) l = k /\ view_ok n m w r (m_view msg) }.

Lemma load_relaxed_inv {T} (mem : Memory T) l v k x v' : load_relaxed mem l v k = Some (x, v') ->
  exists msg, (history mem l).[k] = Some msg /\ seen v l <= k /\ x = m_value msg /\ v' = see l k v.
Proof.
  unfold load_relaxed. destruct (Z.ltb_spec k (seen v l)); [done|].
  destruct (history mem l).[k] as [msg|]; cbn; [|done]. intros [= <- <-]. by exists msg.
Qed.

Lemma load_acquire_inv {T} (mem : Memory T) l v k x v' : load_acquire mem l v k = Some (x, v') ->
  exists msg, (history mem l).[k] = Some msg /\ seen v l <= k /\ x = m_value msg /\
    v' = view_join (see l k v) (m_view msg).
Proof.
  unfold load_acquire. destruct (Z.ltb_spec k (seen v l)); [done|].
  destruct (history mem l).[k] as [msg|]; cbn; [|done]. intros [= <- <-]. by exists msg.
Qed.

Lemma messages_ok_mono slot n m w r n' m' w' r' l msgs :
  messages_ok slot n m w r l msgs ->
  n <= n' -> m <= m' -> w <= w' -> r <= r' -> match l with Head => m' = m | Tail => n' = n end ->
  messages_ok slot n' m' w' r' l msgs.
Proof.
  intros [Hs He] ???? E. constructor; [destruct l; lia|]. intros k msg Hk.
  destruct (He k msg Hk) as (? & ? & Hv). split_and!; [done..|]. by eapply view_ok_mono.
Qed.

(** A release store by a thread that knows its whole history. *)
Lemma messages_ok_store slot n m w r n' m' l msgs v x :
  messages_ok slot n m w r l msgs -> view_ok n m w r v -> n <= n' -> m <= m' ->
  match l with Head => m' = m + 1 /\ seen_reads v = r /\ m + 1 <= r
             | Tail => n' = n + 1 /\ seen_writes v = w /\ n + 1 <= w end ->
  x = slot (vsize msgs) ->
  messages_ok slot n' m' w r l (msgs ++ [MkMessage x (see l (vsize msgs) v)]) /\
  view_ok n' m' w r (see l (vsize msgs) v).
Proof.
  intros [Hs He] Hv Hn Hm Hl ->.
  assert (Hview : view_ok n' m' w r (see l (vsize msgs) v)).
  { destruct Hv, l; constructor; cbn; lia. }
  split; [|done]. constructor.
  - unfold vsize in *. rewrite length_app. cbn. destruct l; lia.
  - intros k msg Hk. apply vlook_snoc in Hk as [[_ Hk]|[-> ->]].
    + destruct (He k msg Hk) as (? & ? & ?). split_and!; [done..|]. eapply view_ok_mono; eauto; lia.
    + cbn. split_and!; [done| |done]. destruct Hv, l; cbn; lia.
Qed.

(** An acquire load of an index the other thread writes. *)
Lemma load_acquire_ok {T} slot n m w r (mem : Memory T) l v k x v' :
  messages_ok slot n m w r l (history mem l) -> view_ok n m w r v ->
  load_acquire mem l v k = Some (x, v') ->
  x = slot (seen v' l) /\ view_ok n m w r v' /\ seen v l <= seen v' l /\
  match l with Head => seen_tail v' = Z.max (seen_tail v) (seen_tail v')
             | Tail => seen_head v' = Z.max (seen_head v) (seen_head v') end /\
  seen_writes v <= seen_writes v' /\ seen_reads v <= seen_reads v'.
Proof.
  intros [Hs He] Hv Hl. apply load_acquire_inv in Hl as (msg & Hk & Hle & -> & ->).
  destruct (He k msg Hk) as (Hx & Hself & Hm). rewrite Hx. destruct l; cbn in *.
  - replace (Z.max (Z.max k (seen_head v)) (seen_head (m_view msg))) with k by lia.
    split_and!; [done| |lia..]. destruct Hv, Hm. constructor; cbn; lia.
  - replace (Z.max (Z.max k (seen_tail v)) (seen_tail (m_view msg))) with k by lia.
    split_and!; [done| |lia..]. destruct Hv, Hm. constructor; cbn; lia.
Qed.

Lemma vlook_nat {A} (l : list A) (i : nat) x : l.[Z.of_nat i] = Some x <-> l !! i = Some x.
Proof.
  unfold vlook, in_range. rewrite Nat2Z.id. destruct (Z.ltb_spec (Z.of_nat i) (Z.of_nat (length l))).
  - by rewrite (proj2 (Z.leb_le _ _)) by lia.
  - rewrite andb_false_r. split; [done|]. intros Hi%lookup_lt_Some. lia.
Qed.

Lemma vlook_app_Some {A} (a b : list A) k x : a.[k] = Some x -> (a ++ b).[k] = Some x.
Proof.
  intros H. pose proof (vlook_Some_lt _ _ _ H). unfold vlook, in_range, vsize in *. rewrite length_app.
  rewrite (proj2 (Z.leb_le _ _)), (proj2 (Z.ltb_lt k (Z.of_nat (length a)))) in H by lia.
  rewrite (proj2 (Z.leb_le _ _)), (proj2 (Z.ltb_lt _ _)) by lia. cbn in *.
  by apply lookup_app_l_Some.
Qed.

Lemma vsize_snoc {A} (l : list A) x : vsize (l ++ [x]) = vsize l + 1.
Proof. unfold vsize. rewrite length_app. cbn. lia. Qed.

Section Protocol.
Context {T : Type} (q0 : SpscQueue T) (Hq0 : holds q0 []).
Implicit Types (s : WeakSystem T) (mem : Memory T).

Let N := slots q0.
Definition slot (k : Z) : Z := ahead q0 (head q0) k.

(** Values written to the buffer, and values read from it. *)
Definition written s : list T :=
  w_pushed s ++ match pstate s with PWrote x _ => [x] | _ => [] end.
Definition taken s : list T :=
  w_popped s ++ match cstate s with CRead _ x => [x] | _ => [] end.

Definition pstate_ok s : Prop :=
  match pstate s with
  | PIdle => True
  | PLoaded _ t => t = slot (vsize (w_pushed s))
  | PReady _ t | PWrote _ t =>
    t = slot (vsize (w_pushed s)) /\ vsize (w_pushed s) <= seen_head (pview s) + N - 2
  end.

Definition cstate_ok s : Prop :=
  match cstate s with
  | CIdle => True
  | CLoaded h => h = slot (vsize (w_popped s))
  | CReady h | CRead h _ => h = slot (vsize (w_popped s)) /\ vsize (w_popped s) < seen_tail (cview s)
  end.

Record weak_inv s : Prop := {
  wi_cells : vsize (cells (memory s)) = N;
  wi_heads : messages_ok slot (vsize (w_pushed s)) (vsize (w_popped s))
               (vsize (written s)) (vsize (taken s)) Head (heads (memory s));
  wi_tails : messages_ok slot (vsize (w_pushed s)) (vsize (w_popped s))
               (vsize (written s)) (vsize (taken s)) Tail (tails (memory s));
  wi_pview : view_ok (vsize (w_pushed s)) (vsize (w_popped s))
               (vsize (written s)) (vsize (taken s)) (pview s);
  wi_cview : view_ok (vsize (w_pushed s)) (vsize (w_popped s))
               (vsize (written s)) (vsize (taken s)) (cview s);
  wi_pown : seen_tail (pview s) = vsize (w_pushed s) /\ seen_writes (pview s) = vsize (written s);
  wi_cown : seen_head (cview s) = vsize (w_popped s) /\ seen_reads (cview s) = vsize (taken s);
  wi_popped : vsize (w_popped s) <= seen_tail (cview s);
  wi_room : vsize (w_pushed s) <= seen_head (pview s) + N - 1;
  wi_pstate : pstate_ok s;
  wi_cstate : cstate_ok s;
  wi_contents : forall k x, vsize (w_popped s) <= k -> (written s).[k] = Some x ->
    exists c, (cells (memory s)).[slot k] = Some c /\ contents c = x;
  wi_taken : forall k x, (taken s).[k] = Some x -> (w_pushed s).[k] = Some x;
  wi_writes : forall k c, vsize (written s) - N <= k < vsize (written s) ->
    (cells (memory s)).[slot k] = Some c -> write_stamp c = Z.max 0 (k + 1);
  wi_reads : forall k c, vsize (taken s) - N <= k < vsize (taken s) ->
    (cells (memory s)).[slot k] = Some c -> read_stamp c = Z.max 0 (k + 1) }.

(** *** Slots *)

Lemma N_pos : 2 <= N <= 2 ^ 63.
Proof using Hq0. exact (slots_pos q0 [] Hq0). Qed.

Lemma slot_range k : 0 <= slot k < N.
Proof using Hq0. exact (ahead_range q0 [] (head q0) k Hq0). Qed.

Lemma slot_inj a j k : a <= j < a + N -> a <= k < a + N -> slot j = slot k -> j = k.
Proof using Hq0.
  intros Hj Hk E. pose proof N_pos.
  assert (Hs : forall i, slot i = ahead q0 (ahead q0 (head q0) a) (i - a)).
  { intros i. unfold slot. rewrite ahead_ahead. f_equal. lia. }
  rewrite (Hs j), (Hs k) in E. apply (ahead_inj q0 []) in E; [lia|exact Hq0|fold N; lia..].
Qed.

Lemma slot_next k : weak_next (mask q0) (slot k) = slot (k + 1).
Proof using Hq0.
  change (next_index q0 (slot k) = slot (k + 1)).
  rewrite (next_index_ok q0 [] _ Hq0 (slot_range k)). unfold slot. by rewrite ahead_ahead.
Qed.

Lemma slot_wrap k : slot (k + N) = slot k.
Proof using Hq0.
  pose proof N_pos. unfold slot, ahead. fold N.
  replace (head q0 + (k + N)) with (head q0 + k + 1 * N) by lia. apply Z.mod_add. lia.
Qed.

Lemma slot_0 : slot 0 = head q0.
Proof using Hq0. exact (head_zero q0 [] Hq0). Qed.

(** *** Preservation *)

Lemma weak_start_inv : weak_inv (weak_start q0).
Proof using Hq0.
  pose proof N_pos.
  assert (Hc : forall k c, (cells (memory (weak_start q0))).[k] = Some c -> write_stamp c = 0 /\ read_stamp c = 0).
  { intros k c Hk. cbn in Hk. apply vlook_elem_of, list_elem_of_fmap in Hk as (x & -> & _). done. }
  assert (Hm : forall l x, x = slot 0 -> messages_ok slot 0 0 0 0 l [MkMessage x view_bot]).
  { intros l x ->. constructor; [by destruct l|]. intros k msg Hk. pose proof (vlook_Some_lt _ _ _ Hk) as Hr.
    unfold vsize in Hr. cbn in Hr. assert (k = 0) as -> by lia. cbn in Hk. injection Hk as <-. cbn.
    split_and!; [done|by destruct l|by apply view_ok_bot]. }
  constructor; change (vsize (written (weak_start q0))) with 0; change (vsize (taken (weak_start q0))) with 0;
    cbn [weak_start w_pushed w_popped pview cview]; change (vsize (@nil T)) with 0.
  - unfold vsize. cbn. by rewrite length_fmap.
  - apply Hm. by rewrite slot_0.
  - apply Hm. rewrite (qh_tail _ _ Hq0). done.
  - by apply view_ok_bot.
  - by apply view_ok_bot.
  - done.
  - done.
  - done.
  - cbn. lia.
  - done.
  - done.
  - intros k x _ Hk. by apply vlook_elem_of, elem_of_nil in Hk.
  - intros k x Hk. by apply vlook_elem_of, elem_of_nil in Hk.
  - intros k c Hk Hc'. destruct (Hc _ _ Hc') as [-> _]. lia.
  - intros k c Hk Hc'. destruct (Hc _ _ Hc') as [_ ->]. lia.
Qed.

(** A load changes the view and the program point of its thread. *)
Lemma producer_load_inv mem p c ps cs us os p' ps' :
  weak_inv (MkWeak mem p c ps cs us os) ->
  (forall x t, ps <> PWrote x t) -> (forall x t, ps' <> PWrote x t) ->
  view_ok (vsize us) (vsize os) (vsize us) (vsize (taken (MkWeak mem p c ps cs us os))) p' ->
  seen_tail p <= seen_tail p' -> seen_writes p <= seen_writes p' -> seen_head p <= seen_head p' ->
  pstate_ok (MkWeak mem p' c ps' cs us os) ->
  weak_inv (MkWeak mem p' c ps' cs us os).
Proof.
  intros [] Hps Hps' Hv Ht Hw Hh Hok.
  assert (E : written (MkWeak mem p c ps cs us os) = us).
  { unfold written. cbn. destruct ps; rewrite ?app_nil_r; try done. by edestruct Hps. }
  assert (E' : written (MkWeak mem p' c ps' cs us os) = us).
  { unfold written. cbn. destruct ps'; rewrite ?app_nil_r; try done. by edestruct Hps'. }
  rewrite E in *. pose proof (vo_tail _ _ _ _ _ Hv). pose proof (vo_head _ _ _ _ _ Hv).
  pose proof (vo_writes _ _ _ _ _ Hv). pose proof (vo_reads _ _ _ _ _ Hv).
  constructor; rewrite ?E'; try done; cbn in *; lia.
Qed.

Lemma consumer_load_inv mem p c ps cs us os c' cs' :
  weak_inv (MkWeak mem p c ps cs us os) ->
  (forall h x, cs <> CRead h x) -> (forall h x, cs' <> CRead h x) ->
  view_ok (vsize us) (vsize os) (vsize (written (MkWeak mem p c ps cs us os))) (vsize os) c' ->
  seen_tail c <= seen_tail c' -> seen_reads c <= seen_reads c' -> seen_head c <= seen_head c' ->
  cstate_ok (MkWeak mem p c' ps cs' us os) ->
  weak_inv (MkWeak mem p c' ps cs' us os).
Proof.
  intros [] Hcs Hcs' Hv Ht Hr Hh Hok.
  assert (E : taken (MkWeak mem p c ps cs us os) = os).
  { unfold taken. cbn. destruct cs; rewrite ?app_nil_r; try done. by edestruct Hcs. }
  assert (E' : taken (MkWeak mem p c' ps cs' us os) = os).
  { unfold taken. cbn. destruct cs'; rewrite ?app_nil_r; try done. by edestruct Hcs'. }
  rewrite E in *. pose proof (vo_tail _ _ _ _ _ Hv). pose proof (vo_head _ _ _ _ _ Hv).
  pose proof (vo_writes _ _ _ _ _ Hv). pose proof (vo_reads _ _ _ _ _ Hv).
  constructor; rewrite ?E'; try done; cbn in *; lia.
Qed.

Lemma push_write_inv mem p c cs us os x t mem' p' :
  weak_inv (MkWeak mem p c (PReady x t) cs us os) -> write_cell mem p t x = Ok (mem', p') ->
  weak_inv (MkWeak mem' p' c (PWrote x t) cs us os).
Proof using Hq0.
  intros [] Hw. pose proof N_pos. unfold write_cell in Hw.
  assert (E : written (MkWeak mem p c (PReady x t) cs us os) = us) by (unfold written; cbn; by rewrite app_nil_r).
  assert (E' : written (MkWeak mem' p' c (PWrote x t) cs us os) = us ++ [x]) by done.
  assert (Et : taken (MkWeak mem' p' c (PWrote x t) cs us os) = taken (MkWeak mem p c (PReady x t) cs us os)) by done.
  rewrite E in *. cbn in wi_pstate0. destruct wi_pstate0 as [-> Hroom]. cbn in *.
  destruct (vlook_lt_is_Some (cells mem) (slot (vsize us))) as [cell Hcell].
  { rewrite wi_cells0. apply slot_range. }
  rewrite (vget_ok _ _ _ Hcell) in Hw. cbn in Hw. injection Hw as <- <-.
  pose proof (slot_range (vsize us)) as Hrange. rewrite <- wi_cells0 in Hrange.
  destruct wi_pown0 as [Htl Hwr], wi_cown0 as [Hhd Hrd]. pose proof (vo_head _ _ _ _ _ wi_pview0).
  constructor; rewrite ?E', ?Et; cbn; rewrite ?vsize_snoc; try done; try lia.
  - by rewrite vsize_vupd.
  - eapply messages_ok_mono; eauto; lia.
  - eapply messages_ok_mono; eauto; lia.
  - destruct wi_pview0. constructor; cbn; lia.
  - eapply view_ok_mono; eauto; lia.
  - intros k y Hk Hy. apply vlook_snoc in Hy as [[Hlt Hy]|[-> ->]].
    + destruct (wi_contents0 k y Hk Hy) as (c' & Hc' & <-). exists c'. split; [|done].
      rewrite vlook_vupd_ne; [done|]. intros Es.
      apply (slot_inj (vsize os) (vsize us) k) in Es; lia.
    + eexists. split; [by apply vlook_vupd_eq|done].
  - intros k c' Hk Hc'. destruct (decide (k = vsize us)) as [->|Hne].
    + rewrite vlook_vupd_eq in Hc' by done. injection Hc' as <-. cbn.
      pose proof (vo_tail _ _ _ _ _ wi_pview0). lia.
    + rewrite vlook_vupd_ne in Hc'; [apply (wi_writes0 k c'); [lia|done]|].
      intros Es. apply (slot_inj (vsize us + 1 - N) (vsize us) k) in Es; lia.
  - intros k c' Hk Hc'. destruct (decide (slot k = slot (vsize us))) as [Es|Hne].
    + rewrite Es, vlook_vupd_eq in Hc' by done. injection Hc' as <-. cbn.
      apply (wi_reads0 k cell Hk). by rewrite Es.
    + rewrite vlook_vupd_ne in Hc' by done. by apply (wi_reads0 k c').
Qed.

Lemma push_publish_inv mem p c cs us os x t mem' p' :
  weak_inv (MkWeak mem p c (PWrote x t) cs us os) ->
  store_release mem Tail p (weak_next (mask q0) t) = (mem', p') ->
  weak_inv (MkWeak mem' p' c PIdle cs (us ++ [x]) os).
Proof using Hq0.
  intros [] [= <- <-]. pose proof N_pos. unfold written, taken, pstate_ok in *. cbn in *.
  rewrite ?app_nil_r, ?vsize_snoc in *. destruct wi_pstate0 as [-> Hroom], wi_pown0 as [Htl Hwr].
  pose proof (mo_size _ _ _ _ _ _ _ wi_tails0) as Hts. cbn in Hts.
  destruct (messages_ok_store slot (vsize us) (vsize os) (vsize us + 1) (vsize (taken (MkWeak mem p c (PWrote x (slot (vsize us))) cs us os)))
    (vsize us + 1) (vsize os) Tail (tails mem) p (weak_next (mask q0) (slot (vsize us))) wi_tails0 wi_pview0)
    as [Htails Hview]; [lia|lia|lia|by rewrite slot_next, Hts|].
  pose proof (vo_tail _ _ _ _ _ wi_pview0).
  constructor; unfold written, taken, pstate_ok; cbn; rewrite ?app_nil_r, ?vsize_snoc; try done; try lia.
  - eapply messages_ok_mono; eauto; lia.
  - eapply view_ok_mono; eauto; lia.
  - intros k y Hk. apply vlook_app_Some, wi_taken0, Hk.
Qed.

Lemma pop_read_inv mem p c ps us os h x mem' c' :
  weak_inv (MkWeak mem p c ps (CReady h) us os) -> read_cell mem c h = Ok (x, mem', c') ->
  weak_inv (MkWeak mem' p c' ps (CRead h x) us os).
Proof using Hq0.
  intros [] Hr. pose proof N_pos. unfold read_cell in Hr.
  assert (E : taken (MkWeak mem p c ps (CReady h) us os) = os) by (unfold taken; cbn; by rewrite app_nil_r).
  assert (E' : taken (MkWeak mem' p c' ps (CRead h x) us os) = os ++ [x]) by done.
  assert (Ew : written (MkWeak mem' p c' ps (CRead h x) us os) = written (MkWeak mem p c ps (CReady h) us os)) by done.
  rewrite E in *. cbn in wi_cstate0. destruct wi_cstate0 as [-> Hlt]. cbn in *.
  destruct (vlook_lt_is_Some us (vsize os)) as [y Hy].
  { destruct wi_cview0. unfold vsize in *. lia. }
  destruct (wi_contents0 (vsize os) y) as (cell & Hcell & Hy'); [lia|by apply vlook_app_Some|].
  rewrite (vget_ok _ _ _ Hcell) in Hr. cbn in Hr. injection Hr as <- <- <-.
  pose proof (slot_range (vsize os)) as Hrange. rewrite <- wi_cells0 in Hrange.
  destruct wi_pown0 as [Htl Hwr], wi_cown0 as [Hhd Hrd]. pose proof (vo_head _ _ _ _ _ wi_pview0).
  constructor; rewrite ?E', ?Ew; cbn; rewrite ?vsize_snoc; try done; try lia.
  - by rewrite vsize_vupd.
  - eapply messages_ok_mono; eauto; lia.
  - eapply messages_ok_mono; eauto; lia.
  - eapply view_ok_mono; eauto; lia.
  - destruct wi_cview0. constructor; cbn; lia.
  - intros k z Hk Hz. destruct (wi_contents0 k z Hk Hz) as (c' & Hc' & <-).
    destruct (decide (slot k = slot (vsize os))) as [Es|Hne].
    + rewrite Es in Hc' |- *. rewrite Hcell in Hc'. injection Hc' as <-.
      eexists. split; [by apply vlook_vupd_eq|done].
    + exists c'. by rewrite vlook_vupd_ne.
  - intros k z Hz. apply vlook_snoc in Hz as [[_ Hz]|[-> ->]]; [by apply wi_taken0|congruence].
  - intros k c' Hk Hc'. destruct (decide (slot k = slot (vsize os))) as [Es|Hne].
    + rewrite Es, vlook_vupd_eq in Hc' by done. injection Hc' as <-. cbn.
      apply (wi_writes0 k cell Hk). by rewrite Es.
    + rewrite vlook_vupd_ne in Hc' by done. by apply (wi_writes0 k c').
  - intros k c' Hk Hc'. destruct (decide (k = vsize os)) as [->|Hne].
    + rewrite vlook_vupd_eq in Hc' by done. injection Hc' as <-. cbn.
      pose proof (vo_head _ _ _ _ _ wi_cview0). lia.
    + rewrite vlook_vupd_ne in Hc'; [apply (wi_reads0 k c'); [lia|done]|].
      intros Es. apply (slot_inj (vsize os + 1 - N) (vsize os) k) in Es; lia.
Qed.

Lemma pop_release_inv mem p c ps us os h x mem' c' :
  weak_inv (MkWeak mem p c ps (CRead h x) us os) ->
  store_release mem Head c (weak_next (mask q0) h) = (mem', c') ->
  weak_inv (MkWeak mem' p c' ps CIdle us (os ++ [x])).
Proof using Hq0.
  intros [] [= <- <-]. pose proof N_pos. unfold written, taken, cstate_ok in *. cbn in *.
  rewrite ?app_nil_r, ?vsize_snoc in *. destruct wi_cstate0 as [-> Hlt], wi_cown0 as [Hhd Hrd].
  pose proof (mo_size _ _ _ _ _ _ _ wi_heads0) as Hhs. cbn in Hhs.
  destruct (messages_ok_store slot (vsize us) (vsize os) (vsize (written (MkWeak mem p c ps CIdle us os))) (vsize os + 1)
    (vsize us) (vsize os + 1) Head (heads mem) c (weak_next (mask q0) (slot (vsize os))) wi_heads0 wi_cview0)
    as [Hheads Hview]; [lia|lia|lia|by rewrite slot_next, Hhs|].
  pose proof (vo_head _ _ _ _ _ wi_cview0).
  constructor; unfold written, taken, cstate_ok; cbn; rewrite ?app_nil_r, ?vsize_snoc; try done; try lia.
  - eapply messages_ok_mono; eauto; lia.
  - eapply view_ok_mono; eauto; lia.
  - intros k y Hk. apply wi_contents0. lia.
Qed.


(** A thread reads back its own newest message. *)
Lemma own_index n m w r mem l v k x v' :
  messages_ok slot n m w r l (history mem l) ->
  load_relaxed mem l v k = Some (x, v') ->
  seen v l = match l with Head => m | Tail => n end -> x = slot (seen v l) /\ v' = v.
Proof.
  intros [Hs He] Hl Hseen. apply load_relaxed_inv in Hl as (msg & Hk & Hle & -> & ->).
  pose proof (vlook_Some_lt _ _ _ Hk). assert (k = seen v l) as -> by (destruct l; lia).
  destruct (He _ msg Hk) as (-> & _). split; [done|].
  destruct v, l; cbn; by rewrite Z.max_id.
Qed.

Lemma push_load_inv mem p c cs us os x k t p' :
  weak_inv (MkWeak mem p c PIdle cs us os) -> load_relaxed mem Tail p k = Some (t, p') ->
  weak_inv (MkWeak mem p' c (PLoaded x t) cs us os).
Proof.
  intros Hi Hl. pose proof (proj1 (wi_pown _ Hi)) as Hown. cbn in Hown.
  destruct (own_index _ _ _ _ _ _ _ _ _ _ (wi_tails _ Hi) Hl Hown) as [-> ->].
  eapply producer_load_inv; [exact Hi|done|done| |lia|lia|lia|by cbn in *; rewrite Hown].
  pose proof (wi_pview _ Hi) as Hv. unfold written in Hv. cbn in Hv. by rewrite app_nil_r in Hv.
Qed.

Lemma pop_load_inv mem p c ps us os k h c' :
  weak_inv (MkWeak mem p c ps CIdle us os) -> load_relaxed mem Head c k = Some (h, c') ->
  weak_inv (MkWeak mem p c' ps (CLoaded h) us os).
Proof.
  intros Hi Hl. pose proof (proj1 (wi_cown _ Hi)) as Hown. cbn in Hown.
  destruct (own_index _ _ _ _ _ _ _ _ _ _ (wi_heads _ Hi) Hl Hown) as [-> ->].
  eapply consumer_load_inv; [exact Hi|done|done| |lia|lia|lia|by cbn in *; rewrite Hown].
  pose proof (wi_cview _ Hi) as Hv. unfold taken in Hv. cbn in Hv. by rewrite app_nil_r in Hv.
Qed.

(** After the acquire load of [head_]: full, or room for one more. *)
Lemma push_acquire_inv mem p c cs us os x t k h p' ps' :
  weak_inv (MkWeak mem p c (PLoaded x t) cs us os) -> load_acquire mem Head p k = Some (h, p') ->
  ps' = PIdle \/ (ps' = PReady x t /\ weak_next (mask q0) t <> h) ->
  weak_inv (MkWeak mem p' c ps' cs us os).
Proof using Hq0.
  intros Hi Hl Hps. pose proof N_pos. pose proof (wi_pview _ Hi) as Hv.
  destruct (load_acquire_ok _ _ _ _ _ _ _ _ _ _ _ (wi_heads _ Hi) Hv Hl) as (-> & Hv' & Hh & Ht & Hw & Hr).
  pose proof (wi_pstate _ Hi) as Hst. pose proof (wi_room _ Hi) as Hroom. pose proof (vo_head _ _ _ _ _ Hv').
  pose proof (vo_tail _ _ _ _ _ (wi_cview _ Hi)). pose proof (wi_popped _ Hi).
  unfold written in Hv'. cbn in *. rewrite app_nil_r in Hv'. subst t.
  eapply producer_load_inv; [exact Hi|done| |exact Hv'|lia|lia|lia|].
  - destruct Hps as [->|[-> _]]; done.
  - destruct Hps as [->|[-> Hne]]; [done|]. cbn. split; [done|]. rewrite slot_next in Hne.
    destruct (decide (vsize us = seen_head p' + N - 1)) as [E|]; [|lia].
    destruct Hne. replace (vsize us + 1) with (seen_head p' + N) by lia. apply slot_wrap.
Qed.

Lemma pop_acquire_inv mem p c ps us os h k t c' cs' :
  weak_inv (MkWeak mem p c ps (CLoaded h) us os) -> load_acquire mem Tail c k = Some (t, c') ->
  cs' = CIdle \/ (cs' = CReady h /\ h <> t) ->
  weak_inv (MkWeak mem p c' ps cs' us os).
Proof using Hq0.
  intros Hi Hl Hcs. pose proof N_pos. pose proof (wi_cview _ Hi) as Hv.
  destruct (load_acquire_ok _ _ _ _ _ _ _ _ _ _ _ (wi_tails _ Hi) Hv Hl) as (-> & Hv' & Ht & Hh & Hw & Hr).
  pose proof (wi_cstate _ Hi) as Hst. pose proof (wi_popped _ Hi).
  unfold taken in Hv'. cbn in *. rewrite app_nil_r in Hv'. subst h.
  eapply consumer_load_inv; [exact Hi|done| |exact Hv'|lia|lia|lia|].
  - destruct Hcs as [->|[-> _]]; done.
  - destruct Hcs as [->|[-> Hne]]; [done|]. cbn. split; [done|].
    destruct (decide (vsize os = seen_tail c')) as [E|]; [by rewrite E in Hne|lia].
Qed.

Lemma weak_step_inv s s' : weak_inv s -> weak_step (mask q0) s s' -> weak_inv s'.
Proof using Hq0.
  intros Hi Hs. destruct Hs;
    eauto using push_load_inv, push_write_inv, push_publish_inv, pop_load_inv, pop_read_inv, pop_release_inv.
  - eapply push_acquire_inv; eauto.
  - eapply push_acquire_inv; eauto.
  - eapply pop_acquire_inv; eauto.
  - eapply pop_acquire_inv; eauto.
Qed.

Lemma weak_reaches_inv s : weak_reaches q0 s -> weak_inv s.
Proof using Hq0. induction 1; [apply weak_start_inv|by eapply weak_step_inv]. Qed.

(** *** What the invariant gives *)

Lemma weak_fifo s : weak_inv s ->
  exists items, w_pushed s = w_popped s ++ items /\ vsize items <= N - 1.
Proof.
  intros [].
  assert (Hle : vsize (w_popped s) <= vsize (w_pushed s)).
  { destruct wi_cview0. lia. }
  exists (drop (length (w_popped s)) (w_pushed s)). split.
  - apply list_eq. intros i. destruct (decide (i < length (w_popped s))%nat).
    + rewrite lookup_app_l by done. destruct (lookup_lt_is_Some_2 (w_popped s) i) as [x Hx]; [done|].
      rewrite Hx. assert (Hk : (taken s).[Z.of_nat i] = Some x).
      { unfold taken. apply vlook_app_Some. by apply vlook_nat. }
      apply wi_taken0 in Hk. by apply vlook_nat.
    + rewrite lookup_app_r by lia. rewrite lookup_drop. f_equal. lia.
  - unfold vsize in *. rewrite length_drop. destruct wi_pview0. lia.
Qed.

Lemma weak_no_race s : weak_inv s -> ~ racing s.
Proof using Hq0.
  intros [] [(x & t & Ep & cell & Hc & Hr)|(h & Ec & cell & Hc & Hr)]; pose proof N_pos.
  - unfold pstate_ok in wi_pstate0. rewrite Ep in wi_pstate0. destruct wi_pstate0 as [-> Hroom].
    destruct wi_pview0, wi_cview0. unfold cstate_ok, taken in *.
    rewrite <- (Z.sub_add N (vsize (w_pushed s))), slot_wrap in Hc.
    apply wi_reads0 in Hc; [lia|].
    destruct (cstate s); rewrite ?app_nil_r, ?vsize_snoc in *; lia.
  - unfold cstate_ok in wi_cstate0. rewrite Ec in wi_cstate0. destruct wi_cstate0 as [-> Hlt].
    destruct wi_pview0, wi_cview0. unfold pstate_ok, written in *.
    apply wi_writes0 in Hc; [unfold vsize in *; lia|].
    destruct (pstate s); rewrite ?app_nil_r, ?vsize_snoc in *; lia.
Qed.

(** A reader about to access the buffer gets the oldest item. *)
Lemma weak_read_ok s h : weak_inv s -> cstate s = CReady h ->
  exists x mem c, read_cell (memory s) (cview s) h = Ok (x, mem, c) /\
    (w_pushed s).[vsize (w_popped s)] = Some x.
Proof.
  intros [] Ec. unfold cstate_ok in wi_cstate0. rewrite Ec in wi_cstate0. destruct wi_cstate0 as [-> Hlt].
  destruct (vlook_lt_is_Some (w_pushed s) (vsize (w_popped s))) as [y Hy].
  { destruct wi_cview0. unfold vsize in *. lia. }
  destruct (wi_contents0 (vsize (w_popped s)) y) as (cell & Hcell & <-); [lia|by apply vlook_app_Some|].
  unfold read_cell. rewrite (vget_ok _ _ _ Hcell). cbn. by eexists _, _, _.
Qed.

Lemma weak_write_ok s x t : weak_inv s -> pstate s = PReady x t ->
  exists mem p, write_cell (memory s) (pview s) t x = Ok (mem, p).
Proof using Hq0.
  intros [] Ep. unfold pstate_ok in wi_pstate0. rewrite Ep in wi_pstate0. destruct wi_pstate0 as [-> _].
  destruct (vlook_lt_is_Some (cells (memory s)) (slot (vsize (w_pushed s)))) as [cell Hcell].
  { rewrite wi_cells0. apply slot_range. }
  unfold write_cell. rewrite (vget_ok _ _ _ Hcell). cbn. by eexists _, _.
Qed.

(** A load of the newest index decides the test exactly. *)
Lemma weak_full_fresh s items x t h p : weak_inv s -> w_pushed s = w_popped s ++ items ->
  pstate s = PLoaded x t -> load_acquire (memory s) Head (pview s) (vsize (w_popped s)) = Some (h, p) ->
  (weak_next (mask q0) t = h <-> vsize items = N - 1).
Proof using Hq0.
  intros [] Hf Ep Hl. pose proof N_pos. unfold pstate_ok in wi_pstate0. rewrite Ep in wi_pstate0. subst t.
  apply load_acquire_inv in Hl as (msg & Hk & _ & -> & _). cbn in Hk.
  destruct (mo_each _ _ _ _ _ _ _ wi_heads0 _ _ Hk) as (-> & _). rewrite slot_next.
  assert (Hsz : vsize (w_pushed s) = vsize (w_popped s) + vsize items).
  { rewrite Hf. unfold vsize. rewrite length_app. lia. }
  destruct wi_pview0. split.
  - intros E. destruct (decide (vsize items = N - 1)) as [|Hne]; [done|].
    apply (slot_inj (vsize (w_popped s))) in E; unfold vsize in *; lia.
  - intros E. replace (vsize (w_pushed s) + 1) with (vsize (w_popped s) + N) by lia. apply slot_wrap.
Qed.

Lemma weak_empty_fresh s items h t c : weak_inv s -> w_pushed s = w_popped s ++ items ->
  cstate s = CLoaded h -> load_acquire (memory s) Tail (cview s) (vsize (w_pushed s)) = Some (t, c) ->
  (h = t <-> items = []).
Proof using Hq0.
  intros [] Hf Ec Hl. pose proof N_pos. unfold cstate_ok in wi_cstate0. rewrite Ec in wi_cstate0. subst h.
  apply load_acquire_inv in Hl as (msg & Hk & _ & -> & _). cbn in Hk.
  destruct (mo_each _ _ _ _ _ _ _ wi_tails0 _ _ Hk) as (-> & _).
  assert (Hsz : vsize (w_pushed s) = vsize (w_popped s) + vsize items).
  { rewrite Hf. unfold vsize. rewrite length_app. lia. }
  destruct wi_pview0. split.
  - intros E. apply (slot_inj (vsize (w_popped s))) in E; [|unfold vsize in *; lia..].
    destruct items; [done|]. unfold vsize in *. cbn in *. lia.
  - intros ->. unfold vsize in *. cbn in *. f_equal. lia.
Qed.
End Protocol.
