(* ===== verification/Runner.v ===== *)
(** * Runner: the single-writer engine loops
      (include/dme/engine_runner.hpp, include/dme/gateway.hpp,
       src/gateway.cpp [GatewayEngineRunner::run])

    Both loops pop a request, journal its command, process it and push every
    event, waiting for space.  They differ in how a request becomes a command
    ([command_of]) and an event becomes a response ([respond]); the gateway's
    runner numbers the commands.  [rstep] interleaves the loop with the
    producer of its input and the consumer of its output, at the grain of the
    queue operations. *)
From Stdlib Require Import ZArith Lia.
From stdpp Require Import base numbers gmap list.
From S2P Require Import Prelude Types OrderIndex FixedHash OrderBook BookSpec SpecFacts.
From S2P Require Import BookRefine SpecStep SpecInv BookRun Engine Spsc.
Local Open Scope Z_scope.

(** [GatewayRequest] and [GatewayResponse]. *)
Record GatewayRequest : Set := MkGatewayRequest {
  gq_session_id : Z;
  gq_client_sequence : Z;
  gq_command : Command }.

Record GatewayResponse : Set := MkGatewayResponse {
  gs_session_id : Z;
  gs_client_sequence : Z;
  gs_event : Event }.

(** [incoming.command.sequence = next_engine_sequence_++]. *)
Definition set_sequence (c : Command) (s : Z) : Command :=
  MkCommand s (c_type c) (c_side c) (c_order_type c) (c_reserved c) (c_order_id c) (c_price c)
    (c_quantity c).
Definition gateway_admit (next : Z) (r : GatewayRequest) : Command := set_sequence (gq_command r) next.
Definition gateway_respond (r : GatewayRequest) (e : Event) : GatewayResponse :=
  MkGatewayResponse (gq_session_id r) (gq_client_sequence r) e.

(** [EngineRunner] takes commands as they come. *)
Definition engine_admit (next : Z) (c : Command) : Command := c.
Definition engine_respond (c : Command) (e : Event) : Event := e.

Section Runner.
Context {Req Resp : Type} (command_of : Z -> Req -> Command) (respond : Req -> Event -> Resp).

Inductive Phase : Type :=
  | Polling                                   (* at the head of the loop *)
  | Publishing (incoming : Req) (events : list Event)
  | Stopped.

Record Runner : Type := MkRunner {
  r_book : Engine;
  r_input : SpscQueue Req;
  r_output : SpscQueue Resp;
  r_journal : option (list Command);          (* records appended, if attached *)
  r_next : Z;                                 (* next_engine_sequence_ *)
  r_phase : Phase }.

(** [if (journal_ != nullptr) journal_->append(command)]. *)
Definition journal_append (j : option (list Command)) (c : Command) : option (list Command) :=
  (fun records => records ++ [c]) <$> j.

(** The constructors; only the gateway's runner uses the counter. *)
Definition make_runner (b : Engine) (input : SpscQueue Req) (output : SpscQueue Resp)
    (journal : option (list Command)) : Runner :=
  MkRunner b input output journal (u64 (last_sequence (stats b) + 1)) Polling.

(** The body of the loop after a successful pop. *)
Definition handle (r : Runner) (input : SpscQueue Req) (incoming : Req) : result Runner :=
  let command := command_of (r_next r) incoming in
  '(b, events) ← process (r_book r) command [];
  Ok (MkRunner b input (r_output r) (journal_append (r_journal r) command) (u64 (r_next r + 1))
        (Publishing incoming events)).

(** [received], [published] and [drained] record what went through: requests
    popped by the loop, responses pushed by it, responses popped by the
    consumer. *)
Record World : Type := MkWorld {
  runner : Runner;
  received : list Req;
  published : list Resp;
  drained : list Resp }.

(** A loop that has not started. *)
Definition start (b : Engine) (input : SpscQueue Req) (output : SpscQueue Resp)
    (journal : option (list Command)) : World :=
  MkWorld (make_runner b input output journal) [] [] [].

(** Quantities of requests fit their C++ type. *)
Definition request_fits (v : Req) : Prop := forall n, is_u64 (c_quantity (command_of n v)).

Inductive rstep : World -> World -> Prop :=
  | env_push b iq oq j n ph rs ps ds v iq' : request_fits v -> try_push iq v = Ok (iq', true) ->
      rstep (MkWorld (MkRunner b iq oq j n ph) rs ps ds) (MkWorld (MkRunner b iq' oq j n ph) rs ps ds)
  | env_pop b iq oq j n ph rs ps ds v oq' : try_pop oq = Ok (oq', Some v) ->
      rstep (MkWorld (MkRunner b iq oq j n ph) rs ps ds)
            (MkWorld (MkRunner b iq oq' j n ph) rs ps (ds ++ [v]))
  | run_pop r rs ps ds v iq' r' : r_phase r = Polling -> try_pop (r_input r) = Ok (iq', Some v) ->
      handle r iq' v = Ok r' ->
      rstep (MkWorld r rs ps ds) (MkWorld r' (rs ++ [v]) ps ds)
  | run_push b iq oq j n rs ps ds v e es oq' : try_push oq (respond v e) = Ok (oq', true) ->
      rstep (MkWorld (MkRunner b iq oq j n (Publishing v (e :: es))) rs ps ds)
            (MkWorld (MkRunner b iq oq' j n (Publishing v es)) rs (ps ++ [respond v e]) ds)
  | run_loop b iq oq j n rs ps ds v :
      rstep (MkWorld (MkRunner b iq oq j n (Publishing v [])) rs ps ds)
            (MkWorld (MkRunner b iq oq j n Polling) rs ps ds)
  | run_stop b iq oq j n rs ps ds :
      rstep (MkWorld (MkRunner b iq oq j n Polling) rs ps ds)
            (MkWorld (MkRunner b iq oq j n Stopped) rs ps ds)
  | run_abandon b iq oq j n rs ps ds v e es oq' : try_push oq (respond v e) = Ok (oq', false) ->
      rstep (MkWorld (MkRunner b iq oq j n (Publishing v (e :: es))) rs ps ds)
            (MkWorld (MkRunner b iq oq j n Stopped) rs ps ds).

Inductive runs (w0 : World) : World -> Prop :=
  | runs_start : runs w0 w0
  | runs_step w w' : runs w0 w -> rstep w w' -> runs w0 w'.

(** The counter after [k] increments. *)
Fixpoint advance (next : Z) (k : nat) : Z :=
  match k with O => next | S k => advance (u64 (next + 1)) k end.

Lemma advance_snoc next k : advance next (k + 1) = u64 (advance next k + 1).
Proof. revert next. induction k as [|k IH]; intros next; [done|]. cbn. apply IH. Qed.

(** Numbering of the received requests. *)
Fixpoint numbered (next : Z) (rs : list Req) : list Command :=
  match rs with [] => [] | r :: rs => command_of next r :: numbered (u64 (next + 1)) rs end.

(** The responses that a stream of requests is owed. *)
Fixpoint owed (sb : SpecBook) (next : Z) (rs : list Req) : list Resp :=
  match rs with
  | [] => []
  | r :: rs =>
    let '(sb', ev) := spec_process machine_fill sb (command_of next r) in
    (respond r <$> ev) ++ owed sb' (u64 (next + 1)) rs
  end.

Definition pending (ph : Phase) : list Resp :=
  match ph with Publishing v es => respond v <$> es | _ => [] end.

Lemma numbered_app next rs1 rs2 :
  numbered next (rs1 ++ rs2) =
    numbered next rs1 ++ numbered (advance next (length rs1)) rs2.
Proof.
  revert next. induction rs1 as [|r rs1 IH]; intros next; [done|].
  cbn [app numbered length]. by rewrite IH.
Qed.

Lemma numbered_fits next rs : Forall request_fits rs -> quantities_u64 (numbered next rs).
Proof.
  intros H. revert next. induction H as [|r rs Hr _ IH]; intros next; constructor; [apply Hr|apply IH].
Qed.

Lemma owed_snoc sb next rs r : owed sb next (rs ++ [r]) =
  owed sb next rs ++ (respond r <$>
    (spec_process machine_fill (spec_run machine_fill sb (numbered next rs)).1
       (command_of (advance next (length rs)) r)).2).
Proof.
  revert sb next. induction rs as [|x rs IH]; intros sb next; cbn [app owed numbered spec_run length].
  { cbn. destruct (spec_process _ _ _). cbn. by rewrite app_nil_r. }
  destruct (spec_process machine_fill sb (command_of next x)) as [sb1 ev1]. rewrite IH, <- app_assoc.
  destruct (spec_run machine_fill sb1 _) as [sb2 ev2]. done.
Qed.

Lemma spec_run_snoc fill sb cmds c : (spec_run fill sb (cmds ++ [c])).1 =
  (spec_process fill (spec_run fill sb cmds).1 c).1.
Proof.
  revert sb. induction cmds as [|x cmds IH]; intros sb; cbn.
  { by destruct (spec_process fill sb c). }
  destruct (spec_process fill sb x) as [sb1 ev1]. specialize (IH sb1).
  destruct (spec_run fill sb1 (cmds ++ [c])) as [sb2 ev2], (spec_run fill sb1 cmds) as [sb3 ev3].
  done.
Qed.
End Runner.
Arguments Polling {Req}. Arguments Stopped {Req}. Arguments Publishing {Req}.
Arguments MkRunner {Req Resp}. Arguments MkWorld {Req Resp}.
Arguments r_book {Req Resp}. Arguments r_input {Req Resp}. Arguments r_output {Req Resp}.
Arguments r_journal {Req Resp}. Arguments r_next {Req Resp}. Arguments r_phase {Req Resp}.
Arguments runner {Req Resp}. Arguments received {Req Resp}. Arguments published {Req Resp}.
Arguments drained {Req Resp}.

(** The executions of the two loops. *)
Definition gateway_runs : @World GatewayRequest GatewayResponse -> World -> Prop :=
  runs gateway_admit gateway_respond.
Definition engine_runs : @World Command Event -> World -> Prop := runs engine_admit engine_respond.

(** ** The invariant of the loop *)

Section Invariant.
Context {Req Resp : Type} (command_of : Z -> Req -> Command) (respond : Req -> Event -> Resp).
Context (cfg : BookConfig) (sb0 : SpecBook) (n0 : Z) (j0 : option (list Command)).

Record world_inv (w : World) (ins : list Req) (outs : list Resp) (sb : SpecBook) : Prop := {
  wi_model : models cfg (r_book (runner w)) sb;
  wi_input : holds (r_input (runner w)) ins;
  wi_fits : Forall (request_fits command_of) ins /\ Forall (request_fits command_of) (received w);
  wi_output : holds (r_output (runner w)) outs;
  wi_next : r_next (runner w) = advance n0 (length (received w));
  wi_journal : r_journal (runner w) =
    (fun records => records ++ numbered command_of n0 (received w)) <$> j0;
  wi_spec : sb = (spec_run machine_fill sb0 (numbered command_of n0 (received w))).1;
  wi_published : exists dropped,
    owed command_of respond sb0 n0 (received w) = published w ++ pending respond (r_phase (runner w)) ++ dropped /\
    (r_phase (runner w) <> Stopped -> dropped = []);
  wi_drained : published w = drained w ++ outs }.

Lemma handle_ok (r : @Runner Req Resp) sb iq v : models cfg (r_book r) sb ->
  request_fits command_of v ->
  exists b' sb' ev, spec_process machine_fill sb (command_of (r_next r) v) = (sb', ev) /\
    models cfg b' sb' /\
    handle command_of r iq v = Ok (MkRunner b' iq (r_output r) (journal_append (r_journal r) (command_of (r_next r) v))
      (u64 (r_next r + 1)) (Publishing v ev)).
Proof.
  intros H Hv. destruct (process_models cfg (r_book r) sb (command_of (r_next r) v) [] H (Hv _))
    as (b' & sb' & ev & Hp & Hs & H').
  exists b', sb', ev. split_and!; auto. unfold handle. by rewrite Hp.
Qed.

Lemma rstep_inv w w' ins outs sb : world_inv w ins outs sb -> rstep command_of respond w w' ->
  exists ins' outs' sb', world_inv w' ins' outs' sb'.
Proof.
  intros [Hm Hi [Hfi Hfr] Ho Hn Hj Hs (dr & Hp & Hd) Hdr] Hstep. destruct Hstep; cbn in *.
  - exists (ins ++ [v]), outs, sb. constructor; cbn; auto; [| |by exists dr].
    + destruct (try_push_ok iq ins v Hi) as [(_ & q' & Hq & Hh & _)|[_ Hq]]; [|congruence].
      rewrite H0 in Hq. by injection Hq as <-.
    + split; [|done]. apply Forall_app. split; [done|]. by apply Forall_singleton.
  - pose proof (try_pop_ok oq outs Ho) as Hq. destruct outs as [|x outs]; [congruence|].
    destruct Hq as (q' & Hq & Hh & _). rewrite H in Hq. injection Hq as <- <-.
    exists ins, outs, sb. constructor; cbn; auto; [by exists dr|]. by rewrite <- app_assoc.
  - pose proof (try_pop_ok (r_input r) ins Hi) as Hq. destruct ins as [|x ins]; [congruence|].
    destruct Hq as (q' & Hq & Hh & _). rewrite H0 in Hq. injection Hq as <- <-.
    apply Forall_cons in Hfi as [Hfv Hfi].
    destruct (handle_ok r sb iq' v Hm Hfv) as (b' & sb' & ev & Hsp & Hm' & Hh').
    rewrite Hh' in H1. injection H1 as <-.
    exists ins, outs, sb'. rewrite Hs in Hsp. rewrite Hn in Hsp |- *.
    constructor; cbn; auto.
    + split; [done|]. apply Forall_app. split; [done|]. by apply Forall_singleton.
    + rewrite length_app. cbn [length]. by rewrite advance_snoc.
    + rewrite Hj, numbered_app. destruct j0; [|done]. cbn. by rewrite app_assoc.
    + rewrite numbered_app. cbn [numbered]. by rewrite spec_run_snoc, Hsp.
    + rewrite H in Hp, Hd. cbn in Hp. rewrite (Hd ltac:(done)), app_nil_r in Hp.
      exists []. split; [|done]. rewrite owed_snoc, Hp, Hsp. by rewrite app_nil_r.
  - exists ins, (outs ++ [respond v e]), sb. constructor; cbn; auto.
    + destruct (try_push_ok oq outs (respond v e) Ho) as [(_ & q' & Hq & Hh & _)|[_ Hq]]; [|congruence].
      rewrite H in Hq. by injection Hq as <-.
    + exists dr. split; [|intros _; by apply Hd]. by rewrite Hp, <- app_assoc.
    + by rewrite Hdr, app_assoc.
  - exists ins, outs, sb. constructor; cbn; auto. exists dr. split; [done|]. intros _. by apply Hd.
  - exists ins, outs, sb. constructor; cbn; auto. exists dr. done.
  - exists ins, outs, sb. constructor; cbn; auto. exists (respond v e :: (respond v <$> es) ++ dr). done.
Qed.

(** The loop keeps going: with a request at hand it processes it, with a full
    output it waits for the consumer, which finds something to take. *)
Lemma world_progress w ins outs sb : world_inv w ins outs sb ->
  match r_phase (runner w) with
  | Polling => try_pop (r_input (runner w)) = Ok (r_input (runner w), None) \/
      exists v iq' r', try_pop (r_input (runner w)) = Ok (iq', Some v) /\
        handle command_of (runner w) iq' v = Ok r'
  | Publishing v (e :: es) =>
      (exists oq', try_push (r_output (runner w)) (respond v e) = Ok (oq', true)) \/
      try_push (r_output (runner w)) (respond v e) = Ok (r_output (runner w), false) /\
      exists x oq', try_pop (r_output (runner w)) = Ok (oq', Some x)
  | _ => True
  end.
Proof.
  intros [Hm Hi [Hfi _] Ho _ _ _ _ _]. destruct (r_phase (runner w)) as [|v [|e es]|]; [|done| |done].
  - pose proof (try_pop_ok _ ins Hi) as Hq. destruct ins as [|v ins]; [by left|right].
    destruct Hq as (iq' & Hq & _). apply Forall_cons in Hfi as [Hv _].
    destruct (handle_ok _ sb iq' v Hm Hv) as (b' & sb' & ev & _ & _ & Hh). by eauto.
  - pose proof (try_push_ok _ outs (respond v e) Ho) as Hp. pose proof (try_pop_ok _ outs Ho) as Hq.
    destruct Hp as [(_ & q' & Hp & _)|[Hf Hp]]; [left; by eauto|right]. split; [done|].
    pose proof (slots_pos _ _ Ho). destruct outs as [|x outs]; [unfold vsize in Hf; cbn in Hf; lia|].
    destruct Hq as (q' & Hq & _). by eauto.
Qed.

Lemma runs_inv w0 w ins outs : world_inv w0 ins outs sb0 -> runs command_of respond w0 w ->
  exists ins' outs' sb', world_inv w ins' outs' sb'.
Proof.
  intros H0. induction 1 as [|w w' _ (ins' & outs' & sb' & IH) Hs]; [by eauto|].
  by eapply rstep_inv.
Qed.
End Invariant.

Lemma start_inv {Req Resp : Type} (command_of : Z -> Req -> Command) (respond : Req -> Event -> Resp)
    cfg b sb iq oq j : models cfg b sb -> holds iq [] -> holds oq [] ->
  world_inv command_of respond cfg sb (u64 (last_sequence (stats b) + 1)) j (start b iq oq j) [] [] sb.
Proof.
  intros Hm Hi Ho. constructor; cbn; auto.
  - destruct j as [l|]; [|done]. cbn. by rewrite app_nil_r.
  - by exists [].
Qed.

(** ** Commands that are in sequence *)

Definition from_command (c : Command) (e : Event) : Prop :=
  e_sequence e = c_sequence c /\ e_reason e <> SequenceGap.

Lemma spec_match_from fuel c limit remaining l l' trades rest :
  spec_match fuel c limit remaining l = (l', trades, rest) -> Forall (from_command c) trades.
Proof.
  revert remaining l l' trades rest.
  induction fuel as [|fuel IH]; intros remaining l l' trades rest; cbn [spec_match].
  { intros [= <- <- <-]. constructor. }
  case_match; [|by intros [= <- <- <-]; constructor].
  case_match; [|by intros [= <- <- <-]; constructor].
  destruct (spec_match fuel _ _ _ _) as [[l1 tr] rs] eqn:E. intros [= <- <- <-].
  constructor; [done|]. by eapply IH.
Qed.

Lemma executes_from cfg l c l' ev : executes cfg l c l' ev -> Forall (from_command c) ev.
Proof.
  intros [l1 tr H1|l1 tr rest H1 Hr Hl|l1 tr rest H1 Hr Hl];
    pose proof (spec_match_from _ _ _ _ _ _ _ _ H1) as Ht; [done|..];
    (apply Forall_app; split; [done|]); by apply Forall_singleton.
Qed.

(** The next command in sequence is never refused for its number; its events
    carry it. *)
Lemma spec_process_in_sequence fill sb c sb' ev :
  c_sequence c = u64 (last_sequence (sb_stats sb) + 1) -> spec_process fill sb c = (sb', ev) ->
  last_sequence (sb_stats sb') = c_sequence c /\ Forall (from_command c) ev.
Proof.
  intros Hs. unfold spec_process. rewrite (proj2 (Z.eqb_eq _ _) Hs). cbn [negb].
  set (sb1 := MkSpec _ _ _). assert (Hl : last_sequence (sb_stats sb1) = c_sequence c) by done.
  clearbody sb1.
  assert (Hrej : forall reason, reason <> SequenceGap -> spec_reject sb1 c reason = (sb', ev) ->
    last_sequence (sb_stats sb') = c_sequence c /\ Forall (from_command c) ev).
  { intros reason Hr [= <- <-]. split; [done|]. by apply Forall_singleton. }
  assert (Hexec : forall sb2 c2 sb3 ev3, last_sequence (sb_stats sb2) = c_sequence c ->
    c_sequence c2 = c_sequence c -> spec_execute sb2 c2 = (sb3, ev3) ->
    last_sequence (sb_stats sb3) = c_sequence c /\ Forall (from_command c) ev3).
  { intros sb2 c2 sb3 ev3 H2 Hc2 E. pose proof (spec_execute_step sb2 c2) as He. rewrite E in He.
    destruct He as (He & _ & Hst & _). split.
    - rewrite Hst. cbn. unfold add_trades. rewrite iter_last_sequence; done.
    - eapply Forall_impl; [by eapply executes_from|]. unfold from_command. intros e [H1 H3].
      by rewrite <- Hc2. }
  destruct (c_type c).
  - unfold spec_submit. repeat (case_match; [by apply Hrej|]).
    destruct (spec_execute sb1 c) as [sb3 ev3] eqn:E. intros [= <- <-].
    destruct (Hexec _ _ _ _ Hl eq_refl E) as [He1 He2]. split; [done|]. by constructor.
  - unfold spec_cancel. case_match; [|by apply Hrej]. intros [= <- <-].
    split; [done|]. by apply Forall_singleton.
  - unfold spec_replace. destruct (find_order _ _) as [o|]; [|by apply Hrej].
    repeat (case_match; [by apply Hrej|]).
    destruct (spec_execute _ _) as [sb3 ev3] eqn:E. intros [= <- <-].
    destruct (Hexec (spec_remove sb1 (c_order_id c)) (replacement_of c (ro_side o)) _ _ Hl eq_refl E) as [He1 He2]. split; [done|]. by constructor.
Qed.

(** The plain loop takes commands and publishes events as they are. *)
Lemma engine_numbered next cs : numbered engine_admit next cs = cs.
Proof. revert next. induction cs as [|c cs IH]; intros next; [done|]. cbn. by rewrite IH. Qed.

Lemma engine_owed sb next cs :
  owed engine_admit engine_respond sb next cs = (spec_run machine_fill sb cs).2.
Proof.
  revert sb next. induction cs as [|c cs IH]; intros sb next; [done|]. cbn [owed spec_run].
  unfold engine_admit. destruct (spec_process machine_fill sb c) as [sb1 ev1]. rewrite IH.
  destruct (spec_run machine_fill sb1 cs) as [sb2 ev2]. cbn. f_equal. by apply list_fmap_id.
Qed.

(** Numbered from the book's own sequence, no request meets a gap. *)
Lemma owed_in_sequence rs sb next : next = u64 (last_sequence (sb_stats sb) + 1) ->
  Forall (fun r : GatewayResponse => e_reason (gs_event r) <> SequenceGap)
    (owed gateway_admit gateway_respond sb next rs).
Proof.
  revert sb next. induction rs as [|r rs IH]; intros sb next Hn; cbn [owed]; [constructor|].
  destruct (spec_process machine_fill sb (gateway_admit next r)) as [sb' ev] eqn:E.
  destruct (spec_process_in_sequence _ _ _ _ _ (Hn : c_sequence (gateway_admit next r) = _) E)
    as [Hl Hev].
  apply Forall_app. split.
  - apply Forall_fmap. eapply Forall_impl; [exact Hev|]. intros e [_ He]. done.
  - apply IH. by rewrite Hl.
Qed.
