(* ===== verification/WireTheorems.v ===== *)
(** * WireTheorems: the properties of the protocol and of session validation *)
From Stdlib Require Import ZArith Lia.
From stdpp Require Import base numbers list.
From S2P Require Import Prelude Types Bytes Protocol ProtocolFacts Gateway.
Local Open Scope Z_scope.

(** Instances for the concrete runs. *)
Definition demo_request : Request :=
  MkRequest 7 1 (MkCommand 0 New Sell FillOrKill 0 42 (-5) 900).

Lemma demo_request_ok : request_ok demo_request.
Proof. repeat split; vm_compute; intuition discriminate. Qed.

Definition demo_response : Response :=
  MkResponse 7 3 (MkEvent 12 Trade Buy NoReason 0 42 41 (-5) 3).

Lemma demo_response_ok : response_ok demo_response.
Proof. repeat split; vm_compute; intuition discriminate. Qed.

(** ** Codecs *)

(** C28: Request round trip: every sendable request fits any buffer of at least
    its frame size; the encoder writes exactly that many bytes and leaves the
    rest of the buffer alone; and decoding the buffer, whatever follows the
    frame, gives back the session, the client sequence and the command as it
    travels, with every field of every width, and consumes the frame. *)
Theorem request_round_trip (r : Request) (d : list Z) :
  request_ok r -> request_frame_size (c_type (rq_command r)) <= vsize d ->
  let n := request_frame_size (c_type (rq_command r)) in
  exists d', encode_request r d = Ok (true, n, d') /\ vsize d' = vsize d /\
    (forall j, n <= j -> d'.[j] = d.[j]) /\
    decode_request d' = Ok (MkRequestDecode DecodeOk n
      (MkRequest (rq_session_id r) (rq_client_sequence r) (wire_command (rq_command r)))).
Proof.
  intros Hr Hd n. destruct (encode_request_ok r d Hr Hd) as (d' & He & Hs & Hh & Hp & Hout).
  exists d'. split_and!; auto. destruct Hr as [[_ Hs0] [_ Hq0] _ Hid].
  eapply decode_request_ok; eauto; [by rewrite Hs|]. unfold wire_command. by destruct (c_type _).
Qed.

Lemma request_round_trip_witness :
  exists d', encode_request demo_request (replicate 60 0) = Ok (true, 52, d') /\
    vsize d' = vsize (replicate 60 0) /\
    (forall j, 52 <= j -> d'.[j] = (replicate 60 0).[j]) /\
    decode_request d' = Ok (MkRequestDecode DecodeOk 52
      (MkRequest 7 1 (wire_command (rq_command demo_request)))).
Proof.
  apply (request_round_trip demo_request (replicate 60 0)); [apply demo_request_ok|].
  vm_compute. discriminate.
Defined.

(** Response round trip: an execution event of declared widths survives
    encoding and decoding unchanged, up to its reserved byte, in exactly 68
    bytes. *)
Theorem response_round_trip (r : Response) (d : list Z) :
  response_ok r -> response_frame_size <= vsize d ->
  exists d', encode_response r d = Ok (true, response_frame_size, d') /\ vsize d' = vsize d /\
    (forall j, response_frame_size <= j -> d'.[j] = d.[j]) /\
    decode_response d' = Ok (MkResponseDecode DecodeOk response_frame_size
      (MkResponse (rs_session_id r) (rs_client_sequence r) (wire_event (rs_event r)))).
Proof. apply response_round_trip_ok. Qed.

Lemma response_round_trip_witness :
  exists d', encode_response demo_response (replicate 68 0) = Ok (true, 68, d') /\
    vsize d' = vsize (replicate 68 0) /\
    (forall j, 68 <= j -> d'.[j] = (replicate 68 0).[j]) /\
    decode_response d' = Ok (MkResponseDecode DecodeOk 68
      (MkResponse 7 3 (wire_event (rs_event demo_response)))).
Proof.
  apply (response_round_trip demo_response (replicate 68 0)); [apply demo_response_ok|].
  vm_compute. discriminate.
Defined.

(** C30: Decoding is memory safe on arbitrary bytes: it never reads outside the
    buffer.  A request is accepted only with a nonzero session, sequence and
    order ID and in-range fields, consuming the frame size of its type, which
    the buffer holds; any other outcome consumes nothing. *)
Theorem decoders_total (d : list Z) : bytes_ok d ->
  (exists r, decode_request d = Ok r /\
     (qd_status r = DecodeOk -> request_ok (qd_request r) /\
        qd_bytes_consumed r = request_frame_size (c_type (rq_command (qd_request r))) /\
        0 < qd_bytes_consumed r <= vsize d) /\
     (qd_status r <> DecodeOk -> r = decode_failure (qd_status r))) /\
  (exists r, decode_response d = Ok r /\
     (sd_status r = DecodeOk -> response_ok (sd_response r) /\
        sd_bytes_consumed r = response_frame_size /\ response_frame_size <= vsize d) /\
     (sd_status r <> DecodeOk -> r = response_failure (sd_status r))).
Proof. intros Hd. split; [by apply decode_request_total|by apply decode_response_total]. Qed.

Lemma decoders_total_witness :
  let d := replicate 30 68 in
  (exists r, decode_request d = Ok r /\
     (qd_status r = DecodeOk -> request_ok (qd_request r) /\
        qd_bytes_consumed r = request_frame_size (c_type (rq_command (qd_request r))) /\
        0 < qd_bytes_consumed r <= vsize d) /\
     (qd_status r <> DecodeOk -> r = decode_failure (qd_status r))) /\
  (exists r, decode_response d = Ok r /\
     (sd_status r = DecodeOk -> response_ok (sd_response r) /\
        sd_bytes_consumed r = response_frame_size /\ response_frame_size <= vsize d) /\
     (sd_status r <> DecodeOk -> r = response_failure (sd_status r))).
Proof.
  apply (decoders_total (replicate 30 68)). apply Forall_replicate. vm_compute. intuition discriminate.
Defined.

(** C29: Framing: the decision on the first frame of a buffer does not depend on
    what follows it, and every strict prefix of an accepted frame only asks
    for more data, so any fragmentation or coalescing of the stream decodes to
    the same requests. *)
Theorem request_framing (d more : list Z) (r : RequestDecodeResult) (k : nat) :
  decode_request d = Ok r ->
  (qd_status r <> NeedMoreData -> decode_request (d ++ more) = Ok r) /\
  (qd_status r = DecodeOk -> Z.of_nat k < qd_bytes_consumed r ->
   decode_request (take k d) = Ok (decode_failure NeedMoreData)).
Proof.
  intros H. split.
  - by apply decode_request_app.
  - by apply decode_request_prefix.
Qed.

(** The frame of a cancellation, byte by byte. *)
Definition demo_frame : list Z :=
  [68; 77; 69; 49; 1; 2; 32; 0; 7; 0; 0; 0; 0; 0; 0; 0; 1; 0; 0; 0; 0; 0; 0; 0;
   42; 0; 0; 0; 0; 0; 0; 0].

Lemma request_framing_witness :
  let r := MkRequestDecode DecodeOk 32
             (MkRequest 7 1 (MkCommand 0 Cancel Buy Limit 0 42 0 0)) in
  (qd_status r <> NeedMoreData -> decode_request (demo_frame ++ [1; 2; 3]) = Ok r) /\
  (qd_status r = DecodeOk -> Z.of_nat 31 < qd_bytes_consumed r ->
   decode_request (take 31 demo_frame) = Ok (decode_failure NeedMoreData)).
Proof.
  apply (request_framing demo_frame [1; 2; 3] _ 31). vm_compute. reflexivity.
Defined.

(** ** Admission *)

(** C31: The risk test is exact: despite its 64-bit arithmetic it rejects exactly
    the orders whose quantity, price or notional, as integers, break the
    limits; cancellations always pass and market orders are checked for
    quantity only. *)
Theorem risk_limits_exact (limits : RiskLimits) (c : Command) :
  command_ok c -> is_u64 (rl_maximum_notional limits) ->
  violates_risk limits c = true <-> exceeds_limits limits c.
Proof. apply violates_risk_exact. Qed.

Lemma risk_limits_exact_witness :
  let c := MkCommand 0 New Buy Limit 0 1 9223372036854775807 4 in
  violates_risk (MkLimits u64_max i64_max u64_max) c = true <->
  exceeds_limits (MkLimits u64_max i64_max u64_max) c.
Proof.
  apply (risk_limits_exact (MkLimits u64_max i64_max u64_max)
           (MkCommand 0 New Buy Limit 0 1 9223372036854775807 4)).
  - repeat split; vm_compute; intuition discriminate.
  - vm_compute. intuition discriminate.
Defined.

(** C32: The session discipline: over any run of requests the client sequences
    that are consumed are exactly 1, 2, 3, ... without gap or repetition, a
    request that breaks the risk limits still consumes its number, requests of
    another session or out of order consume none, and an admitted request is
    within the limits. *)
Theorem session_sequences_contiguous (session : Z) (limits : RiskLimits) (requests : list Request) :
  Z.of_nat (length requests) < u64_max ->
  let '(v, reasons) := validate_all (make_validator session limits) requests in
  length reasons = length requests /\
  consumed_sequences requests reasons =
    (fun k => 1 + Z.of_nat k) <$> seq 0 (Z.to_nat (sv_next_sequence v - 1)) /\
  Forall2 (fun r reason =>
    (reason = InvalidSessionSequence \/ reason = RiskLimit \/ reason = NoReason) /\
    (reason <> InvalidSessionSequence -> rq_session_id r = session) /\
    (reason = NoReason -> violates_risk limits (rq_command r) = false)) requests reasons.
Proof.
  intros Hl. pose proof (validate_all_ok requests (make_validator session limits)
    ltac:(cbn; intlia) ltac:(cbn [sv_next_sequence make_validator]; lia)) as H.
  destruct (validate_all _ _) as [v reasons]. cbn [sv_next_sequence sv_session_id sv_limits make_validator] in H.
  by destruct H as (H1 & _ & _ & H4 & _ & H6).
Qed.

Lemma session_sequences_contiguous_witness :
  let requests := [demo_request; demo_request; MkRequest 8 2 Command_zero; MkRequest 7 2 Command_zero] in
  let '(v, reasons) := validate_all (make_validator 7 RiskLimits_default) requests in
  length reasons = length requests /\
  consumed_sequences requests reasons =
    (fun k => 1 + Z.of_nat k) <$> seq 0 (Z.to_nat (sv_next_sequence v - 1)) /\
  Forall2 (fun r reason =>
    (reason = InvalidSessionSequence \/ reason = RiskLimit \/ reason = NoReason) /\
    (reason <> InvalidSessionSequence -> rq_session_id r = 7) /\
    (reason = NoReason -> violates_risk RiskLimits_default (rq_command r) = false)) requests reasons.
Proof.
  apply (session_sequences_contiguous 7 RiskLimits_default
    [demo_request; demo_request; MkRequest 8 2 Command_zero; MkRequest 7 2 Command_zero]).
  vm_compute. reflexivity.
Defined.
