(* ===== verification/Reference.v ===== *)
(** * Reference: the reference book of the differential test
      (tests/test_differential.cpp)

    [ReferenceBook] is the naive implementation the test suite compares the
    optimised book with: one vector of orders, searched from end to end.  It
    has no capacity limit.  Iterators into [orders_] are positions, with the
    vector's size for [end()]; dereferencing and erasing are checked.  The
    command generator and the comparison loop of the test follow, and the
    protocol fuzz loop.  The number of iterations and the seed are arguments.

    [Order] has the members of [RestingOrder]. *)
From stdpp Require Import base list numbers sorting.
From Stdlib Require Import ZArith Lia.
From S2P Require Import Prelude Types OrderIndex FixedHash OrderBook Engine Bytes Protocol.
Local Open Scope Z_scope.

Record ReferenceBook : Set := MkReference {
  rb_config : BookConfig;
  rb_last_sequence : Z;
  rb_orders : list RestingOrder }.

Definition set_rb_orders (r : ReferenceBook) (orders : list RestingOrder) : ReferenceBook :=
  MkReference (rb_config r) (rb_last_sequence r) orders.

(** [vector::erase]. *)
Definition verase {A} (v : list A) (i : Z) : result (list A) :=
  if in_range v i then Ok (take (Z.to_nat i) v ++ drop (Z.to_nat (i + 1)) v) else Fail OutOfBounds.

(** [ReferenceBook::orders]. *)
Definition ref_orders (r : ReferenceBook) : list RestingOrder :=
  (fun o => MkResting (ro_id o) (ro_side o) (ro_price o) (ro_quantity o) (ro_priority o)) <$> rb_orders r.

Definition ref_valid_price (cfg : BookConfig) (price : Z) : result bool :=
  if (minimum_price cfg <=? price) && (price <=? maximum_price cfg) then
    offset ← i64_sub price (minimum_price cfg);
    Ok (Z.rem offset (tick_size cfg) =? 0)
  else Ok false.

(** [std::find_if] over [orders_]. *)
Fixpoint ref_find_from (id : Z) (orders : list RestingOrder) (position : Z) : Z :=
  match orders with
  | [] => position
  | o :: orders => if ro_id o =? id then position else ref_find_from id orders (position + 1)
  end.
Definition ref_find (id : Z) (orders : list RestingOrder) : Z := ref_find_from id orders 0.

Definition ref_crosses (side : Side) (limit : Z) (resting : RestingOrder) : bool :=
  match side with
  | Buy => ro_price resting <=? limit
  | Sell => limit <=? ro_price resting
  end.

Fixpoint ref_best_loop (side : Side) (limit : Z) (orders todo : list RestingOrder) (current best : Z)
  : result Z :=
  match todo with
  | [] => Ok best
  | o :: todo =>
    if bool_decide (ro_side o = side) || negb (ref_crosses side limit o)
    then ref_best_loop side limit orders todo (current + 1) best
    else if best =? vsize orders then ref_best_loop side limit orders todo (current + 1) current
    else
      b ← vget orders best;
      let better_price :=
        match side with Buy => ro_price o <? ro_price b | Sell => ro_price b <? ro_price o end in
      ref_best_loop side limit orders todo (current + 1)
        (if better_price || ((ro_price o =? ro_price b) && (ro_priority o <? ro_priority b))
         then current else best)
  end.
Definition best_opposite (side : Side) (limit : Z) (orders : list RestingOrder) : result Z :=
  ref_best_loop side limit orders orders 0 (vsize orders).

Fixpoint can_fill_loop (side : Side) (limit quantity : Z) (orders : list RestingOrder) (available : Z) : bool :=
  match orders with
  | [] => false
  | o :: orders =>
    if negb (bool_decide (ro_side o = side)) && ref_crosses side limit o then
      if u64 (quantity - available) <=? ro_quantity o then true
      else can_fill_loop side limit quantity orders (u64 (available + ro_quantity o))
    else can_fill_loop side limit quantity orders available
  end.
Definition can_fill (side : Side) (limit quantity : Z) (orders : list RestingOrder) : bool :=
  can_fill_loop side limit quantity orders 0.

Definition ref_emit (events : list Event) (type : EventType) (command : Command)
    (contra price quantity : Z) (reason : RejectReason) : list Event :=
  events ++ [MkEvent (c_sequence command) type (c_side command) reason 0 (c_order_id command)
               contra price quantity].

Definition ref_reject (events : list Event) (command : Command) (reason : RejectReason) : list Event :=
  ref_emit events Rejected command 0 0 0 reason.

(** The matching loop of [submit]; every round but the last removes an order. *)
Fixpoint ref_match_loop (fuel : nat) (command : Command) (limit remaining : Z)
    (orders : list RestingOrder) (events : list Event) : result (list RestingOrder * list Event * Z) :=
  match fuel with
  | O => Fail OutOfFuel
  | S fuel =>
    if remaining =? 0 then Ok (orders, events, remaining)
    else
      resting ← best_opposite (c_side command) limit orders;
      if resting =? vsize orders then Ok (orders, events, remaining)
      else
        o ← vget orders resting;
        let traded := Z.min remaining (ro_quantity o) in
        let left := u64 (ro_quantity o - traded) in
        orders ← vset orders resting (MkResting (ro_id o) (ro_side o) (ro_price o) left (ro_priority o));
        let events := ref_emit events Trade command (ro_id o) (ro_price o) traded NoReason in
        orders ← (if left =? 0 then verase orders resting else Ok orders);
        ref_match_loop fuel command limit (u64 (remaining - traded)) orders events
  end.

Definition ref_limit (cfg : BookConfig) (command : Command) : Z :=
  if bool_decide (c_order_type command = Market) then
    (if bool_decide (c_side command = Buy) then maximum_price cfg else minimum_price cfg)
  else c_price command.

(** [submit] from the matching loop on. *)
Definition ref_execute (r : ReferenceBook) (command : Command) (limit : Z) (events : list Event)
  : result (ReferenceBook * list Event) :=
  '(orders, events, remaining) ←
    ref_match_loop (S (S (length (rb_orders r)))) command limit (c_quantity command) (rb_orders r) events;
  let r := set_rb_orders r orders in
  if remaining =? 0 then Ok (r, events)
  else if bool_decide (c_order_type command = Limit) then
    Ok (set_rb_orders r (orders ++ [MkResting (c_order_id command) (c_side command)
                                      (c_price command) remaining (c_sequence command)]),
        ref_emit events Rested command 0 (c_price command) remaining NoReason)
  else Ok (r, ref_emit events Cancelled command 0 (c_price command) remaining NoReason).

Definition ref_submit (r : ReferenceBook) (command : Command) (events : list Event) (replacement : bool)
  : result (ReferenceBook * list Event) :=
  if c_quantity command =? 0 then Ok (r, ref_reject events command InvalidQuantity)
  else
    valid ← (if bool_decide (c_order_type command = Market) then Ok true
             else ref_valid_price (rb_config r) (c_price command));
    if negb valid then Ok (r, ref_reject events command InvalidPrice)
    else if negb replacement && negb (ref_find (c_order_id command) (rb_orders r) =? vsize (rb_orders r))
    then Ok (r, ref_reject events command DuplicateOrderId)
    else
      let limit := ref_limit (rb_config r) command in
      if bool_decide (c_order_type command = FillOrKill) &&
         negb (can_fill (c_side command) limit (c_quantity command) (rb_orders r))
      then Ok (r, ref_reject events command WouldNotFill)
      else
        let events := if replacement then events else ref_emit events Accepted command 0 0 0 NoReason in
        ref_execute r command limit events.

Definition ref_cancel (r : ReferenceBook) (command : Command) (events : list Event) (replacing : bool)
  : result (ReferenceBook * list Event) :=
  let order := ref_find (c_order_id command) (rb_orders r) in
  if order =? vsize (rb_orders r) then Ok (r, ref_reject events command UnknownOrderId)
  else
    removed ← vget (rb_orders r) order;
    orders ← verase (rb_orders r) order;
    Ok (set_rb_orders r orders,
        if replacing then events
        else ref_emit events Cancelled command 0 (ro_price removed) (ro_quantity removed) NoReason).

Definition ref_replace (r : ReferenceBook) (command : Command) (events : list Event)
  : result (ReferenceBook * list Event) :=
  let order := ref_find (c_order_id command) (rb_orders r) in
  if order =? vsize (rb_orders r) then Ok (r, ref_reject events command UnknownOrderId)
  else
    invalid ← (if c_quantity command =? 0 then Ok true
               else valid ← ref_valid_price (rb_config r) (c_price command); Ok (negb valid));
    if invalid : bool then
      Ok (r, ref_reject events command
               (if c_quantity command =? 0 then InvalidQuantity else InvalidPrice))
    else
      o ← vget (rb_orders r) order;
      '(r, events) ← ref_cancel r command events true;
      let replacement := MkCommand (c_sequence command) (c_type command) (ro_side o) Limit
        (c_reserved command) (c_order_id command) (c_price command) (c_quantity command) in
      let events := ref_emit events Replaced replacement 0 (c_price replacement)
        (c_quantity replacement) NoReason in
      ref_submit r replacement events true.

Definition ref_process (r : ReferenceBook) (command : Command) (events : list Event)
  : result (ReferenceBook * list Event) :=
  if negb (c_sequence command =? u64 (rb_last_sequence r + 1))
  then Ok (r, ref_reject events command SequenceGap)
  else
    let r := MkReference (rb_config r) (c_sequence command) (rb_orders r) in
    match c_type command with
    | New => ref_submit r command events false
    | Cancel => ref_cancel r command events false
    | Replace => ref_replace r command events
    end.

(** ** The differential test *)

Definition next_random (state : Z) : Z :=
  let state := Z.lxor state (u64 (Z.shiftl state 13)) in
  let state := Z.lxor state (Z.shiftr state 7) in
  Z.lxor state (u64 (Z.shiftl state 17)).

Definition equal_event (left right : Event) : bool :=
  (e_sequence left =? e_sequence right) && bool_decide (e_type left = e_type right) &&
  bool_decide (e_aggressor_side left = e_aggressor_side right) &&
  bool_decide (e_reason left = e_reason right) &&
  (e_order_id left =? e_order_id right) && (e_contra_order_id left =? e_contra_order_id right) &&
  (e_price left =? e_price right) && (e_quantity left =? e_quantity right).

(** The command drawn from one random value. *)
Definition random_command (sequence value : Z) : Command :=
  let side := if Z.land (Z.shiftr value 12) 1 =? 0 then Buy else Sell in
  let price := 95 + Z.shiftr value 16 mod 11 in
  let quantity := 1 + Z.shiftr value 24 mod 20 in
  let operation := value mod 100 in
  let kind := Z.shiftr value 32 mod 100 in
  let '(type, order_type, price) :=
    if operation <? 55 then
      if kind <? 65 then (New, Limit, price)
      else if kind <? 85 then (New, ImmediateOrCancel, price)
      else if kind <? 95 then (New, FillOrKill, price)
      else (New, Market, 0)
    else if operation <? 80 then (Cancel, Limit, price)
    else (Replace, Limit, price) in
  MkCommand sequence type side order_type 0 (1 + value mod 2000) price quantity.

Definition by_id (left right : RestingOrder) : Prop := ro_id left <= ro_id right.
#[export] Instance by_id_dec left right : Decision (by_id left right).
Proof. unfold by_id. apply _. Defined.

Definition same_order (left right : RestingOrder) : bool :=
  (ro_id left =? ro_id right) && bool_decide (ro_side left = ro_side right) &&
  (ro_price left =? ro_price right) && (ro_quantity left =? ro_quantity right) &&
  (ro_priority left =? ro_priority right).

(** [CHECK]: a failed comparison throws. *)
Fixpoint check_all {A} (same : A -> A -> bool) (actual expected : list A) : result unit :=
  match actual, expected with
  | a :: actual, e :: expected => _ ← rassert RuntimeError (same a e); check_all same actual expected
  | _, _ => Ok ()
  end.
Definition check_equal {A} (same : A -> A -> bool) (actual expected : list A) : result unit :=
  _ ← rassert RuntimeError (vsize actual =? vsize expected);
  check_all same actual expected.

Fixpoint differential_loop (iterations : nat) (sequence random : Z)
    (optimized : Engine) (reference : ReferenceBook) : result unit :=
  match iterations with
  | O => Ok ()
  | S iterations =>
    let random := next_random random in
    let command := random_command sequence random in
    '(optimized, actual) ← process optimized command [];
    '(reference, expected) ← ref_process reference command [];
    _ ← check_equal equal_event actual expected;
    _ ← (if sequence mod 100 =? 0 then
           actual_orders ← resting_orders optimized;
           check_equal same_order (merge_sort by_id actual_orders)
             (merge_sort by_id (ref_orders reference))
         else Ok ());
    differential_loop iterations (sequence + 1) random optimized reference
  end.

Definition test_config : BookConfig := MkConfig 90 110 1 10000.

Definition randomized_differential (iterations : nat) (seed : Z) : result unit :=
  optimized ← make_book (I := FixedOrderIndex) test_config;
  differential_loop iterations 1 seed optimized (MkReference test_config 0 []).

(** ** The protocol fuzz test *)

(** The next [length] random bytes, stored over the start of the array. *)
Fixpoint fuzz_bytes (length : nat) (index random : Z) (bytes : list Z) : result (list Z * Z) :=
  match length with
  | O => Ok (bytes, random)
  | S length =>
    let random := next_random random in
    bytes ← vset bytes index (Z.land random 255);
    fuzz_bytes length (index + 1) random bytes
  end.

Fixpoint fuzz_loop (iterations : nat) (random : Z) (bytes : list Z) : result unit :=
  match iterations with
  | O => Ok ()
  | S iterations =>
    let random := next_random random in
    let length := random mod (vsize bytes + 1) in
    '(bytes, random) ← fuzz_bytes (Z.to_nat length) 0 random bytes;
    let input := take (Z.to_nat length) bytes in
    request ← decode_request input;
    response ← decode_response input;
    _ ← rassert RuntimeError (qd_bytes_consumed request <=? length);
    _ ← rassert RuntimeError (sd_bytes_consumed response <=? length);
    fuzz_loop iterations random bytes
  end.

Definition malformed_protocol_fuzz (iterations : nat) (seed : Z) : result unit :=
  fuzz_loop iterations seed (replicate (Z.to_nat maximum_frame_size) 0).

(** [main] of the suite: 0 when both tests pass. *)
Definition differential_main (commands frames : nat) (seed seed' : Z) : Z :=
  match (_ ← randomized_differential commands seed; malformed_protocol_fuzz frames seed') with
  | Ok _ => 0
  | Fail _ => 1
  end.
