(* ===== verification/ReferenceFacts.v ===== *)
(** * ReferenceFacts: the reference book implements the specification

    The vector of the reference book is the list of orders of [BookSpec]: each
    search finds the order the specification names, so each operation makes
    the same change and reports the same events, with exact liquidity and
    without a capacity. *)
From Stdlib Require Import ZArith Lia.
From stdpp Require Import base numbers gmap list sorting.
From S2P Require Import Prelude Types OrderIndex FixedHash Bitmap OrderBook BookSpec Prices.
From S2P Require Import BookRep BookMatch SpecFacts BookRefine SpecStep SpecInv BookRun Engine.
From S2P Require Import Bytes Protocol ProtocolFacts Reference.
Local Open Scope Z_scope.

Implicit Types (l : list RestingOrder) (o : RestingOrder) (c : Command) (events : list Event).

(** ** Positions *)

Lemma vget_middle {A} (l1 l2 : list A) x i : i = vsize l1 -> vget (l1 ++ x :: l2) i = Ok x.
Proof.
  intros ->. unfold vget, vlook, in_range, vsize. rewrite length_app. cbn [length].
  rewrite (proj2 (Z.leb_le _ _)), (proj2 (Z.ltb_lt _ _)) by lia. cbn.
  by rewrite Nat2Z.id, list_lookup_middle.
Qed.

Lemma vset_middle {A} (l1 l2 : list A) x y i : i = vsize l1 ->
  vset (l1 ++ x :: l2) i y = Ok (l1 ++ y :: l2).
Proof.
  intros ->. unfold vset, vupd, in_range, vsize. rewrite length_app. cbn [length].
  rewrite (proj2 (Z.leb_le _ _)), (proj2 (Z.ltb_lt _ _)) by lia. cbn.
  by rewrite Nat2Z.id, insert_app_r_alt, Nat.sub_diag by lia.
Qed.

Lemma verase_middle {A} (l1 l2 : list A) x i : i = vsize l1 -> verase (l1 ++ x :: l2) i = Ok (l1 ++ l2).
Proof.
  intros ->. unfold verase, in_range, vsize. rewrite length_app. cbn [length].
  rewrite (proj2 (Z.leb_le _ _)), (proj2 (Z.ltb_lt _ _)) by lia. cbn.
  rewrite Nat2Z.id. replace (Z.to_nat (Z.of_nat (length l1) + 1)) with (length (l1 ++ [x]))
    by (rewrite length_app; cbn; lia).
  rewrite take_app_length, (cons_middle x l1 l2), app_assoc, drop_app_length. done.
Qed.

Lemma vsize_middle {A} (l1 l2 : list A) x : vsize l1 <> vsize (l1 ++ x :: l2).
Proof. unfold vsize. rewrite length_app. cbn [length]. lia. Qed.

(** [find] is [find_order]. *)
Lemma ref_find_from_ok id l k :
  match find_order id l with
  | None => ref_find_from id l k = k + vsize l
  | Some o => exists l1 l2, l = l1 ++ o :: l2 /\ ref_find_from id l k = k + vsize l1 /\ ro_id o = id
  end.
Proof.
  revert k. induction l as [|x l IH]; intros k; cbn [ref_find_from].
  { unfold vsize. cbn. lia. }
  unfold find_order. cbn [list_find]. destruct (Z.eqb_spec (ro_id x) id) as [E|E].
  - rewrite decide_True by done. cbn. exists [], l. unfold vsize. cbn. split_and!; [done|lia|done].
  - rewrite decide_False by done. specialize (IH (k + 1)). unfold find_order in IH.
    destruct (list_find _ l) as [[i y]|]; cbn in *.
    + destruct IH as (l1 & l2 & -> & -> & Hid). exists (x :: l1), l2. unfold vsize. cbn.
      split_and!; [done|lia|done].
    + rewrite IH. unfold vsize. cbn [length]. lia.
Qed.

Lemma ref_find_ok id l :
  match find_order id l with
  | None => ref_find id l = vsize l
  | Some o => exists l1 l2, l = l1 ++ o :: l2 /\ ref_find id l = vsize l1 /\ ro_id o = id
  end.
Proof. exact (ref_find_from_ok id l 0). Qed.

(** [valid_price] is [on_ladder]. *)
Lemma ref_valid_price_ok cfg p : config_ok cfg -> ref_valid_price cfg p = Ok (on_ladder cfg p).
Proof.
  intros H. unfold ref_valid_price, on_ladder. destruct H.
  destruct (Z.leb_spec (minimum_price cfg) p); [|done].
  destruct (Z.leb_spec p (maximum_price cfg)); [|done]. cbn [andb].
  unfold i64_sub. rewrite i64_checked_ok by intlia. cbn. by rewrite Z.rem_mod_nonneg by lia.
Qed.

(** [best_opposite] is [best_order]. *)
Lemma ref_crosses_ok side limit o :
  bool_decide (ro_side o = side) || negb (ref_crosses side limit o) = negb (crossing side limit o).
Proof.
  unfold crossing, ref_crosses, price_crosses.
  destruct side, (ro_side o); cbn; by rewrite ?andb_true_l, ?andb_false_l.
Qed.

Lemma best_order_snoc side limit l o :
  best_order side limit (l ++ [o]) =
    match best_order side limit l with
    | None => if crossing side limit o then Some o else None
    | Some b => if crossing side limit o && price_better side (ro_price o) (ro_price b) then Some o else Some b
    end.
Proof.
  induction l as [|x l IH]; cbn [best_order app]; [done|]. rewrite IH.
  destruct (best_order side limit l) as [b|].
  - destruct (crossing side limit o) eqn:Eo, (crossing side limit x) eqn:Ex; cbn [andb negb];
      rewrite ?andb_false_l; try done.
    + destruct (price_better side (ro_price o) (ro_price b)) eqn:E1,
        (price_better side (ro_price b) (ro_price x)) eqn:E2; cbn; rewrite ?E1; cbn;
        destruct (price_better side (ro_price o) (ro_price x)) eqn:E3; cbn; try done; exfalso;
        unfold price_better in *; destruct side; lia.
    + by destruct (price_better side (ro_price o) (ro_price b)).
    + by destruct (price_better side (ro_price b) (ro_price x)).
  - destruct (crossing side limit o) eqn:Eo, (crossing side limit x) eqn:Ex; cbn; try done.
    by destruct (price_better side (ro_price o) (ro_price x)).
Qed.

(** Arrival order is priority order. *)
Definition by_time l : Prop := StronglySorted Z.lt (ro_priority <$> l).

Lemma by_time_keys l l' : (order_key <$> l') `sublist_of` (order_key <$> l) -> by_time l -> by_time l'.
Proof.
  unfold by_time. intros Hk Hs. eapply StronglySorted_sublist; [|exact Hs].
  assert (Hkey : forall k : list RestingOrder,
    ro_priority <$> k = (fun x : Z * Side * Z * Z => x.2) <$> (order_key <$> k)).
  { intros k. by rewrite <- list_fmap_compose. }
  rewrite !Hkey. by apply fmap_sublist.
Qed.

Lemma by_time_app l1 l2 x y : by_time (l1 ++ l2) -> x ∈ l1 -> y ∈ l2 -> ro_priority x < ro_priority y.
Proof.
  unfold by_time. rewrite fmap_app. intros Hs Hx Hy.
  eapply (StronglySorted_app_1_elem_of Z.lt _ _ _ _ Hs); by apply list_elem_of_fmap_2.
Qed.

Definition best_at (side : Side) (limit : Z) l k (i : Z) : Prop :=
  match best_order side limit k with
  | None => i = vsize l
  | Some b => exists l1 l2, k = l1 ++ b :: l2 /\ i = vsize l1
  end.

Lemma ref_best_loop_ok side limit todo pre best : by_time (pre ++ todo) ->
  best_at side limit (pre ++ todo) pre best ->
  exists i, ref_best_loop side limit (pre ++ todo) todo (vsize pre) best = Ok i /\
    best_at side limit (pre ++ todo) (pre ++ todo) i.
Proof.
  revert pre best. induction todo as [|o todo IH]; intros pre best Ht Hb.
  { exists best. rewrite app_nil_r in *. done. }
  assert (Hpre : pre ++ o :: todo = (pre ++ [o]) ++ todo) by by rewrite <- app_assoc.
  assert (Hsz : vsize pre + 1 = vsize (pre ++ [o])) by (unfold vsize; rewrite length_app; cbn; lia).
  cbn [ref_best_loop]. rewrite ref_crosses_ok, Hsz. unfold best_at in Hb.
  pose proof (best_order_snoc side limit pre o) as Hs.
  assert (Hcont : forall i, best_at side limit (pre ++ o :: todo) (pre ++ [o]) i ->
    exists j, ref_best_loop side limit (pre ++ o :: todo) todo (vsize (pre ++ [o])) i = Ok j /\
      best_at side limit (pre ++ o :: todo) (pre ++ o :: todo) j).
  { intros i Hi. rewrite Hpre in *. by apply IH. }
  unfold best_at in Hcont at 1. rewrite Hs in Hcont. destruct (best_order side limit pre) as [b|].
  - destruct Hb as (l1 & l2 & -> & ->).
    assert (Hlater : ro_priority b < ro_priority o) by (eapply by_time_app; [exact Ht|set_solver..]).
    destruct (crossing side limit o); cbn [negb].
    + destruct (Z.eqb_spec (vsize l1) (vsize ((l1 ++ b :: l2) ++ o :: todo))) as [E|_].
      { rewrite <- app_assoc in E. by apply vsize_middle in E. }
      rewrite <- app_assoc. cbn [app]. rewrite vget_middle by done. cbn [mbind result_bind].
      rewrite (proj2 (Z.ltb_ge (ro_priority o) (ro_priority b))), andb_false_r, orb_false_r by lia.
      rewrite (app_assoc l1 (b :: l2) (o :: todo) : l1 ++ b :: l2 ++ o :: todo = _).
      change (match side with Buy => _ | Sell => _ end) with (price_better side (ro_price o) (ro_price b)).
      cbn [andb] in Hcont. destruct (price_better side (ro_price o) (ro_price b)).
      * apply Hcont. by exists (l1 ++ b :: l2), [].
      * apply Hcont. exists l1, (l2 ++ [o]). by rewrite <- app_assoc.
    + apply Hcont. cbn [andb]. exists l1, (l2 ++ [o]). by rewrite <- app_assoc.
  - subst best. destruct (crossing side limit o); cbn [negb].
    + rewrite Z.eqb_refl. apply Hcont. by exists pre, [].
    + by apply Hcont.
Qed.

Lemma best_opposite_ok side limit l : by_time l ->
  match best_order side limit l with
  | None => best_opposite side limit l = Ok (vsize l)
  | Some o => exists l1 l2, l = l1 ++ o :: l2 /\ best_opposite side limit l = Ok (vsize l1)
  end.
Proof.
  intros Ht. destruct (ref_best_loop_ok side limit l [] (vsize l) Ht) as (i & Hi & Hb); [done|].
  unfold best_at in Hb. cbn [app] in *. unfold best_opposite. change (vsize []) with 0 in Hi.
  destruct (best_order side limit l) as [o|].
  - destruct Hb as (l1 & l2 & E & ->). by exists l1, l2.
  - by rewrite Hi, Hb.
Qed.

(** [can_fill] is [ideal_fill]. *)
Lemma can_fill_loop_ok cfg side limit q l available : orders_wf cfg l -> 0 <= available < q -> q <= u64_max ->
  can_fill_loop side limit q l available = (q - available <=? liquidity l side limit).
Proof.
  intros Hwf. assert (Hq := ow_quantity _ _ Hwf). clear Hwf. revert available.
  induction l as [|o l IH]; intros available Ha Hm; cbn [can_fill_loop].
  { unfold liquidity. cbn. lia. }
  assert (IH' := IH ltac:(set_solver)). pose proof (Hq o ltac:(set_solver)).
  rewrite <- negb_involutive with (b := negb _ && _), negb_andb, negb_involutive, ref_crosses_ok, negb_involutive.
  assert (Hl : liquidity (o :: l) side limit =
    (if crossing side limit o then ro_quantity o else 0) + liquidity l side limit).
  { unfold liquidity. rewrite filter_cons. destruct (crossing side limit o); by repeat case_decide. }
  assert (Hpos : 0 <= liquidity l side limit).
  { unfold liquidity. clear - Hq. induction l as [|x l IH]; [done|]. rewrite filter_cons.
    pose proof (Hq x ltac:(set_solver)). specialize (IH ltac:(set_solver)).
    case_decide; [|done]. cbn. unfold total in IH. lia. }
  rewrite Hl. destruct (crossing side limit o).
  - rewrite u64_small by intlia. destruct (Z.leb_spec (q - available) (ro_quantity o)); [lia|].
    rewrite u64_small by intlia. rewrite IH' by lia. lia.
  - rewrite IH' by lia. lia.
Qed.

Lemma can_fill_ok cfg side limit q l : orders_wf cfg l -> 0 < q <= u64_max ->
  can_fill side limit q l = ideal_fill cfg l side limit q.
Proof.
  intros Hwf Hq. unfold can_fill, ideal_fill. rewrite (can_fill_loop_ok cfg) by (done || lia).
  by rewrite Z.sub_0_r.
Qed.

(** The matching loop. *)
Lemma ref_match_round fuel c limit remaining l1 o l2 events :
  remaining <> 0 -> 0 < ro_quantity o <= u64_max -> 0 <= remaining <= u64_max ->
  best_opposite (c_side c) limit (l1 ++ o :: l2) = Ok (vsize l1) ->
  let t := Z.min remaining (ro_quantity o) in
  ref_match_loop (S fuel) c limit remaining (l1 ++ o :: l2) events =
    ref_match_loop fuel c limit (remaining - t)
      (l1 ++ (if t =? ro_quantity o then [] else [set_quantity o (ro_quantity o - t)]) ++ l2)
      (events ++ [trade_event c o t]).
Proof.
  intros Hr Hq Hrem Hb t. cbn [ref_match_loop]. rewrite (proj2 (Z.eqb_neq _ _) Hr), Hb. cbn [mbind result_bind].
  rewrite (proj2 (Z.eqb_neq _ _) (vsize_middle l1 l2 o)), vget_middle by done. cbn [mbind result_bind].
  fold t. rewrite vset_middle by done. cbn [mbind result_bind]. rewrite !u64_small by (subst t; intlia).
  destruct (Z.eqb_spec (ro_quantity o - t) 0) as [E|E].
  - rewrite verase_middle by done. cbn [mbind result_bind].
    rewrite (proj2 (Z.eqb_eq _ _)) by lia. done.
  - cbn [mbind result_bind]. rewrite (proj2 (Z.eqb_neq t _)) by lia. done.
Qed.

Lemma ref_match_loop_ok cfg fuel c limit remaining l events : orders_wf cfg l -> by_time l ->
  0 <= remaining <= u64_max -> remaining = 0 \/ (length l < fuel)%nat ->
  ref_match_loop (S fuel) c limit remaining l events =
    let '(l', trades, rest) := spec_match fuel c limit remaining l in Ok (l', events ++ trades, rest).
Proof.
  revert remaining l events. induction fuel as [|fuel IH]; intros remaining l events Hwf Ht Hr Hf.
  { destruct Hf as [->|]; [|lia]. cbn. by rewrite app_nil_r. }
  destruct (decide (remaining = 0)) as [->|Hne]; [cbn; by rewrite app_nil_r|].
  destruct Hf as [|Hf]; [done|]. cbn [spec_match]. rewrite (proj2 (Z.ltb_lt _ _)) by lia.
  pose proof (best_opposite_ok (c_side c) limit l Ht) as Hb.
  destruct (best_order (c_side c) limit l) as [o|] eqn:Eb.
  - destruct Hb as (l1 & l2 & -> & Hb). pose proof (ow_quantity _ _ Hwf o ltac:(set_solver)) as Hq.
    rewrite ref_match_round by (done || lia). set (t := Z.min remaining (ro_quantity o)).
    rewrite <- (fill_order_split (cfg := cfg)) by done.
    rewrite IH.
    + destruct (spec_match fuel _ _ _ _) as [[l' tr] rest]. by rewrite <- app_assoc.
    + apply wf_fill; [done|set_solver|subst t; lia].
    + eapply by_time_keys; [apply fill_order_keys|done].
    + subst t. lia.
    + destruct (Z.eqb_spec t (ro_quantity o)) as [E|E]; [|left; subst t; lia]. right.
      rewrite (fill_order_split (cfg := cfg)), (proj2 (Z.eqb_eq _ _) E) by done.
      rewrite length_app in *. cbn in *. lia.
  - cbn [ref_match_loop]. rewrite (proj2 (Z.eqb_neq _ _) Hne), Hb. cbn [mbind result_bind].
    rewrite Z.eqb_refl. by rewrite app_nil_r.
Qed.

(** ** The operations *)

(** The reference book that holds a specified book. *)
Definition reference_of (sb : SpecBook) : ReferenceBook :=
  MkReference (sb_config sb) (last_sequence (sb_stats sb)) (sb_orders sb).

(** What a call on the reference book should give. *)
Definition answers events (res : SpecBook * list Event) : result (ReferenceBook * list Event) :=
  Ok (reference_of res.1, events ++ res.2).

Lemma last_set_resting st l : last_sequence (set_resting st l) = last_sequence st.
Proof. done. Qed.

Lemma last_add_trades st n : last_sequence (add_trades st n) = last_sequence st.
Proof. unfold add_trades. by induction n. Qed.

Lemma spec_limit_ref cfg c : ref_limit cfg c = spec_limit cfg c.
Proof. unfold ref_limit, spec_limit. by destruct (c_order_type c), (c_side c). Qed.

Section Operations.
Context (sb : SpecBook) (Hcfg : config_ok (sb_config sb)).
Context (Hwf : orders_wf (sb_config sb) (sb_orders sb)) (Ht : by_time (sb_orders sb)).

Lemma ref_execute_ok c events : is_u64 (c_quantity c) ->
  ref_execute (reference_of sb) c (spec_limit (sb_config sb) c) events = answers events (spec_execute sb c).
Proof.
  intros Hq. unfold ref_execute, spec_execute, reference_of. cbn [rb_orders].
  rewrite (ref_match_loop_ok (sb_config sb)); [|done|done|intlia|right; lia].
  destruct (spec_match _ _ _ _ _) as [[l' tr] rest]. cbn [mbind result_bind].
  destruct (Z.eqb_spec rest 0); [|destruct (decide (c_order_type c = Limit)) as [E|E]];
    rewrite ?bool_decide_eq_true_2, ?bool_decide_eq_false_2 by done; unfold answers, reference_of, ref_emit; cbn;
    by rewrite ?last_add_trades, <- ?app_assoc.
Qed.

Lemma ref_reject_ok c events reason :
  Ok (reference_of sb, ref_reject events c reason) = answers events (spec_reject sb c reason).
Proof. done. Qed.

Lemma ref_submit_ok c events : is_u64 (c_quantity c) ->
  (c_order_type c = Limit -> spec_full sb = true ->
   find_order (c_order_id c) (sb_orders sb) <> None) ->
  ref_submit (reference_of sb) c events false = answers events (spec_submit ideal_fill sb c).
Proof.
  intros Hq Hroom. unfold ref_submit, spec_submit. cbn [reference_of rb_orders rb_config].
  destruct (Z.eqb_spec (c_quantity c) 0); [done|].
  destruct (decide (c_order_type c = Market)) as [Em|Em].
  1: rewrite !(bool_decide_eq_true_2 (c_order_type c = Market)) by done; cbn [negb andb mbind result_bind].
  2: rewrite !(bool_decide_eq_false_2 (c_order_type c = Market)) by done;
     rewrite ref_valid_price_ok by done; cbn [negb andb mbind result_bind].
  2: destruct (on_ladder (sb_config sb) (c_price c)); cbn [negb]; [|done].
  all: pose proof (ref_find_ok (c_order_id c) (sb_orders sb)) as Hf;
    destruct (find_order (c_order_id c) (sb_orders sb)) as [o|];
    [destruct Hf as (l1 & l2 & E & -> & _); rewrite (bool_decide_eq_true_2 (is_Some _)) by done;
     rewrite (proj2 (Z.eqb_neq _ _)) by (rewrite E; apply vsize_middle); done|].
  all: rewrite Hf, Z.eqb_refl, (bool_decide_eq_false_2 (is_Some _)) by (by intros [? ?]); cbn [negb andb].
  all: rewrite spec_limit_ref, (can_fill_ok (sb_config sb)) by (done || intlia).
  all: destruct (bool_decide (c_order_type c = FillOrKill) && _); [done|].
  all: destruct (bool_decide (c_order_type c = Limit)) eqn:El; cbn [andb];
    [apply bool_decide_eq_true in El; destruct (spec_full sb) eqn:Efull; [exfalso; by apply Hroom|]|].
  all: cbn [andb]; rewrite ref_execute_ok by done; destruct (spec_execute sb c) as [sb' ev];
    unfold answers, ref_emit; cbn; by rewrite <- app_assoc.
Qed.

Lemma ref_cancel_ok c events :
  ref_cancel (reference_of sb) c events false = answers events (spec_cancel sb c).
Proof.
  unfold ref_cancel, spec_cancel. cbn [reference_of rb_orders].
  pose proof (ref_find_ok (c_order_id c) (sb_orders sb)) as Hf.
  destruct (find_order (c_order_id c) (sb_orders sb)) as [o|]; [|by rewrite Hf, Z.eqb_refl].
  destruct Hf as (l1 & l2 & E & -> & Hid). rewrite (proj2 (Z.eqb_neq _ _)) by (rewrite E; apply vsize_middle).
  assert (Hrem : remove_order (c_order_id c) (sb_orders sb) = l1 ++ l2).
  { rewrite E, <- Hid in *. by apply (remove_order_split (cfg := sb_config sb)). }
  unfold spec_remove. rewrite Hrem. rewrite E, vget_middle, verase_middle by done. done.
Qed.
End Operations.

Lemma ref_replace_ok sb c events : config_ok (sb_config sb) -> orders_wf (sb_config sb) (sb_orders sb) ->
  by_time (sb_orders sb) -> is_u64 (c_quantity c) ->
  ref_replace (reference_of sb) c events = answers events (spec_replace sb c).
Proof.
  intros Hcfg Hwf Ht Hq. unfold ref_replace, spec_replace. cbn [reference_of rb_orders rb_config].
  pose proof (ref_find_ok (c_order_id c) (sb_orders sb)) as Hf.
  destruct (find_order (c_order_id c) (sb_orders sb)) as [o|]; [|by rewrite Hf, Z.eqb_refl].
  destruct Hf as (l1 & l2 & E & Hpos & Hid).
  rewrite Hpos, (proj2 (Z.eqb_neq _ _)) by (rewrite E; apply vsize_middle).
  destruct (Z.eqb_spec (c_quantity c) 0) as [Hz|Hz]; [done|]. rewrite ref_valid_price_ok by done.
  cbn [mbind result_bind]. destruct (on_ladder (sb_config sb) (c_price c)) eqn:Hp; cbn [negb]; [|done].
  rewrite E, vget_middle by done. cbn [mbind result_bind].
  assert (Hrem : remove_order (c_order_id c) (sb_orders sb) = l1 ++ l2).
  { rewrite E, <- Hid in *. by apply (remove_order_split (cfg := sb_config sb)). }
  unfold ref_cancel at 1. cbn [reference_of rb_orders]. rewrite Hpos.
  rewrite (proj2 (Z.eqb_neq _ _)) by (rewrite E; apply vsize_middle).
  rewrite E, vget_middle, verase_middle by done. cbn [mbind result_bind].
  set (sb' := spec_remove sb (c_order_id c)). set (rc := replacement_of c (ro_side o)).
  unfold ref_submit. cbn [c_quantity c_order_type c_price set_rb_orders rb_config reference_of rb_last_sequence].
  rewrite (proj2 (Z.eqb_neq _ _) Hz), bool_decide_eq_false_2, ref_valid_price_ok by done.
  cbn [mbind result_bind]. rewrite Hp. cbn [negb andb]. rewrite bool_decide_eq_false_2 by done. cbn [andb].
  rewrite <- Hrem. change (set_rb_orders (reference_of sb) _) with (reference_of sb').
  cbn [mbind result_bind negb].
  change (MkCommand _ _ _ _ _ _ _ _) with rc. change (ref_limit (sb_config sb) rc) with (spec_limit (sb_config sb') rc).
  rewrite ref_execute_ok; [|by apply wf_remove|by eapply by_time_keys; [apply remove_order_keys|]|done].
  destruct (spec_execute sb' rc) as [sb2 ev]. unfold answers, ref_emit. cbn. by rewrite <- app_assoc.
Qed.

(** The command leaves room: a limit order that finds the book full is a duplicate. *)
Definition has_room (sb : SpecBook) c : Prop :=
  c_type c = New -> spec_full sb = true -> find_order (c_order_id c) (sb_orders sb) <> None.

Lemma ref_process_ok sb c events : config_ok (sb_config sb) -> orders_wf (sb_config sb) (sb_orders sb) ->
  by_time (sb_orders sb) -> is_u64 (c_quantity c) -> has_room sb c ->
  ref_process (reference_of sb) c events = answers events (spec_process ideal_fill sb c).
Proof.
  intros Hcfg Hwf Ht Hq Hroom. unfold ref_process, spec_process. cbn [reference_of rb_last_sequence].
  destruct (negb _); [done|]. cbn [rb_config rb_orders].
  set (sb1 := MkSpec _ _ _). change (MkReference _ _ _) with (reference_of sb1).
  destruct (c_type c) eqn:Et.
  - apply ref_submit_ok; [done..|]. intros _. by apply Hroom.
  - by apply ref_cancel_ok.
  - by apply ref_replace_ok.
Qed.

(** ** Both books side by side *)

Lemma executes_ids cfg l c l' events : executes cfg l c l' events ->
  forall id, id ∈ ro_id <$> l' -> id = c_order_id c \/ id ∈ ro_id <$> l.
Proof.
  assert (Hkeys : forall k : list RestingOrder,
    ro_id <$> k = (fun x : Z * Side * Z * Z => x.1.1.1) <$> (order_key <$> k)).
  { intros k. by rewrite <- list_fmap_compose. }
  assert (Hm : forall l1 tr rest, spec_match (S (length l)) c (spec_limit cfg c) (c_quantity c) l = (l1, tr, rest) ->
    forall id, id ∈ ro_id <$> l1 -> id ∈ ro_id <$> l).
  { intros l1 tr rest H id Hid. rewrite Hkeys in Hid |- *. eapply elem_of_sublist; [exact Hid|].
    by apply fmap_sublist, (spec_match_keys _ _ _ _ _ _ _ _ H). }
  intros [l1 tr H|l1 tr rest H _ _|l1 tr rest H _ _] id Hid; [right; by eapply Hm| |right; by eapply Hm].
  rewrite fmap_app in Hid. apply elem_of_app in Hid as [Hid|Hid%list_elem_of_singleton];
    [right; by eapply Hm|by left].
Qed.

Lemma step_ids fill cfg l c l' events : spec_step fill cfg l c l' events ->
  forall id, id ∈ ro_id <$> l' -> id = c_order_id c \/ id ∈ ro_id <$> l.
Proof.
  assert (Hrem : forall id, id ∈ ro_id <$> remove_order (c_order_id c) l -> id ∈ ro_id <$> l).
  { intros id (x & -> & [_ Hx]%list_elem_of_filter)%list_elem_of_fmap. by apply list_elem_of_fmap_2. }
  intros [reason _|o _ _|l1 ev _ _ _ _ _ _ He|o l1 ev _ _ _ _ He] id Hid; [by right|right; by apply Hrem|..].
  - by eapply executes_ids.
  - destruct (executes_ids _ _ _ _ _ He id Hid) as [->|H]; [by left|right; by apply Hrem].
Qed.

(** A book whose orders carry identifiers of [ids] has room for one more of them. *)
Lemma ids_room sb c (ids : list Z) : orders_wf (sb_config sb) (sb_orders sb) ->
  (forall id, id ∈ ro_id <$> sb_orders sb -> id ∈ ids) -> c_order_id c ∈ ids ->
  Z.of_nat (length ids) <= maximum_orders (sb_config sb) -> has_room sb c.
Proof.
  intros Hwf Hsub Hc Hlen _ Hfull Hnone. apply find_order_none in Hnone.
  unfold spec_full in Hfull. apply Z.leb_le in Hfull.
  assert (Hs : c_order_id c :: (ro_id <$> sb_orders sb) ⊆+ ids).
  { apply NoDup_submseteq; [by constructor; [|apply Hwf]|].
    intros id [->|Hid]%elem_of_cons; [done|by apply Hsub]. }
  apply submseteq_length in Hs. cbn in Hs. rewrite length_fmap in Hs. lia.
Qed.

(** The optimised book, the specified book it refines, and the bounds that
    keep the reference book in step with it. *)
Record tracked (cfg : BookConfig) (q : Z) (ids : list Z) (n : Z) (b : Engine) (sb : SpecBook) : Prop := {
  tr_models : models cfg b sb;
  tr_time : in_time sb;
  tr_sequence : last_sequence (sb_stats sb) <= n;
  tr_quantity : quantity_bound q (sb_orders sb);
  tr_ids : forall id, id ∈ ro_id <$> sb_orders sb -> id ∈ ids }.

Section Tracking.
Context (cfg : BookConfig) (q : Z) (ids : list Z) (Hcfg : config_ok cfg) (Hq : 0 <= q).
Context (Hmax : q * maximum_orders cfg <= u64_max) (Hids : Z.of_nat (length ids) <= maximum_orders cfg).

Lemma tracked_empty b : make_book cfg = Ok b -> tracked cfg q ids 0 b (empty_spec cfg).
Proof using Hcfg.
  intros Hb. split.
  - by apply make_models.
  - apply in_time_empty.
  - done.
  - intros o Ho. by apply elem_of_nil in Ho.
  - intros id Hid. by apply elem_of_nil in Hid.
Qed.

Lemma tracked_step n b sb c events events' : tracked cfg q ids n b sb -> n < u64_max ->
  0 <= c_quantity c <= q -> c_order_id c ∈ ids ->
  exists b' sb' ev, process b c events = Ok (b', events ++ ev) /\
    ref_process (reference_of sb) c events' = Ok (reference_of sb', events' ++ ev) /\
    tracked cfg q ids (n + 1) b' sb'.
Proof using Hcfg Hq Hmax Hids.
  intros [(Hr & Hi & Hc) Ht Hs Hb Hid] Hn Hcq Hcid. pose proof (cfg_orders _ Hcfg).
  assert (Hqu : is_u64 (c_quantity c)) by (ints; nia).
  destruct (process_models cfg b sb c events (conj Hr (conj Hi Hc)) Hqu) as (b' & sb' & ev & Hp & He & Hm).
  assert (Hno : no_level_overflow (sb_orders sb)) by (eapply bound_no_overflow; rewrite ?Hc; done).
  exists b', sb', ev. split; [done|].
  destruct (spec_process_step _ _ _ _ _ (si_resting _ Hi) He) as (Hstep & _ & _).
  destruct (spec_process_in_time _ _ _ _ _ Hi Ht ltac:(lia) He) as [Ht' Hs']. split.
  - rewrite ref_process_ok; [|by rewrite Hc|apply Hi|apply Ht|done|].
    + by rewrite <- spec_process_exact, He.
    + eapply ids_room; [apply Hi|exact Hid|done|by rewrite Hc].
  - split; [done|done|lia| |].
    + eapply step_bound; [apply machine_fill_is_sound|apply Hi|apply Hi|apply Hi|exact Hqu| |exact Hstep|done]. lia.
    + intros id Hin. destruct (step_ids _ _ _ _ _ _ Hstep id Hin) as [->|]; [done|by apply Hid].
Qed.
End Tracking.

(** The orders a caller of either book sees. *)
Lemma ref_orders_id r : ref_orders r = rb_orders r.
Proof. unfold ref_orders. rewrite <- (list_fmap_id (rb_orders r)) at 2. apply list_fmap_ext. by intros i []. Qed.

Lemma tracked_orders cfg q ids n b sb : tracked cfg q ids n b sb ->
  exists os, resting_orders b = Ok os /\ os ≡ₚ ref_orders (reference_of sb).
Proof.
  intros H. destruct (models_orders cfg b sb (tr_models _ _ _ _ _ _ H)) as (os & Ho & _ & Hp).
  exists os. by rewrite ref_orders_id.
Qed.

Fixpoint ref_process_all (r : ReferenceBook) (cmds : list Command) events
  : result (ReferenceBook * list Event) :=
  match cmds with
  | [] => Ok (r, events)
  | c :: cmds => '(r, events) ← ref_process r c events; ref_process_all r cmds events
  end.

Lemma tracked_run cfg q ids cmds n b sb events : config_ok cfg -> 0 <= q ->
  q * maximum_orders cfg <= u64_max -> Z.of_nat (length ids) <= maximum_orders cfg ->
  tracked cfg q ids n b sb -> n + Z.of_nat (length cmds) <= u64_max ->
  Forall (fun c => 0 <= c_quantity c <= q /\ c_order_id c ∈ ids) cmds ->
  exists b' sb' events', process_all b cmds events = Ok (b', events') /\
    ref_process_all (reference_of sb) cmds events = Ok (reference_of sb', events') /\
    tracked cfg q ids (n + Z.of_nat (length cmds)) b' sb'.
Proof.
  intros Hcfg Hq Hmax Hids. revert n b sb events.
  induction cmds as [|c cmds IH]; intros n b sb events Ht Hn Hc.
  { exists b, sb, events. cbn. by rewrite Z.add_0_r. }
  apply Forall_cons in Hc as [[Hcq Hcid] Hc]. cbn [length] in *.
  destruct (tracked_step cfg q ids Hcfg Hq Hmax Hids n b sb c events events Ht) as (b1 & sb1 & ev & Hp & Hr & Ht1);
    [lia|done|done|].
  destruct (IH (n + 1) b1 sb1 (events ++ ev) Ht1 ltac:(lia) Hc) as (b2 & sb2 & ev2 & Hp2 & Hr2 & Ht2).
  exists b2, sb2, ev2. cbn. rewrite Hp, Hr. cbn. split_and!; [done|done|].
  by replace (n + Z.of_nat (S (length cmds))) with (n + 1 + Z.of_nat (length cmds)) by lia.
Qed.

(** ** The test *)

Lemma equal_event_refl e : equal_event e e = true.
Proof. unfold equal_event. rewrite !Z.eqb_refl. by repeat rewrite bool_decide_eq_true_2 by done. Qed.

Lemma same_order_refl o : same_order o o = true.
Proof. unfold same_order. rewrite !Z.eqb_refl. by repeat rewrite bool_decide_eq_true_2 by done. Qed.

Lemma check_equal_refl {A} (same : A -> A -> bool) (k : list A) : (forall x, same x x = true) ->
  check_equal same k k = Ok ().
Proof.
  intros Hs. unfold check_equal. rewrite Z.eqb_refl. cbn.
  induction k as [|x k IH]; cbn; [done|]. by rewrite Hs.
Qed.

(** Sorting by distinct identifiers forgets the order of the input. *)
Lemma sorted_by_id l l' : NoDup (ro_id <$> l) -> l ≡ₚ l' -> merge_sort by_id l = merge_sort by_id l'.
Proof.
  intros Hnd Hp.
  assert (Transitive by_id) by (intros x y z; unfold by_id; lia).
  assert (Total by_id) by (intros x y; unfold by_id; lia).
  apply (StronglySorted_unique_strong by_id); [|by apply StronglySorted_merge_sort..|by rewrite !merge_sort_Permutation].
  intros x y. rewrite !merge_sort_Permutation, <- Hp. unfold by_id. intros Hx Hy Hxy Hyx.
  apply list_elem_of_lookup in Hx as [i Hi], Hy as [j Hj].
  assert (i = j) as <-; [|congruence].
  eapply (NoDup_lookup _ _ _ (ro_id x) Hnd); rewrite list_lookup_fmap; [by rewrite Hi|].
  rewrite Hj. cbn. f_equal. lia.
Qed.

Definition test_ids : list Z := Z.of_nat <$> seq 1 2000.

Lemma random_command_bounds sequence value :
  0 <= c_quantity (random_command sequence value) <= 20 /\ c_order_id (random_command sequence value) ∈ test_ids.
Proof.
  pose proof (Z.mod_pos_bound (Z.shiftr value 24) 20 ltac:(lia)).
  pose proof (Z.mod_pos_bound value 2000 ltac:(lia)).
  assert (Hid : 1 + value mod 2000 ∈ test_ids).
  { apply list_elem_of_fmap. exists (Z.to_nat (1 + value mod 2000)). split; [lia|].
    apply elem_of_seq. lia. }
  unfold random_command. cbn zeta. destruct (if value mod 100 <? 55 then _ else _) as [[type order_type] price].
  cbn [c_quantity c_order_id]. split; [lia|exact Hid].
Qed.

Lemma test_config_ok : config_ok test_config.
Proof. constructor; vm_compute; intuition discriminate. Qed.

Lemma differential_loop_ok iterations sequence random b sb n :
  tracked test_config 20 test_ids n b sb -> n + Z.of_nat iterations <= u64_max ->
  differential_loop iterations sequence random b (reference_of sb) = Ok ().
Proof.
  revert sequence random b sb n. induction iterations as [|it IH]; intros sequence random b sb n Ht Hn; [done|].
  cbn [differential_loop]. set (v := next_random random).
  destruct (random_command_bounds sequence v) as [Hq Hid].
  destruct (tracked_step test_config 20 test_ids test_config_ok ltac:(lia) ltac:(vm_compute; discriminate)
    ltac:(vm_compute; discriminate) n b sb (random_command sequence v) [] [] Ht ltac:(lia) Hq Hid)
    as (b' & sb' & ev & Hp & Hr & Ht').
  rewrite Hp. cbn [mbind result_bind]. rewrite Hr. cbn [mbind result_bind app].
  rewrite check_equal_refl by apply equal_event_refl. cbn [mbind result_bind].
  assert ((if sequence mod 100 =? 0
    then actual_orders ← resting_orders b';
         check_equal same_order (merge_sort by_id actual_orders) (merge_sort by_id (ref_orders (reference_of sb')))
    else Ok ()) = Ok ()) as ->.
  { destruct (sequence mod 100 =? 0); [|done].
    destruct (tracked_orders _ _ _ _ _ _ Ht') as (os & Ho & Hperm). rewrite Ho. cbn [mbind result_bind].
    assert (Hnd : NoDup (ro_id <$> os)).
    { rewrite Hperm, ref_orders_id. destruct (tr_models _ _ _ _ _ _ Ht') as (_ & Hi & _). apply (si_wf _ Hi). }
    rewrite (sorted_by_id _ _ Hnd Hperm). apply check_equal_refl, same_order_refl. }
  cbn [mbind result_bind]. eapply IH; [exact Ht'|lia].
Qed.

Lemma fuzz_bytes_ok length index random bytes : bytes_ok bytes -> 0 <= index ->
  index + Z.of_nat length <= vsize bytes ->
  exists bytes' random', fuzz_bytes length index random bytes = Ok (bytes', random') /\
    bytes_ok bytes' /\ vsize bytes' = vsize bytes.
Proof.
  revert index random bytes. induction length as [|k IH]; intros index random bytes Hb Hi Hlen.
  { by exists bytes, random. }
  cbn [fuzz_bytes]. rewrite vset_ok by lia. cbn [mbind result_bind].
  destruct (IH (index + 1) (next_random random) bytes.[index := Z.land (next_random random) 255])
    as (b' & r' & E & Hb' & Hs); [|lia|rewrite vsize_vupd; lia|].
  - unfold vupd. case_match; [|done]. apply Forall_insert; [done|].
    change 255 with (Z.ones 8). rewrite Z.land_ones by lia.
    pose proof (Z.mod_pos_bound (next_random random) (2 ^ 8)). intlia.
  - exists b', r'. by rewrite E, Hs, vsize_vupd.
Qed.

Lemma fuzz_loop_ok iterations random bytes : bytes_ok bytes -> fuzz_loop iterations random bytes = Ok ().
Proof.
  revert random bytes. induction iterations as [|it IH]; intros random bytes Hb; [done|].
  cbn [fuzz_loop]. set (r := next_random random). set (len := r mod (vsize bytes + 1)).
  assert (Hlen : 0 <= len < vsize bytes + 1) by (apply Z.mod_pos_bound; unfold vsize; lia).
  destruct (fuzz_bytes_ok (Z.to_nat len) 0 r bytes Hb ltac:(lia) ltac:(lia)) as (b' & r' & E & Hb' & Hs).
  rewrite E. cbn [mbind result_bind].
  assert (Hsz : vsize (take (Z.to_nat len) b') = len).
  { unfold vsize in *. rewrite length_take. lia. }
  assert (Hin : bytes_ok (take (Z.to_nat len) b')) by (by apply Forall_take).
  destruct (decode_request_total Hin) as (q & Hq & Hok & Hbad). rewrite Hq. cbn [mbind result_bind].
  destruct (decode_response_total Hin) as (p & Hp & Pok & Pbad). rewrite Hp. cbn [mbind result_bind].
  assert (Hqc : qd_bytes_consumed q <= len).
  { destruct (decide (qd_status q = DecodeOk)) as [Ed|Ed]; [destruct (Hok Ed) as (_ & _ & ?); lia|].
    rewrite (Hbad Ed). cbn. lia. }
  assert (Hpc : sd_bytes_consumed p <= len).
  { destruct (decide (sd_status p = DecodeOk)) as [Ed|Ed]; [destruct (Pok Ed) as (_ & -> & ?); lia|].
    rewrite (Pbad Ed). cbn. lia. }
  rewrite (proj2 (Z.leb_le _ _) Hqc), (proj2 (Z.leb_le _ _) Hpc). cbn [rassert mbind result_bind]. by apply IH.
Qed.
