(* ===== verification/DifferentialTheorems.v ===== *)
(** * DifferentialTheorems: the optimised book and the reference book

    What the differential suite of the repository samples, for every stream:
    the two implementations report the same events and hold the same orders. *)
From Stdlib Require Import ZArith Lia.
From stdpp Require Import base numbers gmap list sorting.
From S2P Require Import Prelude Types OrderIndex FixedHash OrderBook BookSpec BookRefine SpecInv.
From S2P Require Import BookRun Engine.
From S2P Require Import Bytes Protocol ProtocolFacts Reference ReferenceFacts.
Local Open Scope Z_scope.

(** C5: the optimised book and the naive reference book of the test suite are
    equivalent: on every command stream whose quantities cannot overflow a
    level and whose order identifiers are no more than the book's capacity,
    both process every command, report exactly the same events, and hold the
    same resting orders afterwards. *)
Theorem differential_equivalence (cfg : BookConfig) (q : Z) (ids : list Z) (stream : list Command) :
  config_ok cfg -> 0 <= q -> q * maximum_orders cfg <= u64_max ->
  Z.of_nat (length ids) <= maximum_orders cfg -> Z.of_nat (length stream) <= u64_max ->
  Forall (fun c => 0 <= c_quantity c <= q /\ c_order_id c ∈ ids) stream ->
  exists (b0 b : Engine) r events os,
    make_book cfg = Ok b0 /\ process_all b0 stream [] = Ok (b, events) /\
    ref_process_all (MkReference cfg 0 []) stream [] = Ok (r, events) /\
    resting_orders b = Ok os /\ os ≡ₚ ref_orders r.
Proof.
  intros Hc Hq Hmax Hids Hlen Hs.
  destruct (make_book_ok (I := FixedOrderIndex) cfg Hc) as (b0 & Hb0 & _).
  destruct (tracked_run cfg q ids stream 0 b0 (empty_spec cfg) [] Hc Hq Hmax Hids
    (tracked_empty cfg q ids Hc b0 Hb0) Hlen Hs) as (b & sb & events & Hp & Hr & Ht).
  destruct (tracked_orders _ _ _ _ _ _ Ht) as (os & Ho & Hperm).
  by exists b0, b, (reference_of sb), events, os.
Qed.

Lemma differential_equivalence_witness :
  exists (b0 b : Engine) r events os,
    make_book demo_config = Ok b0 /\ process_all b0 demo_commands [] = Ok (b, events) /\
    ref_process_all (MkReference demo_config 0 []) demo_commands [] = Ok (r, events) /\
    resting_orders b = Ok os /\ os ≡ₚ ref_orders r.
Proof.
  apply (differential_equivalence demo_config 8 [1; 2; 3; 4] demo_commands); [apply demo_config_ok|..].
  - discriminate.
  - vm_compute. discriminate.
  - vm_compute. discriminate.
  - vm_compute. discriminate.
  - unfold demo_commands. repeat constructor; cbn; try lia; set_solver.
Defined.

(** C39: the differential suite succeeds whatever the random stream: for every
    seed and every number of generated commands and frames the comparison of
    events and of sorted orders never fails, no fuzzed frame makes a decoder
    consume more than it was given, and [main] returns 0. *)
Theorem differential_suite_passes (commands frames : nat) (seed seed' : Z) :
  Z.of_nat commands <= u64_max ->
  randomized_differential commands seed = Ok () /\ malformed_protocol_fuzz frames seed' = Ok () /\
  differential_main commands frames seed seed' = 0.
Proof.
  intros Hn.
  assert (Hd : randomized_differential commands seed = Ok ()).
  { unfold randomized_differential.
    destruct (make_book_ok (I := FixedOrderIndex) test_config test_config_ok) as (b0 & Hb0 & _).
    rewrite Hb0. cbn [mbind result_bind].
    exact (differential_loop_ok commands 1 seed b0 (empty_spec test_config) 0
      (tracked_empty test_config 20 test_ids test_config_ok b0 Hb0) Hn). }
  assert (Hf : malformed_protocol_fuzz frames seed' = Ok ()).
  { apply fuzz_loop_ok, Forall_replicate. by vm_compute. }
  split_and!; [done|done|]. unfold differential_main. by rewrite Hd, Hf.
Qed.

Lemma differential_suite_passes_witness :
  randomized_differential (Z.to_nat 50000) 10321566047932931041 = Ok () /\
  malformed_protocol_fuzz (Z.to_nat 100000) 15074714826142052245 = Ok () /\
  differential_main (Z.to_nat 50000) (Z.to_nat 100000) 10321566047932931041 15074714826142052245 = 0.
Proof.
  apply (differential_suite_passes (Z.to_nat 50000) (Z.to_nat 100000)
    10321566047932931041 15074714826142052245).
  rewrite Z2Nat.id by discriminate. discriminate.
Defined.
