(* ===== verification/SystemTheorems.v ===== *)
(** * SystemTheorems: queues, engine loops and the pipeline they form *)
From Stdlib Require Import ZArith Lia.
From stdpp Require Import base numbers gmap list sorting.
From S2P Require Import Prelude Types OrderIndex FixedHash OrderBook BookSpec SpecFacts.
From S2P Require Import BookRefine SpecStep SpecInv BookSnapshot BookRun Engine Bytes Protocol.
From S2P Require Import ProtocolFacts Gateway Spsc SpscWeak Runner.
Local Open Scope Z_scope.

(** ** The ring *)

(** C33: The queue as a bounded FIFO: the constructor accepts every capacity from
    1 to 2^63 - 1 and throws for the others; a push succeeds exactly while
    fewer than [slots - 1] items, at least the requested capacity, are held
    and then appends; a pop returns the oldest item, or nothing exactly when
    the queue is empty; no access leaves the buffer. *)
Theorem queue_is_bounded_fifo {T : Type} (zero v : T) (n : Z) (q : SpscQueue T) (items : list T) :
  is_u64 n -> holds q items ->
  (if (n =? 0) || (largest_power_of_two <=? n) then make_queue zero n = Fail InvalidArgument
   else exists q0, make_queue zero n = Ok q0 /\ holds q0 [] /\ n <= slots q0 - 1 < 2 * n + 1) /\
  ((vsize items < slots q - 1 /\ exists q', try_push q v = Ok (q', true) /\
      holds q' (items ++ [v]) /\ slots q' = slots q) \/
   (vsize items = slots q - 1 /\ try_push q v = Ok (q, false))) /\
  match items with
  | [] => try_pop q = Ok (q, None)
  | x :: rest => exists q', try_pop q = Ok (q', Some x) /\ holds q' rest /\ slots q' = slots q
  end.
Proof.
  intros Hn H. split_and!.
  - by apply make_queue_ok.
  - by apply try_push_ok.
  - by apply try_pop_ok.
Qed.

Definition demo_queue : SpscQueue Z := MkQueue [10; 20; 30; 40] 3 3 1.

Lemma demo_queue_holds : holds demo_queue [40; 10].
Proof.
  constructor; try (vm_compute; solve [reflexivity|intuition discriminate]).
  - exists 2. split; [lia|reflexivity].
  - intros k x Hk. pose proof (vlook_Some_lt _ _ _ Hk) as Hr. unfold vsize in Hr. cbn in Hr.
    destruct (decide (k = 0)) as [->|]; [by injection Hk as <-|].
    assert (k = 1) as -> by lia. by injection Hk as <-.
Qed.

Lemma queue_is_bounded_fifo_witness :
  (if (100 =? 0) || (largest_power_of_two <=? 100) then make_queue 0 100 = Fail InvalidArgument
   else exists q0, make_queue 0 100 = Ok q0 /\ holds q0 [] /\ 100 <= slots q0 - 1 < 2 * 100 + 1) /\
  ((vsize [40; 10] < slots demo_queue - 1 /\ exists q', try_push demo_queue 50 = Ok (q', true) /\
      holds q' ([40; 10] ++ [50]) /\ slots q' = slots demo_queue) \/
   (vsize [40; 10] = slots demo_queue - 1 /\ try_push demo_queue 50 = Ok (demo_queue, false))) /\
  exists q', try_pop demo_queue = Ok (q', Some 40) /\ holds q' [10] /\ slots q' = slots demo_queue.
Proof.
  apply (queue_is_bounded_fifo 0 50 100 demo_queue [40; 10]).
  - vm_compute. intuition discriminate.
  - exact demo_queue_holds.
Defined.

(** Under every interleaving of the producer's and the consumer's atomic
    operations, the values popped are a prefix of the values pushed, in order,
    and the difference fits the ring: nothing is lost, duplicated or
    reordered.  The slot the producer is about to write is never the one the
    consumer is about to read, and both accesses are in range. *)
Theorem ring_interleaving_safe {T : Type} (q0 : SpscQueue T) (s : System T) :
  holds q0 [] -> reaches q0 s ->
  exists items, pushed s = popped s ++ items /\ vsize items <= slots q0 - 1 /\
    (forall v t h, producer s = PReady v t -> consumer s = CReady h -> t <> h) /\
    (forall v t, producer s = PReady v t -> exists bs, vset (buffer (queue_of s)) t v = Ok bs) /\
    (forall h, consumer s = CReady h -> exists v rest, vget (buffer (queue_of s)) h = Ok v /\
       items = v :: rest).
Proof.
  intros H0 Hr. destruct (reaches_inv q0 s H0 Hr) as (items & [Hh Hn Hf Hp Hc]).
  exists items. pose proof (qh_room _ _ Hh). split_and!; [done|lia|..].
  - intros v t h Ep Ec. rewrite Ep in Hp. rewrite Ec in Hc. cbn in Hp, Hc.
    destruct Hp as [-> Hroom], Hc as [-> Hne]. intros E. symmetry in E.
    by apply (empty_test _ items Hh) in E.
  - intros v t Ep. rewrite Ep in Hp. cbn in Hp. destruct Hp as [-> _].
    destruct (write_holds _ items v Hh) as (bs & Hb & _). by exists bs.
  - intros h Ec. rewrite Ec in Hc. cbn in Hc. destruct Hc as [-> Hne].
    destruct items as [|v rest]; [done|]. exists v, rest. split; [|done].
    destruct (release_holds _ rest v Hh) as [Hv _]. by apply vget_ok.
Qed.

Definition tiny_queue : SpscQueue Z := MkQueue [0; 0] 1 0 0.

Lemma tiny_queue_holds : holds tiny_queue [].
Proof. apply (empty_ring_holds (buffer tiny_queue) 1); [lia|reflexivity]. Qed.

Lemma ring_interleaving_safe_witness :
  let s := MkSystem tiny_queue (PReady 5 0) (CLoaded 0) [] [] in
  exists items, pushed s = popped s ++ items /\ vsize items <= slots tiny_queue - 1 /\
    (forall v t h, producer s = PReady v t -> consumer s = CReady h -> t <> h) /\
    (forall v t, producer s = PReady v t -> exists bs, vset (buffer (queue_of s)) t v = Ok bs) /\
    (forall h, consumer s = CReady h -> exists v rest, vget (buffer (queue_of s)) h = Ok v /\
       items = v :: rest).
Proof.
  apply (ring_interleaving_safe tiny_queue (MkSystem tiny_queue (PReady 5 0) (CLoaded 0) [] [])).
  - exact tiny_queue_holds.
  - eapply reaches_step; [eapply reaches_step; [eapply reaches_step; [apply reaches_start|]|]|].
    + apply (push_start tiny_queue CIdle [] [] 5).
    + apply (push_space tiny_queue CIdle [] [] 5 0). vm_compute. discriminate.
    + apply (pop_start tiny_queue (PReady 5 0) [] []).
Defined.

(** C20: under the C++ memory model's release/acquire rules - a load of an
    index may return any value not older than the thread already knows of, and
    only a release store read by an acquire load orders the plain accesses of
    the buffer - every execution of one producer and one consumer is free of
    data races and reads and writes the buffer in range; values come out
    exactly once, in order, at most the capacity in flight; a pop reads the
    oldest value not yet taken; and a load that returns the newest index
    decides full and empty exactly. *)
Theorem ring_release_acquire_safe {T : Type} (q0 : SpscQueue T) (s : WeakSystem T) :
  holds q0 [] -> weak_reaches q0 s ->
  ~ racing s /\
  exists items, w_pushed s = w_popped s ++ items /\ vsize items <= slots q0 - 1 /\
    (forall v t, pstate s = PReady v t ->
       exists mem p, write_cell (memory s) (pview s) t v = Ok (mem, p)) /\
    (forall h, cstate s = CReady h ->
       exists v mem c, read_cell (memory s) (cview s) h = Ok (v, mem, c) /\ items !! 0%nat = Some v) /\
    (forall v t h p, pstate s = PLoaded v t ->
       load_acquire (memory s) Head (pview s) (vsize (w_popped s)) = Some (h, p) ->
       (weak_next (mask q0) t = h <-> vsize items = slots q0 - 1)) /\
    (forall h t c, cstate s = CLoaded h ->
       load_acquire (memory s) Tail (cview s) (vsize (w_pushed s)) = Some (t, c) ->
       (h = t <-> items = [])).
Proof.
  intros H0 Hr. pose proof (weak_reaches_inv q0 H0 s Hr) as Hi.
  split; [exact (weak_no_race q0 H0 s Hi)|].
  destruct (weak_fifo q0 s Hi) as (items & Hf & Hcap). exists items. split_and!; [done..|idtac|idtac|idtac|idtac].
  - intros v t. by apply (weak_write_ok q0 H0).
  - intros h Ec. destruct (weak_read_ok q0 s h Hi Ec) as (v & mem & c & Hread & Hv).
    exists v, mem, c. split; [done|]. rewrite Hf in Hv. apply vlook_nat in Hv.
    by rewrite lookup_app_r, Nat.sub_diag in Hv by lia.
  - intros v t h p. by apply (weak_full_fresh q0 H0).
  - intros h t c. by apply (weak_empty_fresh q0 H0).
Qed.

(** A value was published, a pop read the old tail and found nothing, and the
    next pop has read the new one. *)
Definition stale_pop : WeakSystem Z :=
  let v := MkView 0 1 1 0 in
  MkWeak (MkMemory [MkCell 5 1 0; MkCell 0 0 0] [MkMessage 0 view_bot]
            [MkMessage 0 view_bot; MkMessage 1 v])
    v v PIdle (CReady 0) [5] [].

Lemma stale_pop_reached : weak_reaches tiny_queue stale_pop.
Proof.
  eapply weak_reaches_step; [eapply weak_reaches_step; [eapply weak_reaches_step;
    [eapply weak_reaches_step; [eapply weak_reaches_step; [eapply weak_reaches_step;
    [eapply weak_reaches_step; [eapply weak_reaches_step; [apply weak_reaches_start|]|]|]|]|]|]|]|].
  - apply (weak_push_start _ _ _ _ _ _ _ 5 0 0 view_bot). reflexivity.
  - apply (weak_push_space _ _ _ _ _ _ _ 5 0 0 0 view_bot); [reflexivity|vm_compute; discriminate].
  - eapply weak_push_write. reflexivity.
  - eapply weak_push_publish. reflexivity.
  - apply (weak_pop_start _ _ _ _ _ _ _ 0 0 view_bot). reflexivity.
  - apply (weak_pop_empty _ _ _ _ _ _ _ 0 0 0 view_bot); reflexivity.
  - apply (weak_pop_start _ _ _ _ _ _ _ 0 0 view_bot). reflexivity.
  - apply (weak_pop_ready _ _ _ _ _ _ _ 0 1 1 (MkView 0 1 1 0)); [reflexivity|discriminate].
Qed.

Lemma ring_release_acquire_safe_witness :
  ~ racing stale_pop /\
  exists v mem c, read_cell (memory stale_pop) (cview stale_pop) 0 = Ok (v, mem, c) /\ v = 5.
Proof.
  destruct (ring_release_acquire_safe tiny_queue stale_pop tiny_queue_holds stale_pop_reached)
    as [Hrace (items & Hf & _ & _ & Hread & _)].
  split; [exact Hrace|]. destruct (Hread 0 eq_refl) as (v & mem & c & Hr & Hv).
  exists v, mem, c. split; [exact Hr|]. cbn in Hf. rewrite <- Hf in Hv. by injection Hv as <-.
Defined.

(** ** The engine loop *)

(** C13: The gateway's engine loop: whatever the interleaving with the network
    thread, every received request has been numbered contiguously and, when a
    journal is attached, appended to it; the responses published, drained and
    still pending are exactly those the specification owes to the received
    requests, in order and correlated with their session, and nothing is
    dropped unless the loop was stopped while the output was full; no request
    ever meets a sequence gap. *)
Theorem gateway_runner_correct (cfg : BookConfig) (b : Engine) (iq : SpscQueue GatewayRequest)
    (oq : SpscQueue GatewayResponse) (j : option (list Command)) (w : World) :
  reachable cfg b -> holds iq [] -> holds oq [] ->
  gateway_runs (start b iq oq j) w ->
  exists sb dropped outs,
    refines b sb /\
    let first := u64 (last_sequence (stats b) + 1) in
    let commands := numbered gateway_admit first (received w) in
    let responses := owed gateway_admit gateway_respond sb first (received w) in
    r_journal (runner w) = (fun records => records ++ commands) <$> j /\
    responses = published w ++ pending gateway_respond (r_phase (runner w)) ++ dropped /\
    (r_phase (runner w) <> Stopped -> dropped = []) /\
    published w = drained w ++ outs /\
    Forall (fun r => e_reason (gs_event r) <> SequenceGap) responses.
Proof.
  intros (sb & Hm)%reachable_models Hi Ho Hr.
  destruct (runs_inv _ _ _ _ _ _ _ _ _ _ (start_inv gateway_admit gateway_respond cfg b sb iq oq j Hm Hi Ho) Hr)
    as (ins & outs & sb' & [_ _ _ _ _ Hj _ (dr & Hp & Hd) Hdr]).
  pose proof Hm as ([G HG] & _). exists sb, dr, outs. split; [apply Hm|]. cbv zeta.
  split_and!; auto. apply owed_in_sequence.
  by rewrite (rp_spec _ _ _ HG).
Qed.

Definition demo_gateway_request : GatewayRequest :=
  MkGatewayRequest 7 1 (MkCommand 0 New Sell Limit 0 9 103 2).
Definition request_ring : SpscQueue GatewayRequest :=
  MkQueue [demo_gateway_request; demo_gateway_request] 1 0 0.
Definition response_ring : SpscQueue GatewayResponse :=
  MkQueue (replicate 4 (MkGatewayResponse 0 0 Event_zero)) 3 0 0.

Lemma request_ring_holds : holds request_ring [].
Proof. apply (empty_ring_holds (buffer request_ring) 1); [lia|reflexivity]. Qed.

Lemma response_ring_holds : holds response_ring [].
Proof. apply (empty_ring_holds (buffer response_ring) 2); [lia|reflexivity]. Qed.

(** One request pushed by the network thread, popped and processed by the
    loop: its events are being published. *)
Definition pushed_ring : SpscQueue GatewayRequest :=
  match try_push request_ring demo_gateway_request with Ok (q, _) => q | Fail _ => request_ring end.
Definition popped_ring : SpscQueue GatewayRequest :=
  match try_pop pushed_ring with Ok (q, _) => q | Fail _ => request_ring end.
Definition demo_runner : @Runner GatewayRequest GatewayResponse :=
  make_runner demo_book pushed_ring response_ring (Some []).
Definition handled_runner : @Runner GatewayRequest GatewayResponse :=
  match handle gateway_admit demo_runner popped_ring demo_gateway_request with
  | Ok r => r | Fail _ => demo_runner
  end.
Definition demo_world : World := MkWorld handled_runner [demo_gateway_request] [] [].

Lemma demo_runs : gateway_runs
  (start demo_book request_ring response_ring (Some [])) demo_world.
Proof.
  eapply runs_step; [eapply runs_step; [apply runs_start|]|].
  - apply (env_push gateway_admit gateway_respond demo_book request_ring response_ring (Some [])
             (u64 (last_sequence (stats demo_book) + 1)) Polling [] [] [] demo_gateway_request pushed_ring).
    + intros n. vm_compute. intuition discriminate.
    + vm_compute. reflexivity.
  - apply (run_pop gateway_admit gateway_respond demo_runner [] [] [] demo_gateway_request popped_ring
             handled_runner); vm_compute; reflexivity.
Qed.

Example demo_world_publishing :
  (exists e es, r_phase handled_runner = Publishing demo_gateway_request (e :: es)) /\
  r_journal handled_runner = Some [gateway_admit (u64 (last_sequence (stats demo_book) + 1)) demo_gateway_request].
Proof. split; [|vm_compute; reflexivity]. vm_compute. eexists _, _. reflexivity. Qed.

Lemma gateway_runner_correct_witness :
  exists sb dropped outs,
    refines demo_book sb /\
    let first := u64 (last_sequence (stats demo_book) + 1) in
    let commands := numbered gateway_admit first (received demo_world) in
    let responses := owed gateway_admit gateway_respond sb first (received demo_world) in
    r_journal (runner demo_world) = Some ([] ++ commands) /\
    responses = published demo_world ++ pending gateway_respond (r_phase (runner demo_world)) ++ dropped /\
    (r_phase (runner demo_world) <> Stopped -> dropped = []) /\
    published demo_world = drained demo_world ++ outs /\
    Forall (fun r => e_reason (gs_event r) <> SequenceGap) responses.
Proof.
  exact (gateway_runner_correct demo_config demo_book request_ring response_ring (Some []) demo_world
           demo_reachable request_ring_holds response_ring_holds demo_runs).
Defined.

(** C34: The gateway's engine loop never gets stuck on a fault: in every state
    it can reach, a polled request is processed to a normal end, an event is
    pushed or finds the ring full, and a full ring has a response for the
    consumer to take. *)
Theorem gateway_runner_progress (cfg : BookConfig) (b : Engine) (iq : SpscQueue GatewayRequest)
    (oq : SpscQueue GatewayResponse) (j : option (list Command)) (w : World) :
  reachable cfg b -> holds iq [] -> holds oq [] ->
  gateway_runs (start b iq oq j) w ->
  match r_phase (runner w) with
  | Polling => try_pop (r_input (runner w)) = Ok (r_input (runner w), None) \/
      exists v iq' r', try_pop (r_input (runner w)) = Ok (iq', Some v) /\
        handle gateway_admit (runner w) iq' v = Ok r'
  | Publishing v (e :: es) =>
      (exists oq', try_push (r_output (runner w)) (gateway_respond v e) = Ok (oq', true)) \/
      try_push (r_output (runner w)) (gateway_respond v e) = Ok (r_output (runner w), false) /\
      exists x oq', try_pop (r_output (runner w)) = Ok (oq', Some x)
  | _ => True
  end.
Proof.
  intros (sb & Hm)%reachable_models Hi Ho Hr.
  destruct (runs_inv _ _ _ _ _ _ _ _ _ _ (start_inv _ _ cfg b sb iq oq j Hm Hi Ho) Hr)
    as (ins & outs & sb' & Hw).
  exact (world_progress _ _ _ _ _ _ _ _ _ _ Hw).
Qed.

Lemma gateway_runner_progress_witness :
  match r_phase (runner demo_world) with
  | Polling => try_pop (r_input (runner demo_world)) = Ok (r_input (runner demo_world), None) \/
      exists v iq' r', try_pop (r_input (runner demo_world)) = Ok (iq', Some v) /\
        handle gateway_admit (runner demo_world) iq' v = Ok r'
  | Publishing v (e :: es) =>
      (exists oq', try_push (r_output (runner demo_world)) (gateway_respond v e) = Ok (oq', true)) \/
      try_push (r_output (runner demo_world)) (gateway_respond v e) =
        Ok (r_output (runner demo_world), false) /\
      exists x oq', try_pop (r_output (runner demo_world)) = Ok (oq', Some x)
  | _ => True
  end.
Proof.
  exact (gateway_runner_progress demo_config demo_book request_ring response_ring (Some []) demo_world
           demo_reachable request_ring_holds response_ring_holds demo_runs).
Defined.

(** C35: The plain engine loop ([EngineRunner]): whatever the interleaving, the
    journal holds the commands received, as received, and the events
    published, drained and still pending are exactly those of the
    specification run on these commands, in order, with nothing dropped unless
    the loop was stopped while the output was full. *)
Theorem engine_runner_correct (cfg : BookConfig) (b : Engine) (iq : SpscQueue Command)
    (oq : SpscQueue Event) (j : option (list Command)) (w : World) :
  reachable cfg b -> holds iq [] -> holds oq [] -> engine_runs (start b iq oq j) w ->
  exists sb dropped outs,
    refines b sb /\
    r_journal (runner w) = (fun records => records ++ received w) <$> j /\
    (spec_run machine_fill sb (received w)).2 =
      published w ++ pending engine_respond (r_phase (runner w)) ++ dropped /\
    (r_phase (runner w) <> Stopped -> dropped = []) /\
    published w = drained w ++ outs /\
    refines (r_book (runner w)) (spec_run machine_fill sb (received w)).1.
Proof.
  intros (sb & Hm)%reachable_models Hi Ho Hr.
  destruct (runs_inv _ _ _ _ _ _ _ _ _ _ (start_inv _ _ cfg b sb iq oq j Hm Hi Ho) Hr)
    as (ins & outs & sb' & [Hm' _ _ _ _ Hj Hs (dr & Hp & Hd) Hdr]).
  rewrite engine_numbered in Hj, Hs. rewrite engine_owed in Hp.
  exists sb, dr, outs. split_and!; auto; [apply Hm|]. rewrite <- Hs. apply Hm'.
Qed.

Definition demo_command : Command := MkCommand 4 New Sell Limit 0 9 103 2.
Definition command_ring : SpscQueue Command := MkQueue [demo_command; demo_command] 1 0 0.
Definition event_ring : SpscQueue Event := MkQueue [Event_zero; Event_zero] 1 0 0.

Lemma engine_runner_correct_witness :
  let w := MkWorld (make_runner demo_book
             (MkQueue [demo_command; demo_command] 1 0 1) event_ring (Some [])) [] [] [] in
  exists sb dropped outs,
    refines demo_book sb /\
    r_journal (runner w) = Some ([] ++ received w) /\
    (spec_run machine_fill sb (received w)).2 =
      published w ++ pending engine_respond (r_phase (runner w)) ++ dropped /\
    (r_phase (runner w) <> Stopped -> dropped = []) /\
    published w = drained w ++ outs /\
    refines (r_book (runner w)) (spec_run machine_fill sb (received w)).1.
Proof.
  apply (engine_runner_correct demo_config demo_book command_ring event_ring (Some [])
    (MkWorld (make_runner demo_book
             (MkQueue [demo_command; demo_command] 1 0 1) event_ring (Some [])) [] [] [])).
  - exact demo_reachable.
  - apply (empty_ring_holds (buffer command_ring) 1); [lia|reflexivity].
  - apply (empty_ring_holds (buffer event_ring) 1); [lia|reflexivity].
  - eapply runs_step; [apply runs_start|].
    apply (env_push engine_admit engine_respond demo_book command_ring event_ring (Some [])
             (u64 (last_sequence (stats demo_book) + 1)) Polling [] [] [] demo_command).
    + intros n. vm_compute. intuition discriminate.
    + vm_compute. reflexivity.
Defined.

(** Recovery: at any moment, processing the commands journaled by the loop
    on the book it started from runs to a normal end and gives a book with the
    same resting orders, in the same priority, as the live one. *)
Theorem journal_reproduces_book (cfg : BookConfig) (b : Engine) (iq : SpscQueue GatewayRequest)
    (oq : SpscQueue GatewayResponse) (w : World) :
  reachable cfg b -> holds iq [] -> holds oq [] ->
  gateway_runs (start b iq oq (Some [])) w ->
  exists commands b' events sb, r_journal (runner w) = Some commands /\
    process_all b commands [] = Ok (b', events) /\
    refines b' sb /\ refines (r_book (runner w)) sb /\
    resting_orders b' = resting_orders (r_book (runner w)) /\ stats b' = stats (r_book (runner w)).
Proof.
  intros (sb & Hm)%reachable_models Hi Ho Hr.
  destruct (runs_inv _ _ _ _ _ _ _ _ _ _ (start_inv gateway_admit gateway_respond cfg b sb iq oq (Some []) Hm Hi Ho) Hr)
    as (ins & outs & sb' & [Hm' _ [_ Hf] _ _ Hj Hs _ _]).
  set (commands := numbered _ _ _) in *. cbn in Hj.
  assert (Hq : quantities_u64 commands) by (by apply numbered_fits).
  destruct (process_all_ok commands b sb [] (proj1 Hm) Hq) as (b' & Hp & Hb').
  rewrite <- Hs in Hb'. exists commands, b', (spec_run machine_fill sb commands).2, sb'.
  destruct Hm' as (Hr' & _). split_and!; auto.
  - by rewrite (refines_orders _ _ Hb'), (refines_orders _ _ Hr').
  - destruct Hb' as [G1 H1], Hr' as [G2 H2].
    pose proof (rp_spec _ _ _ H1) as E1. pose proof (rp_spec _ _ _ H2) as E2. congruence.
Qed.

Lemma journal_reproduces_book_witness :
  exists commands b' events sb, r_journal (runner demo_world) = Some commands /\
    process_all demo_book commands [] = Ok (b', events) /\
    refines b' sb /\ refines (r_book (runner demo_world)) sb /\
    resting_orders b' = resting_orders (r_book (runner demo_world)) /\
    stats b' = stats (r_book (runner demo_world)).
Proof.
  exact (journal_reproduces_book demo_config demo_book request_ring response_ring demo_world
           demo_reachable request_ring_holds response_ring_holds demo_runs).
Defined.
