(* ===== verification/Journal.v ===== *)
(** * Journal: the command journal and the snapshot files
      (include/dme/journal.hpp, src/journal.cpp)

    Files are byte strings.  The sources write the object representations of
    their structures: little-endian fields at the offsets of the usual 64-bit
    ABIs, padding included.  Padding is a parameter of every definition that
    writes a structure, since its bytes are unspecified in C++.

    A [Stream] is an [std::ofstream]: bytes that reached the file, bytes still
    buffered, and the state bit.  Every stream operation takes the fault the
    operating system may report; a faulty write leaves a prefix. *)
From Stdlib Require Import ZArith Lia.
From stdpp Require Import base numbers gmap strings list.
From S2P Require Import Prelude Types OrderIndex FixedHash OrderBook Engine.
Local Open Scope Z_scope.

(** ** Object representations *)

Fixpoint le (n : nat) (v : Z) : list Z :=
  match n with O => [] | S n => v mod 256 :: le n (v / 256) end.

Fixpoint of_le (bs : list Z) : Z :=
  match bs with [] => 0 | b :: bs => b + 256 * of_le bs end.

Definition field (offset n : nat) (bs : list Z) : list Z := take n (drop offset bs).

(** [Command]: 40 bytes, the four after [reserved] are padding. *)
Definition command_size : nat := 40.
Definition command_bytes (c : Command) (pad : list Z) : list Z :=
  le 8 (c_sequence c) ++
  [command_type_to_u8 (c_type c); side_to_u8 (c_side c); order_type_to_u8 (c_order_type c);
   c_reserved c] ++ pad ++
  le 8 (c_order_id c) ++ le 8 (u64 (c_price c)) ++ le 8 (c_quantity c).

Definition of_byte {A} (f : Z -> option A) (bs : list Z) (offset : nat) : result A :=
  match bs !! offset with
  | None => Fail OutOfBounds
  | Some b => match f b with Some a => Ok a | None => Fail BadEnumerator end
  end.

Definition command_of_bytes (bs : list Z) : result Command :=
  type ← of_byte command_type_of_u8 bs 8;
  side ← of_byte side_of_u8 bs 9;
  order_type ← of_byte order_type_of_u8 bs 10;
  reserved ← of_byte Some bs 11;
  Ok (MkCommand (of_le (field 0 8 bs)) type side order_type reserved (of_le (field 16 8 bs))
        (i64 (of_le (field 24 8 bs))) (of_le (field 32 8 bs))).

(** [RestingOrder]: 40 bytes, the seven after [side] are padding. *)
Definition order_size : nat := 40.
Definition order_bytes (o : RestingOrder) (pad : list Z) : list Z :=
  le 8 (ro_id o) ++ [side_to_u8 (ro_side o)] ++ pad ++ le 8 (u64 (ro_price o)) ++
  le 8 (ro_quantity o) ++ le 8 (ro_priority o).

Definition order_of_bytes (bs : list Z) : result RestingOrder :=
  side ← of_byte side_of_u8 bs 8;
  Ok (MkResting (of_le (field 0 8 bs)) side (i64 (of_le (field 16 8 bs)))
        (of_le (field 24 8 bs)) (of_le (field 32 8 bs))).

(** [FileHeader]: magic, version, record size. *)
Definition header_bytes : nat := 16.
Definition journal_magic : list Z := [68; 77; 69; 74; 78; 76; 49; 0].    (* DMEJNL1 *)
Definition snapshot_magic : list Z := [68; 77; 69; 83; 78; 80; 49; 0].   (* DMESNP1 *)
Definition record_size : nat := 48.

Definition file_header (magic : list Z) (size : nat) : list Z :=
  magic ++ le 4 1 ++ le 4 (Z.of_nat size).

(** The header tests, on the bytes that [read] delivered. *)
Definition header_ok (magic : list Z) (size : nat) (bs : list Z) : bool :=
  bool_decide (field 0 8 bs = magic) && (of_le (field 8 4 bs) =? 1) &&
  (of_le (field 12 4 bs) =? Z.of_nat size).

(** [BookConfig], four 8-byte fields. *)
Definition config_bytes (cfg : BookConfig) : list Z :=
  le 8 (u64 (minimum_price cfg)) ++ le 8 (u64 (maximum_price cfg)) ++ le 8 (u64 (tick_size cfg)) ++
  le 8 (maximum_orders cfg).
Definition config_of_bytes (bs : list Z) : BookConfig :=
  MkConfig (i64 (of_le (field 0 8 bs))) (i64 (of_le (field 8 8 bs))) (i64 (of_le (field 16 8 bs)))
    (of_le (field 24 8 bs)).

(** ** The checksum *)

Definition checksum_step (hash b : Z) : Z := u64 (Z.lxor hash b * 1099511628211).
Definition checksum_bytes (bs : list Z) : Z := fold_left checksum_step bs 1469598103934665603.

(** ** Output streams *)

(** A [std::ofstream]: once it has failed it ignores writes and flushes, and
    what could not be transferred stays in its buffer.  Whether its destructor
    tries to transfer it again is left to the file system: see [sf_close]. *)
Record Stream : Set := MkStream {
  st_file : list Z;      (* in the file *)
  st_buffer : list Z;    (* written to the stream, not known to be in the file *)
  st_good : bool }.

(** [None]: no fault; [Some k]: the operation fails when [k] of the bytes to be
    transferred have reached the file. *)
Abbreviation fault := (option nat).

Definition stream_write (s : Stream) (bs : list Z) (f : fault) : Stream :=
  if st_good s then
    match f with
    | None => MkStream (st_file s) (st_buffer s ++ bs) true
    | Some k => MkStream (st_file s ++ take k (st_buffer s ++ bs)) (st_buffer s ++ bs) false
    end
  else s.

Definition stream_flush (s : Stream) (f : fault) : Stream :=
  if st_good s then
    match f with
    | None => MkStream (st_file s ++ st_buffer s) [] true
    | Some k => MkStream (st_file s ++ take k (st_buffer s)) (st_buffer s) false
    end
  else s.

(** [write_exact]: the stream, and whether it threw. *)
Definition write_exact (s : Stream) (bs : list Z) (f : fault) : Stream * result unit :=
  let s := stream_write s bs f in
  (s, if st_good s then Ok () else Fail RuntimeError).

(** ** [JournalWriter] *)

Record JournalWriter : Set := MkWriter {
  jw_stream : Stream;
  jw_synchronous : bool }.

(** The constructor on the file at [path], if there is one. *)
Definition make_writer (existing : option (list Z)) (synchronous opens : bool) (f flush_fault : fault)
  : result JournalWriter :=
  let content := default [] existing in
  let new_file := bool_decide (content = []) in
  if negb new_file &&
     (negb (header_bytes <=? length content)%nat || negb (header_ok journal_magic record_size content))
  then Fail RuntimeError
  else if negb opens then Fail RuntimeError
  else
    let s := MkStream content [] true in
    if new_file then
      let '(s, r) := write_exact s (file_header journal_magic record_size) f in
      _ ← r;
      Ok (MkWriter (stream_flush s flush_fault) synchronous)
    else Ok (MkWriter s synchronous).

(** The record that [append] builds: [pad] is the padding of the argument,
    over which the checksum is computed, [pad'] that of the record's copy. *)
Definition journal_record (c : Command) (pad pad' : list Z) : list Z :=
  command_bytes c pad' ++ le 8 (checksum_bytes (command_bytes c pad)).

Definition append (w : JournalWriter) (c : Command) (pad pad' : list Z) (f flush_fault : fault)
  : JournalWriter * result unit :=
  let '(s, r) := write_exact (jw_stream w) (journal_record c pad pad') f in
  match r with
  | Ok _ =>
    let s := if jw_synchronous w then stream_flush s flush_fault else s in
    (MkWriter s (jw_synchronous w), Ok ())
  | Fail e => (MkWriter s (jw_synchronous w), Fail e)
  end.

Definition flush (w : JournalWriter) (f : fault) : JournalWriter * result unit :=
  let s := stream_flush (jw_stream w) f in
  (MkWriter s (jw_synchronous w), if st_good s then Ok () else Fail RuntimeError).

(** ** [replay_journal] *)

Record ReplayResult : Set := MkReplay {
  rr_records : Z;
  rr_valid_bytes : Z;
  rr_clean_end : bool }.

Section Replay.
Context {S : Type} (consumer : S -> Command -> result S).

(** The [while]: [rest] is the file from the read position on. *)
Fixpoint replay_loop (fuel : nat) (rest : list Z) (s : S) (r : ReplayResult)
  : result (S * ReplayResult) :=
  match fuel with
  | O => Fail OutOfFuel
  | Datatypes.S fuel =>
    let record := take record_size rest in
    if (length record =? 0)%nat then Ok (s, r)
    else if negb (length record =? record_size)%nat ||
            negb (of_le (field command_size 8 record) =? checksum_bytes (take command_size record))
    then Ok (s, MkReplay (rr_records r) (rr_valid_bytes r) false)
    else
      command ← command_of_bytes (take command_size record);
      s ← consumer s command;
      replay_loop fuel (drop record_size rest) s
        (MkReplay (u64 (rr_records r + 1)) (u64 (rr_valid_bytes r + Z.of_nat record_size))
           (rr_clean_end r))
  end.

Definition replay_journal (existing : option (list Z)) (s : S) : result (S * ReplayResult) :=
  match existing with
  | None => Fail RuntimeError
  | Some content =>
    if negb (header_bytes <=? length content)%nat || negb (header_ok journal_magic record_size content)
    then Fail RuntimeError
    else replay_loop (Datatypes.S (length content)) (drop header_bytes content) s
           (MkReplay 0 (Z.of_nat header_bytes) true)
  end.
End Replay.

(** The consumer of apps/replay.cpp: the events are cleared before each
    command. *)
Definition replay_consumer (b : Engine) (c : Command) : result Engine :=
  '(b, _) ← process b c []; Ok b.

(** The [try] block of apps/replay.cpp on the file it is given: the exit
    status.  It catches every exception. *)
Definition replay_config : BookConfig := MkConfig 1 1000000 1 1000000.
Definition replay_status (b : Engine) (r : ReplayResult) : Z :=
  if rr_clean_end r && (rejected (stats b) =? 0) then 0 else 1.
Definition replay_tool (existing : option (list Z)) : result Z :=
  match (b ← make_book replay_config; replay_journal replay_consumer existing b) with
  | Ok (b, r) => Ok (replay_status b r)
  | Fail (RuntimeError | InvalidArgument | LogicError) => Ok 1
  | Fail e => Fail e
  end.

Abbreviation FileSystem := (gmap string (list Z)).

(** [main]. *)
Definition replay_main (files : FileSystem) (argv : list string) : result Z :=
  match argv with
  | [_; path] => replay_tool (files !! path)
  | _ => Ok 2
  end.

(** ** Snapshots *)

(** [SnapshotHeader], 72 bytes, and the orders after it; [pads] is the padding
    of each element of the vector. *)
Definition snapshot_header_bytes : nat := 72.
Definition orders_bytes (orders : list RestingOrder) (pads : nat -> list Z) : list Z :=
  concat (imap (fun i o => order_bytes o (pads i)) orders).
Definition snapshot_header (b : Engine) (orders : list RestingOrder) (pads : nat -> list Z) : list Z :=
  file_header snapshot_magic order_size ++ config_bytes (config b) ++
  le 8 (last_sequence (stats b)) ++ le 8 (Z.of_nat (length orders)) ++
  le 8 (checksum_bytes (orders_bytes orders pads)).
Definition snapshot_content (b : Engine) (orders : list RestingOrder) (pads : nat -> list Z) : list Z :=
  snapshot_header b orders pads ++ orders_bytes orders pads.

(** What can go wrong: the temporary file cannot be created, a write or the
    flush fails, [rename] throws.  [sf_close] is what the destructor of a
    stream that failed still adds to the temporary file. *)
Record SnapshotFaults : Set := MkSnapshotFaults {
  sf_opens : bool;
  sf_header : fault;
  sf_orders : fault;
  sf_flush : fault;
  sf_close : list Z;
  sf_rename : bool }.
Definition NoFault : SnapshotFaults := MkSnapshotFaults true None None None [] true.

Definition temporary (path : string) : string := (path ++ ".tmp")%string.

(** [std::filesystem::rename] of the temporary file onto the destination. *)
Definition rename (fs : FileSystem) (from to : string) : FileSystem :=
  match fs !! from with Some content => <[to := content]> (delete from fs) | None => fs end.

Definition write_snapshot (fs : FileSystem) (path : string) (b : Engine) (pads : nat -> list Z)
    (f : SnapshotFaults) : FileSystem * result unit :=
  match resting_orders b with
  | Fail e => (fs, Fail e)
  | Ok orders =>
    if negb (sf_opens f) then (fs, Fail RuntimeError)
    else
      let '(s, r) := write_exact (MkStream [] [] true) (snapshot_header b orders pads) (sf_header f) in
      match r with
      | Fail e => (<[temporary path := st_file s ++ sf_close f]> fs, Fail e)
      | Ok _ =>
        let s := match orders with [] => s | _ => stream_write s (orders_bytes orders pads) (sf_orders f) end in
        let s := stream_flush s (sf_flush f) in
        if negb (st_good s) then (<[temporary path := st_file s ++ sf_close f]> fs, Fail RuntimeError)
        else
          let fs := <[temporary path := st_file s]> fs in
          if sf_rename f then (rename fs (temporary path) path, Ok ()) else (fs, Fail RuntimeError)
      end
  end.

(** The vector of [n] orders read at the head of [bs]. *)
Fixpoint read_orders (n : nat) (bs : list Z) : result (list RestingOrder) :=
  match n with
  | O => Ok []
  | S n =>
    order ← order_of_bytes (take order_size bs);
    orders ← read_orders n (drop order_size bs);
    Ok (order :: orders)
  end.

Definition read_snapshot (existing : option (list Z)) : result Engine :=
  match existing with
  | None => Fail RuntimeError
  | Some content =>
    let cfg := config_of_bytes (field 16 32 content) in
    let seq := of_le (field 48 8 content) in
    let count := of_le (field 56 8 content) in
    let checksum := of_le (field 64 8 content) in
    if negb (snapshot_header_bytes <=? length content)%nat ||
       negb (header_ok snapshot_magic order_size content) || (maximum_orders cfg <? count)
    then Fail RuntimeError
    else
      let size := count * Z.of_nat order_size in
      let body := take (Z.to_nat size) (drop snapshot_header_bytes content) in
      if negb (Z.of_nat (length body) =? size) || negb (checksum =? checksum_bytes body)
      then Fail RuntimeError
      else
        orders ← read_orders (Z.to_nat count) body;
        b ← make_book cfg;
        restore b seq orders
  end.
