(* ===== verification/JournalFacts.v ===== *)
(** * JournalFacts: layouts, checksum and records *)
From Stdlib Require Import ZArith Lia.
From stdpp Require Import base numbers gmap strings list.
From S2P Require Import Prelude Types OrderBook Bitmap Bytes Journal.
Local Open Scope Z_scope.

(** ** Little-endian fields *)

Lemma le_length n v : length (le n v) = n.
Proof. revert v. induction n as [|n IH]; intros v; [done|]. cbn. by rewrite IH. Qed.

Lemma le_bytes n v : bytes_ok (le n v).
Proof.
  revert v. induction n as [|n IH]; intros v; [constructor|]. cbn. constructor; [|apply IH].
  pose proof (Z.mod_pos_bound v 256). intlia.
Qed.

Lemma of_le_le n v : of_le (le n v) = v mod 256 ^ Z.of_nat n.
Proof.
  revert v. induction n as [|n IH]; intros v; [cbn; by rewrite Z.mod_1_r|].
  cbn [le of_le]. rewrite IH, Nat2Z.inj_succ, Z.pow_succ_r by lia.
  by rewrite Z.rem_mul_r by lia.
Qed.

Lemma of_le_u64 v : is_u64 v -> of_le (le 8 v) = v.
Proof. intros Hv. rewrite of_le_le. change (256 ^ Z.of_nat 8) with 18446744073709551616.
  rewrite Z.mod_small by intlia. done. Qed.

Lemma of_le_i64 v : is_i64 v -> i64 (of_le (le 8 (u64 v))) = v.
Proof. intros Hv. rewrite of_le_u64 by apply u64_range. by apply i64_of_u64. Qed.

Lemma of_le_inj a b : bytes_ok a -> bytes_ok b -> length a = length b -> of_le a = of_le b -> a = b.
Proof.
  intros Ha. revert b. induction Ha as [|x a Hx _ IH]; intros [|y b] Hb; try done.
  apply Forall_cons in Hb as [Hy Hb]. cbn [length of_le]. intros Hl E.
  assert (x = y /\ of_le a = of_le b) as [-> E'] by intlia. f_equal. by apply IH; [|lia|].
Qed.

(** ** Structures *)

(** What the padding of a [Command] is. *)
Definition pad_ok (pad : list Z) : Prop := length pad = 4%nat /\ bytes_ok pad.

Lemma command_bytes_length c pad : length pad = 4%nat -> length (command_bytes c pad) = command_size.
Proof. intros H. unfold command_bytes. rewrite !length_app, !le_length, H. done. Qed.

Lemma enum_byte v : (0 <= v <= 10)%Z -> is_u8 v.
Proof. intlia. Qed.

Lemma command_bytes_ok c pad : command_ok c -> pad_ok pad -> bytes_ok (command_bytes c pad).
Proof.
  intros Hc [_ Hp]. unfold command_bytes, bytes_ok. rewrite !Forall_app, !Forall_cons.
  split_and!; try apply le_bytes; try (apply enum_byte; destruct c as [? [] [] []]; cbn; lia);
    [apply Hc|constructor|done].
Qed.

Lemma list_4 {A} (l : list A) : length l = 4%nat -> exists a b c d, l = [a; b; c; d].
Proof. destruct l as [|a [|b [|c [|d [|e l]]]]]; try done. intros _. by exists a, b, c, d. Qed.

Lemma list_7 {A} (l : list A) : length l = 7%nat -> exists a b c d e f g, l = [a; b; c; d; e; f; g].
Proof.
  destruct l as [|a [|b [|c [|d [|e [|f [|g [|h l]]]]]]]]; try done. intros _.
  by exists a, b, c, d, e, f, g.
Qed.

Lemma command_round_trip c pad : command_ok c -> length pad = 4%nat ->
  command_of_bytes (command_bytes c pad) = Ok c.
Proof.
  intros [H1 H2 H3 H4 H5] (p1 & p2 & p3 & p4 & ->)%list_4.
  unfold command_of_bytes. set (bs := command_bytes c _).
  change (field 0 8 bs) with (le 8 (c_sequence c)). change (field 16 8 bs) with (le 8 (c_order_id c)).
  change (field 24 8 bs) with (le 8 (u64 (c_price c))). change (field 32 8 bs) with (le 8 (c_quantity c)).
  rewrite (of_le_i64 (c_price c)), !of_le_u64 by done. unfold of_byte.
  change (bs !! 8%nat) with (Some (command_type_to_u8 (c_type c))).
  change (bs !! 9%nat) with (Some (side_to_u8 (c_side c))).
  change (bs !! 10%nat) with (Some (order_type_to_u8 (c_order_type c))).
  change (bs !! 11%nat) with (Some (c_reserved c)).
  by destruct c as [? [] [] []].
Qed.

(** Padding bytes of a command. *)
Lemma command_bytes_pad c pad j x : length pad = 4%nat -> (j < 4)%nat ->
  command_bytes c (<[j := x]> pad) = <[(12 + j)%nat := x]> (command_bytes c pad).
Proof.
  intros (p1 & p2 & p3 & p4 & ->)%list_4 Hj. destruct j as [|[|[|[|j]]]]; [done..|lia].
Qed.

Lemma command_bytes_pad_lookup c pad j x : length pad = 4%nat -> pad !! j = Some x ->
  command_bytes c pad !! (12 + j)%nat = Some x.
Proof.
  intros (p1 & p2 & p3 & p4 & ->)%list_4 Hj. destruct j as [|[|[|[|j]]]]; done.
Qed.

(** The fields of an order fit their C++ types. *)
Record order_fits (o : RestingOrder) : Prop := {
  of_id : is_u64 (ro_id o);
  of_price : is_i64 (ro_price o);
  of_quantity : is_u64 (ro_quantity o);
  of_priority : is_u64 (ro_priority o) }.

Lemma order_round_trip o pad : order_fits o -> length pad = 7%nat ->
  order_of_bytes (order_bytes o pad) = Ok o.
Proof.
  intros [H1 H2 H3 H4] (p1 & p2 & p3 & p4 & p5 & p6 & p7 & ->)%list_7.
  unfold order_of_bytes. set (bs := order_bytes o _).
  change (field 0 8 bs) with (le 8 (ro_id o)). change (field 16 8 bs) with (le 8 (u64 (ro_price o))).
  change (field 24 8 bs) with (le 8 (ro_quantity o)). change (field 32 8 bs) with (le 8 (ro_priority o)).
  rewrite (of_le_i64 (ro_price o)), !of_le_u64 by done. unfold of_byte.
  change (bs !! 8%nat) with (Some (side_to_u8 (ro_side o))). by destruct o as [? []].
Qed.

(** ** The checksum *)

(** The inverse of the multiplier modulo 2^64. *)
Definition multiplier_inverse : Z := 14886173955864302971.

Lemma multiplier_cancel x y : is_u64 x -> is_u64 y ->
  u64 (x * 1099511628211) = u64 (y * 1099511628211) -> x = y.
Proof.
  intros Hx Hy E.
  assert (Hinv : forall z, is_u64 z -> u64 (u64 (z * 1099511628211) * multiplier_inverse) = z).
  { intros z Hz. unfold u64 at 1 2. rewrite Zmult_mod_idemp_l, <- Z.mul_assoc.
    change (1099511628211 * multiplier_inverse) with
      (1 + (1099511628211 * multiplier_inverse / 18446744073709551616) * 18446744073709551616).
    rewrite Z.mul_add_distr_l, Z.mul_assoc, Z.mod_add by lia. rewrite Z.mul_1_r.
    apply Z.mod_small. intlia. }
  rewrite <- (Hinv x Hx), <- (Hinv y Hy). by rewrite E.
Qed.

Lemma lxor_u64 h b : is_u64 h -> is_u8 b -> is_u64 (Z.lxor h b).
Proof.
  intros Hh Hb. apply word_range_intro.
  - apply Z.lxor_nonneg. intlia.
  - intros j Hj. rewrite Z.lxor_spec, !u64_testbit_high by (done || intlia). done.
Qed.

Lemma lxor_cancel_r h h' b : Z.lxor h b = Z.lxor h' b -> h = h'.
Proof.
  intros E. rewrite <- (Z.lxor_0_r h), <- (Z.lxor_0_r h'), <- (Z.lxor_nilpotent b).
  by rewrite <- !Z.lxor_assoc, E.
Qed.

Lemma checksum_step_state h h' b : is_u64 h -> is_u64 h' -> is_u8 b ->
  checksum_step h b = checksum_step h' b -> h = h'.
Proof.
  intros Hh Hh' Hb E%multiplier_cancel; auto using lxor_u64. by apply lxor_cancel_r in E.
Qed.

Lemma checksum_step_byte h b b' : is_u64 h -> is_u8 b -> is_u8 b' ->
  checksum_step h b = checksum_step h b' -> b = b'.
Proof.
  intros Hh Hb Hb' E%multiplier_cancel; auto using lxor_u64.
  rewrite !(Z.lxor_comm h) in E. by apply lxor_cancel_r in E.
Qed.

Lemma checksum_fold_range bs h : is_u64 h -> is_u64 (fold_left checksum_step bs h).
Proof. revert h. induction bs as [|b bs IH]; intros h Hh; [done|]. apply IH, u64_range. Qed.

Lemma checksum_fold_state bs h h' : bytes_ok bs -> is_u64 h -> is_u64 h' ->
  fold_left checksum_step bs h = fold_left checksum_step bs h' -> h = h'.
Proof.
  intros Hb. revert h h'. induction Hb as [|b bs Hb _ IH]; intros h h' Hh Hh' E; [done|].
  apply (checksum_step_state h h' b); auto. by apply IH; [apply u64_range|apply u64_range|].
Qed.

Lemma checksum_range bs : is_u64 (checksum_bytes bs).
Proof. apply checksum_fold_range. intlia. Qed.

(** A changed byte always changes the checksum. *)
Lemma checksum_one_byte bs i b b' : bytes_ok bs -> bs !! i = Some b -> is_u8 b' -> b' <> b ->
  checksum_bytes (<[i := b']> bs) <> checksum_bytes bs.
Proof.
  intros Hbs Hi Hb' Hne E. rewrite <- (take_drop_middle bs i b Hi) in E, Hbs.
  pose proof (lookup_lt_Some _ _ _ Hi) as Hlt.
  unfold bytes_ok in Hbs. rewrite Forall_app, Forall_cons in Hbs. destruct Hbs as (Hp & Hb & Hs).
  rewrite insert_app_r_alt in E by (rewrite length_take; lia).
  replace (i - length (take i bs))%nat with O in E by (rewrite length_take; lia).
  unfold checksum_bytes in E. rewrite !fold_left_app in E. cbn [list_insert fold_left insert] in E.
  apply checksum_fold_state in E; [|done|apply u64_range|apply u64_range].
  apply checksum_step_byte in E; auto. apply checksum_fold_range. intlia.
Qed.

(** ** Records and replay *)

(** A record: a command, the padding of the object it was checksummed in and
    the padding of the copy that was stored.  The language lets the two differ;
    the record is [intact] when its stored checksum is still that of the copy. *)
Abbreviation entry := (Command * (list Z * list Z))%type.
Definition entry_fits (e : entry) : Prop := command_ok e.1 /\ pad_ok e.2.1 /\ pad_ok e.2.2.
Definition intact (e : entry) : Prop :=
  checksum_bytes (command_bytes e.1 e.2.1) = checksum_bytes (command_bytes e.1 e.2.2).
Definition entry_ok (e : entry) : Prop := entry_fits e /\ intact e.

#[export] Instance intact_dec e : Decision (intact e).
Proof. unfold intact. apply _. Defined.

(** A copy that keeps the padding. *)
Lemma same_padding_ok c pad : command_ok c -> pad_ok pad -> entry_ok (c, (pad, pad)).
Proof. intros Hc Hp. by split; [split|]. Qed.

Lemma entry_ok_fits es : Forall entry_ok es -> Forall entry_fits es.
Proof. intros H. eapply Forall_impl; [exact H|]. by intros e []. Qed.

Definition record (e : entry) : list Z := journal_record e.1 e.2.1 e.2.2.
Definition records (es : list entry) : list Z := concat (record <$> es).
Definition journal_file (es : list entry) : list Z :=
  file_header journal_magic record_size ++ records es.

Lemma journal_record_length c pad pad' : length pad' = 4%nat ->
  length (journal_record c pad pad') = record_size.
Proof. intros H. unfold journal_record. by rewrite length_app, le_length, command_bytes_length. Qed.

Lemma record_length e : entry_fits e -> length (record e) = record_size.
Proof. intros (_ & _ & H & _). by apply journal_record_length. Qed.

Lemma records_cons e es : records (e :: es) = record e ++ records es.
Proof. done. Qed.

Lemma records_nil : records [] = [].
Proof. done. Qed.

Lemma records_app es es' : records (es ++ es') = records es ++ records es'.
Proof. unfold records. by rewrite fmap_app, concat_app. Qed.

Lemma records_length es : Forall entry_fits es -> length (records es) = (record_size * length es)%nat.
Proof.
  induction 1 as [|e es He _ IH]; [done|]. rewrite records_cons, length_app, IH, record_length by done.
  cbn [length]. lia.
Qed.

Lemma record_bytes e : entry_fits e -> bytes_ok (record e).
Proof.
  intros (Hc & _ & Hp). apply Forall_app. split; [by apply command_bytes_ok|apply le_bytes].
Qed.

(** The command part and the stored checksum of a record. *)
Lemma record_command e : entry_fits e -> take command_size (record e) = command_bytes e.1 e.2.2.
Proof.
  intros (_ & _ & H & _). unfold record, journal_record. apply take_app_length'.
  by rewrite command_bytes_length.
Qed.

Lemma record_checksum e : entry_fits e ->
  field command_size 8 (record e) = le 8 (checksum_bytes (command_bytes e.1 e.2.1)).
Proof.
  intros (_ & _ & H & _). unfold field, record, journal_record.
  rewrite drop_app_length' by by rewrite command_bytes_length.
  by rewrite take_ge by by rewrite le_length.
Qed.

(** What stops the replay at the head of [rest]: a torn record, or one whose
    checksum does not match. *)
Definition torn (rest : list Z) : Prop :=
  rest <> [] /\
  ((length rest < record_size)%nat \/
   of_le (field command_size 8 (take record_size rest)) <>
     checksum_bytes (take command_size (take record_size rest))).

Section Replay.
Context {S : Type} (consumer : S -> Command -> result S).

(** The consumer on a list of commands. *)
Fixpoint feed (s : S) (cs : list Command) : result S :=
  match cs with [] => Ok s | c :: cs => s ← consumer s c; feed s cs end.

Lemma replay_loop_end fuel s r : replay_loop consumer (Datatypes.S fuel) [] s r = Ok (s, r).
Proof. done. Qed.

Lemma replay_loop_torn fuel rest s r : torn rest ->
  replay_loop consumer (Datatypes.S fuel) rest s r = Ok (s, MkReplay (rr_records r) (rr_valid_bytes r) false).
Proof.
  intros [Hne Ht]. cbn [replay_loop].
  assert (Hl : (0 < length rest)%nat) by (destruct rest; [done|cbn; lia]).
  rewrite length_take.
  destruct (Nat.eqb_spec (record_size `min` length rest) 0) as [E|_]; [unfold record_size in *; lia|].
  destruct (Nat.eqb_spec (record_size `min` length rest) record_size) as [E|E]; cbn [negb orb]; [|done].
  destruct Ht as [Ht|Ht]; [lia|]. by rewrite (proj2 (Z.eqb_neq _ _) Ht).
Qed.

Lemma replay_loop_record fuel e rest s r : entry_ok e ->
  replay_loop consumer (Datatypes.S fuel) (record e ++ rest) s r =
  (s ← consumer s e.1;
   replay_loop consumer fuel rest s
     (MkReplay (u64 (rr_records r + 1)) (u64 (rr_valid_bytes r + Z.of_nat record_size)) (rr_clean_end r))).
Proof.
  intros [He Hi]. cbn [replay_loop].
  rewrite take_app_length' by by rewrite record_length. rewrite drop_app_length' by by rewrite record_length.
  rewrite record_length, record_command, record_checksum by done.
  rewrite of_le_u64, (Hi : checksum_bytes _ = _), Z.eqb_refl by apply checksum_range.
  cbn [negb orb Nat.eqb record_size]. by rewrite command_round_trip by apply He.
Qed.

Lemma replay_loop_records es fuel rest s r : Forall entry_ok es -> (length es <= fuel)%nat ->
  is_u64 (rr_records r) -> is_u64 (rr_valid_bytes r) ->
  replay_loop consumer fuel (records es ++ rest) s r =
  (s ← feed s es.*1;
   replay_loop consumer (fuel - length es) rest s
     (MkReplay (u64 (rr_records r + Z.of_nat (length es)))
        (u64 (rr_valid_bytes r + Z.of_nat (record_size * length es))) (rr_clean_end r))).
Proof.
  intros Hes. revert fuel s r. induction Hes as [|e es He _ IH]; intros fuel s r Hf H1 H2.
  { cbn [fmap list_fmap feed mbind result_bind records length]. rewrite Nat.sub_0_r, Nat.mul_0_r.
    change (Z.of_nat 0) with 0. rewrite !Z.add_0_r, !u64_small by done. by destruct r. }
  destruct fuel as [|fuel]; [cbn in Hf; lia|]. cbn [length] in Hf.
  rewrite records_cons, <- app_assoc, replay_loop_record by done. cbn [fmap list_fmap feed].
  destruct (consumer s e.1) as [s1|]; [|done]. cbn [mbind result_bind].
  rewrite IH by (lia || apply u64_range). cbn [rr_records rr_valid_bytes rr_clean_end length Nat.sub].
  rewrite !u64_idem_add. destruct (feed s1 es.*1); [|done]. cbn [mbind result_bind].
  do 2 f_equal; f_equal; unfold record_size; lia.
Qed.
End Replay.

Lemma journal_header_length : length (file_header journal_magic record_size) = header_bytes.
Proof. done. Qed.

Lemma journal_header_ok rest :
  header_ok journal_magic record_size (file_header journal_magic record_size ++ rest) = true.
Proof. done. Qed.

(** A journal of whole records, possibly followed by something torn. *)
Lemma replay_file {S : Type} (consumer : S -> Command -> result S) es tail s :
  Forall entry_ok es -> tail = [] \/ torn tail ->
  replay_journal consumer (Some (journal_file es ++ tail)) s =
  (s ← feed consumer s es.*1;
   Ok (s, MkReplay (u64 (Z.of_nat (length es)))
            (u64 (Z.of_nat (header_bytes + record_size * length es))) (bool_decide (tail = [])))).
Proof.
  intros Hes Ht. unfold replay_journal. unfold journal_file. rewrite <- !app_assoc, journal_header_ok.
  rewrite length_app, journal_header_length.
  rewrite (proj2 (Nat.leb_le header_bytes (header_bytes + length (records es ++ tail))%nat)) by lia.
  cbn [negb orb].
  rewrite drop_app_length' by by rewrite journal_header_length.
  rewrite length_app. pose proof (records_length es (entry_ok_fits es Hes)) as Hl.
  rewrite replay_loop_records; [|done|unfold record_size in Hl; lia|cbn [rr_records rr_valid_bytes]; unfold header_bytes; intlia..].
  destruct (feed consumer s es.*1) as [s'|]; [|done]. cbn [mbind result_bind rr_records rr_valid_bytes rr_clean_end].
  match goal with |- replay_loop _ ?f _ _ _ = _ =>
    assert (exists g, f = Datatypes.S g) as [g ->] by (exists (f - 1)%nat; unfold record_size in Hl; lia) end.
  rewrite Z.add_0_l, <- Nat2Z.inj_add. destruct Ht as [->|Ht].
  - by rewrite replay_loop_end.
  - rewrite replay_loop_torn by done. rewrite bool_decide_eq_false_2 by apply Ht. done.
Qed.

Lemma torn_short (rest : list Z) : (0 < length rest < record_size)%nat -> torn rest.
Proof. intros H. split; [intros ->; cbn in H; lia|]. left. lia. Qed.

(** Any prefix of the records is whole records and a torn one. *)
Lemma records_take es k : Forall entry_fits es -> (k <= length (records es))%nat ->
  exists tail, take k (records es) = records (take (k / record_size) es) ++ tail /\
    length tail = (k mod record_size)%nat.
Proof.
  intros Hes. revert k. induction Hes as [|e es He Hes IH]; intros k Hk.
  { cbn in Hk. assert (k = 0%nat) as -> by lia. exists []. done. }
  rewrite records_cons in Hk |- *. rewrite length_app, record_length in Hk by done.
  destruct (Nat.ltb_spec k record_size) as [Hlt|Hge].
  - exists (take k (record e)). rewrite Nat.div_small, Nat.mod_small by done. split.
    + cbn [take records fmap list_fmap concat app]. rewrite take_app_le; [done|].
      rewrite record_length by done. lia.
    + rewrite length_take, record_length by done. lia.
  - destruct (IH (k - record_size)%nat) as (tail & Ht & Hl); [lia|]. exists tail.
    assert (Hk' : k = (k - record_size + 1 * record_size)%nat) by lia.
    assert (Hd : (k / record_size = Datatypes.S ((k - record_size) / record_size))%nat).
    { rewrite Hk' at 1. rewrite Nat.div_add by done. lia. }
    split.
    + rewrite take_app_ge, record_length by (rewrite ?record_length; done).
      rewrite Ht, Hd. cbn [take]. by rewrite records_cons, app_assoc.
    + rewrite Hl. rewrite Hk' at 2. by rewrite Nat.Div0.mod_add.
Qed.

(** ** Corruption *)

Lemma record_corrupt e i b b' rest : entry_ok e -> record e !! i = Some b -> is_u8 b' -> b' <> b ->
  torn (<[i := b']> (record e) ++ rest).
Proof.
  intros [He Hin] Hi Hb' Hne. pose proof (record_length e He) as Hl.
  pose proof (record_bytes e He) as Hok. pose proof (lookup_lt_Some _ _ _ Hi) as Hlt.
  assert (Hl' : length (<[i := b']> (record e)) = record_size) by by rewrite length_insert.
  split.
  { intros E%(f_equal length). rewrite length_app, Hl' in E. cbn in E. unfold record_size in E. lia. }
  right. rewrite take_app_length' by done. unfold field.
  destruct (Nat.ltb_spec i command_size) as [Hc|Hc].
  - rewrite drop_insert_lt by done. rewrite take_insert_lt by done.
    change (take 8 (drop command_size (record e))) with (field command_size 8 (record e)).
    rewrite record_checksum, of_le_u64, (Hin : checksum_bytes _ = _) by (done || apply checksum_range).
    assert (Hci : command_bytes e.1 e.2.2 !! i = Some b).
    { rewrite <- (record_command e He), lookup_take_lt by done. done. }
    rewrite record_command by done. intros E. symmetry in E.
    by apply (checksum_one_byte _ i b b') in E; [|apply command_bytes_ok; apply He|done..].
  - rewrite take_insert_ge by done. rewrite drop_insert_ge by done.
    rewrite record_command by done. intros E.
    assert (Hd : drop command_size (record e) = le 8 (checksum_bytes (command_bytes e.1 e.2.2))).
    { rewrite <- (Hin : checksum_bytes _ = _), <- record_checksum by done. unfold field.
      rewrite (take_ge (drop _ _)); [done|]. rewrite length_drop, Hl. unfold record_size, command_size. lia. }
    rewrite Hd in E. set (cs := checksum_bytes (command_bytes e.1 e.2.2)) in *.
    assert (Hj : le 8 cs !! (i - command_size)%nat = Some b).
    { rewrite <- Hd, lookup_drop. by replace (command_size + (i - command_size))%nat with i by lia. }
    rewrite take_ge in E by by rewrite length_insert, le_length.
    rewrite <- (of_le_u64 cs) in E by apply checksum_range.
    apply of_le_inj in E; [|apply Forall_insert; [apply le_bytes|done]|apply le_bytes|by rewrite length_insert].
    apply (f_equal (fun l => l !! (i - command_size)%nat)) in E.
    rewrite list_lookup_insert_eq in E by exact (lookup_lt_Some _ _ _ Hj). congruence.
Qed.

(** A header that passes the tests is the header the writer writes. *)
Lemma header_ok_inv magic size bs : bytes_ok bs -> (header_bytes <= length bs)%nat ->
  0 <= Z.of_nat size <= u32_max -> header_ok magic size bs = true ->
  take header_bytes bs = file_header magic size.
Proof.
  intros Hb Hl Hs. unfold header_ok. rewrite !andb_true_iff, bool_decide_eq_true.
  intros [[Hm Hv%Z.eqb_eq] Hz%Z.eqb_eq].
  assert (Hfield : forall o n v, (o + n <= length bs)%nat -> 0 <= v < 256 ^ Z.of_nat n ->
    of_le (field o n bs) = v -> field o n bs = le n v).
  { intros o n v Hon Hr E. apply of_le_inj.
    - by apply Forall_take, Forall_drop.
    - apply le_bytes.
    - unfold field. rewrite le_length, length_take, length_drop. lia.
    - by rewrite E, of_le_le, Z.mod_small. }
  unfold header_bytes in *. apply Hfield in Hv; [|lia|vm_compute; split; congruence].
  apply Hfield in Hz; [|lia|change (256 ^ Z.of_nat 4) with 4294967296; intlia].
  unfold file_header. rewrite <- Hm, <- Hv, <- Hz. unfold field. rewrite drop_0.
  change 16%nat with (8 + (4 + 4))%nat. rewrite <- !take_take_drop, !drop_drop. done.
Qed.

Lemma journal_file_bytes es : Forall entry_fits es -> bytes_ok (journal_file es).
Proof.
  intros H. apply Forall_app. split.
  - apply Forall_app. split; [|apply Forall_app; split; apply le_bytes].
    repeat constructor; vm_compute; congruence.
  - induction H as [|e es He _ IH]; [constructor|]. rewrite records_cons. apply Forall_app.
    split; [by apply record_bytes|done].
Qed.

(** A changed byte of the header is detected. *)
Lemma header_corrupt es i b b' : Forall entry_ok es -> journal_file es !! i = Some b ->
  (i < header_bytes)%nat -> is_u8 b' -> b' <> b ->
  header_ok journal_magic record_size (<[i := b']> (journal_file es)) = false.
Proof.
  intros Hes Hi Hlt Hb' Hne. destruct (header_ok _ _ _) eqn:E; [|done]. exfalso.
  apply header_ok_inv in E; [|apply Forall_insert; [by apply journal_file_bytes, entry_ok_fits|done]| |unfold record_size; intlia].
  - assert (Hh : take header_bytes (journal_file es) = file_header journal_magic record_size).
    { unfold journal_file. by apply take_app_length'. }
    rewrite <- Hh, take_insert_lt in E by done.
    apply (f_equal (fun l => l !! i)) in E.
    rewrite list_lookup_insert_eq, lookup_take_lt in E by
      (rewrite ?length_take; pose proof (lookup_lt_Some _ _ _ Hi); lia). congruence.
  - rewrite length_insert. unfold journal_file. rewrite length_app, journal_header_length. lia.
Qed.

(** ** Records whose copy lost the padding *)

(** How many records replay accepts: those before the first that is not
    intact. *)
Fixpoint intact_count (es : list entry) : nat :=
  match es with
  | [] => 0
  | e :: es => if decide (intact e) then Datatypes.S (intact_count es) else 0
  end.

Lemma intact_count_le es : (intact_count es <= length es)%nat.
Proof. induction es as [|e es IH]; cbn; [lia|]. case_decide; lia. Qed.

Lemma intact_count_ok es : Forall entry_fits es -> Forall entry_ok (take (intact_count es) es).
Proof.
  induction 1 as [|e es He _ IH]; cbn [intact_count take]; [constructor|].
  case_decide; cbn [take]; [|constructor]. constructor; [by split|done].
Qed.

Lemma intact_count_all es : Forall intact es -> intact_count es = length es.
Proof. induction 1 as [|e es He _ IH]; cbn [intact_count length]; [done|]. rewrite decide_True by done. by rewrite IH. Qed.

Lemma intact_count_app es es' : Forall intact es ->
  intact_count (es ++ es') = (length es + intact_count es')%nat.
Proof.
  induction 1 as [|e es He _ IH]; cbn [app intact_count length]; [done|]. rewrite decide_True by done. by rewrite IH.
Qed.

Lemma intact_count_stop es : intact_count es = length es \/
  exists e, es !! intact_count es = Some e /\ ~ intact e.
Proof.
  induction es as [|e es IH]; cbn [intact_count length]; [by left|]. case_decide; [|right; by exists e].
  destruct IH as [->|IH]; [by left|by right].
Qed.

Lemma record_mismatch e rest : entry_fits e -> ~ intact e -> torn (record e ++ rest).
Proof.
  intros He Hi. pose proof (record_length e He) as Hl. split.
  { intros E%(f_equal length). rewrite length_app, Hl in E. cbn in E. unfold record_size in E. lia. }
  right. rewrite take_app_length' by done. rewrite record_checksum, record_command by done.
  by rewrite of_le_u64 by apply checksum_range.
Qed.

(** A journal of whole records, intact or not, and something torn. *)
Lemma replay_records {S : Type} (consumer : S -> Command -> result S) es tail s :
  Forall entry_fits es -> tail = [] \/ torn tail ->
  let n := intact_count es in
  replay_journal consumer (Some (journal_file es ++ tail)) s =
  (s ← feed consumer s (take n es).*1;
   Ok (s, MkReplay (u64 (Z.of_nat n)) (u64 (Z.of_nat (header_bytes + record_size * n)))
            (bool_decide (n = length es /\ tail = [])))).
Proof.
  intros Hes Ht n. pose proof (intact_count_ok es Hes) as Hok. pose proof (intact_count_le es) as Hle. fold n in Hok, Hle.
  assert (Hn : length (take n es) = n) by (rewrite length_take; lia).
  assert (Hfile : journal_file es ++ tail = journal_file (take n es) ++ records (drop n es) ++ tail).
  { rewrite <- (take_drop n es) at 1. unfold journal_file. by rewrite records_app, <- !app_assoc. }
  assert (Hcase : n = length es \/ torn (records (drop n es) ++ tail)).
  { destruct (intact_count_stop es) as [E|(e & He & Hi)]; [by left|right]. fold n in He.
    rewrite (drop_S _ _ _ He), records_cons, <- app_assoc. apply record_mismatch; [|done].
    exact (Forall_lookup_1 _ _ _ _ Hes He). }
  rewrite Hfile. destruct Hcase as [E|Hc].
  - rewrite drop_ge by lia. rewrite records_nil, app_nil_l, replay_file by done. rewrite Hn.
    destruct (feed _ _ _); [|done]. cbn [mbind result_bind]. do 3 f_equal. apply bool_decide_ext. naive_solver.
  - rewrite replay_file by (done || by right). rewrite Hn. destruct (feed _ _ _); [|done]. cbn [mbind result_bind].
    do 3 f_equal. rewrite bool_decide_eq_false_2 by apply Hc. symmetry. apply bool_decide_eq_false_2.
    intros [E ->]. rewrite drop_ge in Hc by lia. by destruct Hc.
Qed.
