(* ===== verification/JournalWriting.v ===== *)
(** * JournalWriting: what a journal file holds after any use of the writer *)
From Stdlib Require Import ZArith Lia.
From stdpp Require Import base numbers gmap strings list.
From S2P Require Import Prelude Types OrderBook Bytes Journal JournalFacts.
Local Open Scope Z_scope.

(** ** Uses of a writer *)

Inductive JournalOp : Set :=
  | AppendOp (c : Command) (pad pad' : list Z) (f flush_fault : fault)
  | FlushOp (f : fault).

(** The caller goes on after an exception. *)
Definition run_op (w : JournalWriter) (op : JournalOp) : JournalWriter :=
  match op with
  | AppendOp c pad pad' f g => (append w c pad pad' f g).1
  | FlushOp f => (flush w f).1
  end.
Definition run_ops (w : JournalWriter) (ops : list JournalOp) : JournalWriter := fold_left run_op ops w.

Definition entries_of (op : JournalOp) : list entry :=
  match op with AppendOp c pad pad' _ _ => [(c, (pad, pad'))] | FlushOp _ => [] end.
Definition appended (ops : list JournalOp) : list entry := concat (entries_of <$> ops).

(** Fields fit their types; the padding is any. *)
Definition op_ok (op : JournalOp) : Prop :=
  match op with AppendOp c pad pad' _ _ => entry_fits (c, (pad, pad')) | FlushOp _ => True end.
Definition faultless (op : JournalOp) : Prop :=
  match op with AppendOp _ _ _ f g => f = None /\ g = None | FlushOp f => f = None end.

(** The file that the end of the process leaves.  The operating system may
    have received any part of the buffer of a stream that works; a stream that
    failed transfers nothing more. *)
Definition crash_file (w : JournalWriter) (k : nat) : list Z :=
  st_file (jw_stream w) ++ (if st_good (jw_stream w) then take k (st_buffer (jw_stream w)) else []).

(** ** The invariant of the writer *)

(** [base] is the file when the writer was made. *)
Record writer_inv (base : list Z) (es : list entry) (w : JournalWriter) : Prop := {
  wr_grows : base `prefix_of` st_file (jw_stream w);
  wr_prefix : st_file (jw_stream w) `prefix_of` journal_file es;
  wr_good : st_good (jw_stream w) = true ->
    st_file (jw_stream w) ++ st_buffer (jw_stream w) = journal_file es }.

Lemma journal_file_snoc es e : journal_file (es ++ [e]) = journal_file es ++ record e.
Proof.
  unfold journal_file. by rewrite records_app, <- app_assoc, records_cons, records_nil, app_nil_r.
Qed.

Lemma take_prefix {A} k (l : list A) : take k l `prefix_of` l.
Proof. exists (drop k l). by rewrite take_drop. Qed.

Lemma flush_inv base es s b f : writer_inv base es (MkWriter s b) ->
  writer_inv base es (MkWriter (stream_flush s f) b).
Proof.
  intros [Hg Hp Hk]. cbn [jw_stream] in *. unfold stream_flush. destruct (st_good s) eqn:E; cycle 1.
  { constructor; cbn [jw_stream]; rewrite ?E; [done..|congruence]. }
  specialize (Hk eq_refl). destruct f as [k|]; constructor; cbn [jw_stream st_file st_buffer st_good]; try done.
  - by apply prefix_app_r.
  - rewrite <- Hk. apply prefix_app, take_prefix.
  - by apply prefix_app_r.
  - by rewrite Hk.
  - intros _. by rewrite app_nil_r.
Qed.

Lemma write_inv base es s b e f : writer_inv base es (MkWriter s b) ->
  writer_inv base (es ++ [e]) (MkWriter (stream_write s (record e) f) b).
Proof.
  intros [Hg Hp Hk]. cbn [jw_stream] in *. unfold stream_write. destruct (st_good s) eqn:E; cycle 1.
  { constructor; cbn [jw_stream]; rewrite ?E; [done| |congruence]. rewrite journal_file_snoc. by apply prefix_app_r. }
  specialize (Hk eq_refl). destruct f as [k|]; constructor; cbn [jw_stream st_file st_buffer st_good]; try done.
  - by apply prefix_app_r.
  - rewrite journal_file_snoc, <- Hk, <- app_assoc. apply prefix_app, take_prefix.
  - rewrite journal_file_snoc. by apply prefix_app_r.
  - intros _. by rewrite journal_file_snoc, app_assoc, Hk.
Qed.

Lemma run_op_inv base es w op : op_ok op -> writer_inv base es w ->
  writer_inv base (es ++ entries_of op) (run_op w op).
Proof.
  intros Hop Hw. destruct w as [s b], op as [c pad pad' f g|f]; cbn [entries_of].
  - cbn [run_op]. unfold append, write_exact. cbn [jw_stream jw_synchronous].
    pose proof (write_inv base es s b (c, (pad, pad')) f Hw) as Hw'. unfold record in Hw'. cbn [fst snd] in Hw'.
    set (s' := stream_write _ _ _) in *. clearbody s'.
    destruct (st_good s'); cbn [fst]; [|done]. destruct b; [|done]. by apply flush_inv.
  - rewrite app_nil_r. by apply flush_inv.
Qed.

Lemma run_ops_inv ops base es w : Forall op_ok ops -> writer_inv base es w ->
  writer_inv base (es ++ appended ops) (run_ops w ops).
Proof.
  intros Hops. revert es w. induction Hops as [|op ops Hop _ IH]; intros es w Hw.
  { cbn. by rewrite app_nil_r. }
  cbn. rewrite app_assoc. apply IH. by apply run_op_inv.
Qed.

(** Without faults a synchronous writer never holds anything back. *)
Lemma run_ops_durable ops w : Forall faultless ops -> jw_synchronous w = true ->
  st_good (jw_stream w) = true -> st_buffer (jw_stream w) = [] ->
  st_good (jw_stream (run_ops w ops)) = true /\ st_buffer (jw_stream (run_ops w ops)) = [].
Proof.
  intros Hops. revert w. induction Hops as [|op ops Hop _ IH]; intros [[fl bu gd] sy]; cbn; [done|].
  intros -> -> ->. destruct op as [c pad pad' f g|f]; cbn in Hop.
  - destruct Hop as [-> ->]. by apply IH.
  - subst f. by apply IH.
Qed.

(** ** Opening *)

(** The file at the path holds the records of [es]: a journal, or no file or
    an empty one when there are none. *)
Definition journal_at (existing : option (list Z)) (es : list entry) : Prop :=
  existing = Some (journal_file es) \/ (es = [] /\ (existing = None \/ existing = Some [])).

Lemma make_writer_ok existing es sync : journal_at existing es ->
  make_writer existing sync true None None = Ok (MkWriter (MkStream (journal_file es) [] true) sync).
Proof.
  intros [->|[-> [->| ->]]]; [|done..]. unfold make_writer.
  change (default [] (Some (journal_file es))) with (journal_file es).
  assert (Hl : (header_bytes <= length (journal_file es))%nat).
  { unfold journal_file. rewrite length_app, journal_header_length. lia. }
  rewrite bool_decide_eq_false_2 by (intros E; rewrite E in Hl; cbn in Hl; unfold header_bytes in Hl; lia).
  rewrite (proj2 (Nat.leb_le _ _) Hl). unfold journal_file. by rewrite journal_header_ok.
Qed.

(** The header of a new journal. *)
Abbreviation journal_header := (file_header journal_magic record_size).

(** Whatever happens to the header, the constructor throws or gives a writer on
    the whole journal, or one whose stream has failed in the header. *)
Lemma make_writer_total existing es sync opens f g : journal_at existing es ->
  (make_writer existing sync opens f g = Fail RuntimeError /\ (opens = false \/ default [] existing = [] /\ es = [] /\ f <> None)) \/
  (make_writer existing sync opens f g = Ok (MkWriter (MkStream (journal_file es) [] true) sync)) \/
  (exists j, es = [] /\ g = Some j /\ make_writer existing sync opens f g =
     Ok (MkWriter (MkStream (take j journal_header) journal_header false) sync)).
Proof.
  intros [->|[-> Hnew]].
  - pose proof (make_writer_ok (Some (journal_file es)) es sync (or_introl eq_refl)) as Hok.
    unfold make_writer in *. change (default [] (Some (journal_file es))) with (journal_file es) in *.
    assert (Hne : journal_file es <> []) by done. rewrite bool_decide_eq_false_2 in * by done.
    cbn [negb andb] in *. destruct (_ || _); [done|]. destruct opens; cbn [negb] in *; [right; by left|left; by auto].
  - assert (E : default [] existing = []) by (by destruct Hnew as [->| ->]). unfold make_writer. rewrite E.
    rewrite bool_decide_eq_true_2 by done. cbn [negb andb]. destruct opens; cbn [negb]; [|left; by auto].
    destruct f as [k|]; [left; split; [done|right; done]|]. destruct g as [j|]; [|by right; left].
    right; right. by exists j.
Qed.

Lemma opened_inv es sync : writer_inv (journal_file es) es (MkWriter (MkStream (journal_file es) [] true) sync).
Proof. constructor; cbn [jw_stream st_file st_buffer st_good]; by rewrite ?app_nil_r. Qed.

Lemma header_failed_inv j sync :
  writer_inv (take j journal_header) [] (MkWriter (MkStream (take j journal_header) journal_header false) sync).
Proof.
  constructor; cbn [jw_stream st_file st_buffer st_good]; [done| |congruence].
  unfold journal_file. rewrite records_nil, app_nil_r. apply take_prefix.
Qed.

(** The file left is a cut of the journal meant to be written. *)
Lemma crash_prefix base es w k : writer_inv base es w ->
  base `prefix_of` crash_file w k /\ crash_file w k `prefix_of` journal_file es.
Proof.
  intros [Hg Hp Hk]. unfold crash_file. split; [by apply prefix_app_r|].
  destruct (st_good (jw_stream w)) eqn:E; [|by rewrite app_nil_r]. rewrite <- (Hk eq_refl).
  apply prefix_app, take_prefix.
Qed.

(** A stream that has failed never works again. *)
Lemma failed_forever ops w : st_good (jw_stream w) = false -> run_ops w ops = w.
Proof.
  intros H. induction ops as [|op ops IH]; [done|]. change (run_ops w (op :: ops)) with (run_ops (run_op w op) ops).
  assert (E : run_op w op = w); [|by rewrite E].
  destruct w as [s b], op as [c pad pad' f g|f]; cbn [run_op jw_stream] in *.
  - unfold append, write_exact, stream_write. cbn [jw_stream jw_synchronous]. by rewrite H, H.
  - unfold flush, stream_flush. cbn [jw_stream jw_synchronous]. by rewrite H.
Qed.

(** ** Prefixes of a journal *)

Lemma prefix_split es p : Forall entry_fits es -> p `prefix_of` journal_file es ->
  (header_bytes <= length p)%nat ->
  let n := ((length p - header_bytes) / record_size)%nat in
  exists tail, (n <= length es)%nat /\ p = journal_file (take n es) ++ tail /\ (tail = [] \/ torn tail) /\
    length p = (header_bytes + record_size * n + length tail)%nat.
Proof.
  intros Hes [rest Hp] Hl n.
  assert (Hlen : (length p <= length (journal_file es))%nat) by (rewrite Hp, length_app; lia).
  unfold journal_file in Hlen. rewrite length_app, journal_header_length in Hlen.
  assert (Htake : p = take (length p) (journal_file es)) by (rewrite Hp; by rewrite take_app_length).
  unfold journal_file in Htake. rewrite take_app_ge, journal_header_length in Htake by done.
  destruct (records_take es (length p - header_bytes)%nat Hes) as (tail & Ht & Htl); [lia|].
  fold n in Ht. exists tail. rewrite Ht, app_assoc in Htake.
  assert (Hm : (length tail < record_size)%nat)
    by (rewrite Htl; apply Nat.mod_upper_bound; done).
  pose proof (Nat.div_mod_eq (length p - header_bytes) record_size) as Hd. fold n in Hd.
  rewrite <- Htl in Hd. rewrite records_length in Hlen by done. split_and!.
  - unfold record_size in *. nia.
  - exact Htake.
  - destruct tail as [|x tail]; [by left|right]. apply torn_short. cbn [length] in *. lia.
  - unfold record_size in *. lia.
Qed.

Lemma journal_file_length es : Forall entry_fits es ->
  length (journal_file es) = (header_bytes + record_size * length es)%nat.
Proof. intros H. unfold journal_file. by rewrite length_app, journal_header_length, records_length. Qed.

Lemma appended_ok ops : Forall op_ok ops -> Forall entry_fits (appended ops).
Proof.
  induction 1 as [|op ops Hop _ IH]; [constructor|]. cbn. apply Forall_app. split; [|done].
  destruct op; [|constructor]. apply Forall_singleton. apply Hop.
Qed.

(** ** What is left of a journal *)

(** A file shorter than the header is refused. *)
Lemma replay_no_header {S : Type} (consumer : S -> Command -> result S) content s :
  (length content < header_bytes)%nat -> replay_journal consumer (Some content) s = Fail RuntimeError.
Proof. intros H. unfold replay_journal. by rewrite (proj2 (Nat.leb_gt _ _) H). Qed.

Lemma make_writer_short content sync opens f g : content <> [] -> (length content < header_bytes)%nat ->
  make_writer (Some content) sync opens f g = Fail RuntimeError.
Proof.
  intros Hne H. unfold make_writer. change (default [] (Some content)) with content.
  rewrite bool_decide_eq_false_2 by done. by rewrite (proj2 (Nat.leb_gt _ _) H).
Qed.

(** A file with less than a header: replay throws, and so does the constructor
    unless the file is empty. *)
Definition header_lost (file : list Z) : Prop :=
  (forall (S : Type) (consumer : S -> Command -> result S) (s : S),
     replay_journal consumer (Some file) s = Fail RuntimeError) /\
  (file <> [] -> forall sync opens f g, make_writer (Some file) sync opens f g = Fail RuntimeError).

Lemma short_header_lost file : (length file < header_bytes)%nat -> header_lost file.
Proof. intros H. split; [by intros; apply replay_no_header|]. by intros; apply make_writer_short. Qed.

(** What replay makes of a cut of a journal with some records of unknown
    padding after intact ones. *)
Lemma journal_cut (old new : list entry) file :
  let all := old ++ new in
  let whole := ((length file - header_bytes) / record_size)%nat in
  let n := intact_count (take whole all) in
  let valid := (header_bytes + record_size * n)%nat in
  Forall entry_ok old -> Forall entry_fits new -> file `prefix_of` journal_file all ->
  (header_bytes + record_size * length old <= length file)%nat ->
  (length old <= n <= length all)%nat /\
  (forall (S : Type) (consumer : S -> Command -> result S) (s : S),
     replay_journal consumer (Some file) s =
     (s ← feed consumer s (take n all).*1;
      Ok (s, MkReplay (u64 (Z.of_nat n)) (u64 (Z.of_nat valid)) (bool_decide (length file = valid))))) /\
  journal_at (Some (take valid file)) (take n all) /\ Forall entry_ok (take n all).
Proof.
  intros all whole n valid Hold Hnew Hpre Hlow.
  assert (Hall : Forall entry_fits all) by (apply Forall_app; split; [by apply entry_ok_fits|done]).
  destruct (prefix_split all file Hall Hpre) as (tail & Hw & Hf & Ht & Hl); [lia|]. fold whole in Hw, Hf, Hl.
  assert (Hfits : Forall entry_fits (take whole all)) by by apply Forall_take.
  assert (Hlen : length (take whole all) = whole) by (rewrite length_take; lia).
  pose proof (intact_count_le (take whole all)) as Hn. rewrite Hlen in Hn. fold n in Hn.
  assert (Htt : take n (take whole all) = take n all) by (rewrite take_take; f_equal; lia).
  assert (Hok : Forall entry_ok (take n all)) by (rewrite <- Htt; by apply intact_count_ok).
  assert (Hln : length (take n all) = n) by (rewrite length_take; lia).
  assert (Hge : (length old <= whole)%nat) by (apply Nat.div_le_lower_bound; [done|lia]).
  split; [|split; [|split; [|done]]].
  - split; [|lia]. unfold n, all. rewrite take_app_ge by done. rewrite intact_count_app; [lia|].
    eapply Forall_impl; [exact Hold|]. by intros e [].
  - intros S consumer s. rewrite Hf, replay_records by done. rewrite <- Hf. fold n. rewrite Htt, Hlen.
    assert (Hb : bool_decide (n = whole /\ tail = []) = bool_decide (length file = valid)); [|by rewrite Hb].
    apply bool_decide_ext. unfold valid. rewrite Hl. split; [intros [-> ->]; cbn; lia|].
    intros E. assert (n = whole) by (unfold record_size in *; lia). split; [done|].
    destruct tail; [done|]. cbn [length] in E. unfold record_size in *. lia.
  - left. f_equal. rewrite Hf.
    assert (Hfile : journal_file (take whole all) ++ tail =
      journal_file (take n all) ++ records (drop n (take whole all)) ++ tail).
    { rewrite <- (take_drop n (take whole all)) at 1. rewrite Htt. unfold journal_file.
      by rewrite records_app, <- !app_assoc. }
    rewrite Hfile. apply take_app_length'. rewrite journal_file_length, Hln by by apply entry_ok_fits. done.
Qed.

(** A writer that holds nothing back has every record in the file. *)
Lemma journal_kept (old : list entry) ops w k :
  Forall intact old -> Forall intact (appended ops) -> Forall entry_fits (old ++ appended ops) ->
  writer_inv (journal_file old) (old ++ appended ops) (run_ops w ops) ->
  st_good (jw_stream (run_ops w ops)) = true /\ st_buffer (jw_stream (run_ops w ops)) = [] ->
  intact_count (take ((length (crash_file (run_ops w ops) k) - header_bytes) / record_size)
                  (old ++ appended ops)) = length (old ++ appended ops).
Proof.
  intros Hi Hi' Hfits Hinv [Hg Hb]. pose proof (wr_good _ _ _ Hinv Hg) as E.
  unfold crash_file. rewrite Hg, Hb in *. rewrite take_nil. rewrite E, journal_file_length by done.
  rewrite Nat.add_comm, Nat.add_sub, Nat.mul_comm, Nat.div_mul, firstn_all by done.
  apply intact_count_all, Forall_app. by split.
Qed.
