(* ===== verification/SnapshotFacts.v ===== *)
(** * SnapshotFacts: the snapshot file holds the book *)
From Stdlib Require Import ZArith Lia.
From stdpp Require Import base numbers gmap strings list.
From S2P Require Import Prelude Types OrderIndex FixedHash OrderBook BookSpec Prices SpecFacts.
From S2P Require Import BookRefine SpecStep SpecInv BookQueries BookSnapshot BookRun Engine Bytes.
From S2P Require Import Journal JournalFacts JournalWriting.
Local Open Scope Z_scope.

(** ** Resting orders fit their fields *)

(** IDs and sequence numbers of 64 bits. *)
Definition keys_fit (l : list RestingOrder) : Prop :=
  Forall (fun o => is_u64 (ro_id o) /\ is_u64 (ro_priority o)) l.

Lemma keys_fit_sub l l' : (order_key <$> l') `sublist_of` (order_key <$> l) -> keys_fit l -> keys_fit l'.
Proof.
  intros Hs Hf. apply Forall_forall. intros o Ho.
  destruct (keys_elem _ _ _ Hs Ho) as (x & Hx & [= <- _ _ <-]).
  unfold keys_fit in Hf. rewrite Forall_forall in Hf. by apply Hf.
Qed.

Lemma executes_fit cfg l c l' ev : executes cfg l c l' ev -> is_u64 (c_order_id c) ->
  is_u64 (c_sequence c) -> keys_fit l -> keys_fit l'.
Proof.
  intros Hex Hid Hseq Hf. destruct Hex as [l1 tr H1|l1 tr rest H1 Hr Hl|l1 tr rest H1 Hr Hl];
    pose proof (keys_fit_sub _ _ (spec_match_keys _ _ _ _ _ _ _ _ H1) Hf); [done| |done].
  apply Forall_app. split; [done|]. by apply Forall_singleton.
Qed.

Lemma step_fit fill cfg l c l' ev : spec_step fill cfg l c l' ev -> command_ok c ->
  keys_fit l -> keys_fit l'.
Proof.
  intros Hstep [Hseq _ Hid _ _] Hf.
  destruct Hstep as [reason Hr|o Ht Hfo|l1 ev Ht Hz Hp Hi Hff Hcap He|o l1 ev Ht Hfo Hz Hp He].
  - done.
  - by eapply keys_fit_sub; [apply remove_order_keys|].
  - by eapply executes_fit.
  - eapply executes_fit; [exact He|done|done|]. by eapply keys_fit_sub; [apply remove_order_keys|].
Qed.

Lemma run_fit fill cmds sb sb' ev : sound_fill fill -> spec_inv sb -> Forall command_ok cmds ->
  spec_run fill sb cmds = (sb', ev) -> keys_fit (sb_orders sb) -> keys_fit (sb_orders sb').
Proof.
  intros Hs. revert sb sb' ev. induction cmds as [|c cmds IH]; intros sb sb' ev Hi Hc; cbn.
  { by intros [= <- <-]. }
  destruct (spec_process fill sb c) as [sb1 ev1] eqn:E1.
  destruct (spec_run fill sb1 cmds) as [sb2 ev2] eqn:E2. intros [= <- <-] Hf.
  apply Forall_cons in Hc as [Hc Hcs].
  destruct (spec_process_step _ _ _ _ _ (si_resting _ Hi) E1) as (Hstep & _).
  eapply IH; [|done|done|by eapply step_fit]. by eapply spec_process_inv; [| |apply Hc|].
Qed.

Lemma orders_fit cfg l : config_ok cfg -> orders_wf cfg l -> keys_fit l -> Forall order_fits l.
Proof.
  intros Hc Hwf Hk. apply Forall_forall. intros o Ho. unfold keys_fit in Hk. rewrite Forall_forall in Hk.
  destruct (Hk o Ho). pose proof (ow_quantity _ _ Hwf o Ho). pose proof (ow_ladder _ _ Hwf o Ho) as Hl.
  unfold on_ladder in Hl. rewrite !andb_true_iff in Hl. destruct Hl as [[Hlo%Z.leb_le Hhi%Z.leb_le] _].
  pose proof (cfg_min _ Hc). pose proof (cfg_max _ Hc). constructor; auto; intlia.
Qed.

(** ** The file *)

Lemma field_skip o n (a b : list Z) : (length a <= o)%nat -> field o n (a ++ b) = field (o - length a) n b.
Proof. intros H. unfold field. by rewrite drop_app_ge. Qed.

Lemma field_here n (a b : list Z) : length a = n -> field 0 n (a ++ b) = a.
Proof. intros H. unfold field. rewrite drop_0. by apply take_app_length'. Qed.

Lemma config_round_trip cfg : config_ok cfg -> config_of_bytes (config_bytes cfg) = cfg.
Proof.
  intros [H1 H2 _ H3 _ _ H4]. unfold config_of_bytes. set (bs := config_bytes cfg).
  change (field 0 8 bs) with (le 8 (u64 (minimum_price cfg))).
  change (field 8 8 bs) with (le 8 (u64 (maximum_price cfg))).
  change (field 16 8 bs) with (le 8 (u64 (tick_size cfg))).
  change (field 24 8 bs) with (le 8 (maximum_orders cfg)).
  rewrite !of_le_i64, of_le_u64 by intlia. by destruct cfg.
Qed.

Lemma config_bytes_length cfg : length (config_bytes cfg) = 32%nat.
Proof. done. Qed.

Lemma snapshot_header_length : length (file_header snapshot_magic order_size) = 16%nat.
Proof. done. Qed.

Section File.
Context (pads : nat -> list Z) (Hpads : forall i, length (pads i) = 7%nat).

Lemma order_bytes_length o i : length (order_bytes o (pads i)) = order_size.
Proof. unfold order_bytes. by rewrite !length_app, !le_length, Hpads. Qed.

Lemma orders_bytes_cons o l : orders_bytes (o :: l) pads =
  order_bytes o (pads 0%nat) ++ orders_bytes l (fun i => pads (S i)).
Proof. done. Qed.
End File.

Lemma orders_bytes_length l pads : (forall i, length (pads i) = 7%nat) ->
  length (orders_bytes l pads) = (order_size * length l)%nat.
Proof.
  revert pads. induction l as [|o l IH]; intros pads Hp; [done|].
  rewrite orders_bytes_cons, length_app, IH, order_bytes_length by done. cbn [length]. lia.
Qed.

Lemma read_orders_ok l pads : (forall i, length (pads i) = 7%nat) -> Forall order_fits l ->
  read_orders (length l) (orders_bytes l pads) = Ok l.
Proof.
  intros Hp Hl. revert pads Hp. induction Hl as [|o l Ho _ IH]; intros pads Hp; [done|].
  rewrite orders_bytes_cons. cbn [length read_orders].
  rewrite take_app_length', drop_app_length' by by rewrite order_bytes_length.
  rewrite order_round_trip by done. cbn [mbind result_bind]. by rewrite IH.
Qed.

(** Reading what was written: the header passes, and the book is restored. *)
Lemma read_snapshot_ok (b : Engine) orders pads :
  (forall i, length (pads i) = 7%nat) -> Forall order_fits orders -> config_ok (config b) ->
  is_u64 (last_sequence (stats b)) -> Z.of_nat (length orders) <= maximum_orders (config b) ->
  read_snapshot (Some (snapshot_content b orders pads)) =
  (b0 ← make_book (config b); restore b0 (last_sequence (stats b)) orders).
Proof.
  intros Hp Hfit Hc Hs Hl. pose proof (cfg_orders _ Hc) as Hm.
  unfold read_snapshot. set (content := snapshot_content b orders pads).
  set (body := orders_bytes orders pads).
  assert (Hok : header_ok snapshot_magic order_size content = true) by done.
  assert (Hcfg : field 16 32 content = config_bytes (config b)) by done.
  assert (Hseq : field 48 8 content = le 8 (last_sequence (stats b))) by done.
  assert (Hcount : field 56 8 content = le 8 (Z.of_nat (length orders))) by done.
  assert (Hsum : field 64 8 content = le 8 (checksum_bytes body)) by done.
  assert (Hbody : drop snapshot_header_bytes content = body) by done.
  assert (Hlen : (snapshot_header_bytes <= length content)%nat).
  { unfold content, snapshot_content, snapshot_header. rewrite !length_app, !le_length, config_bytes_length, snapshot_header_length.
    unfold snapshot_header_bytes. lia. }
  clearbody content.
  rewrite Hok, Hcfg, Hseq, Hcount, Hsum, Hbody, (proj2 (Nat.leb_le _ _) Hlen).
  rewrite config_round_trip, !of_le_u64 by (done || intlia || apply checksum_range).
  rewrite (proj2 (Z.ltb_ge _ _) Hl). cbn [negb orb].
  assert (Hbl : Z.of_nat (length body) = Z.of_nat (length orders) * Z.of_nat order_size).
  { unfold body. rewrite orders_bytes_length by done. lia. }
  rewrite <- Hbl, Nat2Z.id, take_ge, !Z.eqb_refl by lia. cbn [negb orb].
  unfold body. by rewrite Nat2Z.id, read_orders_ok.
Qed.

(** ** Damaged files *)

Section Damage.
Context (b : Engine) (orders : list RestingOrder) (pads : nat -> list Z).
Context (Hp : forall i, length (pads i) = 7%nat) (Hc : config_ok (config b)).
Context (Hl : Z.of_nat (length orders) <= maximum_orders (config b)).

Lemma snapshot_content_length : length (snapshot_content b orders pads) =
  (snapshot_header_bytes + order_size * length orders)%nat.
Proof.
  unfold snapshot_content, snapshot_header. rewrite !length_app, !le_length, config_bytes_length, snapshot_header_length.
  by rewrite orders_bytes_length.
Qed.

(** The count the header announces. *)
Lemma snapshot_count rest k : (snapshot_header_bytes <= k)%nat ->
  of_le (field 56 8 (take k (snapshot_content b rest pads))) = u64 (Z.of_nat (length rest)).
Proof.
  intros Hk. assert (Hf : field 56 8 (snapshot_content b rest pads) = le 8 (Z.of_nat (length rest))) by done.
  unfold field in *. rewrite skipn_firstn_comm, take_take, Nat.min_l, Hf
    by (unfold snapshot_header_bytes in Hk; lia).
  by rewrite of_le_le.
Qed.

(** A file cut short is refused. *)
Lemma snapshot_truncated k : (k < snapshot_header_bytes + order_size * length orders)%nat ->
  read_snapshot (Some (take k (snapshot_content b orders pads))) = Fail RuntimeError.
Proof.
  intros Hk. pose proof snapshot_content_length as Hlen. pose proof (cfg_orders _ Hc).
  unfold read_snapshot. set (content := take k _).
  assert (Hck : length content = k) by (unfold content; rewrite length_take; lia).
  destruct (Nat.leb_spec snapshot_header_bytes (length content)) as [Hh|Hh]; [|done]. cbn [negb orb].
  destruct (negb (header_ok _ _ _) || _); [done|].
  assert (Hcount : of_le (field 56 8 content) = Z.of_nat (length orders)).
  { unfold content. rewrite snapshot_count, u64_small by (lia || intlia). done. }
  rewrite Hcount, length_take, length_drop, Hck.
  destruct (Z.eqb_spec (Z.of_nat (Z.to_nat (Z.of_nat (length orders) * Z.of_nat order_size) `min`
    (k - snapshot_header_bytes))) (Z.of_nat (length orders) * Z.of_nat order_size)) as [E|E]; [lia|done].
Qed.

(** A changed byte among the orders is refused. *)
Lemma snapshot_corrupt_body i old new : (snapshot_header_bytes <= i)%nat ->
  snapshot_content b orders pads !! i = Some old -> is_u8 new -> new <> old ->
  bytes_ok (orders_bytes orders pads) ->
  read_snapshot (Some (<[i := new]> (snapshot_content b orders pads))) = Fail RuntimeError.
Proof.
  intros Hi Ho Hnew Hne Hbytes. pose proof (cfg_orders _ Hc).
  unfold read_snapshot. set (content := snapshot_content b orders pads) in *.
  set (body := orders_bytes orders pads) in *.
  assert (Hbody : drop snapshot_header_bytes content = body) by done.
  assert (Hkeep : forall o n, (o + n <= snapshot_header_bytes)%nat ->
    field o n (<[i := new]> content) = field o n content).
  { intros o n Hon. unfold field. destruct (decide (o <= i)%nat) as [Hoi|Hoi]; [|lia].
    rewrite drop_insert_ge by done. apply take_insert_ge. lia. }
  assert (Hcount : field 56 8 content = le 8 (Z.of_nat (length orders))) by done.
  assert (Hsum : field 64 8 content = le 8 (checksum_bytes body)) by done.
  rewrite !Hkeep, Hcount, Hsum by (unfold snapshot_header_bytes; lia).
  rewrite !of_le_u64 by (intlia || apply checksum_range).
  destruct (negb _ || negb (header_ok _ _ _) || _); [done|].
  rewrite drop_insert_ge, Hbody by done.
  assert (Hbl : Z.of_nat (length body) = Z.of_nat (length orders) * Z.of_nat order_size).
  { unfold body. rewrite orders_bytes_length by done. lia. }
  rewrite <- Hbl, Nat2Z.id, take_ge by (rewrite length_insert; done). rewrite length_insert, Z.eqb_refl.
  cbn [negb orb].
  destruct (Z.eqb_spec (checksum_bytes body) (checksum_bytes (<[(i - snapshot_header_bytes)%nat:=new]> body)))
    as [E|E]; [|done]. exfalso. symmetry in E. revert E.
  apply (checksum_one_byte body _ old new); auto.
  rewrite <- Hbody, lookup_drop. by replace (snapshot_header_bytes + (i - snapshot_header_bytes))%nat with i by lia.
Qed.
End Damage.

Lemma orders_bytes_ok l pads : (forall i, bytes_ok (pads i)) -> bytes_ok (orders_bytes l pads).
Proof.
  revert pads. induction l as [|o l IH]; intros pads Hp; [constructor|].
  rewrite orders_bytes_cons. apply Forall_app. split; [|by apply IH].
  unfold order_bytes. rewrite !Forall_app. split_and!; try apply le_bytes; [|apply Hp].
  apply Forall_singleton. destruct (ro_side o); cbn; intlia.
Qed.

(** ** The destination *)

Lemma temporary_ne path : temporary path <> path.
Proof.
  unfold temporary. intros E%(f_equal String.length). revert E.
  induction path as [|c path IH]; cbn; [done|]. intros [= E]. by apply IH.
Qed.

Lemma rename_here (fs : FileSystem) from to content : fs !! from = Some content ->
  rename fs from to !! to = Some content.
Proof. intros H. unfold rename. rewrite H. apply lookup_insert_eq. Qed.

Lemma rename_gone (fs : FileSystem) from to : is_Some (fs !! from) -> from <> to ->
  rename fs from to !! from = None.
Proof.
  intros [c H] Hne. unfold rename. rewrite H, lookup_insert_ne by done. apply lookup_delete_eq.
Qed.

Lemma rename_other (fs : FileSystem) from to p : p <> from -> p <> to -> rename fs from to !! p = fs !! p.
Proof.
  intros H1 H2. unfold rename. destruct (fs !! from); [|done].
  by rewrite lookup_insert_ne, lookup_delete_ne.
Qed.

(** ** The consumer of the replay tool *)

Lemma feed_replay cs (b : Engine) sb : refines b sb -> quantities_u64 cs ->
  exists b', feed replay_consumer b cs = Ok b' /\ refines b' (spec_run machine_fill sb cs).1.
Proof.
  revert b sb. induction cs as [|c cs IH]; intros b sb H Hq; [by exists b|].
  apply Forall_cons in Hq as [Hc Hq]. destruct (process_ok b sb c [] H Hc) as (b1 & Hp & H1).
  assert (Hr : replay_consumer b c = Ok b1) by (unfold replay_consumer; by rewrite Hp).
  cbn [feed spec_run]. rewrite Hr. cbn [mbind result_bind].
  destruct (spec_process machine_fill sb c) as [sb1 ev1]. destruct (IH b1 sb1 H1 Hq) as (b' & Hf & H').
  exists b'. split; [done|]. by destruct (spec_run machine_fill sb1 cs).
Qed.

(** A journal cut at byte [k] feeds its whole records to the consumer. *)
Lemma replay_cut_feed {S : Type} (consumer : S -> Command -> result S) es k s : Forall entry_ok es ->
  (header_bytes <= k <= header_bytes + record_size * length es)%nat ->
  let n := ((k - header_bytes) / record_size)%nat in
  replay_journal consumer (Some (take k (journal_file es))) s =
    (s ← feed consumer s (take n es).*1;
     Ok (s, MkReplay (u64 (Z.of_nat n)) (u64 (Z.of_nat (header_bytes + record_size * n)))
              (k =? header_bytes + record_size * n)%nat)).
Proof.
  intros Hes Hk n. pose proof (entry_ok_fits es Hes) as Hfits.
  pose proof (journal_file_length es Hfits) as Hl.
  assert (Hlk : length (take k (journal_file es)) = k) by (rewrite length_take; lia).
  destruct (prefix_split es (take k (journal_file es)) Hfits (take_prefix _ _)) as (tail & Hn & Hf & Ht & Htl);
    [lia|].
  rewrite Hlk in Hn, Hf, Htl. fold n in Hn, Hf, Htl.
  assert (Htk : length (take n es) = n) by (rewrite length_take; lia).
  rewrite Hf, replay_file, Htk by (done || by apply Forall_take).
  assert (bool_decide (tail = []) = (k =? header_bytes + record_size * n)%nat) as ->; [|done].
  destruct (Nat.eqb_spec k (header_bytes + record_size * n)) as [E|E].
  - apply bool_decide_eq_true_2. destruct tail; [done|]. cbn [length] in Htl. lia.
  - apply bool_decide_eq_false_2. intros ->. cbn [length] in Htl. lia.
Qed.

Lemma replay_cut cfg (b0 : Engine) es k : refines b0 (empty_spec cfg) -> Forall entry_ok es ->
  (header_bytes <= k <= header_bytes + record_size * length es)%nat ->
  let n := ((k - header_bytes) / record_size)%nat in
  exists b, replay_journal replay_consumer (Some (take k (journal_file es))) b0 =
      Ok (b, MkReplay (u64 (Z.of_nat n)) (u64 (Z.of_nat (header_bytes + record_size * n)))
               (k =? header_bytes + record_size * n)%nat) /\
    refines b (spec_run machine_fill (empty_spec cfg) (take n es).*1).1.
Proof.
  intros H0 Hes Hk n. destruct (feed_replay (take n es).*1 b0 (empty_spec cfg) H0) as (b & Hfeed & Hb).
  { apply Forall_fmap. eapply Forall_impl; [by apply Forall_take|]. intros e He. apply He. }
  exists b. split; [|done]. rewrite replay_cut_feed by done. fold n. by rewrite Hfeed.
Qed.

(** ** Writing a book and reading it back *)

(** Nothing goes wrong. *)
Definition snapshot_clean (f : SnapshotFaults) (orders : list RestingOrder) : Prop :=
  sf_opens f = true /\ sf_header f = None /\ (orders = [] \/ sf_orders f = None) /\ sf_flush f = None /\
  sf_rename f = true.

Lemma write_exact_new bs f : write_exact (MkStream [] [] true) bs f =
  match f with
  | None => (MkStream [] bs true, Ok ())
  | Some k => (MkStream (take k bs) bs false, Fail RuntimeError)
  end.
Proof. by destruct f. Qed.

(** Flushing what was written to a new file. *)
Lemma write_orders_flush header body f g :
  let s := stream_flush (stream_write (MkStream [] header true) body f) g in
  if st_good s then f = None /\ g = None /\ st_file s = header ++ body else f <> None \/ g <> None.
Proof. destruct f, g; cbn; auto. Qed.

(** A snapshot either replaces the file at the destination by the complete
    content, or throws and has touched nothing but the temporary file. *)
Lemma write_snapshot_cases fs path (b : Engine) pads f orders : resting_orders b = Ok orders ->
  (snapshot_clean f orders /\
   write_snapshot fs path b pads f =
     (rename (<[temporary path := snapshot_content b orders pads]> fs) (temporary path) path, Ok ())) \/
  (~ snapshot_clean f orders /\ exists touched,
   write_snapshot fs path b pads f = (partial_alter (fun old => touched old) (temporary path) fs, Fail RuntimeError)).
Proof.
  intros Ho. unfold write_snapshot. rewrite Ho.
  assert (Hkeep : forall m : FileSystem, m = partial_alter (fun old => old) (temporary path) m).
  { intros m. apply map_eq. intros i. destruct (decide (i = temporary path)) as [->|].
    - by rewrite lookup_partial_alter_eq.
    - by rewrite lookup_partial_alter_ne. }
  unfold snapshot_clean. destruct (sf_opens f); cbn [negb]; cycle 1.
  { right. split; [by intros [? _]|]. exists (fun old => old). by rewrite <- Hkeep. }
  rewrite write_exact_new. destruct (sf_header f) as [k|].
  { right. split; [by intros (_ & ? & _)|]. eexists (fun _ => Some _). reflexivity. }
  set (header := snapshot_header b orders pads). set (body := orders_bytes orders pads).
  assert (Hs : exists f2, (f2 = None <-> orders = [] \/ sf_orders f = None) /\
    (match orders with [] => MkStream [] header true | _ => stream_write (MkStream [] header true) body (sf_orders f) end) =
      stream_write (MkStream [] header true) body f2).
  { destruct orders; [exists None|by exists (sf_orders f); naive_solver]. split; [naive_solver|].
    unfold stream_write. cbn [st_good st_file st_buffer]. change body with (@nil Z). by rewrite app_nil_r. }
  destruct Hs as (f2 & Hf2 & ->). pose proof (write_orders_flush header body f2 (sf_flush f)) as Hfl. cbv zeta in Hfl.
  destruct (st_good (stream_flush _ _)) eqn:Eg; cbn [negb].
  - destruct Hfl as (-> & -> & ->). destruct (sf_rename f).
    + left. split; [naive_solver|done].
    + right. split; [naive_solver|]. eexists (fun _ => Some _). reflexivity.
  - right. split; [naive_solver|]. eexists (fun _ => Some _). reflexivity.
Qed.

Lemma no_fault_clean orders : snapshot_clean NoFault orders.
Proof. by split_and!; auto. Qed.


Lemma snapshot_restores cfg past (fs : FileSystem) path pads (b0 b : Engine) sb events :
  config_ok cfg -> Forall command_ok past -> (forall i, length (pads i) = 7%nat) ->
  make_book cfg = Ok b0 -> spec_run machine_fill (empty_spec cfg) past = (sb, events) ->
  models cfg b sb -> in_time sb ->
  exists fs' b' sb', write_snapshot fs path b pads NoFault = (fs', Ok ()) /\
    read_snapshot (fs' !! path) = Ok b' /\ refines b' sb' /\ same_book sb sb' /\
    resting_orders b' = resting_orders b /\ last_sequence (stats b') = last_sequence (stats b).
Proof.
  intros Hc Hpast Hp Hb0 Hrun (Hb & Hi & Hcf) Ht. destruct (make_models cfg b0 Hc Hb0) as (H0 & _).
  destruct (restore_resting_orders b sb b0 Hb Hi Ht) as (orders & b' & Ho & Hr & Hb'); [by rewrite Hcf|].
  set (sb' := MkSpec _ _ _) in Hb'. assert (Hsame : same_book sb sb') by by split.
  assert (Hst : config b = cfg /\ stats b = sb_stats sb).
  { destruct Hb as [G HG]. by rewrite (rp_spec _ _ _ HG) in Hcf |- *. }
  destruct Hst as [Hcb Hsb].
  assert (Hperm : orders ≡ₚ sb_orders sb).
  { destruct (models_orders cfg b sb) as (os & Hos & _ & Hpm); [done|]. congruence. }
  assert (Hfit : Forall order_fits orders).
  { rewrite Hperm. apply (orders_fit cfg); [done|rewrite <- Hcf; apply Hi|].
    eapply run_fit; [apply machine_fill_is_sound|by apply spec_inv_empty|exact Hpast|exact Hrun|constructor]. }
  eexists _, b', sb'. split.
  { destruct (write_snapshot_cases fs path b pads NoFault orders Ho) as [[_ Hw]|[Hn _]]; [exact Hw|].
    by destruct (Hn (no_fault_clean orders)). }
  split.
  { erewrite rename_here by apply lookup_insert_eq. rewrite read_snapshot_ok; auto.
    - rewrite Hcb, Hb0. exact Hr.
    - by rewrite Hcb.
    - rewrite Hsb. apply Ht.
    - rewrite Hperm, Hcb, <- Hcf. apply Hi. }
  split_and!; auto.
  - rewrite (refines_orders b' sb') by done. by rewrite (refines_orders b sb).
  - destruct Hb' as [G HG]. pose proof (rp_spec _ _ _ HG) as E. injection E as _ _ E.
    by rewrite <- E, Hsb.
Qed.
