(* ===== verification/DurableRunner.v ===== *)
(** * DurableRunner: an engine loop with a journal file attached
      (include/dme/engine_runner.hpp, src/gateway.cpp [GatewayEngineRunner::run],
       src/journal.cpp)

    [Runner] records the journal as a list of commands.  Here the same loops
    run with a [JournalWriter]: a popped command is appended before it is
    processed, the append may throw, the writer is flushed when the loop
    stops, and the process may die between any two steps, leaving what
    [crash_file] says.  An exception leaves the thread's function, which ends
    the process: no step follows. *)
From Stdlib Require Import ZArith Lia.
From stdpp Require Import base numbers gmap strings list.
From S2P Require Import Prelude Types OrderIndex FixedHash OrderBook BookSpec BookRefine SpecInv.
From S2P Require Import BookRun Engine Bytes Spsc Runner Journal JournalFacts JournalWriting.
Local Open Scope Z_scope.

Lemma numbered_length {Req} (command_of : Z -> Req -> Command) n rs :
  length (numbered command_of n rs) = length rs.
Proof. revert n. induction rs as [|r rs IH]; intros n; cbn; [done|]. by rewrite IH. Qed.

Section Durable.
Context {Req Resp : Type} (command_of : Z -> Req -> Command) (respond : Req -> Event -> Resp).

(** The faults that the flush inside a synchronous [append] may have, and the
    paddings that a command and its copy in the record may have. *)
Context (allowed : fault -> Prop) (copies : list Z -> list Z -> Prop).

Record Durable : Type := MkDurable {
  d_world : @World Req Resp;
  d_writer : JournalWriter;
  d_thrown : bool }.               (* an exception left the loop *)

Inductive dstep : Durable -> Durable -> Prop :=
  (* producer, consumer, publishing: no access to the journal *)
  | d_other w w' jw : rstep command_of respond w w' -> received w' = received w ->
      ~ (r_phase (runner w) = Polling /\ r_phase (runner w') = Stopped) ->
      dstep (MkDurable w jw false) (MkDurable w' jw false)
  (* pop, append, process *)
  | d_pop r rs ps ds v iq' pad pad' f g jw jw' r' :
      r_phase r = Polling -> try_pop (r_input r) = Ok (iq', Some v) ->
      entry_fits (command_of (r_next r) v, (pad, pad')) -> allowed g -> copies pad pad' ->
      append jw (command_of (r_next r) v) pad pad' f g = (jw', Ok ()) ->
      handle command_of r iq' v = Ok r' ->
      dstep (MkDurable (MkWorld r rs ps ds) jw false) (MkDurable (MkWorld r' (rs ++ [v]) ps ds) jw' false)
  (* the exception ends the process, and the popped request with it *)
  | d_pop_throw r rs ps ds v iq' pad pad' f g jw jw' e :
      r_phase r = Polling -> try_pop (r_input r) = Ok (iq', Some v) ->
      entry_fits (command_of (r_next r) v, (pad, pad')) -> allowed g -> copies pad pad' ->
      append jw (command_of (r_next r) v) pad pad' f g = (jw', Fail e) ->
      dstep (MkDurable (MkWorld r rs ps ds) jw false) (MkDurable (MkWorld r rs ps ds) jw' true)
  (* the flush after the loop *)
  | d_stop w w' f jw jw' :
      rstep command_of respond w w' -> received w' = received w ->
      r_phase (runner w) = Polling -> r_phase (runner w') = Stopped ->
      flush jw f = (jw', Ok ()) ->
      dstep (MkDurable w jw false) (MkDurable w' jw' false)
  | d_stop_throw w f jw jw' e :
      r_phase (runner w) = Polling -> flush jw f = (jw', Fail e) ->
      dstep (MkDurable w jw false) (MkDurable w jw' true).

Inductive druns (d0 : Durable) : Durable -> Prop :=
  | druns_start : druns d0 d0
  | druns_step d d' : druns d0 d -> dstep d d' -> druns d0 d'.

(** ** The file follows the loop *)

Context (cfg : BookConfig) (sb0 : SpecBook) (n0 : Z) (w0 : JournalWriter).

Record durable_inv (d : Durable) (ops : list JournalOp) (extra : list Command) : Prop := {
  di_world : exists ins outs sb, world_inv command_of respond cfg sb0 n0 (Some []) (d_world d) ins outs sb;
  di_writer : d_writer d = run_ops w0 ops;
  di_ops : Forall op_ok ops;
  di_copies : Forall (fun e : entry => copies e.2.1 e.2.2) (appended ops);
  di_commands : (appended ops).*1 = numbered command_of n0 (received (d_world d)) ++ extra;
  di_extra : (length extra <= 1)%nat /\ (d_thrown d = false -> extra = []) }.

Lemma run_ops_snoc w ops op : run_ops w (ops ++ [op]) = run_op (run_ops w ops) op.
Proof. unfold run_ops. by rewrite fold_left_app. Qed.

Lemma appended_snoc ops op : appended (ops ++ [op]) = appended ops ++ entries_of op.
Proof. unfold appended. rewrite fmap_app, concat_app. cbn [fmap list_fmap concat]. by rewrite app_nil_r. Qed.

#[local] Opaque append flush run_ops.

(** One more use of the writer. *)
Lemma append_recorded ops c pad pad' f g : entry_fits (c, (pad, pad')) -> copies pad pad' -> Forall op_ok ops ->
  Forall (fun e : entry => copies e.2.1 e.2.2) (appended ops) ->
  let ops' := ops ++ [AppendOp c pad pad' f g] in
  Forall op_ok ops' /\ Forall (fun e : entry => copies e.2.1 e.2.2) (appended ops') /\
  run_ops w0 ops' = (append (run_ops w0 ops) c pad pad' f g).1 /\ (appended ops').*1 = (appended ops).*1 ++ [c].
Proof.
  intros Hent Hcopy Hok Hcp. cbv zeta. rewrite run_ops_snoc, appended_snoc, fmap_app. split_and!; [|..|done|done].
  - apply Forall_app. split; [done|]. by apply Forall_singleton.
  - apply Forall_app. split; [done|]. by apply Forall_singleton.
Qed.

Lemma flush_recorded ops f : Forall op_ok ops -> Forall (fun e : entry => copies e.2.1 e.2.2) (appended ops) ->
  let ops' := ops ++ [FlushOp f] in
  Forall op_ok ops' /\ Forall (fun e : entry => copies e.2.1 e.2.2) (appended ops') /\
  run_ops w0 ops' = (flush (run_ops w0 ops) f).1 /\ (appended ops').*1 = (appended ops).*1.
Proof.
  intros Hok Hcp. cbv zeta. rewrite run_ops_snoc, appended_snoc, app_nil_r. split_and!; [|done..].
  apply Forall_app. split; [done|]. by apply Forall_singleton.
Qed.

Lemma dstep_inv d d' ops extra : durable_inv d ops extra -> dstep d d' ->
  exists ops' extra', durable_inv d' ops' extra'.
Proof.
  intros [(ins & outs & sb & Hw) Hjw Hok Hcp Hcm [Hlen Hex]] Hs. destruct Hs as
    [w w' jw Hr Hsame _|r rs ps ds v iq' pad pad' f g jw jw' r' Hph Hpop Hent _ Hcopy Happ Hh
    |r rs ps ds v iq' pad pad' f g jw jw' e Hph Hpop Hent _ Hcopy Happ|w w' f jw jw' Hr Hsame _ _ Hf|w f jw jw' e _ Hf];
    cbn [d_world d_writer d_thrown received] in *; specialize (Hex eq_refl) as ->; rewrite app_nil_r in Hcm.
  - exists ops, []. constructor;
    cbn [d_world d_writer d_thrown received];
    [by eapply rstep_inv|done|done|done|by rewrite Hsame, app_nil_r|split; [cbn; lia|done]].
  - destruct (append_recorded _ _ _ _ f g Hent Hcopy Hok Hcp) as (Hok' & Hcp' & Hrun & Hcm').
    eexists (ops ++ [_]), []. constructor; cbn [d_world d_writer d_thrown received];
      [|by rewrite Hrun, <- Hjw, Happ|exact Hok'|exact Hcp'| |split; [cbn; lia|done]].
    + eapply rstep_inv; [exact Hw|by eapply run_pop].
    + rewrite Hcm', Hcm, app_nil_r, numbered_app. cbn [numbered].
      pose proof (wi_next _ _ _ _ _ _ _ _ _ _ Hw) as Hn. cbn [runner received] in Hn. by rewrite <- Hn.
  - destruct (append_recorded _ _ _ _ f g Hent Hcopy Hok Hcp) as (Hok' & Hcp' & Hrun & Hcm').
    eexists (ops ++ [_]), [command_of (r_next r) v]. constructor; cbn [d_world d_writer d_thrown received];
      [by eauto|by rewrite Hrun, <- Hjw, Happ|exact Hok'|exact Hcp'|by rewrite Hcm', Hcm|split; [cbn; lia|done]].
  - destruct (flush_recorded ops f Hok Hcp) as (Hok' & Hcp' & Hrun & Hcm').
    eexists (ops ++ [_]), []. constructor; cbn [d_world d_writer d_thrown received];
      [by eapply rstep_inv|by rewrite Hrun, <- Hjw, Hf|exact Hok'|exact Hcp'|by rewrite Hcm', Hsame, app_nil_r
      |split; [cbn; lia|done]].
  - destruct (flush_recorded ops f Hok Hcp) as (Hok' & Hcp' & Hrun & Hcm').
    eexists (ops ++ [_]), []. constructor; cbn [d_world d_writer d_thrown received];
      [by eauto|by rewrite Hrun, <- Hjw, Hf|exact Hok'|exact Hcp'|by rewrite Hcm', app_nil_r
      |split; [cbn; lia|done]].
Qed.

Lemma druns_inv d0 d : durable_inv d0 [] [] -> druns d0 d -> exists ops extra, durable_inv d ops extra.
Proof. intros H0. induction 1 as [|d d' _ (ops & extra & IH) Hs]; [by eauto|]. by eapply dstep_inv. Qed.

#[local] Transparent append flush run_ops.

(** A synchronous writer whose flushes do not fail holds nothing back. *)
Definition drained_writer (d : Durable) : Prop :=
  jw_synchronous (d_writer d) = true /\
  (d_thrown d = false -> st_good (jw_stream (d_writer d)) = true /\ st_buffer (jw_stream (d_writer d)) = []).

Lemma append_good jw c pad pad' f g jw' : append jw c pad pad' f g = (jw', Ok ()) ->
  jw_synchronous jw = true -> g = None ->
  jw_synchronous jw' = true /\ st_good (jw_stream jw') = true /\ st_buffer (jw_stream jw') = [].
Proof.
  unfold append, write_exact. destruct jw as [s sy]. cbn [jw_stream jw_synchronous]. intros H -> ->. revert H.
  set (s' := stream_write _ _ _). destruct (st_good s') eqn:E; intros [= <-].
  unfold stream_flush. by rewrite E.
Qed.

Lemma dstep_drained d d' : (forall g, allowed g -> g = None) -> drained_writer d -> dstep d d' ->
  drained_writer d'.
Proof.
  intros Hg [Hs Hd] Hstep. destruct Hstep; unfold drained_writer in *; cbn [d_writer d_thrown] in *.
  - done.
  - destruct (append_good _ _ _ _ _ _ _ H4 Hs (Hg _ H2)). done.
  - split; [|done]. unfold append in H4. destruct (write_exact _ _ _) as [s res], res; by injection H4 as <-.
  - unfold flush in H3. destruct (st_good (stream_flush (jw_stream jw) f)) eqn:E; [|done]. injection H3 as <-. cbn.
    split; [done|]. intros _. split; [done|]. unfold stream_flush in *.
    destruct (st_good (jw_stream jw)) eqn:Eg; [|congruence]. by destruct f.
  - unfold flush in H0. injection H0 as <- _. done.
Qed.

(** Nothing is ever removed from the file. *)
Lemma stream_flush_grows st f : (length (st_file st) <= length (st_file (stream_flush st f)))%nat.
Proof.
  unfold stream_flush. destruct (st_good st); [|done]. destruct f; cbn [st_file]; rewrite length_app; lia.
Qed.

Lemma append_grows jw c pad pad' f g :
  (length (st_file (jw_stream jw)) <= length (st_file (jw_stream (append jw c pad pad' f g).1)))%nat.
Proof.
  unfold append, write_exact. set (bs := journal_record c pad pad'). clearbody bs.
  assert (E : (length (st_file (jw_stream jw)) <= length (st_file (stream_write (jw_stream jw) bs f)))%nat).
  { unfold stream_write. destruct (st_good (jw_stream jw)); [|done]. destruct f; cbn [st_file]; [rewrite length_app; lia|done]. }
  set (s' := stream_write _ _ _) in *. clearbody s'.
  destruct (st_good s'); cbn [fst jw_stream]; [|done].
  destruct (jw_synchronous jw); [etrans; [exact E|apply stream_flush_grows]|done].
Qed.

(** A writer whose stream has failed stops the loop at its first command. *)
Lemma failed_writer_stops d0 d : st_good (jw_stream (d_writer d0)) = false -> received (d_world d0) = [] ->
  druns d0 d -> st_good (jw_stream (d_writer d)) = false /\ received (d_world d) = [].
Proof.
  intros Hg Hr. induction 1 as [|d d' _ [IHg IHr] Hs]; [done|].
  destruct Hs as [w w' jw _ Hsame _|r rs ps ds v iq' pad pad' f g jw jw' r' _ _ _ _ _ Happ _
    |r rs ps ds v iq' pad pad' f g jw jw' e _ _ _ _ _ Happ|w w' f jw jw' _ Hsame _ _ Hf|w f jw jw' e _ Hf];
    cbn [d_world d_writer received] in *.
  - by rewrite Hsame.
  - unfold append, write_exact, stream_write in Happ. rewrite IHg, IHg in Happ. done.
  - unfold append, write_exact, stream_write in Happ. rewrite IHg, IHg in Happ. by injection Happ as <- _.
  - unfold flush, stream_flush in Hf. rewrite IHg, IHg in Hf. done.
  - unfold flush, stream_flush in Hf. rewrite IHg, IHg in Hf. by injection Hf as <- _.
Qed.

(** Every processed command is in the file. *)
Lemma druns_durable old d0 d : (forall g, allowed g -> g = None) -> Forall entry_ok old ->
  w0 = MkWriter (MkStream (journal_file old) [] true) true ->
  durable_inv d0 [] [] -> d_thrown d0 = false -> druns d0 d ->
  drained_writer d /\
  (header_bytes + record_size * (length old + length (received (d_world d))) <=
     length (st_file (jw_stream (d_writer d))))%nat.
Proof.
  intros Hg Hold Hw0 H0 Ht0 Hrun.
  assert (Hfull : forall d ops extra, durable_inv d ops extra -> drained_writer d -> d_thrown d = false ->
    (header_bytes + record_size * (length old + length (received (d_world d))) <=
     length (st_file (jw_stream (d_writer d))))%nat).
  { intros d' ops extra [_ Hjw Hops _ Hcm [_ Hex]] [_ Hd] Ht. destruct (Hd Ht) as [Hgood Hbuf].
    assert (Hwi : writer_inv (journal_file old) (old ++ appended ops) (d_writer d')).
    { rewrite Hjw, Hw0. apply run_ops_inv; [done|apply opened_inv]. }
    pose proof (wr_good _ _ _ Hwi Hgood) as E. rewrite Hbuf, app_nil_r in E. rewrite E.
    rewrite journal_file_length by (apply Forall_app; split; [by apply entry_ok_fits|by apply appended_ok]).
    rewrite length_app. apply (f_equal length) in Hcm. rewrite length_fmap in Hcm.
    rewrite (Hex Ht), app_nil_r in Hcm.
    rewrite numbered_length in Hcm. rewrite Hcm. done. }
  induction Hrun as [|d d' Hrun (IH1 & IH2) Hs].
  - assert (drained_writer d0); [|split; [done|by eapply Hfull]].
    unfold drained_writer. by rewrite (di_writer _ _ _ H0 : d_writer d0 = w0), Hw0.
  - pose proof (dstep_drained _ _ Hg IH1 Hs) as Hd'. split; [done|].
    destruct (druns_inv _ _ H0 (druns_step _ _ _ Hrun Hs)) as (ops' & extra' & Hi').
    destruct (d_thrown d') eqn:Et; [|by eapply Hfull].
    destruct Hs as [| |? ? ? ? ? ? ? ? ? ? ? ? ? ? ? ? ? ? Happ| |? ? ? ? ? ? Hf]; try done;
      cbn [d_world d_writer received] in *; (etrans; [exact IH2|]).
    + rewrite <- (f_equal fst Happ : (append _ _ _ _ _ _).1 = jw'). apply append_grows.
    + rewrite <- (f_equal fst Hf : (flush _ _).1 = jw'). apply stream_flush_grows.
Qed.
End Durable.
Arguments MkDurable {Req Resp}. Arguments d_world {Req Resp}. Arguments d_writer {Req Resp}.
Arguments d_thrown {Req Resp}.
