(* ===== verification/PersistTheorems.v ===== *)
(** * PersistTheorems: the journal and the snapshots survive what they claim to *)
From Stdlib Require Import ZArith Lia.
From stdpp Require Import base numbers gmap strings list.
From S2P Require Import Prelude Types OrderIndex FixedHash OrderBook BookSpec SpecFacts BookRefine.
From S2P Require Import SpecStep SpecInv BookSnapshot BookRun Engine Bytes.
From S2P Require Import Journal JournalFacts JournalWriting SnapshotFacts.
Local Open Scope Z_scope.

(** ** The journal *)

(** C8: Crash recovery.  Open a new journal, or one that ends cleanly, and use
    the writer in any way, with any faults of the file system from the header
    on and any padding in the copies stored, until the process ends, at any
    moment.  The constructor throws only when the file cannot be opened or the
    header not written.  The file left is a cut of the journal meant to be
    written; shorter than a header it can be only when the flush of the
    header failed, and then replay throws and so does a constructor on it
    (unless it is empty).  Otherwise replay delivers a prefix of the commands
    appended, no less than those that were in the file before: every whole
    record up to the first one whose copy does not match its checksum.  The
    counts reported are exact, the end is reported clean exactly when nothing
    follows, and truncating to [valid_bytes] gives a journal that ends cleanly.
    A synchronous writer that met no fault, with copies that keep the padding,
    loses nothing. *)
Theorem journal_crash_recovery (existing : option (list Z)) (old : list entry) (sync opens : bool)
    (f g : fault) (ops : list JournalOp) (k : nat) :
  journal_at existing old -> Forall entry_ok old -> Forall op_ok ops ->
  match make_writer existing sync opens f g with
  | Fail e => e = RuntimeError /\
    (opens = false \/ old = [] /\ f <> None /\
     let left := st_file (write_exact (MkStream (default [] existing) [] true) journal_header f).1 in
     left `prefix_of` journal_header /\
     ((length left < header_bytes)%nat -> header_lost left))
  | Ok w =>
    let file := crash_file (run_ops w ops) k in
    let all := old ++ appended ops in
    let whole := ((length file - header_bytes) / record_size)%nat in
    let n := intact_count (take whole all) in
    let valid := (header_bytes + record_size * n)%nat in
    file `prefix_of` journal_file all /\
    ((length file < header_bytes)%nat ->
       old = [] /\ g <> None /\ header_lost file) /\
    ((header_bytes <= length file)%nat ->
       (length old <= n <= length all)%nat /\
       (forall (S : Type) (consumer : S -> Command -> result S) (s : S),
          replay_journal consumer (Some file) s =
          (s ← feed consumer s (take n all).*1;
           Ok (s, MkReplay (u64 (Z.of_nat n)) (u64 (Z.of_nat valid)) (bool_decide (length file = valid))))) /\
       journal_at (Some (take valid file)) (take n all) /\ Forall entry_ok (take n all)) /\
    (sync = true -> g = None -> Forall faultless ops -> Forall intact (appended ops) -> n = length all)
  end.
Proof.
  intros Hat Hold Hops.
  destruct (make_writer_total existing old sync opens f g Hat) as [[-> Hf]|[->|(j & -> & -> & ->)]].
  - split; [done|]. destruct Hf as [->|(E & -> & Hf)]; [by left|right]. rewrite E.
    destruct f as [j|]; [|done]. split; [done|]. split; [done|]. split; [apply take_prefix|apply short_header_lost].
  - set (w := MkWriter _ _). pose proof (run_ops_inv ops _ old w Hops (opened_inv old sync)) as Hinv.
    destruct (crash_prefix _ _ _ k Hinv) as [Hlow Hpre]. split; [done|].
    apply prefix_length in Hlow. rewrite journal_file_length in Hlow by by apply entry_ok_fits.
    split; [lia|]. split; [intros _; apply (journal_cut old (appended ops)); auto using appended_ok; lia|].
    intros -> -> Hnf Hint. apply (journal_kept old ops w k); [|done| |done|by apply run_ops_durable].
    + eapply Forall_impl; [exact Hold|]. by intros e [].
    + apply Forall_app. split; [by apply entry_ok_fits|by apply appended_ok].
  - set (w := MkWriter _ _). pose proof (run_ops_inv ops _ [] w Hops (header_failed_inv j sync)) as Hinv.
    destruct (crash_prefix _ _ _ k Hinv) as [_ Hpre].
    split; [done|]. split; [|split; [|done]].
    + intros Hshort. split_and!; [done|done|]. by apply short_header_lost.
    + intros Hlen. apply (journal_cut [] (appended ops)); auto using appended_ok; cbn [length]; lia.
Qed.

(** An order is appended and flushed; the disk fills up while a second one is
    appended. *)
Definition demo_entry : entry := (MkCommand 1 New Sell Limit 0 9 103 2, ([1; 2; 3; 4], [1; 2; 3; 4])).
Definition demo_ops : list JournalOp :=
  [AppendOp demo_entry.1 demo_entry.2.1 demo_entry.2.2 None None; FlushOp None;
   AppendOp (MkCommand 2 Cancel Buy Limit 0 9 0 0) [0; 0; 0; 0] [0; 0; 0; 1] (Some 20%nat) None].

Lemma demo_entry_ok : entry_ok demo_entry.
Proof. apply same_padding_ok; [|split; [done|]]; repeat constructor; vm_compute; congruence. Qed.

Lemma demo_ops_ok : Forall op_ok demo_ops.
Proof.
  apply Forall_cons_2; [exact (proj1 demo_entry_ok)|]. apply Forall_cons_2; [exact I|].
  apply Forall_singleton. split; [|split; split; [done| |done|]]; repeat constructor; vm_compute; congruence.
Qed.

(** The list of the commands delivered. *)
Definition collect_commands (l : list Command) (c : Command) : result (list Command) := Ok (l ++ [c]).

Lemma journal_crash_recovery_witness :
  exists w, make_writer None false true None None = Ok w /\
    replay_journal collect_commands (Some (crash_file (run_ops w demo_ops) 7)) [] =
      Ok ([demo_entry.1], MkReplay 1 64 false).
Proof.
  eexists. split; [reflexivity|].
  destruct (journal_crash_recovery None [] false true None None demo_ops 7) as (_ & _ & H & _);
    [right; split; [reflexivity|left; reflexivity]|constructor|exact demo_ops_ok|].
  destruct H as (_ & Hr & _); [apply Nat.leb_le; vm_compute; reflexivity|].
  rewrite (Hr _ collect_commands []). vm_compute. reflexivity.
Defined.

(** C24: Every single corrupted byte is detected: in the header it makes the
    replay throw; in a record the replay delivers exactly the records before
    it and reports that the end is not clean. *)
Theorem journal_detects_corruption (es : list entry) (i : nat) (old new : Z) (S : Type)
    (consumer : S -> Command -> result S) (s : S) :
  Forall entry_ok es -> journal_file es !! i = Some old -> is_u8 new -> new <> old ->
  let file := <[i := new]> (journal_file es) in
  let n := ((i - header_bytes) / record_size)%nat in
  replay_journal consumer (Some file) s =
  if (i <? header_bytes)%nat then Fail RuntimeError
  else (s ← feed consumer s (take n es).*1;
        Ok (s, MkReplay (u64 (Z.of_nat n)) (u64 (Z.of_nat (header_bytes + record_size * n))) false)).
Proof.
  intros Hes Hi Hnew Hne. cbv zeta. destruct (Nat.ltb_spec i header_bytes) as [Hlt|Hge].
  { unfold replay_journal. rewrite (header_corrupt es i old new) by done. by rewrite orb_true_r. }
  set (n := ((i - header_bytes) / record_size)%nat).
  pose proof (lookup_lt_Some _ _ _ Hi) as Hlt. rewrite journal_file_length in Hlt by by apply entry_ok_fits.
  pose proof (Nat.div_mod_eq (i - header_bytes) record_size) as Hd. fold n in Hd.
  pose proof (Nat.mod_upper_bound (i - header_bytes) record_size ltac:(done)) as Hm.
  set (j := ((i - header_bytes) mod record_size)%nat) in *.
  assert (Hn : (n < length es)%nat) by (unfold record_size in *; nia).
  destruct (lookup_lt_is_Some_2 es n Hn) as [e He].
  pose proof (take_drop_middle es n e He) as Hsplit.
  assert (Hte : Forall entry_ok (take n es)) by by apply Forall_take.
  assert (Htl : length (take n es) = n) by (rewrite length_take; lia).
  assert (Hee : entry_ok e) by exact (Forall_lookup_1 _ _ _ _ Hes He). pose proof (proj1 Hee) as Hef.
  assert (Hfile : journal_file es = journal_file (take n es) ++ record e ++ records (drop (Datatypes.S n) es)).
  { rewrite <- Hsplit at 1. unfold journal_file. by rewrite records_app, records_cons, <- app_assoc. }
  assert (Hij : i = (length (journal_file (take n es)) + j)%nat).
  { rewrite journal_file_length, Htl by by apply entry_ok_fits. lia. }
  rewrite Hfile, Hij in Hi |- *. rewrite lookup_app_r, Nat.add_comm, Nat.add_sub in Hi by lia.
  rewrite insert_app_r, insert_app_l by (rewrite record_length; done).
  rewrite lookup_app_l in Hi by (rewrite record_length; done).
  rewrite replay_file; [|done|right; exact (record_corrupt e j old new _ Hee Hi Hnew Hne)]. rewrite Htl.
  rewrite bool_decide_eq_false_2; [done|]. intros E%(f_equal length).
  rewrite length_app, length_insert, record_length in E by done. cbn in E. unfold record_size in E. lia.
Qed.

Lemma journal_detects_corruption_witness :
  replay_journal (fun (l : list Command) c => Ok (l ++ [c])) (Some (<[70%nat := 200]> (journal_file [demo_entry; demo_entry]))) [] =
  Ok ([demo_entry.1], MkReplay 1 64 false).
Proof.
  refine (journal_detects_corruption [demo_entry; demo_entry] 70 0 200 (list Command)
            (fun l c => Ok (l ++ [c])) [] _ _ _ _).
  - repeat constructor; apply demo_entry_ok.
  - reflexivity.
  - vm_compute. intuition discriminate.
  - discriminate.
Defined.

(** The checksum of a record is computed over the padding of the caller's
    command, and the record stores a copy of it: if the copy does not keep
    the padding, the replay drops the record, and what follows it, as
    corrupt. *)
Theorem padding_copy_loses_record (c : Command) (pad : list Z) (j : nat) (old new : Z) (S : Type)
    (consumer : S -> Command -> result S) (s : S) (later : list entry) :
  command_ok c -> pad_ok pad -> pad !! j = Some old -> is_u8 new -> new <> old ->
  replay_journal consumer
    (Some (file_header journal_magic record_size ++ journal_record c pad (<[j := new]> pad) ++ records later)) s =
  Ok (s, MkReplay 0 16 false).
Proof.
  intros Hc Hpad Hj Hnew Hne. pose proof Hpad as [Hlen Hb].
  pose proof (lookup_lt_Some _ _ _ Hj) as Hlt. rewrite Hlen in Hlt.
  assert (Ht : torn (journal_record c pad (<[j := new]> pad) ++ records later)).
  { unfold journal_record. rewrite (command_bytes_pad c pad j new) by done.
    rewrite <- (insert_app_l (command_bytes c pad)).
    - apply (record_corrupt (c, (pad, pad)) (12 + j) old new); [by apply same_padding_ok| |done|done].
      unfold record, journal_record. rewrite lookup_app_l.
      + by apply command_bytes_pad_lookup.
      + rewrite command_bytes_length by done. unfold command_size. lia.
    - rewrite command_bytes_length by done. unfold command_size. lia. }
  change (file_header journal_magic record_size ++ ?x) with (journal_file [] ++ x).
  rewrite (replay_file consumer [] _ s); [|constructor|by right].
  cbn [fmap list_fmap feed mbind result_bind length]. rewrite bool_decide_eq_false_2; [done|]. apply Ht.
Qed.

Lemma padding_copy_loses_record_witness :
  replay_journal (fun (l : list Command) c => Ok (l ++ [c]))
    (Some (file_header journal_magic record_size ++
           journal_record demo_entry.1 [1; 2; 3; 4] (<[2%nat := 0]> [1; 2; 3; 4]) ++ records [demo_entry])) [] =
  Ok ([], MkReplay 0 16 false).
Proof.
  apply (padding_copy_loses_record demo_entry.1 [1; 2; 3; 4] 2 3 0 (list Command)
           (fun l c => Ok (l ++ [c])) [] [demo_entry]).
  - apply demo_entry_ok.
  - apply demo_entry_ok.
  - reflexivity.
  - vm_compute. intuition discriminate.
  - discriminate.
Defined.

(** ** Snapshots *)

(** C15: Snapshot files round-trip: after any stream of commands, writing the
    book and reading the file back gives a book with the same resting orders
    and sequence number, and from then on both answer every further stream
    with the same events. *)
Theorem snapshot_file_round_trip (cfg : BookConfig) (past future : list Command) (fs : FileSystem)
    (path : string) (pads : nat -> list Z) :
  config_ok cfg -> Forall command_ok past -> quantities_u64 future ->
  Z.of_nat (length past) <= u64_max -> (forall i, length (pads i) = 7%nat) ->
  exists (b0 b b' b1 b2 : Engine) fs' events ev,
    make_book cfg = Ok b0 /\ process_all b0 past [] = Ok (b, events) /\
    write_snapshot fs path b pads NoFault = (fs', Ok ()) /\
    read_snapshot (fs' !! path) = Ok b' /\
    resting_orders b' = resting_orders b /\ last_sequence (stats b') = last_sequence (stats b) /\
    process_all b future [] = Ok (b1, ev) /\ process_all b' future [] = Ok (b2, ev) /\
    resting_orders b1 = resting_orders b2.
Proof.
  intros Hc Hpast Hfut Hlen Hp.
  assert (Hq : quantities_u64 past) by (eapply Forall_impl; [exact Hpast|intros c Hok; apply Hok]).
  destruct (run_models cfg past Hc Hq Hlen) as (b0 & b & sb & events & Hb0 & _ & Hpr & Hrun & Hm & Ht).
  destruct (snapshot_restores cfg past fs path pads b0 b sb events Hc Hpast Hp Hb0 Hrun Hm Ht)
    as (fs' & b' & sb' & Hw & Hr & Hb' & Hsame & Ho & Hs).
  destruct (same_future b b' sb sb' future (proj1 Hm) Hb' Hsame Hfut) as (b1 & b2 & ev & Hp1 & Hp2 & Hf).
  by exists b0, b, b', b1, b2, fs', events, ev.
Qed.

(** C36: The destination of a snapshot is replaced as a whole.  It succeeds
    exactly when the temporary file could be created, both writes and the flush
    reached it, and it could be renamed; then the destination holds the
    complete snapshot and the temporary file is gone.  If any of them fails,
    the exception leaves the destination as it was.  No other file changes. *)
Theorem snapshot_destination_safe (cfg : BookConfig) (b : Engine) (fs : FileSystem) (path : string)
    (pads : nat -> list Z) (f : SnapshotFaults) : reachable cfg b ->
  exists orders fs' r, resting_orders b = Ok orders /\ write_snapshot fs path b pads f = (fs', r) /\
    (forall other, other <> path -> other <> temporary path -> fs' !! other = fs !! other) /\
    (r = Ok () <-> snapshot_clean f orders) /\
    (r = Ok () -> fs' !! path = Some (snapshot_content b orders pads) /\ fs' !! temporary path = None) /\
    (r <> Ok () -> r = Fail RuntimeError /\ fs' !! path = fs !! path).
Proof.
  intros (sb & Hm)%reachable_models. destruct (models_orders _ _ _ Hm) as (orders & Ho & _).
  pose proof (temporary_ne path) as Hne. exists orders.
  destruct (write_snapshot_cases fs path b pads f orders Ho) as [[Hc ->]|[Hc (touched & ->)]];
    eexists _, _; (split; [done|]); (split; [reflexivity|]).
  - split_and!; [|done| |done].
    + intros other H1 H2. by rewrite rename_other, lookup_insert_ne.
    + intros _. split; [apply rename_here, lookup_insert_eq|]. apply rename_gone; [|done].
      rewrite lookup_insert_eq. by eexists.
  - split_and!; [|done|done|].
    + intros other H1 H2. by rewrite lookup_partial_alter_ne.
    + intros _. split; [done|]. by rewrite lookup_partial_alter_ne.
Qed.

(** C37: A damaged snapshot is refused: a file cut anywhere short of its end, or
    with one byte of its orders changed, makes [read_snapshot] throw. *)
Theorem snapshot_rejects_damage (cfg : BookConfig) (b : Engine) (pads : nat -> list Z) :
  reachable cfg b -> (forall i, length (pads i) = 7%nat /\ bytes_ok (pads i)) ->
  exists orders, resting_orders b = Ok orders /\
  let file := snapshot_content b orders pads in
  (forall k, (k < length file)%nat -> read_snapshot (Some (take k file)) = Fail RuntimeError) /\
  (forall i old new, (snapshot_header_bytes <= i)%nat -> file !! i = Some old -> is_u8 new -> new <> old ->
     read_snapshot (Some (<[i := new]> file)) = Fail RuntimeError).
Proof.
  intros (sb & Hm)%reachable_models Hp. destruct (models_orders _ _ _ Hm) as (orders & Ho & _ & Hperm).
  destruct Hm as ([G HG] & Hi & Hcf). pose proof (rp_spec _ _ _ HG) as E.
  assert (Hc : config_ok (config b)) by (rewrite E in Hi; apply Hi).
  assert (Hl : Z.of_nat (length orders) <= maximum_orders (config b)).
  { rewrite Hperm. replace (config b) with (sb_config sb) by by rewrite E. apply Hi. }
  assert (Hp7 : forall i, length (pads i) = 7%nat) by apply Hp.
  exists orders. split; [done|]. cbv zeta. rewrite snapshot_content_length by done. split.
  - intros k Hk. by apply snapshot_truncated.
  - intros i old new H1 H2 H3 H4. eapply snapshot_corrupt_body; eauto. apply orders_bytes_ok, Hp.
Qed.

(** Witnesses on the demonstration book. *)
Definition zero_pads (i : nat) : list Z := replicate 7 0.

Lemma demo_commands_fit : Forall command_ok demo_commands.
Proof. unfold demo_commands. repeat constructor; vm_compute; congruence. Qed.

Lemma snapshot_file_round_trip_witness :
  exists (b0 b b' b1 b2 : Engine) fs' events ev,
    make_book demo_config = Ok b0 /\ process_all b0 demo_commands [] = Ok (b, events) /\
    write_snapshot ∅ "book.snap" b zero_pads NoFault = (fs', Ok ()) /\
    read_snapshot (fs' !! "book.snap"%string) = Ok b' /\
    resting_orders b' = resting_orders b /\ last_sequence (stats b') = last_sequence (stats b) /\
    process_all b [MkCommand 5 New Sell Market 0 7 0 2] [] = Ok (b1, ev) /\
    process_all b' [MkCommand 5 New Sell Market 0 7 0 2] [] = Ok (b2, ev) /\
    resting_orders b1 = resting_orders b2.
Proof.
  apply (snapshot_file_round_trip demo_config demo_commands [MkCommand 5 New Sell Market 0 7 0 2]
           ∅ "book.snap" zero_pads).
  - exact demo_config_ok.
  - exact demo_commands_fit.
  - repeat constructor; vm_compute; congruence.
  - vm_compute. discriminate.
  - reflexivity.
Defined.

(** The disk fills up while the orders are written. *)
Definition full_disk : SnapshotFaults := MkSnapshotFaults true None (Some 100%nat) None [] true.

Lemma snapshot_destination_safe_witness :
  exists orders fs' r, resting_orders demo_book = Ok orders /\
    write_snapshot {["book.snap"%string := [1; 2]]} "book.snap" demo_book zero_pads full_disk = (fs', r) /\
    (forall other, other <> "book.snap"%string -> other <> temporary "book.snap" ->
       fs' !! other = ({["book.snap"%string := [1; 2]]} : FileSystem) !! other) /\
    (r = Ok () <-> snapshot_clean full_disk orders) /\
    (r = Ok () -> fs' !! "book.snap"%string = Some (snapshot_content demo_book orders zero_pads) /\
       fs' !! temporary "book.snap" = None) /\
    (r <> Ok () -> r = Fail RuntimeError /\
     fs' !! "book.snap"%string = ({["book.snap"%string := [1; 2]]} : FileSystem) !! "book.snap"%string).
Proof.
  exact (snapshot_destination_safe demo_config demo_book {["book.snap"%string := [1; 2]]} "book.snap"
           zero_pads full_disk demo_reachable).
Defined.

Lemma snapshot_rejects_damage_witness :
  exists orders, resting_orders demo_book = Ok orders /\
  let file := snapshot_content demo_book orders zero_pads in
  (forall k, (k < length file)%nat -> read_snapshot (Some (take k file)) = Fail RuntimeError) /\
  (forall i old new, (snapshot_header_bytes <= i)%nat -> file !! i = Some old -> is_u8 new -> new <> old ->
     read_snapshot (Some (<[i := new]> file)) = Fail RuntimeError).
Proof.
  apply (snapshot_rejects_damage demo_config demo_book zero_pads).
  - exact demo_reachable.
  - intros i. split; [reflexivity|]. repeat constructor; vm_compute; congruence.
Defined.

(** The snapshot file of the demonstration book, and its copy in which the low
    byte of the stored sequence number was changed. *)
Definition demo_snapshot : list Z :=
  match resting_orders demo_book with
  | Ok orders => snapshot_content demo_book orders zero_pads
  | Fail _ => []
  end.
Definition damaged_snapshot : list Z := <[48%nat := 200]> demo_snapshot.

(** The header of a snapshot is not covered by the checksum: with the
    stored sequence number damaged the file is still accepted, and the
    restored book expects another sequence number than the one written. *)
Theorem snapshot_header_unprotected :
  match read_snapshot (Some demo_snapshot), read_snapshot (Some damaged_snapshot) with
  | Ok b, Ok b' =>
    last_sequence (stats b) = last_sequence (stats demo_book) /\
    last_sequence (stats b') = 200 /\ last_sequence (stats b') <> last_sequence (stats demo_book) /\
    resting_orders b' = resting_orders b
  | _, _ => False
  end.
Proof. vm_compute. intuition discriminate. Qed.

(** ** Replay *)

Lemma replay_config_ok : config_ok replay_config.
Proof. constructor; vm_compute; intuition discriminate. Qed.

(** C25: The replay tool on a journal cut at any byte: it always terminates
    with an exit status; the whole records, and nothing else, are fed to a
    fresh book, which ends as the specified book of exactly these commands,
    with exact counts; and the status is 0 exactly when the header is whole,
    no torn record follows and the specification rejects none of the commands.
    Without a file it exits with 1, with another number of arguments with 2. *)
Theorem replay_tool_correct (es : list entry) (k : nat) (files : FileSystem) (program path : string) :
  Forall entry_ok es -> (k <= length (journal_file es))%nat ->
  files !! path = Some (take k (journal_file es)) ->
  let n := ((k - header_bytes) / record_size)%nat in
  let sb := (spec_run machine_fill (empty_spec replay_config) (take n es).*1).1 in
  (exists status, replay_main files [program; path] = Ok status /\ (status = 0 \/ status = 1) /\
    (status = 0 <-> (header_bytes <= k)%nat /\ k = (header_bytes + record_size * n)%nat /\
                    rejected (sb_stats sb) = 0)) /\
  ((header_bytes <= k)%nat -> exists (b0 b : Engine),
    make_book replay_config = Ok b0 /\
    replay_journal replay_consumer (Some (take k (journal_file es))) b0 =
      Ok (b, MkReplay (u64 (Z.of_nat n)) (u64 (Z.of_nat (header_bytes + record_size * n)))
               (k =? header_bytes + record_size * n)%nat) /\
    refines b sb) /\
  (forall missing, files !! missing = None -> replay_main files [program; missing] = Ok 1) /\
  (forall argv, length argv <> 2%nat -> replay_main files argv = Ok 2).
Proof.
  intros Hes Hk Hfile n sb. destruct (make_book_ok (I := FixedOrderIndex) replay_config replay_config_ok) as (b0 & Hb0 & H0).
  unfold replay_main. rewrite Hfile. apply Logic.and_assoc. split; cycle 1.
  { split; [intros missing ->; unfold replay_tool; by rewrite Hb0|]. by intros [|? [|? [|? ?]]]. }
  unfold replay_tool. rewrite Hb0. cbn [mbind result_bind].
  destruct (Nat.ltb_spec k header_bytes) as [Hlt|Hge].
  { split; [|lia]. rewrite replay_no_header by (rewrite length_take; lia). exists 1. split; [done|].
    split; [by right|]. split; [done|]. intros [? _]. lia. }
  rewrite journal_file_length in Hk by by apply entry_ok_fits.
  destruct (replay_cut replay_config b0 es k H0 Hes) as (b & Hr & Hb); [lia|]. fold n in Hb, Hr. fold sb in Hb.
  split; [|intros _; by exists b0, b]. rewrite Hr. destruct Hb as [G Hb].
  pose proof (f_equal sb_stats (rp_spec _ _ _ Hb)) as Hst. cbn in Hst. rewrite Hst.
  unfold replay_status. cbn [rr_clean_end].
  destruct (Nat.eqb_spec k (header_bytes + record_size * n)) as [E|E], (Z.eqb_spec (rejected (stats b)) 0) as [R|R];
    cbn [andb]; eexists; (split; [reflexivity|]); (split; [by (left + right)|]); (split; [intros|intros (?&?&?)]); done.
Qed.

Lemma replay_tool_correct_witness :
  let files : FileSystem := {["a.journal" := take 100 (journal_file [demo_entry; demo_entry])]} in
  let n := ((100 - header_bytes) / record_size)%nat in
  let sb := (spec_run machine_fill (empty_spec replay_config) (take n [demo_entry; demo_entry]).*1).1 in
  (exists status, replay_main files ["dme_replay"; "a.journal"]%string = Ok status /\
    (status = 0 \/ status = 1) /\
    (status = 0 <-> (header_bytes <= 100)%nat /\ 100%nat = (header_bytes + record_size * n)%nat /\
                    rejected (sb_stats sb) = 0)) /\
  replay_main files ["dme_replay"]%string = Ok 2.
Proof.
  intros files n sb.
  destruct (replay_tool_correct [demo_entry; demo_entry] 100 files "dme_replay" "a.journal") as (H & _ & _ & H2).
  - repeat constructor; apply demo_entry_ok.
  - rewrite journal_file_length by (repeat constructor; apply demo_entry_ok).
    unfold header_bytes, record_size. cbn [length]. lia.
  - apply lookup_singleton_eq.
  - split; [exact H|]. by apply H2.
Defined.
