(* ===== verification/RecoveryTheorems.v ===== *)
(** * RecoveryTheorems: a running engine, its journal and its snapshots together

    What survives of an engine loop when its process dies, and the recovery
    procedure of docs/DESIGN.md: load a snapshot, replay the journal records
    that are newer, resume. *)
From Stdlib Require Import ZArith Lia.
From stdpp Require Import base numbers gmap strings list.
From S2P Require Import Prelude Types OrderIndex FixedHash OrderBook BookSpec SpecFacts BookRefine.
From S2P Require Import SpecStep SpecInv BookSnapshot BookRun Engine Bytes Spsc Runner.
From S2P Require Import Journal JournalFacts JournalWriting SnapshotFacts DurableRunner.
Local Open Scope Z_scope.

(** ** A loop with its journal *)

(** What replay rebuilds from a cut of a journal. *)
Lemma rebuilds cfg (old new : list entry) file (b0 : Engine) :
  let all := old ++ new in
  let n := intact_count (take ((length file - header_bytes) / record_size) all) in
  Forall entry_ok old -> Forall entry_fits new -> file `prefix_of` journal_file all ->
  (header_bytes + record_size * length old <= length file)%nat -> refines b0 (empty_spec cfg) ->
  (length old <= n <= length all)%nat /\
  exists b' rr, replay_journal replay_consumer (Some file) b0 = Ok (b', rr) /\
    refines b' (spec_run machine_fill (empty_spec cfg) (take n all.*1)).1.
Proof.
  intros all n Hold Hnew Hpre Hlow Hb0.
  destruct (journal_cut old new file Hold Hnew Hpre Hlow) as (Hn & Hrep & _ & Hok). fold all n in Hn, Hrep, Hok.
  split; [done|]. destruct (feed_replay (take n all).*1 b0 (empty_spec cfg) Hb0) as (b' & Hfeed & Hb').
  { apply Forall_fmap. eapply Forall_impl; [exact Hok|]. intros e He. apply He. }
  eexists b', _. split; [rewrite Hrep, Hfeed; reflexivity|]. by rewrite <- fmap_take.
Qed.

(** Every whole record counts when the copies keep the padding. *)
Lemma all_intact (copies : list Z -> list Z -> Prop) (old new : list entry) m :
  (forall pad pad', copies pad pad' -> pad' = pad) -> Forall entry_ok old ->
  Forall (fun e : entry => copies e.2.1 e.2.2) new -> (m <= length (old ++ new))%nat ->
  intact_count (take m (old ++ new)) = m.
Proof.
  intros Hc Hold Hnew Hm. rewrite intact_count_all; [rewrite length_take; lia|]. apply Forall_take, Forall_app. split.
  - eapply Forall_impl; [exact Hold|]. by intros e [].
  - eapply Forall_impl; [exact Hnew|]. intros e He. unfold intact. by rewrite (Hc _ _ He).
Qed.

(** Replaying [file] rebuilds the book of a prefix of the history that includes
    the first [least] commands; at most one command of the file is not in the
    history, and only if the loop was left by an exception; [kept] makes the
    prefix include the whole history. *)
Definition recovered (cfg : BookConfig) (file : list Z) (least : nat) (history : list Command)
    (thrown : bool) (kept : Prop) : Prop :=
  exists b0 b' n extra rr,
    make_book cfg = Ok b0 /\ replay_journal replay_consumer (Some file) b0 = Ok (b', rr) /\
    refines b' (spec_run machine_fill (empty_spec cfg) (take n (history ++ extra))).1 /\
    (least <= n <= length (history ++ extra))%nat /\
    (length extra <= 1)%nat /\ (thrown = false -> extra = []) /\ (kept -> (length history <= n)%nat).

Lemma cut_recovered copies cfg (old new : list entry) file history extra thrown (kept : Prop) :
  config_ok cfg -> Forall entry_ok old -> Forall entry_fits new ->
  Forall (fun e : entry => copies e.2.1 e.2.2) new -> (old ++ new).*1 = history ++ extra ->
  (length extra <= 1)%nat -> (thrown = false -> extra = []) ->
  file `prefix_of` journal_file (old ++ new) -> (header_bytes + record_size * length old <= length file)%nat ->
  (kept -> (length history <= (length file - header_bytes) / record_size)%nat) ->
  recovered cfg file (length old) history thrown
    (kept /\ forall pad pad', copies pad pad' -> pad' = pad).
Proof.
  intros Hcfg Hold Hnew Hcp Hcmds Hlen Hex Hpre Hlow Hkept.
  destruct (make_book_ok (I := FixedOrderIndex) cfg Hcfg) as (b0 & Hb0 & Hr0).
  destruct (rebuilds cfg old new file b0 Hold Hnew Hpre Hlow Hr0) as (Hn & b' & rr & Hrep & Hb').
  rewrite Hcmds in Hb'. apply (f_equal length) in Hcmds as Hl. rewrite length_fmap in Hl. rewrite Hl in Hn.
  eexists b0, b', _, extra, rr. split_and!; [done|done|exact Hb'|apply Hn|apply Hn|done|done|].
  intros [Hk Hc]. rewrite (all_intact copies); [by apply Hkept|done|done|done|].
  destruct (prefix_split (old ++ new) file) as (_ & Hw & _); [|done|lia|done].
  apply Forall_app. split; [by apply entry_ok_fits|done].
Qed.

(** C9: An engine loop with a journal file, started on the book recovered from
    the records in the file, with any producer and consumer, any faults of the
    file system from the header on, any padding in the stored copies, and the
    end of the process at any moment.  If the file is left without a whole
    header, no command was processed and replay throws.  Otherwise replaying
    it rebuilds the specified book of a prefix of the command history, no
    shorter than what was in the file at the start; at most one command in the
    file was not processed, and only when its append threw.  What was
    published is a prefix of what the specification owes for the commands
    processed.  With a synchronous journal whose flushes do not fail, and
    copies that keep the padding, the rebuilt book has processed every command
    the loop has processed, so it covers every response published. *)
Theorem durable_engine_recovery {Req Resp : Type} (command_of : Z -> Req -> Command)
    (respond : Req -> Event -> Resp) (allowed : fault -> Prop) (copies : list Z -> list Z -> Prop)
    (cfg : BookConfig) (b : Engine) (iq : SpscQueue Req) (oq : SpscQueue Resp) (existing : option (list Z))
    (old : list entry) (sync opens : bool) (f g : fault) (w : JournalWriter) (d : Durable) (k : nat) :
  let sb := (spec_run machine_fill (empty_spec cfg) old.*1).1 in
  let next := u64 (last_sequence (stats b) + 1) in
  config_ok cfg -> models cfg b sb -> holds iq [] -> holds oq [] ->
  journal_at existing old -> Forall entry_ok old ->
  make_writer existing sync opens f g = Ok w ->
  druns command_of respond allowed copies (MkDurable (start b iq oq (Some [])) w false) d ->
  let file := crash_file (d_writer d) k in
  let history := old.*1 ++ numbered command_of next (received (d_world d)) in
  (exists rest, owed command_of respond sb next (received (d_world d)) = published (d_world d) ++ rest) /\
  ((length file < header_bytes)%nat -> history = [] /\ header_lost file) /\
  ((header_bytes <= length file)%nat ->
   recovered cfg file (length old) history (d_thrown d)
     ((sync = true /\ forall g, allowed g -> g = None) /\ forall pad pad', copies pad pad' -> pad' = pad)).
Proof.
  intros sb next Hcfg Hm Hiq Hoq Hat Hold Hw Hrun file history.
  assert (H0 : durable_inv command_of respond copies cfg sb next w (MkDurable (start b iq oq (Some [])) w false) [] []).
  { constructor; cbn [d_world d_writer d_thrown]; [|done|constructor|constructor|done|split; [cbn; lia|done]].
    eexists _, _, _. by apply start_inv. }
  destruct (druns_inv _ _ _ _ _ _ _ _ _ _ H0 Hrun)
    as (ops & extra & [(ins & outs & sb' & Hinv) Hjw Hops Hcp Hcm [Hlen Hex]]).
  split. { destruct (wi_published _ _ _ _ _ _ _ _ _ _ Hinv) as (dr & Hp & _). by eexists. }
  pose proof (appended_ok ops Hops) as Hnew.
  assert (Hcmds : (old ++ appended ops).*1 = history ++ extra) by (unfold history; by rewrite fmap_app, Hcm, app_assoc).
  destruct (make_writer_total existing old sync opens f g Hat) as [[Hw' _]|[Hw'|(j & -> & -> & Hw')]];
    rewrite Hw in Hw'; [done|injection Hw' as ->..].
  - pose proof (run_ops_inv ops _ old _ Hops (opened_inv old sync)) as Hwi. rewrite <- Hjw in Hwi.
    destruct (crash_prefix _ _ _ k Hwi) as [Hlow Hpre]. apply prefix_length in Hlow.
    rewrite journal_file_length in Hlow by by apply entry_ok_fits. fold file in Hlow, Hpre.
    split; [lia|]. intros _. eapply cut_recovered; try done. intros [-> Hnof].
    destruct (druns_durable command_of respond allowed copies cfg sb next _ old _ d Hnof Hold eq_refl H0 eq_refl Hrun)
      as [_ Hfile].
    unfold history. rewrite length_app, length_fmap, numbered_length.
    apply Nat.div_le_lower_bound; [done|]. unfold file, crash_file. rewrite length_app. lia.
  - pose proof (run_ops_inv ops _ [] _ Hops (header_failed_inv j sync)) as Hwi. rewrite <- Hjw in Hwi.
    destruct (crash_prefix _ _ _ k Hwi) as [_ Hpre].
    assert (Hrec : received (d_world d) = []) by (eapply failed_writer_stops; [| |exact Hrun]; done).
    assert (Hempty : history = []) by (unfold history; by rewrite Hrec).
    split; [intros Hs; split; [done|by apply short_header_lost]|].
    intros Hlong. eapply cut_recovered; try done; rewrite ?Hempty; cbn [length]; lia.
Qed.

(** One request through a loop with a synchronous journal. *)
Definition demo_request : GatewayRequest :=
  MkGatewayRequest 7 1 (MkCommand 0 New Sell Limit 0 42 100 5).
Definition demo_input : SpscQueue GatewayRequest := MkQueue [demo_request; demo_request] 1 0 0.
Definition demo_output : SpscQueue GatewayResponse :=
  MkQueue (replicate 2 (MkGatewayResponse 0 0 Event_zero)) 1 0 0.

Lemma append_clean fl bu c pad :
  append (MkWriter (MkStream fl bu true) true) c pad pad None None =
    (MkWriter (MkStream (fl ++ (bu ++ journal_record c pad pad)) [] true) true, Ok ()).
Proof. unfold append. set (r := journal_record c pad pad). clearbody r. reflexivity. Qed.

Lemma demo_durable_run (b : Engine) w : models demo_config b (empty_spec demo_config) ->
  last_sequence (stats b) = 0 ->
  make_writer None true true None None = Ok w ->
  exists d, druns gateway_admit gateway_respond (fun g => g = None) (fun pad pad' => pad' = pad)
      (MkDurable (start b demo_input demo_output (Some [])) w false) d /\
    received (d_world d) = [demo_request] /\ d_thrown d = false.
Proof.
  intros Hm Hs Hw. rewrite (make_writer_ok None [] true) in Hw by (right; split; [done|by left]).
  injection Hw as <-.
  destruct (handle_ok gateway_admit demo_config (make_runner b demo_input demo_output (Some [])) (empty_spec demo_config)
    (MkQueue [demo_request; demo_request] 1 1 1) demo_request Hm) as (b' & sb' & ev & _ & _ & Hh).
  { intros n. vm_compute. intuition discriminate. }
  eexists. split; [|split].
  - eapply druns_step; [eapply druns_step; [apply druns_start|]|].
    + eapply d_other; [eapply (env_push gateway_admit gateway_respond _ demo_input _ _ _ _ _ _ _ demo_request);
        [intros n; vm_compute; intuition discriminate|reflexivity]|reflexivity|by intros [_ ?]].
    + eapply (d_pop gateway_admit gateway_respond _ _ _ _ _ _ demo_request _ [0; 0; 0; 0] [0; 0; 0; 0] None None);
        [reflexivity|reflexivity| |reflexivity|reflexivity|apply append_clean|].
      * cbn [r_next]. rewrite Hs. split; [constructor; vm_compute; intuition discriminate|].
        split; split; [reflexivity| |reflexivity|]; repeat constructor; vm_compute; discriminate.
      * exact Hh.
  - reflexivity.
  - reflexivity.
Qed.

Lemma durable_engine_recovery_witness :
  exists (d : @Durable GatewayRequest GatewayResponse) b0 b' rr, received (d_world d) = [demo_request] /\
    make_book demo_config = Ok b0 /\
    replay_journal replay_consumer (Some (crash_file (d_writer d) 0)) b0 = Ok (b', rr) /\
    refines b' (spec_run machine_fill (empty_spec demo_config)
                  (numbered gateway_admit 1 [demo_request])).1.
Proof.
  destruct (make_book_ok (I := FixedOrderIndex) demo_config demo_config_ok) as (b & Hb & _).
  pose proof (make_models demo_config b demo_config_ok Hb) as Hm.
  assert (Hs : last_sequence (stats b) = 0).
  { pose proof (eq_refl : make_book (I := FixedOrderIndex) demo_config = make_book demo_config) as E.
    rewrite Hb in E at 1. vm_compute in E. injection E as ->. reflexivity. }
  assert (Hat : journal_at None []) by (right; split; [reflexivity|left; reflexivity]).
  pose proof (make_writer_ok None [] true Hat) as Hw.
  destruct (demo_durable_run b _ Hm Hs Hw) as (d & Hrun & Hrec & Hthr).
  destruct (durable_engine_recovery gateway_admit gateway_respond (fun g => g = None) (fun pad pad' => pad' = pad)
    demo_config b demo_input demo_output None [] true true None None _ d 0 demo_config_ok Hm
    ltac:(apply (empty_ring_holds (buffer demo_input) 1); [lia|reflexivity])
    ltac:(apply (empty_ring_holds (buffer demo_output) 1); [lia|reflexivity])
    Hat (Forall_nil_2 _) Hw Hrun) as (_ & Hshort & Hlong).
  destruct (Nat.lt_ge_cases (length (crash_file (d_writer d) 0)) header_bytes) as [Hlt|Hge].
  { destruct (Hshort Hlt) as [Hh _]. rewrite Hrec in Hh. discriminate Hh. }
  destruct (Hlong Hge) as (b0 & b' & n & extra & rr & Hb0 & Hrep & Href & _ & _ & Hex & Hdur).
  exists d, b0, b', rr. split; [exact Hrec|]. split; [exact Hb0|]. split; [exact Hrep|].
  rewrite (Hex Hthr), app_nil_r, Hrec, Hs in Href. rewrite Hrec, Hs in Hdur.
  rewrite take_ge in Href by exact (Hdur (conj (conj eq_refl (fun g H => H)) (fun _ _ H => H))). exact Href.
Defined.

(** A synchronous [append] whose flush fails returns normally: the caller goes
    on with a record that is not in the file.  Only the next use of the
    journal throws. *)
Theorem failed_flush_unreported (es : list entry) (c : Command) (pad pad' : list Z) :
  Forall entry_ok es ->
  exists w w' w2 e,
    make_writer (Some (journal_file es)) true true None None = Ok w /\
    append w c pad pad' None (Some 0%nat) = (w', Ok ()) /\
    (forall k, crash_file w' k = journal_file es) /\
    append w' c pad pad' None None = (w2, Fail e).
Proof.
  intros Hes. set (record := journal_record c pad pad').
  set (w' := MkWriter (MkStream (journal_file es ++ []) record false) true).
  eexists _, w', w', RuntimeError. subst w'.
  split; [apply make_writer_ok; by left|]. unfold append. fold record. clearbody record.
  set (jf := journal_file es). clearbody jf. split; [reflexivity|]. split; [|reflexivity].
  intros k. unfold crash_file. cbn. by rewrite !app_nil_r.
Qed.

(** ** Snapshot and journal *)

Lemma refines_stats (b : Engine) sb : refines b sb -> stats b = sb_stats sb.
Proof. intros [G HG]. by rewrite (rp_spec _ _ _ HG). Qed.

Lemma spec_run_app fill sb cs cs' : spec_run fill sb (cs ++ cs') =
  let '(sb1, ev1) := spec_run fill sb cs in
  let '(sb2, ev2) := spec_run fill sb1 cs' in (sb2, ev1 ++ ev2).
Proof.
  revert sb. induction cs as [|c cs IH]; intros sb; cbn [app spec_run].
  { by destruct (spec_run fill sb cs'). }
  destruct (spec_process fill sb c) as [sb1 ev1]. rewrite IH.
  destruct (spec_run fill sb1 cs) as [sb2 ev2], (spec_run fill sb2 cs') as [sb3 ev3]. by rewrite app_assoc.
Qed.

Lemma take_max_split {A} (i n : nat) (l : list A) : take (Nat.max i n) l = take i l ++ drop i (take n l).
Proof.
  destruct (Nat.le_ge_cases i n).
  - rewrite Nat.max_r by done. rewrite <- (take_drop i (take n l)) at 1. by rewrite take_take, Nat.min_l.
  - rewrite Nat.max_l by done. rewrite drop_ge, app_nil_r; [done|]. rewrite length_take. lia.
Qed.

Lemma numbered_take next rs n : numbered gateway_admit next (take n rs) = take n (numbered gateway_admit next rs).
Proof.
  revert next n. induction rs as [|r rs IH]; intros next [|n]; cbn; [done..|]. by rewrite IH.
Qed.

Lemma numbered_sequence sb next rs : next = u64 (last_sequence (sb_stats sb) + 1) ->
  0 <= last_sequence (sb_stats sb) -> last_sequence (sb_stats sb) + Z.of_nat (length rs) <= u64_max ->
  last_sequence (sb_stats (spec_run machine_fill sb (numbered gateway_admit next rs)).1) =
    last_sequence (sb_stats sb) + Z.of_nat (length rs).
Proof.
  revert sb next. induction rs as [|r rs IH]; intros sb next Hn Hp Hm; cbn [numbered spec_run length] in *; [cbn; lia|].
  destruct (spec_process machine_fill sb (gateway_admit next r)) as [sb1 ev] eqn:E.
  destruct (spec_process_in_sequence _ _ _ _ _ (Hn : c_sequence (gateway_admit next r) = _) E) as [Hl _].
  cbn in Hl. rewrite u64_small in Hn by intlia.
  specialize (IH sb1 (u64 (next + 1))). destruct (spec_run machine_fill sb1 _) as [sb2 ev2]. cbn in *.
  rewrite IH; [lia|by rewrite Hl|lia|lia].
Qed.

Lemma numbered_prefix_sequence cfg reqs (m : nat) : Z.of_nat (length reqs) < u64_max -> (m <= length reqs)%nat ->
  last_sequence (sb_stats (spec_run machine_fill (empty_spec cfg) (take m (numbered gateway_admit 1 reqs))).1) =
    Z.of_nat m.
Proof.
  intros Hlen Hm. rewrite <- numbered_take, numbered_sequence by (cbn; rewrite ?length_take; done || lia).
  change (last_sequence _) with 0. rewrite length_take. lia.
Qed.

(** What an application passes to [replay_journal] when it recovers a book:
    every record newer than the book is processed; an older one is skipped, or
    processed too, which the book refuses as a sequence gap. *)
Definition recovers (consumer : Engine -> Command -> result Engine) : Prop :=
  forall b c, consumer b c = replay_consumer b c \/
    (c_sequence c <= last_sequence (stats b) /\ consumer b c = Ok b).

Lemma spec_gap sb c : c_sequence c <> u64 (last_sequence (sb_stats sb) + 1) ->
  same_book sb (spec_process machine_fill sb c).1.
Proof. intros H. unfold spec_process. rewrite (proj2 (Z.eqb_neq _ _) H). by split. Qed.

Lemma feed_recovers consumer rs next (b : Engine) sb :
  let s := last_sequence (sb_stats sb) in let cs := numbered gateway_admit next rs in
  recovers consumer -> refines b sb -> quantities_u64 cs ->
  0 <= next <= s + 1 -> s < u64_max -> next + Z.of_nat (length rs) <= u64_max ->
  exists b' sb', feed consumer b cs = Ok b' /\ refines b' sb' /\
    same_book (spec_run machine_fill sb (drop (Z.to_nat (s - next + 1)) cs)).1 sb'.
Proof.
  intros s cs Hrec. revert next b sb s cs. induction rs as [|r rs IH]; intros next b sb s cs Hb Hq Hn Hs Hm.
  { exists b, sb. unfold cs. cbn [numbered]. by rewrite drop_nil. }
  unfold cs in *. cbn [numbered] in *. set (c := gateway_admit next r) in *.
  apply Forall_cons in Hq as [Hqc Hq]. cbn [length] in Hm. rewrite (u64_small (next + 1)) in * by intlia.
  assert (Hst : last_sequence (stats b) = s) by by rewrite (refines_stats _ _ Hb).
  destruct (process_ok b sb c [] Hb Hqc) as (b1 & Hp & H1).
  assert (Hr : replay_consumer b c = Ok b1) by (unfold replay_consumer; by rewrite Hp).
  destruct (decide (next = s + 1)) as [->|Hne].
  - assert (Hc : consumer b c = Ok b1) by (destruct (Hrec b c) as [->|[Hle _]]; [done|cbn in Hle; lia]).
    destruct (spec_process machine_fill sb c) as [sb1 ev] eqn:Esp.
    destruct (spec_process_in_sequence _ _ _ _ _ (eq_sym (u64_small (s + 1) ltac:(intlia)) : c_sequence c = _) Esp) as [Hl _].
    cbn in Hl, H1. destruct (IH (s + 1 + 1) b1 sb1 H1 Hq ltac:(lia) ltac:(lia) ltac:(lia)) as (b' & sb' & Hf & Hb' & Hsame).
    exists b', sb'. cbn [feed]. rewrite Hc. cbn [mbind result_bind]. split_and!; [done|done|].
    replace (Z.to_nat (s - (s + 1) + 1)) with 0%nat by lia. rewrite Hl in Hsame.
    replace (Z.to_nat (s + 1 - (s + 1 + 1) + 1)) with 0%nat in Hsame by lia. rewrite !drop_0 in *. cbn [spec_run].
    rewrite Esp. by destruct (spec_run machine_fill sb1 _).
  - assert (Hold : exists b2 sb2, consumer b c = Ok b2 /\ refines b2 sb2 /\ same_book sb sb2).
    { destruct (Hrec b c) as [->|[_ ->]]; [|by exists b, sb]. eexists b1, _. split; [done|]. split; [exact H1|].
      apply spec_gap. fold s. rewrite u64_small by intlia. cbn. lia. }
    destruct Hold as (b2 & sb2 & Hc & Hb2 & Hsame2). pose proof (sm_sequence _ _ Hsame2) as Hseq. fold s in Hseq.
    destruct (IH (next + 1) b2 sb2 Hb2 Hq) as (b' & sb' & Hf & Hb' & Hsame); [lia..|].
    exists b', sb'. cbn [feed]. rewrite Hc. cbn [mbind result_bind]. split_and!; [done|done|]. rewrite <- Hseq in Hsame.
    replace (Z.to_nat (s - next + 1)) with (Datatypes.S (Z.to_nat (s - (next + 1) + 1))) by lia. cbn [drop].
    etrans; [|exact Hsame]. apply (spec_run_proper machine_fill _ _ _ Hsame2).
Qed.

(** The run of the longer prefix continues the one the snapshot was taken of. *)
Lemma longer_prefix cfg history (i n : nat) sbi sbr sb evi ev :
  spec_run machine_fill (empty_spec cfg) (take i history) = (sbi, evi) ->
  spec_run machine_fill (empty_spec cfg) (take (Nat.max i n) history) = (sb, ev) -> same_book sbi sbr ->
  same_book sb (spec_run machine_fill sbr (drop i (take n history))).1 /\
  sb = (spec_run machine_fill (empty_spec cfg) (take (Nat.max i n) history)).1.
Proof.
  intros Hi Hmax Hsame. split; [|by rewrite Hmax]. rewrite take_max_split, spec_run_app, Hi in Hmax.
  pose proof (spec_run_proper machine_fill (drop i (take n history)) _ _ Hsame) as [Hsm _]. cbn [fst] in Hsm.
  destruct (spec_run machine_fill sbi (drop i (take n history))). by injection Hmax as <- _.
Qed.

(** C21: Recovery from a snapshot and a journal.  The gateway's engine writes a
    snapshot after its first [i] commands and journals all of them, and the
    journal is cut at any byte.  A cut inside the header makes replay throw.
    After any other, restoring the snapshot and replaying the journal, with a
    consumer that processes the newer records and skips or processes the older
    ones, gives a book with the resting orders and the sequence number of an
    engine that processed the longer of the two prefixes, and with the same
    answers to every further stream. *)
Theorem recovery_procedure_correct (cfg : BookConfig) (reqs : list GatewayRequest) (es : list entry)
    (i k : nat) (fs : FileSystem) (path : string) (pads : nat -> list Z) (future : list Command)
    (consumer : Engine -> Command -> result Engine) :
  config_ok cfg -> Forall entry_ok es -> es.*1 = numbered gateway_admit 1 reqs ->
  Z.of_nat (length reqs) < u64_max -> (i <= length reqs)%nat -> (k <= length (journal_file es))%nat ->
  (forall j, length (pads j) = 7%nat) -> quantities_u64 future -> recovers consumer ->
  let history := numbered gateway_admit 1 reqs in
  let journal := Some (take k (journal_file es)) in
  let n := ((k - header_bytes) / record_size)%nat in
  exists (b0 bi b br : Engine) fs' evi ev,
    make_book cfg = Ok b0 /\ process_all b0 (take i history) [] = Ok (bi, evi) /\
    write_snapshot fs path bi pads NoFault = (fs', Ok ()) /\ read_snapshot (fs' !! path) = Ok br /\
    process_all b0 (take (Nat.max i n) history) [] = Ok (b, ev) /\
    ((k < header_bytes)%nat -> replay_journal consumer journal br = Fail RuntimeError) /\
    ((header_bytes <= k)%nat -> exists (b' b1 b2 : Engine) rr ev',
       replay_journal consumer journal br = Ok (b', rr) /\
       resting_orders b' = resting_orders b /\ last_sequence (stats b') = Z.of_nat (Nat.max i n) /\
       process_all b future [] = Ok (b1, ev') /\ process_all b' future [] = Ok (b2, ev') /\
       resting_orders b1 = resting_orders b2).
Proof.
  intros Hc Hes Hcmds Hlen Hi Hk Hpads Hfut Hrec history journal n.
  assert (Hl : length history = length reqs) by apply numbered_length.
  assert (Hles : length es = length reqs) by (rewrite <- Hl; unfold history; by rewrite <- Hcmds, length_fmap).
  rewrite journal_file_length, Hles in Hk by by apply entry_ok_fits.
  assert (Hok : Forall command_ok history).
  { unfold history. rewrite <- Hcmds. apply Forall_fmap. eapply Forall_impl; [exact Hes|]. intros e He. apply He. }
  assert (Hq : quantities_u64 history) by (eapply Forall_impl; [exact Hok|intros c Hc'; apply Hc']).
  assert (Hn : (n <= length reqs)%nat) by (apply Nat.Div0.div_le_upper_bound; lia).
  assert (Htake : forall m, (m <= length reqs)%nat -> Z.of_nat (length (take m history)) <= u64_max)
    by (intros m Hm; rewrite length_take; lia).
  destruct (run_models cfg (take i history) Hc (Forall_take _ i _ Hq) (Htake i Hi))
    as (b0 & bi & sbi & evi & Hb0 & H0 & Hpi & Hruni & Hmi & Hti).
  destruct (snapshot_restores cfg (take i history) fs path pads b0 bi sbi evi Hc (Forall_take _ i _ Hok) Hpads Hb0 Hruni Hmi Hti)
    as (fs' & br & sbr & Hw & Hread & Hbr & Hsame & _ & _).
  destruct (run_models cfg (take (Nat.max i n) history) Hc (Forall_take _ _ _ Hq) ltac:(apply Htake; lia))
    as (b0' & b & sb & ev & Hb0' & _ & Hp & Hrun & (Hb & _) & _).
  assert (b0' = b0) as -> by congruence.
  exists b0, bi, b, br, fs', evi, ev. split_and!; [done..| |].
  { intros Hshort. apply replay_no_header. rewrite length_take. lia. }
  intros Hlong.
  assert (Hs0 : last_sequence (sb_stats sbr) = Z.of_nat i).
  { rewrite <- (sm_sequence _ _ Hsame), <- (f_equal fst Hruni : (spec_run _ _ _).1 = sbi).
    by apply numbered_prefix_sequence. }
  destruct (feed_recovers consumer (take n reqs) 1 br sbr Hrec Hbr) as (b' & sb' & Hfeed & Hb' & Hsb');
    [rewrite numbered_take; by apply Forall_take|lia|lia|rewrite length_take; lia|].
  rewrite Hs0, numbered_take in Hsb'. fold history in Hsb'. replace (Z.to_nat (Z.of_nat i - 1 + 1)) with i in Hsb' by lia.
  destruct (longer_prefix cfg history i n sbi sbr sb evi ev Hruni Hrun Hsame) as [Hsm Hsb].
  assert (Hfinal : same_book sb sb') by (etrans; [exact Hsm|exact Hsb']).
  destruct (same_future b b' sb sb' future Hb Hb' Hfinal Hfut) as (b1 & b2 & ev' & Hp1 & Hp2 & Hf).
  eexists b', b1, b2, _, ev'. split_and!; try done.
  - unfold journal. rewrite replay_cut_feed by (done || lia). fold n. rewrite fmap_take, Hcmds, <- numbered_take, Hfeed.
    reflexivity.
  - rewrite (refines_orders b' _ Hb'), (refines_orders b _ Hb). by rewrite (sm_config _ _ Hfinal), (sm_orders _ _ Hfinal).
  - rewrite (refines_stats _ _ Hb'), <- (sm_sequence _ _ Hfinal), Hsb. apply numbered_prefix_sequence; lia.
Qed.

Definition demo_requests : list GatewayRequest :=
  [demo_request; MkGatewayRequest 7 2 (MkCommand 0 New Buy Limit 0 43 100 3)].
Definition demo_entries : list entry :=
  (fun c => (c, ([0; 0; 0; 0], [0; 0; 0; 0]))) <$> numbered gateway_admit 1 demo_requests.

Lemma demo_entries_ok : Forall entry_ok demo_entries.
Proof.
  unfold demo_entries. cbn [numbered demo_requests fmap list_fmap].
  repeat constructor; vm_compute; discriminate.
Qed.

(** Skipping what the snapshot has, and processing everything. *)
Lemma skipping_recovers :
  recovers (fun b c => if c_sequence c <=? last_sequence (stats b) then Ok b else replay_consumer b c).
Proof. intros b c. destruct (Z.leb_spec (c_sequence c) (last_sequence (stats b))); [by right|by left]. Qed.

Lemma processing_recovers : recovers replay_consumer.
Proof. intros b c. by left. Qed.

Lemma recovery_procedure_correct_witness :
  recovers (fun b c => if c_sequence c <=? last_sequence (stats b) then Ok b else replay_consumer b c) /\
  exists (b0 bi b br b' : Engine) fs' evi ev rr,
    make_book demo_config = Ok b0 /\
    process_all b0 (take 1 (numbered gateway_admit 1 demo_requests)) [] = Ok (bi, evi) /\
    write_snapshot ∅ "book" bi (fun _ => replicate 7 0) NoFault = (fs', Ok ()) /\
    read_snapshot (fs' !! "book"%string) = Ok br /\
    replay_journal replay_consumer (Some (take 112 (journal_file demo_entries))) br = Ok (b', rr) /\
    process_all b0 (numbered gateway_admit 1 demo_requests) [] = Ok (b, ev) /\
    resting_orders b' = resting_orders b /\ last_sequence (stats b') = 2.
Proof.
  split; [exact skipping_recovers|].
  destruct (recovery_procedure_correct demo_config demo_requests demo_entries 1 112 ∅ "book"
    (fun _ => replicate 7 0) [] replay_consumer demo_config_ok demo_entries_ok eq_refl ltac:(vm_compute; reflexivity)
    ltac:(repeat constructor)
    ltac:(rewrite journal_file_length by exact (entry_ok_fits _ demo_entries_ok); vm_compute; repeat constructor)
    ltac:(reflexivity) (Forall_nil_2 _) processing_recovers)
    as (b0 & bi & b & br & fs' & evi & ev & H1 & H2 & H3 & H4 & H5 & _ & H6).
  destruct H6 as (b' & _ & _ & rr & _ & H7 & H8 & H9 & _); [repeat constructor|].
  exists b0, bi, b, br, b', fs', evi, ev, rr. split_and!; assumption.
Defined.
