(* ===== verification/TcpGateway.v ===== *)
(** * TcpGateway: connections, framing and routing of the network thread
      (apps/gateway.cpp)

    [Gateway] has the members of the class that the network thread owns: the
    connections by socket, the sockets by session and the two rings; [closed]
    records the sockets it has passed to [::close].  Each method is one
    definition.  What the kernel returns from a system call is
    an argument: the outcomes of the successive [recv] and [send] calls of a
    handler, the accepted sockets and the flags of an event.

    The epoll set is modelled by one bit per connection, whether [EPOLLOUT] was
    last requested for its socket: the code ignores the result of the request,
    and so does the model.  The engine thread is in Runner. *)
From Stdlib Require Import ZArith Lia.
From stdpp Require Import base numbers gmap list.
From S2P Require Import Prelude Types OrderBook Protocol Gateway Spsc Runner.
Local Open Scope Z_scope.

Definition receive_capacity : Z := 64 * 1024.
Definition transmit_capacity : Z := 256 * 1024.
Definition gateway_book_config : BookConfig := MkConfig 9000 11000 1 1000000.

Record Connection : Set := MkConnection {
  cn_fd : Z;
  cn_session_id : Z;
  cn_validator : option SessionValidator;
  cn_receive : list Z;
  cn_received : Z;
  cn_transmit : list Z;
  cn_begin : Z;                 (* transmit_begin *)
  cn_end : Z;                   (* transmit_end *)
  cn_interest : bool }.         (* EPOLLOUT last requested from epoll *)

Definition make_connection (fd : Z) : Connection :=
  MkConnection fd 0 None (replicate (Z.to_nat receive_capacity) 0) 0
    (replicate (Z.to_nat transmit_capacity) 0) 0 0 false.

Record Gateway : Type := MkGateway {
  connections : gmap Z Connection;
  session_to_fd : gmap Z Z;
  requests : SpscQueue GatewayRequest;
  responses : SpscQueue GatewayResponse;
  closed : list Z }.            (* the arguments of close_connection's ::close, in order *)

(** ** Assignments to members *)

Definition set_session (c : Connection) (id : Z) (v : SessionValidator) : Connection :=
  MkConnection (cn_fd c) id (Some v) (cn_receive c) (cn_received c) (cn_transmit c) (cn_begin c)
    (cn_end c) (cn_interest c).
Definition set_received (c : Connection) (bytes : list Z) (n : Z) : Connection :=
  MkConnection (cn_fd c) (cn_session_id c) (cn_validator c) bytes n (cn_transmit c) (cn_begin c)
    (cn_end c) (cn_interest c).
Definition set_transmit (c : Connection) (bytes : list Z) (b e : Z) : Connection :=
  MkConnection (cn_fd c) (cn_session_id c) (cn_validator c) (cn_receive c) (cn_received c) bytes b e
    (cn_interest c).

Definition set_connections (g : Gateway) (x : gmap Z Connection) : Gateway :=
  MkGateway x (session_to_fd g) (requests g) (responses g) (closed g).
Definition set_sessions (g : Gateway) (x : gmap Z Z) : Gateway :=
  MkGateway (connections g) x (requests g) (responses g) (closed g).
Definition set_requests (g : Gateway) (x : SpscQueue GatewayRequest) : Gateway :=
  MkGateway (connections g) (session_to_fd g) x (responses g) (closed g).
Definition set_responses (g : Gateway) (x : SpscQueue GatewayResponse) : Gateway :=
  MkGateway (connections g) (session_to_fd g) (requests g) x (closed g).

(** [::close(fd)]: the descriptors themselves are in TcpLife. *)
Definition log_close (g : Gateway) (fd : Z) : Gateway :=
  MkGateway (connections g) (session_to_fd g) (requests g) (responses g) (closed g ++ [fd]).

(** ** Raw memory *)

(** [std::memmove(p, p + source, n)], checked. *)
Definition memmove_front (bytes : list Z) (source n : Z) : result (list Z) :=
  if (0 <=? source) && (0 <=? n) && (source + n <=? vsize bytes)
  then Ok (take (Z.to_nat n) (drop (Z.to_nat source) bytes) ++ drop (Z.to_nat n) bytes)
  else Fail OutOfBounds.

(** A span of [n] bytes from [offset] on, checked. *)
Definition span (bytes : list Z) (offset n : Z) : result (list Z) :=
  if (0 <=? offset) && (0 <=? n) && (offset + n <=? vsize bytes)
  then Ok (take (Z.to_nat n) (drop (Z.to_nat offset) bytes))
  else Fail OutOfBounds.

(** Stores through a span that starts at [offset]. *)
Definition store_span (bytes : list Z) (offset : Z) (s : list Z) : result (list Z) :=
  if (0 <=? offset) && (offset + vsize s <=? vsize bytes)
  then Ok (take (Z.to_nat offset) bytes ++ s ++ drop (Z.to_nat (offset + vsize s)) bytes)
  else Fail OutOfBounds.

(** ** Output *)

(** What is requested from [epoll_ctl]; its result is not looked at. *)
Definition update_interest (c : Connection) : Connection :=
  MkConnection (cn_fd c) (cn_session_id c) (cn_validator c) (cn_receive c) (cn_received c)
    (cn_transmit c) (cn_begin c) (cn_end c) (negb (cn_begin c =? cn_end c)).

(** The first statement of [queue_response]: compaction when the tail is
    short. *)
Definition make_room (c : Connection) : result Connection :=
  if negb (cn_begin c =? 0) && (u64 (transmit_capacity - cn_end c) <? response_frame_size)
  then
    let remaining := u64 (cn_end c - cn_begin c) in
    bytes ← memmove_front (cn_transmit c) (cn_begin c) remaining;
    Ok (set_transmit c bytes 0 remaining)
  else Ok c.

Definition queue_response (c : Connection) (response : Response) : result (Connection * bool) :=
  c ← make_room c;
  let available := u64 (transmit_capacity - cn_end c) in
  destination ← span (cn_transmit c) (cn_end c) available;
  '(ok, written, destination) ← encode_response response destination;
  if negb ok then Ok (c, false)
  else
    bytes ← store_span (cn_transmit c) (cn_end c) destination;
    Ok (update_interest (set_transmit c bytes (cn_begin c) (u64 (cn_end c + written))), true).

Definition reject_request (c : Connection) (request : Request) (reason : RejectReason)
  : result (Connection * bool) :=
  queue_response c (MkResponse (rq_session_id request) (rq_client_sequence request)
                      (gateway_rejection request reason)).

(** Outcomes of [send]: bytes accepted, [EINTR], [EAGAIN], another error. *)
Inductive SendResult : Set := Sent (n : Z) | SendInterrupted | SendBlocked | SendFailed.

(** [flush_output]: the connection, whether to keep it, and the bytes handed
    to the kernel.  When no outcome is left the socket would block. *)
Fixpoint flush_loop (c : Connection) (sends : list SendResult) (out : list Z)
  : result (Connection * bool * list Z) :=
  if cn_begin c =? cn_end c then Ok (c, true, out)
  else
    match sends with
    | [] => Ok (c, true, out)
    | Sent n :: sends =>
      if 0 <? n then
        bytes ← span (cn_transmit c) (cn_begin c) n;
        flush_loop (set_transmit c (cn_transmit c) (u64 (cn_begin c + n)) (cn_end c)) sends (out ++ bytes)
      else Ok (c, false, out)
    | SendInterrupted :: sends => flush_loop c sends out
    | SendBlocked :: _ => Ok (c, true, out)
    | SendFailed :: _ => Ok (c, false, out)
    end.

Definition flush_output (c : Connection) (sends : list SendResult)
  : result (Connection * bool * list Z) :=
  '(c, ok, out) ← flush_loop c sends [];
  if negb ok then Ok (c, false, out)
  else
    let c := if cn_begin c =? cn_end c then set_transmit c (cn_transmit c) 0 0 else c in
    Ok (update_interest c, true, out).

(** ** Input *)

(** Outcomes of [recv]: bytes stored, end of stream, [EAGAIN], [EINTR],
    another error. *)
Inductive RecvResult : Set :=
  | Received (bytes : list Z) | EndOfStream | RecvBlocked | RecvInterrupted | RecvFailed.

(** The receiving loop; [false] stands for its [return false]. *)
Fixpoint recv_loop (c : Connection) (recvs : list RecvResult) : result (Connection * bool) :=
  if cn_received c <? receive_capacity then
    match recvs with
    | [] | RecvBlocked :: _ => Ok (c, true)
    | Received bytes :: recvs =>
      buffer ← store_span (cn_receive c) (cn_received c) bytes;
      recv_loop (set_received c buffer (u64 (cn_received c + vsize bytes))) recvs
    | RecvInterrupted :: recvs => recv_loop c recvs
    | EndOfStream :: _ | RecvFailed :: _ => Ok (c, false)
    end
  else Ok (c, true).

(** What happens to one decoded request: session binding, validation, then
    rejection or hand-over to the engine. *)
Definition bind_session (g : Gateway) (c : Connection) (request : Request)
  : option (Gateway * Connection) :=
  match cn_validator c with
  | Some _ => Some (g, c)
  | None =>
    if bool_decide (is_Some (session_to_fd g !! rq_session_id request)) then None
    else
      Some (set_sessions g (<[rq_session_id request := cn_fd c]> (session_to_fd g)),
            set_session c (rq_session_id request)
              (make_validator (rq_session_id request) RiskLimits_default))
  end.

Definition handle_request (g : Gateway) (c : Connection) (request : Request)
  : result (Gateway * Connection * bool) :=
  match bind_session g c request with
  | None => Ok (g, c, false)
  | Some (g, c) =>
    match cn_validator c with
    | None => Fail OutOfBounds
    | Some v =>
      let '(v, reason) := validate_and_advance v request in
      let c := set_session c (cn_session_id c) v in
      if negb (bool_decide (reason = NoReason)) then
        '(c, ok) ← reject_request c request reason; Ok (g, c, ok)
      else
        '(q, pushed) ← try_push (requests g)
          (MkGatewayRequest (rq_session_id request) (rq_client_sequence request) (rq_command request));
        let g := set_requests g q in
        if negb pushed then
          '(c, ok) ← reject_request c request GatewayBackpressure; Ok (g, c, ok)
        else Ok (g, c, true)
    end
  end.

(** One round of the decoding loop: it goes on at [consumed], or ends there
    ([Some]) or by [return false] ([None]). *)
Inductive Round : Set := More (consumed : Z) | Finished (consumed : option Z).

Definition decode_one (g : Gateway) (c : Connection) (consumed : Z)
  : result (Gateway * Connection * Round) :=
  if consumed <? cn_received c then
    input ← span (cn_receive c) consumed (u64 (cn_received c - consumed));
    decoded ← decode_request input;
    match qd_status decoded with
    | NeedMoreData => Ok (g, c, Finished (Some consumed))
    | DecodeOk =>
      '(g, c, ok) ← handle_request g c (qd_request decoded);
      Ok (g, c, if (ok : bool) then More (u64 (consumed + qd_bytes_consumed decoded)) else Finished None)
    | _ => Ok (g, c, Finished None)
    end
  else Ok (g, c, Finished (Some consumed)).

Fixpoint decode_loop (fuel : nat) (g : Gateway) (c : Connection) (consumed : Z)
  : result (Gateway * Connection * option Z) :=
  match fuel with
  | O => Fail OutOfFuel
  | S fuel =>
    '(g, c, r) ← decode_one g c consumed;
    match r with
    | More consumed => decode_loop fuel g c consumed
    | Finished r => Ok (g, c, r)
    end
  end.

(** The statements after the loop: compaction and the test for a full buffer. *)
Definition finish_read (c : Connection) (r : option Z) : result (Connection * bool) :=
  match r with
  | None => Ok (c, false)
  | Some consumed =>
    c ← (if negb (consumed =? 0) then
           let remaining := u64 (cn_received c - consumed) in
           bytes ← memmove_front (cn_receive c) consumed remaining;
           Ok (set_received c bytes remaining)
         else Ok c);
    Ok (c, negb (cn_received c =? receive_capacity))
  end.

Definition read_requests (g : Gateway) (c : Connection) (recvs : list RecvResult)
  : result (Gateway * Connection * bool) :=
  '(c, ok) ← recv_loop c recvs;
  if negb ok then Ok (g, c, false)
  else
    '(g, c, r) ← decode_loop (S (Z.to_nat (cn_received c))) g c 0;
    '(c, keep) ← finish_read c r;
    Ok (g, c, keep).

(** ** Connections *)

(** One round of the loop of [accept_connections]: the new socket, and whether
    the two calls that prepare it succeed. *)
Definition accept_one (g : Gateway) (fd : Z) (nonblocking registered : bool) : Gateway :=
  if negb nonblocking then g
  else if negb registered then g
  else match connections g !! fd with
       | Some _ => g
       | None => set_connections g (<[fd := make_connection fd]> (connections g))
       end.

Definition close_connection (g : Gateway) (fd : Z) : Gateway :=
  match connections g !! fd with
  | None => g
  | Some c =>
    let g := if negb (cn_session_id c =? 0)
             then set_sessions g (delete (cn_session_id c) (session_to_fd g)) else g in
    let g := log_close g fd in
    set_connections g (delete fd (connections g))
  end.

Definition store (g : Gateway) (c : Connection) : Gateway :=
  set_connections g (<[cn_fd c := c]> (connections g)).

(** One iteration of [drain_engine_responses]; [false] when the ring is
    empty. *)
Definition drain_one (g : Gateway) : result (Gateway * bool) :=
  '(q, popped) ← try_pop (responses g);
  let g := set_responses g q in
  match popped with
  | None => Ok (g, false)
  | Some response =>
    match session_to_fd g !! gs_session_id response with
    | None => Ok (g, true)
    | Some fd =>
      match connections g !! fd with
      | None => Ok (close_connection g fd, true)
      | Some c =>
        '(c, ok) ← queue_response c (MkResponse (gs_session_id response)
                      (gs_client_sequence response) (gs_event response));
        let g := store g c in
        Ok (if (ok : bool) then g else close_connection g fd, true)
      end
    end
  end.

Fixpoint drain_engine_responses (fuel : nat) (g : Gateway) : result Gateway :=
  match fuel with
  | O => Fail OutOfFuel
  | S fuel =>
    '(g, more) ← drain_one g;
    if (more : bool) then drain_engine_responses fuel g else Ok g
  end.

(** The body of the event loop for a client socket: the flags of the event and
    the outcomes of the calls its handlers make. *)
Record SocketEvent : Set := MkSocketEvent {
  ev_fd : Z;
  ev_hangup : bool;             (* EPOLLERR | EPOLLHUP | EPOLLRDHUP *)
  ev_readable : bool;           (* EPOLLIN *)
  ev_writable : bool;           (* EPOLLOUT *)
  ev_recvs : list RecvResult;
  ev_sends : list SendResult }.

(** The same event with other outcomes of [send]. *)
Definition with_sends (e : SocketEvent) (sends : list SendResult) : SocketEvent :=
  MkSocketEvent (ev_fd e) (ev_hangup e) (ev_readable e) (ev_writable e) (ev_recvs e) sends.

(** What follows reading: flushing, and closing unless the connection is kept. *)
Definition finish_event (g : Gateway) (c : Connection) (keep : bool) (e : SocketEvent)
  : result (Gateway * list Z) :=
  '(c, keep, out) ← (if keep && ev_writable e then flush_output c (ev_sends e) else Ok (c, keep, []));
  let g := store g c in
  Ok (if (keep : bool) then g else close_connection g (ev_fd e), out).

Definition handle_event (g : Gateway) (e : SocketEvent) : result (Gateway * list Z) :=
  match connections g !! ev_fd e with
  | None => Ok (g, [])
  | Some c =>
    let keep := negb (ev_hangup e) in
    '(g, c, keep) ← (if keep && ev_readable e then read_requests g c (ev_recvs e) else Ok (g, c, keep));
    finish_event g c keep e
  end.
