(* ===== verification/TcpOutput.v ===== *)
(** * TcpOutput: the transmit buffer of a connection

    The buffer holds a contiguous run of whole frames of which a prefix may
    have been sent.  [pending] is what it still owes the peer. *)
From Stdlib Require Import ZArith Lia.
From stdpp Require Import base numbers gmap list.
From S2P Require Import Prelude Types Bytes Protocol ProtocolFacts Gateway Spsc Runner TcpGateway.
Local Open Scope Z_scope.

(** ** The bytes of a response *)

Definition response_frame (r : Response) : list Z :=
  match encode_response r (replicate 68 0) with Ok (_, _, d) => d | Fail _ => [] end.

(** The identities a response must carry. *)
Definition addressed (r : Response) : Prop := rs_session_id r <> 0 /\ rs_client_sequence r <> 0.

Lemma vset_app_l {A} (a b a' : list A) i x : vset a i x = Ok a' -> vset (a ++ b) i x = Ok (a' ++ b).
Proof.
  unfold vset. destruct (in_range a i) eqn:E; [|done]. apply in_range_true in E. intros [= <-].
  assert (Hr : in_range (a ++ b) i = true) by (apply in_range_true; rewrite vsize_app; pose proof (vsize_nonneg b); lia).
  rewrite Hr. unfold vupd. rewrite Hr. rewrite (proj2 (in_range_true a i)) by done.
  f_equal. apply insert_app_l. unfold vsize in E. lia.
Qed.

Lemma put_app_l n index a b a' o v : put n index a o v = Ok a' -> put n index (a ++ b) o v = Ok (a' ++ b).
Proof.
  revert index a. induction n as [|n IH]; intros index a; cbn [put]; [by intros [= <-]|].
  intros (a1 & H1 & H2)%bind_Ok_inv. rewrite (vset_app_l a b a1) by done. by apply IH.
Qed.

(** A frame is written whatever was in the buffer. *)
Lemma encode_exact r a : length a = 68%nat -> addressed r ->
  encode_response r a = Ok (true, 68, response_frame r).
Proof.
  intros Ha [Hs Hq]. unfold response_frame, encode_response.
  rewrite (proj2 (Z.eqb_neq (rs_session_id r) 0)), (proj2 (Z.eqb_neq (rs_client_sequence r) 0)) by done.
  destruct r as [s q e]. cbn [rs_session_id rs_client_sequence rs_event].
  do 68 (destruct a as [|? a]; [discriminate Ha|]). destruct a; [|discriminate Ha]. reflexivity.
Qed.

Lemma encode_response_app r a b f : addressed r -> encode_response r a = Ok (true, 68, f) ->
  encode_response r (a ++ b) = Ok (true, 68, f ++ b).
Proof.
  intros [Hs Hq]. unfold encode_response. rewrite vsize_app.
  rewrite (proj2 (Z.eqb_neq (rs_session_id r) 0)), (proj2 (Z.eqb_neq (rs_client_sequence r) 0)) by done.
  rewrite !orb_false_r. destruct (Z.ltb_spec (vsize a) response_frame_size) as [|Ha]; [done|].
  rewrite (proj2 (Z.ltb_ge _ _)) by (pose proof (vsize_nonneg b); lia).
  intros H. unfold encode_header, put_u8, put_u16, put_u32, put_u64 in *.
  repeat match goal with
  | H : (_ ≫= _) = Ok _ |- _ => apply bind_Ok_inv in H as (? & ? & H)
  end. injection H as <-.
  repeat match goal with
  | H : put _ _ _ _ _ = Ok _ |- _ => apply (fun H => put_app_l _ _ _ b _ _ _ H) in H; rewrite H; clear H
  | H : vset _ _ _ = Ok _ |- _ => apply (fun H => vset_app_l _ b _ _ _ H) in H; rewrite H; clear H
  | _ => progress cbn [mbind result_bind]
  end. done.
Qed.

Lemma response_frame_length r : addressed r -> length (response_frame r) = 68%nat.
Proof.
  intros Hr. destruct r as [s q e]. unfold response_frame, encode_response, addressed in *. cbn in Hr.
  rewrite (proj2 (Z.eqb_neq (rs_session_id _) 0)), (proj2 (Z.eqb_neq (rs_client_sequence _) 0)) by apply Hr.
  reflexivity.
Qed.

Lemma encode_response_frame r d : addressed r -> response_frame_size <= vsize d ->
  encode_response r d = Ok (true, response_frame_size, response_frame r ++ drop 68 d).
Proof.
  intros Hr Hd. rewrite <- (take_drop 68 d) at 1. apply encode_response_app; [done|].
  apply encode_exact; [|done]. rewrite length_take. unfold vsize, response_frame_size in Hd. lia.
Qed.

Lemma encode_response_short r d : vsize d < response_frame_size -> encode_response r d = Ok (false, 0, d).
Proof. intros Hd. unfold encode_response. by rewrite (proj2 (Z.ltb_lt _ _) Hd). Qed.

(** What the peer reads back. *)
Lemma response_frame_decodes r more : response_ok r ->
  decode_response (response_frame r ++ more) = Ok (MkResponseDecode DecodeOk response_frame_size
    (MkResponse (rs_session_id r) (rs_client_sequence r) (wire_event (rs_event r)))).
Proof.
  intros Hr. assert (Ha : addressed r) by (split; apply Hr).
  assert (Hsz : response_frame_size <= vsize (replicate 68 0 ++ more)).
  { rewrite vsize_app. unfold vsize at 1. rewrite length_replicate. pose proof (vsize_nonneg more).
    unfold response_frame_size. lia. }
  destruct (response_round_trip_ok r (replicate 68 0 ++ more) Hr Hsz) as (d' & He & _ & _ & Hd).
  rewrite encode_response_frame in He by done. injection He as <-. exact Hd.
Qed.

(** ** The invariant of a connection *)

Record conn_ok (c : Connection) : Prop := {
  co_receive : vsize (cn_receive c) = receive_capacity /\ bytes_ok (cn_receive c);
  co_received : 0 <= cn_received c <= receive_capacity;
  co_transmit : vsize (cn_transmit c) = transmit_capacity;
  co_bounds : 0 <= cn_begin c <= cn_end c /\ cn_end c <= transmit_capacity;
  co_interest : cn_interest c = negb (cn_begin c =? cn_end c);
  co_validator : match cn_validator c with
    | None => cn_session_id c = 0
    | Some v => sv_session_id v = cn_session_id c /\ is_u32 (cn_session_id c) /\ cn_session_id c <> 0 /\
        sv_limits v = RiskLimits_default /\ is_u64 (sv_next_sequence v)
    end }.

Definition pending_output (c : Connection) : list Z :=
  take (Z.to_nat (cn_end c - cn_begin c)) (drop (Z.to_nat (cn_begin c)) (cn_transmit c)).

(** Reads members through the assignments. *)
Ltac conn_simpl :=
  cbn [update_interest set_transmit set_received set_session make_connection cn_fd cn_session_id
       cn_validator cn_receive cn_received cn_transmit cn_begin cn_end cn_interest] in *.

(** The part of a connection that output does not touch. *)
Definition same_input (c c' : Connection) : Prop :=
  cn_fd c' = cn_fd c /\ cn_session_id c' = cn_session_id c /\ cn_validator c' = cn_validator c /\
  cn_receive c' = cn_receive c /\ cn_received c' = cn_received c.

Lemma pending_size c : conn_ok c -> vsize (pending_output c) = cn_end c - cn_begin c.
Proof.
  intros H. pose proof (co_bounds _ H). pose proof (co_transmit _ H) as Ht. unfold pending_output, vsize in *.
  rewrite length_take, length_drop. lia.
Qed.

Lemma span_ok bytes o n : 0 <= o -> 0 <= n -> o + n <= vsize bytes ->
  span bytes o n = Ok (take (Z.to_nat n) (drop (Z.to_nat o) bytes)).
Proof.
  intros. unfold span. rewrite (proj2 (Z.leb_le 0 o)), (proj2 (Z.leb_le 0 n)), (proj2 (Z.leb_le _ _)) by lia.
  done.
Qed.

Lemma store_span_ok bytes o s : 0 <= o -> o + vsize s <= vsize bytes ->
  store_span bytes o s = Ok (take (Z.to_nat o) bytes ++ s ++ drop (Z.to_nat (o + vsize s)) bytes).
Proof. intros. unfold store_span. rewrite (proj2 (Z.leb_le 0 o)), (proj2 (Z.leb_le _ _)) by lia. done. Qed.

Lemma memmove_ok bytes o n : 0 <= o -> 0 <= n -> o + n <= vsize bytes ->
  memmove_front bytes o n =
    Ok (take (Z.to_nat n) (drop (Z.to_nat o) bytes) ++ drop (Z.to_nat n) bytes).
Proof.
  intros. unfold memmove_front.
  rewrite (proj2 (Z.leb_le 0 o)), (proj2 (Z.leb_le 0 n)), (proj2 (Z.leb_le _ _)) by lia. done.
Qed.

Lemma memmove_size (bytes : list Z) o n : 0 <= o -> 0 <= n -> o + n <= vsize bytes ->
  vsize (take (Z.to_nat n) (drop (Z.to_nat o) bytes) ++ drop (Z.to_nat n) bytes) = vsize bytes.
Proof. intros. unfold vsize in *. rewrite length_app, length_take, !length_drop. lia. Qed.

(** Moving the pending bytes to the front. *)
Definition compacted (c : Connection) : Connection :=
  set_transmit c (pending_output c ++ drop (Z.to_nat (cn_end c - cn_begin c)) (cn_transmit c)) 0
    (cn_end c - cn_begin c).

Lemma compacted_ok c : conn_ok c -> conn_ok (compacted c) /\ pending_output (compacted c) = pending_output c /\
  same_input c (compacted c).
Proof.
  intros H. pose proof (co_bounds _ H) as Hb. pose proof (co_transmit _ H) as Ht. split_and!; try done.
  - destruct H as [H1 H2 H3 H4 H5 H6]. unfold compacted. constructor; conn_simpl; auto.
    + unfold pending_output. rewrite memmove_size; lia.
    + lia.
    + rewrite H5. f_equal. destruct (Z.eqb_spec (cn_begin c) (cn_end c)), (Z.eqb_spec 0 (cn_end c - cn_begin c));
        first [done|exfalso; lia].
  - unfold pending_output at 1. cbn [compacted set_transmit cn_end cn_begin cn_transmit].
    rewrite Z.sub_0_r, drop_0. apply take_app_length'. unfold pending_output.
    unfold vsize in Ht. rewrite length_take, length_drop. lia.
Qed.

Lemma make_room_ok c : conn_ok c -> exists c', make_room c = Ok c' /\
    conn_ok c' /\ pending_output c' = pending_output c /\ same_input c c' /\
    (transmit_capacity - cn_end c' < response_frame_size -> cn_begin c' = 0).
Proof.
  intros H. pose proof (co_bounds _ H) as Hb. pose proof (co_transmit _ H) as Ht. unfold make_room.
  rewrite !u64_small by (unfold transmit_capacity in *; intlia).
  destruct (Z.eqb_spec (cn_begin c) 0); cbn [negb andb]; [by exists c|].
  destruct (Z.ltb_spec (transmit_capacity - cn_end c) response_frame_size); [|exists c; split_and!; try done; lia].
  cbv zeta. rewrite memmove_ok by lia. cbn [mbind result_bind]. exists (compacted c).
  destruct (compacted_ok c H) as (H1 & H2 & H3). split_and!; done.
Qed.

(** [queue_response]: the frame is appended exactly when it fits, counting the
    space that was already sent. *)
Lemma queue_response_ok c r : conn_ok c -> addressed r ->
  exists c', conn_ok c' /\ same_input c c' /\
    if vsize (pending_output c) + response_frame_size <=? transmit_capacity
    then queue_response c r = Ok (c', true) /\ pending_output c' = pending_output c ++ response_frame r
    else queue_response c r = Ok (c', false) /\ pending_output c' = pending_output c.
Proof.
  intros H Hr. destruct (make_room_ok c H) as (c1 & He & H1 & Hp & Hi & Hz). unfold queue_response. rewrite He.
  cbn [mbind result_bind]. clear He. pose proof (co_bounds _ H1) as Hb. pose proof (co_transmit _ H1) as Ht.
  rewrite <- Hp, pending_size by done. rewrite u64_small by (unfold transmit_capacity in *; intlia).
  rewrite span_ok by lia. cbn [mbind result_bind].
  assert (Hv : vsize (take (Z.to_nat (transmit_capacity - cn_end c1)) (drop (Z.to_nat (cn_end c1)) (cn_transmit c1)))
    = transmit_capacity - cn_end c1).
  { unfold vsize in *. rewrite length_take, length_drop. lia. }
  destruct (Z.leb_spec (cn_end c1 - cn_begin c1 + response_frame_size) transmit_capacity) as [Hf|Hf].
  - assert (Hroom : response_frame_size <= transmit_capacity - cn_end c1).
    { destruct (Z_lt_le_dec (transmit_capacity - cn_end c1) response_frame_size) as [Hlt|]; [|done].
      specialize (Hz Hlt). lia. }
    rewrite encode_response_frame by (done || lia). cbn [mbind result_bind negb].
    set (d := take _ (drop _ (cn_transmit c1))) in *.
    assert (Hd : vsize (response_frame r ++ drop 68 d) = transmit_capacity - cn_end c1).
    { unfold vsize in *. rewrite length_app, length_drop, response_frame_length by done.
      unfold response_frame_size in *. lia. }
    rewrite store_span_ok by lia. cbn [mbind result_bind]. rewrite Hd.
    rewrite u64_small by (unfold transmit_capacity, response_frame_size in *; intlia).
    eexists. split; [|split; [|split; [reflexivity|]]].
    + destruct H1 as [A1 A2 A3 A4 A5 A6]. constructor; conn_simpl; auto; [|unfold response_frame_size in *; lia].
      rewrite vsize_app, vsize_app, Hd. clear Hd Hv. unfold vsize in *. rewrite length_take, length_drop. lia.
    + done.
    + unfold pending_output. cbn [update_interest set_transmit cn_end cn_begin cn_transmit].
      rewrite drop_app_le by (unfold vsize in *; rewrite length_take; lia).
      replace (Z.to_nat (cn_end c1 + response_frame_size - cn_begin c1)) with
        (Z.to_nat (cn_end c1 - cn_begin c1) + 68)%nat by (unfold response_frame_size; lia).
      assert (Hl : length (drop (Z.to_nat (cn_begin c1)) (take (Z.to_nat (cn_end c1)) (cn_transmit c1))) =
        Z.to_nat (cn_end c1 - cn_begin c1)).
      { unfold vsize in *. rewrite length_drop, length_take. lia. }
      rewrite <- Hl, take_app_add, skipn_firstn_comm, <- app_assoc.
      rewrite take_app_length' by by rewrite response_frame_length.
      f_equal. rewrite <- skipn_firstn_comm, Hl, skipn_firstn_comm. f_equal. lia.
  - specialize (Hz ltac:(lia)). rewrite encode_response_short by lia. cbn [mbind result_bind negb].
    exists c1. done.
Qed.

(** ** Sending *)

(** What [send] guarantees: it takes no more than it was given. *)
Fixpoint sends_fit (left : Z) (sends : list SendResult) : Prop :=
  match sends with
  | [] => True
  | Sent n :: sends => n <= left /\ sends_fit (if 0 <? n then left - n else left) sends
  | _ :: sends => sends_fit left sends
  end.

(** The connection after [b - cn_begin c] more bytes have been sent. *)
Definition sent_upto (c : Connection) (b : Z) : Connection := set_transmit c (cn_transmit c) b (cn_end c).

Lemma slice_step (bytes : list Z) b b' e : 0 <= b <= b' -> b' <= e ->
  take (Z.to_nat (e - b)) (drop (Z.to_nat b) bytes) =
  take (Z.to_nat (b' - b)) (drop (Z.to_nat b) bytes) ++ take (Z.to_nat (e - b')) (drop (Z.to_nat b') bytes).
Proof.
  intros H1 H2. replace (Z.to_nat (e - b)) with (Z.to_nat (b' - b) + Z.to_nat (e - b'))%nat by lia.
  rewrite <- take_take_drop, drop_drop. do 3 f_equal. lia.
Qed.

Lemma nothing_sent (out bytes : list Z) b : out ++ take (Z.to_nat (b - b)) bytes = out.
Proof. rewrite Z.sub_diag. apply app_nil_r. Qed.

Lemma flush_loop_ok c b sends out : conn_ok c -> cn_begin c <= b <= cn_end c ->
  sends_fit (cn_end c - b) sends ->
  exists b' ok, b <= b' <= cn_end c /\
    flush_loop (sent_upto c b) sends out = Ok (sent_upto c b', ok,
      out ++ take (Z.to_nat (b' - b)) (drop (Z.to_nat b) (cn_transmit c))).
Proof.
  intros H. pose proof (co_bounds _ H) as Hb. pose proof (co_transmit _ H) as Ht.
  unfold sent_upto. revert b out.
  induction sends as [|s sends IH]; intros b out Hr Hs; cbn [flush_loop]; conn_simpl;
    (destruct (Z.eqb_spec b (cn_end c)) as [E|E];
      [exists b, true; rewrite nothing_sent; split; [lia|done]|]).
  { exists b, true. rewrite nothing_sent. split; [lia|done]. }
  destruct s as [n| | |]; cbn [sends_fit] in Hs.
  - destruct Hs as [Hn Hs]. destruct (Z.ltb_spec 0 n).
    + unfold transmit_capacity in *.
      rewrite span_ok by lia. cbn [mbind result_bind]. rewrite u64_small by intlia.
      destruct (IH (b + n) (out ++ take (Z.to_nat n) (drop (Z.to_nat b) (cn_transmit c)))) as (b' & ok & Hb' & Hf);
        [lia|by replace (cn_end c - (b + n)) with (cn_end c - b - n) by lia|].
      exists b', ok. split; [lia|]. etransitivity; [exact Hf|]. rewrite <- app_assoc. do 3 f_equal.
      rewrite (slice_step _ b (b + n) b') by lia. do 2 f_equal. lia.
    + exists b, false. rewrite nothing_sent. split; [lia|done].
  - by apply IH.
  - exists b, true. rewrite nothing_sent. split; [lia|done].
  - exists b, false. rewrite nothing_sent. split; [lia|done].
Qed.

Lemma flush_output_ok c sends : conn_ok c -> sends_fit (cn_end c - cn_begin c) sends ->
  exists c' ok out, flush_output c sends = Ok (c', ok, out) /\ same_input c c' /\
    (ok = true -> conn_ok c') /\ pending_output c = out ++ pending_output c'.
Proof.
  intros H Hs. pose proof (co_bounds _ H) as Hb.
  destruct (flush_loop_ok c (cn_begin c) sends [] H ltac:(lia) Hs) as (b & ok & Hr & Hf).
  assert (Hc : sent_upto c (cn_begin c) = c) by by destruct c.
  rewrite Hc in Hf. unfold flush_output. rewrite Hf. cbn [mbind result_bind app].
  assert (Hpend : pending_output c = take (Z.to_nat (b - cn_begin c)) (drop (Z.to_nat (cn_begin c)) (cn_transmit c))
    ++ pending_output (sent_upto c b)).
  { unfold pending_output, sent_upto. conn_simpl. apply slice_step; lia. }
  destruct ok; cbn [negb]; [|by eexists _, _, _]. unfold sent_upto in *. conn_simpl.
  destruct (Z.eqb_spec b (cn_end c)) as [->|Hne]; eexists _, _, _; (split; [reflexivity|]); (split; [done|]); split.
  - intros _. destruct H as [H1 H2 H3 H4 H5 H6]. constructor; conn_simpl; auto. unfold transmit_capacity. lia.
  - rewrite Hpend. unfold pending_output. conn_simpl. by rewrite Z.sub_diag.
  - intros _. destruct H as [H1 H2 H3 H4 H5 H6]. constructor; conn_simpl; auto. lia.
  - exact Hpend.
Qed.

(** ** The output of a connection over time *)

Inductive OutputOp : Set :=
  | Queue (response : Response)
  | Flush (sends : list SendResult).

(** Operations until one of them closes the connection: the connection,
    whether it is open, the bytes sent and the responses accepted. *)
Fixpoint output_run (c : Connection) (ops : list OutputOp)
  : result (Connection * bool * list Z * list Response) :=
  match ops with
  | [] => Ok (c, true, [], [])
  | Queue r :: ops =>
    '(c, ok) ← queue_response c r;
    if (ok : bool) then '(c, ok, out, rs) ← output_run c ops; Ok (c, ok, out, r :: rs)
    else Ok (c, false, [], [])
  | Flush sends :: ops =>
    '(c, ok, out) ← flush_output c sends;
    if (ok : bool) then '(c, ok, out', rs) ← output_run c ops; Ok (c, ok, out ++ out', rs)
    else Ok (c, false, out, [])
  end.

(** Responses carry identities and the kernel keeps its promise. *)
Fixpoint output_fits (c : Connection) (ops : list OutputOp) : Prop :=
  match ops with
  | [] => True
  | Queue r :: ops => addressed r /\
    forall c', queue_response c r = Ok (c', true) -> output_fits c' ops
  | Flush sends :: ops => sends_fit (cn_end c - cn_begin c) sends /\
    forall c' out, flush_output c sends = Ok (c', true, out) -> output_fits c' ops
  end.

Definition queued (ops : list OutputOp) : list Response :=
  omap (fun op => match op with Queue r => Some r | Flush _ => None end) ops.

Lemma output_run_ok c ops : conn_ok c -> output_fits c ops ->
  exists c' ok sent accepted, output_run c ops = Ok (c', ok, sent, accepted) /\
    pending_output c ++ concat (response_frame <$> accepted) = sent ++ pending_output c' /\
    accepted `prefix_of` queued ops /\ (ok = true -> conn_ok c' /\ accepted = queued ops).
Proof.
  revert c. induction ops as [|[r|sends] ops IH]; intros c H Hf; cbn [output_run].
  - exists c, true, [], []. cbn. by rewrite app_nil_r.
  - destruct Hf as [Hr Hf]. destruct (queue_response_ok c r H Hr) as (c1 & H1 & _ & Hq).
    destruct (_ <=? _); destruct Hq as [Hq Hp]; rewrite Hq; cbn [mbind result_bind].
    + destruct (IH c1 H1 (Hf c1 Hq)) as (c' & ok & sent & acc & -> & Hs & Hpre & Hok). cbn [mbind result_bind].
      exists c', ok, sent, (r :: acc). split; [done|]. split; [by rewrite <- Hs, Hp, <- app_assoc|].
      split; [by apply prefix_cons|]. intros Ht. destruct (Hok Ht) as [? ->]. done.
    + exists c1, false, [], []. cbn. rewrite Hp, app_nil_r. split_and!; try done. apply prefix_nil.
  - destruct Hf as [Hs Hf]. destruct (flush_output_ok c sends H Hs) as (c1 & ok & out & Hfl & _ & H1 & Hp).
    rewrite Hfl. cbn [mbind result_bind]. destruct ok; cycle 1.
    { exists c1, false, out, []. cbn. rewrite app_nil_r. split_and!; try done. apply prefix_nil. }
    destruct (IH c1 (H1 eq_refl) (Hf _ _ Hfl)) as (c' & ok & sent & acc & -> & Hs' & Hpre & Hok). cbn [mbind result_bind].
    exists c', ok, (out ++ sent), acc. split; [done|]. split; [|done]. by rewrite Hp, <- !app_assoc, Hs'.
Qed.

(** What a peer reads from a byte stream: the responses of its complete
    frames. *)
Fixpoint read_responses (fuel : nat) (bs : list Z) : list Response :=
  match fuel with
  | O => []
  | S fuel =>
    match decode_response bs with
    | Ok d => match sd_status d with
              | DecodeOk => sd_response d :: read_responses fuel (drop (Z.to_nat (sd_bytes_consumed d)) bs)
              | _ => []
              end
    | Fail _ => []
    end
  end.

Definition on_wire (r : Response) : Response :=
  MkResponse (rs_session_id r) (rs_client_sequence r) (wire_event (rs_event r)).

Lemma read_frames rs more : Forall response_ok rs ->
  read_responses (length rs) (concat (response_frame <$> rs) ++ more) = on_wire <$> rs.
Proof.
  induction 1 as [|r rs Hr _ IH]; [done|]. cbn [length read_responses fmap list_fmap concat].
  rewrite <- app_assoc, response_frame_decodes by done. cbn [sd_status sd_response sd_bytes_consumed].
  f_equal. rewrite drop_app_length'; [exact IH|]. by rewrite response_frame_length by (split; apply Hr).
Qed.
