(* ===== verification/TcpInput.v ===== *)
(** * TcpInput: reassembling requests from the byte stream

    [requests_of] is the specification of the framing: the requests at the
    head of a byte string, the bytes that follow them and whether they may
    still become a request.  The decoding loop of the gateway handles exactly
    these requests, however the stream was cut into segments. *)
From Stdlib Require Import ZArith Lia.
From stdpp Require Import base numbers gmap list.
From S2P Require Import Prelude Types Bytes Protocol ProtocolFacts Gateway Spsc Runner TcpGateway TcpOutput.
Local Open Scope Z_scope.

(** ** The requests of a byte string *)

Fixpoint parse (fuel : nat) (bs : list Z) : list Request * list Z * bool :=
  match fuel, bs with
  | O, _ | _, [] => ([], bs, true)
  | S fuel, _ =>
    match decode_request bs with
    | Fail _ => ([], bs, false)
    | Ok d =>
      match qd_status d with
      | NeedMoreData => ([], bs, true)
      | DecodeOk =>
        let '(rs, rest, ok) := parse fuel (drop (Z.to_nat (qd_bytes_consumed d)) bs) in
        (qd_request d :: rs, rest, ok)
      | _ => ([], bs, false)
      end
    end
  end.

Definition requests_of (bs : list Z) : list Request * list Z * bool := parse (length bs) bs.

(** What the decoder promises about an accepted request. *)
Definition decoded_ok (r : Request) : Prop :=
  request_ok r /\ (c_type (rq_command r) = Cancel -> c_quantity (rq_command r) = 0).

Lemma decode_cancel d r : decode_request d = Ok r -> qd_status r = DecodeOk ->
  c_type (rq_command (qd_request r)) = Cancel -> c_quantity (rq_command (qd_request r)) = 0.
Proof.
  unfold decode_request. intros (h & Hh & H)%bind_Ok_inv Hr.
  destruct h as [status|h]; [injection H as <-; cbn in Hr; subst; by cbn|].
  destruct (match h_type h with NewOrder => Some New | CancelOrder => Some Cancel
    | ReplaceOrder => Some Replace | _ => None end) as [type|]; [|by injection H as <-].
  destruct (_ || _); [by injection H as <-|]. apply bind_Ok_inv in H as (p & Hp & H).
  destruct p as [c|]; [|by injection H as <-]. destruct (c_order_id c =? 0); [by injection H as <-|].
  injection H as <-. cbn. destruct type; cbn [decode_payload] in Hp.
  - repeat (apply bind_Ok_inv in Hp as (? & _ & Hp)). destruct (_ || _); [done|].
    repeat (apply bind_Ok_inv in Hp as (? & _ & Hp)). injection Hp as Hp.
    destruct (side_of_u8 _), (order_type_of_u8 _); cbn in Hp; try done. by injection Hp as <-.
  - apply bind_Ok_inv in Hp as (? & _ & Hp). by injection Hp as <-.
  - repeat (apply bind_Ok_inv in Hp as (? & _ & Hp)). by injection Hp as <-.
Qed.

(** One step of the decoder on valid bytes. *)
Lemma decode_step bs : bytes_ok bs -> exists d, decode_request bs = Ok d /\
  (qd_status d = DecodeOk -> decoded_ok (qd_request d) /\ 0 < qd_bytes_consumed d <= vsize bs).
Proof.
  intros Hb. destruct (decode_request_total Hb) as (d & Hd & Hok & _). exists d. split; [done|].
  intros Hs. destruct (Hok Hs) as (H1 & _ & H2). split; [|done]. split; [done|].
  by apply (decode_cancel bs).
Qed.

Lemma parse_fuel f f' bs : bytes_ok bs -> (length bs <= f)%nat -> (length bs <= f')%nat ->
  parse f bs = parse f' bs.
Proof.
  revert f' bs. induction f as [|f IH]; intros f' bs Hb Hf Hf'.
  { destruct bs; [|cbn in Hf; lia]. by destruct f'. }
  destruct f' as [|f']; [destruct bs; [done|cbn in Hf'; lia]|].
  destruct bs as [|b bs']; [done|]. set (bs := b :: bs') in *. cbn [parse].
  change (match bs with [] => ?x | _ => ?y end) with y.
  destruct (decode_step bs Hb) as (d & -> & Hok). destruct (qd_status d) eqn:E; try done.
  destruct (Hok eq_refl) as [_ Hc].
  rewrite (IH f'); [done|by apply Forall_drop|..]; rewrite length_drop; unfold vsize in Hc; lia.
Qed.

Lemma requests_nil : requests_of [] = ([], [], true).
Proof. done. Qed.

Lemma requests_step bs d : bytes_ok bs -> bs <> [] -> decode_request bs = Ok d ->
  requests_of bs = match qd_status d with
    | NeedMoreData => ([], bs, true)
    | DecodeOk => let '(rs, rest, ok) := requests_of (drop (Z.to_nat (qd_bytes_consumed d)) bs) in
        (qd_request d :: rs, rest, ok)
    | _ => ([], bs, false)
    end.
Proof.
  intros Hb Hne Hd. destruct bs as [|b bs']; [done|]. set (bs := b :: bs') in *.
  unfold requests_of at 1. change (length bs) with (S (length bs')). cbn [parse].
  change (match bs with [] => ?x | _ => ?y end) with y. rewrite Hd.
  destruct (decode_step bs Hb) as (d' & Hd' & Hok). assert (d' = d) as -> by congruence.
  destruct (qd_status d) eqn:E; try done. destruct (Hok eq_refl) as [_ Hc].
  unfold requests_of. rewrite (parse_fuel (length bs') (length (drop (Z.to_nat (qd_bytes_consumed d)) bs)));
    [done|by apply Forall_drop|..]; rewrite length_drop; unfold vsize in Hc; cbn [length bs] in *; lia.
Qed.

(** Well-founded induction on what is left to parse. *)
Lemma parse_ind (P : list Z -> Prop) : P [] ->
  (forall bs d, bs <> [] -> bytes_ok bs -> decode_request bs = Ok d ->
     (qd_status d = DecodeOk -> decoded_ok (qd_request d) /\ 0 < qd_bytes_consumed d <= vsize bs /\
        P (drop (Z.to_nat (qd_bytes_consumed d)) bs)) -> P bs) ->
  forall bs, bytes_ok bs -> P bs.
Proof.
  intros Hnil Hstep bs. remember (length bs) as n eqn:En. revert bs En.
  induction n as [n IH] using lt_wf_ind; intros bs -> Hb.
  destruct (decide (bs = [])) as [->|Hne]; [done|].
  destruct (decode_step bs Hb) as (d & Hd & Hok). apply (Hstep bs d); auto. intros Hs.
  destruct (Hok Hs) as [H1 H2]. split_and!; [done|lia|lia|].
  eapply IH; [|reflexivity|by apply Forall_drop]. rewrite length_drop. unfold vsize in H2. lia.
Qed.

Lemma requests_ok bs rs rest ok : bytes_ok bs -> requests_of bs = (rs, rest, ok) ->
  Forall decoded_ok rs /\ exists used, bs = used ++ rest.
Proof.
  intros Hb. revert bs Hb rs rest ok.
  refine (parse_ind (fun bs => forall rs rest ok, requests_of bs = (rs, rest, ok) ->
    Forall decoded_ok rs /\ exists used, bs = used ++ rest) _ _).
  { intros rs rest ok [= <- <- <-]. split; [constructor|by exists []]. }
  intros bs d Hne Hb Hd IH rs rest ok. rewrite (requests_step bs d) by done. destruct (qd_status d) eqn:E;
    try (intros [= <- <- <-]; split; [constructor|by exists []]).
  destruct (IH eq_refl) as (Hok & Hc & IH').
  destruct (requests_of (drop _ bs)) as [[rs' rest'] ok'] eqn:Er. intros [= <- <- <-].
  destruct (IH' _ _ _ eq_refl) as [H1 (used & H2)]. split; [by constructor|].
  exists (take (Z.to_nat (qd_bytes_consumed d)) bs ++ used). by rewrite <- app_assoc, <- H2, take_drop.
Qed.

(** Segmentation: parsing goes on where it stopped. *)
Lemma requests_app a b rs rest : bytes_ok a -> bytes_ok b -> requests_of a = (rs, rest, true) ->
  requests_of (a ++ b) =
    let '(rs', rest', ok) := requests_of (rest ++ b) in (rs ++ rs', rest', ok).
Proof.
  intros Ha Hb. revert a Ha rs rest.
  refine (parse_ind (fun a => forall rs rest, requests_of a = (rs, rest, true) -> requests_of (a ++ b) =
    let '(rs', rest', ok) := requests_of (rest ++ b) in (rs ++ rs', rest', ok)) _ _).
  { intros rs rest [= <- <-]. by destruct (requests_of ([] ++ b)) as [[? ?] ?]. }
  intros a d Hne Ha Hd IH rs rest. rewrite (requests_step a d) by done.
  destruct (qd_status d) eqn:E; try (by intros [= <- <-]); cycle 1.
  { intros [= <- <-]. by destruct (requests_of (a ++ b)) as [[? ?] ?]. }
  destruct (IH eq_refl) as (Hok & Hc & IH').
  destruct (requests_of (drop _ a)) as [[rs1 rest1] ok1] eqn:Er. intros [= <- <- ->].
  rewrite (requests_step (a ++ b) d).
  - rewrite E, drop_app_le by (unfold vsize in Hc; lia). rewrite (IH' rs1 rest1 eq_refl).
    by destruct (requests_of (rest1 ++ b)) as [[? ?] ?].
  - by apply Forall_app.
  - by destruct a.
  - apply decode_request_app; [done|]. by rewrite E.
Qed.

(** An incomplete frame is short, so what is left never fills the buffer. *)
Lemma need_more_short bs d : decode_request bs = Ok d -> qd_status d = NeedMoreData ->
  vsize bs < maximum_frame_size.
Proof.
  unfold decode_request, validate_header. intros H Hs.
  destruct (Z.ltb_spec (vsize bs) header_size); [unfold header_size, maximum_frame_size in *; lia|].
  apply bind_Ok_inv in H as (h & Hh & H).
  apply bind_Ok_inv in Hh as (m & _ & Hh). destruct (negb _); [by injection Hh as <-; injection H as <-|].
  apply bind_Ok_inv in Hh as (v & _ & Hh). destruct (negb _); [by injection Hh as <-; injection H as <-|].
  apply bind_Ok_inv in Hh as (n & _ & Hh).
  destruct (Z.ltb_spec n header_size), (Z.ltb_spec maximum_frame_size n); cbn [orb] in Hh;
    try (by injection Hh as <-; injection H as <-).
  destruct (Z.ltb_spec (vsize bs) n); [lia|].
  repeat (apply bind_Ok_inv in Hh as (? & _ & Hh)). injection Hh as <-.
  destruct (match h_type _ with NewOrder => Some New | CancelOrder => Some Cancel
    | ReplaceOrder => Some Replace | _ => None end) as [type|]; [|by injection H as <-].
  destruct (_ || _); [by injection H as <-|]. apply bind_Ok_inv in H as (p & _ & H).
  destruct p as [c|]; [|by injection H as <-]. destruct (c_order_id c =? 0); by injection H as <-.
Qed.

Lemma rest_short bs rs rest : bytes_ok bs -> requests_of bs = (rs, rest, true) -> vsize rest < maximum_frame_size.
Proof.
  intros Hb. revert bs Hb rs rest.
  refine (parse_ind (fun bs => forall rs rest, requests_of bs = (rs, rest, true) ->
    vsize rest < maximum_frame_size) _ _).
  { by intros rs rest [= <- <-]. }
  intros bs d Hne Hb Hd IH rs rest. rewrite (requests_step bs d) by done. destruct (qd_status d) eqn:E; try done.
  - destruct (IH eq_refl) as (_ & _ & IH'). destruct (requests_of (drop _ bs)) as [[rs' rest'] ok'].
    intros [= _ <- ->]. by eapply IH'.
  - intros [= _ <-]. by eapply need_more_short.
Qed.

(** ** Receiving *)

(** The bytes in the receive buffer. *)
Definition input_of (c : Connection) : list Z := take (Z.to_nat (cn_received c)) (cn_receive c).

(** What [recv] guarantees: between one byte and the space it was given. *)
Fixpoint recvs_fit (n : Z) (recvs : list RecvResult) : Prop :=
  match recvs with
  | [] => True
  | Received bs :: recvs =>
    n < receive_capacity -> bs <> [] /\ bytes_ok bs /\ n + vsize bs <= receive_capacity /\
      recvs_fit (n + vsize bs) recvs
  | _ :: recvs => recvs_fit n recvs
  end.

(** The bytes a handler receives, and whether the stream goes on. *)
Fixpoint delivered (n : Z) (recvs : list RecvResult) : list Z * bool :=
  if n <? receive_capacity then
    match recvs with
    | [] | RecvBlocked :: _ => ([], true)
    | Received bs :: recvs => let '(more, ok) := delivered (n + vsize bs) recvs in (bs ++ more, ok)
    | RecvInterrupted :: recvs => delivered n recvs
    | EndOfStream :: _ | RecvFailed :: _ => ([], false)
    end
  else ([], true).

Lemma input_size c : conn_ok c -> vsize (input_of c) = cn_received c.
Proof.
  intros H. destruct (co_receive _ H) as [Hr _]. pose proof (co_received _ H).
  unfold input_of, vsize in *. rewrite length_take. lia.
Qed.

Lemma input_bytes c : conn_ok c -> bytes_ok (input_of c).
Proof. intros H. apply Forall_take, H. Qed.

Lemma set_received_ok c buf n : conn_ok c -> vsize buf = receive_capacity -> bytes_ok buf ->
  0 <= n <= receive_capacity -> conn_ok (set_received c buf n).
Proof. intros [H1 H2 H3 H4 H5 H6] Hb Hok Hn. constructor; conn_simpl; auto. Qed.

Lemma recv_loop_ok c recvs : conn_ok c -> recvs_fit (cn_received c) recvs ->
  exists buf n, recv_loop c recvs = Ok (set_received c buf n, (delivered (cn_received c) recvs).2) /\
    conn_ok (set_received c buf n) /\
    input_of (set_received c buf n) = input_of c ++ (delivered (cn_received c) recvs).1.
Proof.
  revert c. induction recvs as [|r recvs IH]; intros c H Hf; cbn [recv_loop delivered].
  { exists (cn_receive c), (cn_received c). replace (set_received c _ _) with c by by destruct c.
    by destruct (_ <? _); cbn; rewrite app_nil_r. }
  destruct (Z.ltb_spec (cn_received c) receive_capacity) as [Hlt|Hge]; cycle 1.
  { exists (cn_receive c), (cn_received c). replace (set_received c _ _) with c by by destruct c.
    cbn. by rewrite app_nil_r. }
  assert (Hid : forall ok : bool, exists buf n, Ok (c, ok) = Ok (set_received c buf n, ok) /\
    conn_ok (set_received c buf n) /\ input_of (set_received c buf n) = input_of c ++ []).
  { intros ok. exists (cn_receive c), (cn_received c). replace (set_received c _ _) with c by by destruct c.
    by rewrite app_nil_r. }
  destruct r as [bs| | | |]; cbn [recvs_fit] in Hf; [| | | |].
  - destruct (Hf Hlt) as (Hne & Hbs & Hfit & Hrest). clear Hid.
    destruct (co_receive _ H) as [Hsz Hok]. pose proof (co_received _ H) as Hr. pose proof (vsize_nonneg bs).
    rewrite store_span_ok by lia. cbn [mbind result_bind].
    rewrite u64_small by (unfold receive_capacity in *; intlia).
    set (buf := take _ _ ++ bs ++ _).
    assert (Hbuf : vsize buf = receive_capacity).
    { unfold buf, vsize in *. rewrite !length_app, length_take, length_drop. lia. }
    assert (Hbok : bytes_ok buf).
    { unfold buf, bytes_ok. rewrite !Forall_app. split_and!; [by apply Forall_take|done|by apply Forall_drop]. }
    assert (H' : conn_ok (set_received c buf (cn_received c + vsize bs))).
    { apply set_received_ok; auto; lia. }
    destruct (IH _ H') as (buf' & n' & Hl & Hc & Hi); [conn_simpl; done|]. conn_simpl.
    exists buf', n'. destruct (delivered (cn_received c + vsize bs) recvs) as [more ok].
    split; [exact Hl|]. split; [exact Hc|].
    change (set_received (set_received c buf (cn_received c + vsize bs)) buf' n') with (set_received c buf' n') in Hi.
    rewrite Hi. cbn [fst]. rewrite app_assoc. f_equal. unfold input_of. conn_simpl. unfold buf.
    rewrite take_app_ge by (unfold vsize in *; rewrite length_take; lia).
    f_equal. apply take_app_length'. unfold vsize in *. rewrite length_take. lia.
  - apply Hid.
  - apply Hid.
  - by apply IH.
  - apply Hid.
Qed.

(** ** Handling *)

(** Requests one after the other, until one closes the connection. *)
Fixpoint handle_all (g : Gateway) (c : Connection) (rs : list Request) : result (Gateway * Connection * bool) :=
  match rs with
  | [] => Ok (g, c, true)
  | r :: rs =>
    '(g, c, ok) ← handle_request g c r;
    if (ok : bool) then handle_all g c rs else Ok (g, c, false)
  end.

(** Handling neither reads nor writes the receive buffer. *)
Definition rebuffer (buf : list Z) (n : Z) (x : Gateway * Connection * bool) : Gateway * Connection * bool :=
  let '(g, c, ok) := x in (g, set_received c buf n, ok).

Lemma queue_response_rebuffer c r buf n : queue_response (set_received c buf n) r =
  prod_map (fun c => set_received c buf n) id <$> queue_response c r.
Proof.
  unfold queue_response, make_room. conn_simpl.
  destruct (negb (cn_begin c =? 0) && (u64 (transmit_capacity - cn_end c) <? response_frame_size)); cbv zeta.
  - destruct (memmove_front _ _ _) as [bytes|]; [|done]. cbn [mbind result_bind]. conn_simpl.
    destruct (span _ _ _) as [d|]; [|done]. cbn [mbind result_bind].
    destruct (encode_response r d) as [[[[] w] d']|]; [|done|done]. cbn [mbind result_bind negb].
    by destruct (store_span _ _ _).
  - cbn [mbind result_bind]. conn_simpl.
    destruct (span _ _ _) as [d|]; [|done]. cbn [mbind result_bind].
    destruct (encode_response r d) as [[[[] w] d']|]; [|done|done]. cbn [mbind result_bind negb].
    by destruct (store_span _ _ _).
Qed.

Lemma handle_request_rebuffer g c r buf n : handle_request g (set_received c buf n) r =
  rebuffer buf n <$> handle_request g c r.
Proof.
  unfold handle_request, bind_session, reject_request. conn_simpl.
  destruct (cn_validator c) as [v|] eqn:Ev.
  - conn_simpl. rewrite Ev. destruct (validate_and_advance v r) as [v' reason].
    assert (Hs : set_session (set_received c buf n) (cn_session_id c) v' =
      set_received (set_session c (cn_session_id c) v') buf n) by done.
    rewrite Hs. destruct (negb (bool_decide (reason = NoReason))).
    + rewrite queue_response_rebuffer. by destruct (queue_response _ _) as [[c' ok]|].
    + destruct (try_push _ _) as [[q []]|]; [done| |done]. cbn [mbind result_bind negb].
      rewrite queue_response_rebuffer. by destruct (queue_response _ _) as [[c' ok]|].
  - destruct (bool_decide _); [done|]. conn_simpl.
    destruct (validate_and_advance (make_validator _ _) r) as [v' reason].
    set (c1 := set_session (set_session c _ _) _ v').
    assert (Hs : set_session (set_session (set_received c buf n) (rq_session_id r)
      (make_validator (rq_session_id r) RiskLimits_default)) (rq_session_id r) v' = set_received c1 buf n) by done.
    rewrite Hs. destruct (negb (bool_decide (reason = NoReason))).
    + rewrite queue_response_rebuffer. by destruct (queue_response _ _) as [[c' ok]|].
    + cbn [set_sessions requests]. destruct (try_push _ _) as [[q []]|]; [done| |done]. cbn [mbind result_bind negb].
      rewrite queue_response_rebuffer. by destruct (queue_response _ _) as [[c' ok]|].
Qed.

Lemma handle_all_rebuffer rs g c buf n : handle_all g (set_received c buf n) rs =
  rebuffer buf n <$> handle_all g c rs.
Proof.
  revert g c. induction rs as [|r rs IH]; intros g c; [done|]. cbn [handle_all].
  rewrite handle_request_rebuffer. destruct (handle_request g c r) as [[[g1 c1] []]|]; [|done|done].
  cbn. by rewrite IH.
Qed.

Lemma handle_all_app rs1 rs2 g c : handle_all g c (rs1 ++ rs2) =
  ('(g, c, ok) ← handle_all g c rs1; if (ok : bool) then handle_all g c rs2 else Ok (g, c, false)).
Proof.
  revert g c. induction rs1 as [|r rs1 IH]; intros g c; [done|]. cbn [app handle_all].
  destruct (handle_request g c r) as [[[g1 c1] []]|]; [|done|done]. cbn. apply IH.
Qed.
