(* ===== verification/TcpState.v ===== *)
(** * TcpState: the invariant of the network thread *)
From Stdlib Require Import ZArith Lia.
From stdpp Require Import base numbers gmap list.
From S2P Require Import Prelude Types OrderBook Bytes Protocol ProtocolFacts Gateway Spsc Runner.
From S2P Require Import TcpGateway TcpOutput TcpInput.
Local Open Scope Z_scope.

(** ** What travels through the rings *)

(** A request the engine may receive: identified, in range and within the
    limits. *)
Record admitted (r : GatewayRequest) : Prop := {
  am_session : is_u32 (gq_session_id r) /\ gq_session_id r <> 0;
  am_sequence : is_u64 (gq_client_sequence r) /\ gq_client_sequence r <> 0;
  am_command : command_ok (gq_command r);
  am_risk : violates_risk RiskLimits_default (gq_command r) = false;
  am_quantity : 0 <= c_quantity (gq_command r) <= rl_maximum_quantity RiskLimits_default }.

(** A response the engine may send. *)
Definition deliverable (r : GatewayResponse) : Prop := gs_session_id r <> 0 /\ gs_client_sequence r <> 0.

(** ** The invariant *)

Record gateway_ok (g : Gateway) : Prop := {
  gw_connection : forall fd c, connections g !! fd = Some c -> conn_ok c /\ cn_fd c = fd;
  gw_bound : forall fd c, connections g !! fd = Some c -> is_Some (cn_validator c) ->
    session_to_fd g !! cn_session_id c = Some fd;
  gw_session : forall s fd, session_to_fd g !! s = Some fd ->
    exists c, connections g !! fd = Some c /\ is_Some (cn_validator c) /\ cn_session_id c = s;
  gw_requests : exists items, holds (requests g) items /\ Forall admitted items;
  gw_responses : exists items, holds (responses g) items /\ Forall deliverable items }.

(** Between two events a receive buffer holds at most an incomplete frame. *)
Definition gateway_room (g : Gateway) : Prop :=
  forall fd c, connections g !! fd = Some c -> cn_received c < maximum_frame_size.

Lemma store_lookup g c fd : connections (store g c) !! fd =
  if decide (fd = cn_fd c) then Some c else connections g !! fd.
Proof.
  unfold store. cbn. destruct (decide (fd = cn_fd c)) as [->|]; [apply lookup_insert_eq|].
  by apply lookup_insert_ne.
Qed.

Lemma store_here g c : connections (store g c) !! cn_fd c = Some c.
Proof. rewrite store_lookup. by rewrite decide_True. Qed.

Lemma store_conn g c : gateway_ok (store g c) -> conn_ok c.
Proof. intros H. by apply (gw_connection _ H (cn_fd c) c), store_here. Qed.

(** Replacing a connection by one with the same identity. *)
Lemma store_same g c c' : gateway_ok (store g c) -> conn_ok c' -> cn_fd c' = cn_fd c ->
  cn_session_id c' = cn_session_id c -> (is_Some (cn_validator c') <-> is_Some (cn_validator c)) ->
  gateway_ok (store g c').
Proof.
  intros [H1 H2 H3 H4 H5] Hc Hfd Hs Hv. constructor; [..|exact H4|exact H5].
  - intros fd x. rewrite store_lookup. destruct (decide (fd = cn_fd c')) as [->|Hne]; [by intros [= <-]|].
    intros Hx. apply H1. rewrite store_lookup. rewrite decide_False by congruence. done.
  - intros fd x. rewrite store_lookup. destruct (decide (fd = cn_fd c')) as [->|Hne].
    + intros [= <-] Hx. rewrite Hs, Hfd. apply (H2 (cn_fd c) c); [apply store_here|by apply Hv].
    + intros Hx. apply H2. rewrite store_lookup. by rewrite decide_False by congruence.
  - intros s fd Hsf. destruct (H3 s fd Hsf) as (x & Hx & Hxv & Hxs). rewrite store_lookup in Hx |- *.
    rewrite Hfd. destruct (decide (fd = cn_fd c)) as [->|]; [|by eauto]. injection Hx as <-.
    exists c'. split_and!; [done|by apply Hv|congruence].
Qed.

(** Binding a session that is free. *)
Lemma store_bind g c s v : gateway_ok (store g c) -> cn_validator c = None ->
  session_to_fd g !! s = None -> conn_ok (set_session c s v) ->
  gateway_ok (store (set_sessions g (<[s := cn_fd c]> (session_to_fd g))) (set_session c s v)).
Proof.
  intros [H1 H2 H3 H4 H5] Hnone Hfree Hc. constructor; [..|exact H4|exact H5].
  - intros fd x. rewrite store_lookup. conn_simpl. destruct (decide (fd = cn_fd c)) as [->|Hne]; [by intros [= <-]|].
    intros Hx. apply H1. rewrite store_lookup. by rewrite decide_False by done.
  - intros fd x. rewrite store_lookup. conn_simpl. destruct (decide (fd = cn_fd c)) as [->|Hne].
    + intros [= <-] _. conn_simpl. apply lookup_insert_eq.
    + intros Hx Hxv. assert (Hx' : session_to_fd g !! cn_session_id x = Some fd).
      { apply (H2 fd x); [|done]. rewrite store_lookup. by rewrite decide_False by done. }
      cbn. rewrite lookup_insert_ne; [done|]. congruence.
  - intros s' fd. cbn [store set_sessions set_connections session_to_fd].
    rewrite store_lookup. conn_simpl. destruct (decide (s' = s)) as [->|Hne].
    + rewrite lookup_insert_eq. intros [= <-]. rewrite decide_True by done. by exists (set_session c s v).
    + rewrite lookup_insert_ne by done. intros Hsf. destruct (H3 s' fd Hsf) as (x & Hx & Hxv & Hxs).
      rewrite store_lookup in Hx. destruct (decide (fd = cn_fd c)); [|by eauto].
      injection Hx as <-. destruct Hxv as [? Hxv]. congruence.
Qed.

Lemma fresh_session_ok c s : conn_ok c -> is_u32 s -> s <> 0 ->
  conn_ok (set_session c s (make_validator s RiskLimits_default)).
Proof.
  intros [A1 A2 A3 A4 A5 A6] Hs Hne. constructor; conn_simpl; auto. split_and!; cbn; try done; intlia.
Qed.

Lemma set_requests_ok g c q items : gateway_ok (store g c) -> holds q items -> Forall admitted items ->
  gateway_ok (store (set_requests g q) c).
Proof. intros [H1 H2 H3 H4 H5] Hq Hi. constructor; [exact H1|exact H2|exact H3|by exists items|exact H5]. Qed.

(** ** Handling one request *)

Lemma reject_request_ok c r reason : conn_ok c -> request_ok r -> exists c' ok,
  reject_request c r reason = Ok (c', ok) /\ conn_ok c' /\ same_input c c'.
Proof.
  intros Hc Hr. unfold reject_request.
  destruct (queue_response_ok c (MkResponse (rq_session_id r) (rq_client_sequence r)
    (gateway_rejection r reason)) Hc) as (c' & H1 & H2 & H3); [split; apply Hr|].
  exists c'. destruct (_ <=? _); destruct H3 as [H3 _]; by eexists.
Qed.

(** What a handler does to the ring of requests. *)
Inductive pushes (q : SpscQueue GatewayRequest) : SpscQueue GatewayRequest -> Prop :=
  | pushes_none : pushes q q
  | pushes_more q1 q2 r : pushes q q1 -> admitted r -> try_push q1 r = Ok (q2, true) -> pushes q q2.

Lemma pushes_trans q1 q2 q3 : pushes q1 q2 -> pushes q2 q3 -> pushes q1 q3.
Proof. intros H1 H2. induction H2; [done|]. by eapply pushes_more. Qed.

(** The outcome of a handler on a connection that was taken out of the map. *)
Record handled (g : Gateway) (c : Connection) (g' : Gateway) (c' : Connection) : Prop := {
  hd_ok : gateway_ok (store g' c');
  hd_fd : cn_fd c' = cn_fd c;
  hd_connections : connections g' = connections g;
  hd_closed : closed g' = closed g;
  hd_responses : responses g' = responses g;
  hd_pushes : pushes (requests g) (requests g');
  hd_receive : cn_receive c' = cn_receive c;
  hd_received : cn_received c' = cn_received c }.

Lemma handled_refl g c : gateway_ok (store g c) -> handled g c g c.
Proof. constructor; try done. constructor. Qed.

Lemma handled_trans g c g1 c1 g2 c2 : handled g c g1 c1 -> handled g1 c1 g2 c2 -> handled g c g2 c2.
Proof. intros [] []. constructor; try congruence. by eapply pushes_trans. Qed.

Lemma bind_session_ok g c r : gateway_ok (store g c) -> request_ok r ->
  match bind_session g c r with
  | None => True
  | Some (g1, c1) => handled g c g1 c1 /\ is_Some (cn_validator c1)
  end.
Proof.
  intros H Hr. pose proof (store_conn g c H) as Hc. unfold bind_session.
  destruct (cn_validator c) as [v|] eqn:Ev; [split; [by apply handled_refl|by eexists]|].
  destruct (session_to_fd g !! rq_session_id r) as [fd|] eqn:Es.
  { by rewrite bool_decide_eq_true_2. }
  rewrite bool_decide_eq_false_2 by (intros [? ?]; done). split; [|by eexists].
  constructor; try done; [|constructor].
  apply store_bind; auto. destruct (ro_session _ Hr). by apply fresh_session_ok.
Qed.

Lemma validate_step v r : is_u64 (sv_next_sequence v) ->
  let '(v', reason) := validate_and_advance v r in
  sv_session_id v' = sv_session_id v /\ sv_limits v' = sv_limits v /\ is_u64 (sv_next_sequence v') /\
  (reason = NoReason -> violates_risk (sv_limits v) (rq_command r) = false).
Proof.
  intros Hn. unfold validate_and_advance. destruct (_ || _); [done|]. cbn [sv_limits].
  destruct (violates_risk _ _); cbn; (split_and!; [done|done|apply u64_range|done]).
Qed.

Lemma within_quantity limits c : violates_risk limits c = false -> 0 <= c_quantity c ->
  0 <= rl_maximum_quantity limits -> (c_type c = Cancel -> c_quantity c = 0) ->
  0 <= c_quantity c <= rl_maximum_quantity limits.
Proof.
  unfold violates_risk. intros H Hq Hm Hc. destruct (decide (c_type c = Cancel)) as [E|E].
  { rewrite (Hc E). lia. }
  rewrite bool_decide_eq_false_2 in H by done.
  destruct (Z.eqb_spec (c_quantity c) 0); [done|]. destruct (Z.ltb_spec (rl_maximum_quantity limits) (c_quantity c)); [done|].
  lia.
Qed.

Lemma handle_request_ok g c r : gateway_ok (store g c) -> decoded_ok r ->
  exists g' c' ok, handle_request g c r = Ok (g', c', ok) /\ handled g c g' c'.
Proof.
  intros H [Hr Hcancel]. pose proof (bind_session_ok g c r H Hr) as Hb. unfold handle_request.
  destruct (bind_session g c r) as [[g1 c1]|]; [|by exists g, c, false; split; [|apply handled_refl]].
  destruct Hb as [Hb [v Ev]]. rewrite Ev. pose proof (store_conn _ _ (hd_ok _ _ _ _ Hb)) as Hc1.
  pose proof (co_validator _ Hc1) as Hv. rewrite Ev in Hv. destruct Hv as (Hv1 & Hv2 & Hv3 & Hv4 & Hv5).
  pose proof (validate_step v r Hv5) as Hs. destruct (validate_and_advance v r) as [v' reason].
  destruct Hs as (Hs1 & Hs2 & Hs3 & Hs4). set (c2 := set_session c1 (cn_session_id c1) v').
  assert (Hc2 : conn_ok c2).
  { destruct Hc1 as [A1 A2 A3 A4 A5 A6]. constructor; unfold c2; conn_simpl; auto.
    split_and!; [congruence|apply Hv2..|done|congruence|done]. }
  assert (Hkeep : forall g2 c3, gateway_ok (store g2 c1) -> connections g2 = connections g1 -> closed g2 = closed g1 ->
    responses g2 = responses g1 -> pushes (requests g1) (requests g2) -> conn_ok c3 ->
    same_input c2 c3 -> handled g c g2 c3).
  { intros g2 c3 Hg2 Hcs Hcl Hrs Hps Hc3 (E1 & E2 & E3 & E4 & E5). eapply handled_trans; [exact Hb|].
    constructor; [|by rewrite E1|done|done|done|done|by rewrite E4|by rewrite E5].
    eapply store_same; [exact Hg2|done|done|done|]. rewrite E3, Ev. unfold c2. conn_simpl. split; by eexists. }
  destruct (bool_decide (reason = NoReason)) eqn:Er; cbn [negb].
  - apply bool_decide_eq_true in Er. specialize (Hs4 Er). rewrite Hv4 in Hs4.
    destruct (gw_requests _ (hd_ok _ _ _ _ Hb)) as (items & Hq & Hi). cbn [store set_connections requests] in Hq.
    set (req := MkGatewayRequest _ _ _).
    assert (Hreq : admitted req).
    { constructor; cbn [gq_session_id gq_client_sequence gq_command req]; try apply Hr; [done|].
      apply (within_quantity RiskLimits_default); auto; [apply (cok_quantity _ (ro_command _ Hr))|].
      cbn. lia. }
    destruct (try_push_ok (requests g1) items req Hq) as [(_ & q' & Hpush & Hq' & _)|[_ ->]];
      [rewrite Hpush|]; cbn [mbind result_bind negb].
    + exists (set_requests g1 q'), c2, true. split; [done|].
      apply Hkeep; try done; [|eapply pushes_more; [constructor|exact Hreq|exact Hpush]].
      eapply set_requests_ok; [apply Hb|exact Hq'|]. apply Forall_app. split; [done|by apply Forall_singleton].
    + destruct (reject_request_ok c2 r GatewayBackpressure Hc2 Hr) as (c3 & ok & -> & Hc3 & Hin).
      cbn [mbind result_bind]. eexists _, c3, ok. split; [done|]. apply Hkeep; auto; [destruct g1; apply Hb|constructor].
  - destruct (reject_request_ok c2 r reason Hc2 Hr) as (c3 & ok & -> & Hc3 & Hin).
    cbn [mbind result_bind]. exists g1, c3, ok. split; [done|]. apply Hkeep; auto; [apply Hb|constructor].
Qed.

Lemma handle_all_ok rs g c : gateway_ok (store g c) -> Forall decoded_ok rs ->
  exists g' c' ok, handle_all g c rs = Ok (g', c', ok) /\ handled g c g' c'.
Proof.
  intros H Hrs. revert g c H. induction Hrs as [|r rs Hr _ IH]; intros g c H; cbn [handle_all].
  { exists g, c, true. split; [done|by apply handled_refl]. }
  destruct (handle_request_ok g c r H Hr) as (g1 & c1 & ok & -> & H1). cbn [mbind result_bind].
  destruct ok; [|by exists g1, c1, false].
  destruct (IH g1 c1 (hd_ok _ _ _ _ H1)) as (g2 & c2 & ok & Hh & H2). exists g2, c2, ok.
  split; [done|]. by eapply handled_trans.
Qed.

(** ** The decoding loop *)

Lemma rest_size bs rs rest ok : bytes_ok bs -> requests_of bs = (rs, rest, ok) -> vsize rest <= vsize bs.
Proof.
  intros Hb E. destruct (requests_ok bs rs rest ok Hb E) as [_ [used ->]]. rewrite vsize_app.
  pose proof (vsize_nonneg used). lia.
Qed.

(** One round, by what the bytes from [consumed] on start with: nothing or an
    incomplete frame, a malformed one, or a request. *)
Inductive round_of (g : Gateway) (c : Connection) (consumed : Z) (bs : list Z) : Prop :=
  | round_short : decode_one g c consumed = Ok (g, c, Finished (Some consumed)) ->
      requests_of bs = ([], bs, true) -> round_of g c consumed bs
  | round_malformed : decode_one g c consumed = Ok (g, c, Finished None) ->
      requests_of bs = ([], bs, false) -> round_of g c consumed bs
  | round_request r n rs rest ok : decoded_ok r -> 0 < n <= vsize bs ->
      requests_of (drop (Z.to_nat n) bs) = (rs, rest, ok) -> requests_of bs = (r :: rs, rest, ok) ->
      decode_one g c consumed = ('(g, c, kept) ← handle_request g c r;
        Ok (g, c, if (kept : bool) then More (consumed + n) else Finished None)) ->
      round_of g c consumed bs.

Lemma unread_size c consumed : conn_ok c -> 0 <= consumed <= cn_received c ->
  vsize (drop (Z.to_nat consumed) (input_of c)) = cn_received c - consumed.
Proof. intros Hc Hr. pose proof (input_size c Hc) as Hi. unfold vsize in *. rewrite length_drop. lia. Qed.

Lemma decode_one_ok g c consumed : conn_ok c -> 0 <= consumed <= cn_received c ->
  round_of g c consumed (drop (Z.to_nat consumed) (input_of c)).
Proof.
  intros Hok Hc. destruct (co_receive _ Hok) as [Hsz _]. pose proof (co_received _ Hok) as Hr.
  pose proof (unread_size c consumed Hok Hc) as Hbl. set (bs := drop (Z.to_nat consumed) (input_of c)) in *.
  assert (Hbs : bytes_ok bs) by (by apply Forall_drop, input_bytes).
  destruct (Z.ltb_spec consumed (cn_received c)) as [Hlt|Hge]; cycle 1.
  { assert (bs = []) as -> by (apply nil_length_inv; unfold vsize in Hbl; lia). apply round_short; [|done].
    unfold decode_one. by rewrite (proj2 (Z.ltb_ge _ _)). }
  assert (Hin : take (Z.to_nat (cn_received c - consumed)) (drop (Z.to_nat consumed) (cn_receive c)) = bs).
  { unfold bs, input_of. rewrite skipn_firstn_comm. f_equal. lia. }
  assert (Hne : bs <> []) by (intros E; rewrite E in Hbl; unfold vsize in Hbl; cbn in Hbl; lia).
  destruct (decode_step bs Hbs) as (d & Hd & Hdok). pose proof (requests_step bs d Hbs Hne Hd) as Hstep.
  assert (Hone : decode_one g c consumed = match qd_status d with
    | NeedMoreData => Ok (g, c, Finished (Some consumed))
    | DecodeOk => '(g, c, ok) ← handle_request g c (qd_request d);
        Ok (g, c, if (ok : bool) then More (u64 (consumed + qd_bytes_consumed d)) else Finished None)
    | _ => Ok (g, c, Finished None)
    end).
  { unfold decode_one, receive_capacity in *. rewrite (proj2 (Z.ltb_lt _ _)), u64_small, span_ok by (lia || intlia).
    cbn [mbind result_bind]. by rewrite Hin, Hd. }
  destruct (qd_status d) eqn:E; try by apply round_malformed.
  - destruct (Hdok eq_refl) as [Hreq Hcons]. destruct (requests_of (drop _ bs)) as [[rs rest] more] eqn:Er.
    rewrite u64_small in Hone by (unfold receive_capacity in *; intlia). by eapply round_request.
  - by apply round_short.
Qed.

(** The loop handles the requests of the bytes from [consumed] on, and stops
    before the bytes that are left. *)
Lemma decode_loop_ok fuel g c consumed : gateway_ok (store g c) -> 0 <= consumed <= cn_received c ->
  cn_received c - consumed < Z.of_nat fuel ->
  let '(rs, rest, more) := requests_of (drop (Z.to_nat consumed) (input_of c)) in
  decode_loop fuel g c consumed =
    ('(g, c', ok) ← handle_all g c rs;
     Ok (g, c', if (ok : bool) && more then Some (cn_received c - vsize rest) else None)).
Proof.
  revert g c consumed. induction fuel as [|fuel IH]; intros g c consumed H Hc Hf; [lia|].
  pose proof (store_conn g c H) as Hok. pose proof (unread_size c consumed Hok Hc) as Hbl. cbn [decode_loop].
  destruct (decode_one_ok g c consumed Hok Hc) as [E1 E2|E1 E2|r n rs rest ok Hreq Hn Hr E2 E1]; rewrite E1, E2;
    cbn [mbind result_bind].
  - cbn [handle_all]. cbn. do 3 f_equal. lia.
  - done.
  - destruct (handle_request_ok g c r H Hreq) as (g1 & c1 & kept & Hh & Hhd). cbn [handle_all]. rewrite Hh.
    cbn [mbind result_bind]. destruct kept; [|done].
    specialize (IH g1 c1 (consumed + n) (hd_ok _ _ _ _ Hhd)).
    rewrite (hd_received _ _ _ _ Hhd) in IH. specialize (IH ltac:(lia) ltac:(lia)).
    assert (Hd1 : drop (Z.to_nat (consumed + n)) (input_of c1) =
      drop (Z.to_nat n) (drop (Z.to_nat consumed) (input_of c))).
    { unfold input_of. rewrite (hd_receive _ _ _ _ Hhd), (hd_received _ _ _ _ Hhd), drop_drop. f_equal. lia. }
    rewrite Hd1, Hr in IH. rewrite IH. done.
Qed.

(** ** Reading *)

(** What ends [read_requests]: the consumed bytes are dropped. *)
Lemma finish_read_ok g c used rest : gateway_ok (store g c) -> input_of c = used ++ rest ->
  vsize rest < maximum_frame_size ->
  exists c', finish_read c (Some (vsize used)) = Ok (c', true) /\ gateway_ok (store g c') /\
    input_of c' = rest /\ cn_received c' < maximum_frame_size /\
    c' = set_received c (cn_receive c') (cn_received c').
Proof.
  intros H Hin Hshort. pose proof (store_conn _ _ H) as Hc.
  pose proof (input_size _ Hc) as Hsz. rewrite Hin, vsize_app in Hsz.
  pose proof (vsize_nonneg used) as Hu. pose proof (vsize_nonneg rest) as Hrn.
  destruct (co_receive _ Hc) as [Hcap Hby]. pose proof (co_received _ Hc) as Hr.
  unfold finish_read, receive_capacity, maximum_frame_size in *.
  destruct (Z.eqb_spec (vsize used) 0) as [E0|E0]; cbn [negb mbind result_bind].
  { assert (used = []) as -> by (apply nil_length_inv; unfold vsize in E0; lia).
    exists c. rewrite (proj2 (Z.eqb_neq _ _)) by lia. split; [done|]. split; [done|]. split; [done|].
    split; [lia|]. by destruct c. }
  rewrite u64_small by intlia. rewrite memmove_ok by lia. cbn [mbind result_bind]. set (buf := take _ _ ++ _).
  assert (Hb : vsize buf = 64 * 1024) by (unfold buf; rewrite memmove_size; lia).
  assert (Hok : bytes_ok buf) by (apply Forall_app; split; [by apply Forall_take, Forall_drop|by apply Forall_drop]).
  conn_simpl. rewrite (proj2 (Z.eqb_neq _ _)) by lia.
  eexists. split; [reflexivity|]. conn_simpl. split; [|split; [|split; [lia|done]]].
  - eapply store_same; [exact H| |done..]. apply set_received_ok; auto; unfold receive_capacity; lia.
  - unfold input_of. conn_simpl. unfold buf. rewrite take_app_length'; cycle 1.
    { unfold vsize in *. rewrite length_take, length_drop. lia. }
    assert (Hd : drop (Z.to_nat (vsize used)) (input_of c) = rest).
    { rewrite Hin. apply drop_app_length'. unfold vsize. lia. }
    rewrite <- Hd. unfold input_of. rewrite skipn_firstn_comm. f_equal. lia.
Qed.

(** [read_requests] in terms of the bytes it receives: it handles the requests
    of the buffered bytes and the received ones, keeps the incomplete frame
    that is left, and the connection stays open exactly when every request was
    handled and no frame was malformed. *)
Lemma read_requests_ok g c recvs : gateway_ok (store g c) -> recvs_fit (cn_received c) recvs ->
  let '(bs, more) := delivered (cn_received c) recvs in
  let '(rs, rest, ok) := requests_of (input_of c ++ bs) in
  exists g' c' keep, read_requests g c recvs = Ok (g', c', keep) /\ gateway_ok (store g' c') /\
    (cn_fd c' = cn_fd c /\ connections g' = connections g /\ responses g' = responses g /\
      pushes (requests g) (requests g')) /\
    (if (more : bool) then
       exists c1 h, handle_all g c rs = Ok (g', c1, h) /\ keep = h && ok /\
         c' = set_received c1 (cn_receive c') (cn_received c')
     else keep = false) /\
    (keep = true -> input_of c' = rest /\ cn_received c' < maximum_frame_size).
Proof.
  intros H Hf. pose proof (store_conn g c H) as Hc. unfold read_requests.
  destruct (recv_loop_ok c recvs Hc Hf) as (buf & n & -> & Hc1 & Hi).
  destruct (delivered (cn_received c) recvs) as [bs more]. cbn [fst snd] in *.
  set (c0 := set_received c buf n) in *.
  assert (H0 : gateway_ok (store g c0)) by by apply (store_same g c).
  cbn [mbind result_bind].
  destruct (requests_of (input_of c ++ bs)) as [[rs rest] ok] eqn:Er.
  destruct more; cbn [negb]; [|exists g, c0, false; split_and!; try done; constructor].
  pose proof (co_received _ Hc1) as Hr0.
  pose proof (decode_loop_ok (S (Z.to_nat (cn_received c0))) g c0 0 H0 ltac:(lia) ltac:(lia)) as Hd.
  change (drop (Z.to_nat 0) (input_of c0)) with (input_of c0) in Hd.
  rewrite Hi, Er in Hd. rewrite Hd. clear Hd.
  assert (Hb : bytes_ok (input_of c ++ bs)) by (rewrite <- Hi; by apply input_bytes).
  destruct (requests_ok _ _ _ _ Hb Er) as [Hrs [used Hused]].
  pose proof (handle_all_rebuffer rs g c buf n) as Hreb. fold c0 in Hreb.
  destruct (handle_all_ok rs g c0 H0 Hrs) as (g1 & c1 & kept & Hh & Hhd). rewrite Hh. cbn [mbind result_bind].
  rewrite Hh in Hreb. destruct (handle_all g c rs) as [[[g2 c2] kept2]|] eqn:Eh; [|done].
  cbn [rebuffer fmap result_fmap] in Hreb. injection Hreb as <- Ec1 <-.
  pose proof (hd_ok _ _ _ _ Hhd) as Hgok.
  assert (Hrest : cn_fd c1 = cn_fd c /\ connections g1 = connections g /\ responses g1 = responses g /\
    pushes (requests g) (requests g1)) by (destruct Hhd; done).
  destruct (kept && ok) eqn:Eko; cycle 1.
  { exists g1, c1, false. split; [done|]. split; [done|]. split; [done|]. split; [|done].
    exists c2, kept. rewrite Ec1. by conn_simpl. }
  apply andb_true_iff in Eko as [-> ->].
  destruct (finish_read_ok g1 c1 used rest Hgok) as (c3 & Hc3 & Hg3 & Hi3 & Hr3 & Hb3).
  { unfold input_of. rewrite (hd_receive _ _ _ _ Hhd), (hd_received _ _ _ _ Hhd), <- Hused. exact Hi. }
  { by eapply rest_short. }
  assert (Hcons : cn_received c0 - vsize rest = vsize used).
  { pose proof (input_size _ Hc1) as Hsz. rewrite Hi, Hused, vsize_app in Hsz. fold c0 in Hsz. lia. }
  rewrite Hcons, Hc3. cbn [mbind result_bind].
  exists g1, c3, true. split; [done|]. split; [done|].
  split; [by rewrite Hb3|]. split; [|done].
  exists c2, true. split; [done|]. split; [done|]. rewrite Hb3, Ec1. done.
Qed.

(** ** Opening and closing connections *)

Lemma zeros_size n : 0 <= n -> vsize (replicate (Z.to_nat n) 0) = n.
Proof. intros Hn. unfold vsize. rewrite length_replicate. lia. Qed.

Lemma make_connection_ok fd : conn_ok (make_connection fd).
Proof.
  constructor.
  - split; [by apply zeros_size|]. apply Forall_replicate. by split.
  - by split.
  - by apply zeros_size.
  - by split_and!.
  - reflexivity.
  - reflexivity.
Qed.

Lemma accept_one_ok g fd nonblocking registered : gateway_ok g -> gateway_room g ->
  gateway_ok (accept_one g fd nonblocking registered) /\ gateway_room (accept_one g fd nonblocking registered).
Proof.
  intros H Hroom. unfold accept_one. destruct nonblocking, registered; cbn [negb]; try done.
  destruct (connections g !! fd) as [c|] eqn:Ec; [done|].
  change (set_connections g _) with (store g (make_connection fd)). split.
  - destruct H as [H1 H2 H3 H4 H5]. constructor; [..|exact H4|exact H5].
    + intros fd' c. rewrite store_lookup. destruct (decide _) as [->|]; [|apply H1].
      intros [= <-]. split; [apply make_connection_ok|done].
    + intros fd' c. rewrite store_lookup. destruct (decide _) as [->|]; [|apply H2]. intros [= <-] [? ?]. done.
    + intros s fd' Hs. destruct (H3 s fd' Hs) as (c & Hc & ?). exists c. split; [|done].
      rewrite store_lookup. rewrite decide_False; [done|]. intros ->. cbn in Hc. congruence.
  - intros fd' c. rewrite store_lookup. destruct (decide _) as [->|]; [|apply Hroom]. by intros [= <-].
Qed.

(** A session that is set belongs to a connection with a validator. *)
Lemma session_bound c : conn_ok c -> (cn_session_id c <> 0 <-> is_Some (cn_validator c)).
Proof.
  intros H. pose proof (co_validator _ H) as Hv. destruct (cn_validator c) as [v|].
  - split; [by eexists|]. intros _. apply Hv.
  - split; [done|]. by intros [].
Qed.

Lemma close_lookup g fd fd' : connections (close_connection g fd) !! fd' =
  if decide (fd' = fd) then None else connections g !! fd'.
Proof.
  unfold close_connection. destruct (connections g !! fd) as [c|] eqn:Ec; cycle 1.
  { destruct (decide (fd' = fd)) as [->|]; done. }
  destruct (cn_session_id c =? 0); cbn; (destruct (decide (fd' = fd)) as [->|];
    [apply lookup_delete_eq|by apply lookup_delete_ne]).
Qed.

(** Closing frees exactly the session of the connection. *)
Lemma close_session g fd s : gateway_ok g -> session_to_fd (close_connection g fd) !! s =
  if decide (session_to_fd g !! s = Some fd) then None else session_to_fd g !! s.
Proof.
  intros H. unfold close_connection. destruct (connections g !! fd) as [c|] eqn:Ec; cycle 1.
  { destruct (decide _) as [E|]; [|done]. destruct (gw_session _ H s fd E) as (c & Hc & _). congruence. }
  destruct (gw_connection _ H fd c Ec) as [Hc _]. pose proof (session_bound c Hc) as Hb.
  assert (Hs : session_to_fd g !! s = Some fd -> cn_session_id c <> 0 /\ s = cn_session_id c).
  { intros E. destruct (gw_session _ H s fd E) as (c' & Hc' & Hv & <-). assert (c' = c) as -> by congruence.
    split; [by apply Hb|done]. }
  destruct (Z.eqb_spec (cn_session_id c) 0) as [E0|E0]; cbn [negb set_connections set_sessions session_to_fd].
  { rewrite decide_False; [done|]. intros E. by destruct (Hs E). }
  pose proof (gw_bound _ H fd c Ec (proj1 Hb E0)) as Hbound.
  destruct (decide (session_to_fd g !! s = Some fd)) as [E|E].
  - destruct (Hs E) as [_ ->]. apply lookup_delete_eq.
  - apply lookup_delete_ne. intros <-. done.
Qed.

Lemma close_rings g fd : requests (close_connection g fd) = requests g /\
  responses (close_connection g fd) = responses g.
Proof. unfold close_connection. destruct (connections g !! fd) as [c|]; [|done]. by destruct (_ =? _). Qed.

Lemma close_connection_ok g fd : gateway_ok g -> gateway_ok (close_connection g fd).
Proof.
  intros H. pose proof (close_session g fd) as Hs. destruct (close_rings g fd) as [Hq Hr].
  constructor; rewrite ?Hq, ?Hr; [..|apply H|apply H].
  - intros fd' c. rewrite close_lookup. destruct (decide _); [done|]. apply H.
  - intros fd' c. rewrite close_lookup. destruct (decide _); [done|]. intros Hc Hv.
    pose proof (gw_bound _ H fd' c Hc Hv) as Hb. rewrite Hs by done. rewrite decide_False; [done|]. congruence.
  - intros s fd'. rewrite Hs, close_lookup by done. destruct (decide (session_to_fd g !! s = Some fd)); [done|].
    intros E. rewrite decide_False by congruence. by apply H.
Qed.

Lemma close_room g fd : gateway_room g -> gateway_room (close_connection g fd).
Proof. intros H fd' c. rewrite close_lookup. destruct (decide _); [done|]. apply H. Qed.

(** The buffers of a connection do not matter once it is closed. *)
Lemma close_store g c c' : cn_fd c' = cn_fd c -> cn_session_id c' = cn_session_id c ->
  close_connection (store g c') (cn_fd c) = close_connection (store g c) (cn_fd c).
Proof.
  intros Hfd Hs. unfold close_connection, store. cbn [set_connections connections]. rewrite Hfd, !lookup_insert_eq, Hs.
  unfold set_connections, set_sessions. destruct (negb _); cbn; by rewrite !delete_insert_eq.
Qed.
