(* ===== verification/TcpEvents.v ===== *)
(** * TcpEvents: draining the engine and handling an epoll event

    [session_output] is what a session's connection still owes its peer;
    [deliver] is the effect of one response on it. *)
From Stdlib Require Import ZArith Lia.
From stdpp Require Import base numbers gmap list.
From S2P Require Import Prelude Types Bytes Protocol ProtocolFacts Gateway Spsc Runner.
From S2P Require Import TcpGateway TcpOutput TcpInput TcpState.
Local Open Scope Z_scope.

(** ** Routing *)

(** The bytes queued for a session; [None] when no connection serves it. *)
Definition session_output (g : Gateway) (s : Z) : option (list Z) :=
  fd ← session_to_fd g !! s; c ← connections g !! fd; Some (pending_output c).

Definition wire_of (r : GatewayResponse) : Response :=
  MkResponse (gs_session_id r) (gs_client_sequence r) (gs_event r).

(** The specification of routing: a response is appended to the output of its
    session; a session whose output has no room for it is dropped. *)
Definition deliver (s : Z) (output : option (list Z)) (r : GatewayResponse) : option (list Z) :=
  if decide (gs_session_id r = s)
  then queued ← output;
       if vsize queued + response_frame_size <=? transmit_capacity
       then Some (queued ++ response_frame (wire_of r)) else None
  else output.

(** What draining leaves alone. *)
Definition drained_from (g g' : Gateway) : Prop :=
  requests g' = requests g /\
  forall fd c', connections g' !! fd = Some c' -> exists c, connections g !! fd = Some c /\ same_input c c' /\
    (cn_validator c = None -> c' = c).

Lemma drained_refl g : drained_from g g.
Proof. split; [done|]. intros fd c Hc. by exists c. Qed.

Lemma drained_trans g1 g2 g3 : drained_from g1 g2 -> drained_from g2 g3 -> drained_from g1 g3.
Proof.
  intros [H1 H2] [H3 H4]. split; [congruence|]. intros fd c3 Hc3. destruct (H4 fd c3 Hc3) as (c2 & Hc2 & Hi & Hn).
  destruct (H2 fd c2 Hc2) as (c1 & Hc1 & Hi' & Hn'). exists c1. split; [done|]. unfold same_input in *.
  destruct Hi as (?&?&?&?&?), Hi' as (?&?&?&?&?). split; [split_and!; congruence|].
  intros E. specialize (Hn' E) as ->. auto.
Qed.

Lemma drained_room g g' : drained_from g g' -> gateway_room g -> gateway_room g'.
Proof.
  intros [_ H] Hr fd c' Hc'. destruct (H fd c' Hc') as (c & Hc & (_ & _ & _ & _ & ->) & _). by apply (Hr fd).
Qed.

Lemma output_of_bound g fd c : gateway_ok g -> connections g !! fd = Some c -> is_Some (cn_validator c) ->
  session_output g (cn_session_id c) = Some (pending_output c).
Proof. intros H Hc Hv. unfold session_output. rewrite (gw_bound _ H fd c Hc Hv). cbn. by rewrite Hc. Qed.

(** Closing a connection only ends its own session. *)
Lemma close_output g fd s : gateway_ok g -> session_output (close_connection g fd) s =
  if decide (session_to_fd g !! s = Some fd) then None else session_output g s.
Proof.
  intros H. unfold session_output. rewrite close_session by done.
  destruct (decide (session_to_fd g !! s = Some fd)) as [E|E]; [done|].
  destruct (session_to_fd g !! s) as [fd'|]; [|done]. cbn. rewrite close_lookup. by rewrite decide_False by congruence.
Qed.

Lemma set_responses_ok g q items : gateway_ok g -> holds q items -> Forall deliverable items ->
  gateway_ok (set_responses g q).
Proof. intros [H1 H2 H3 H4 H5] Hq Hi. constructor; [exact H1|exact H2|exact H3|exact H4|by exists items]. Qed.

(** Replacing the connection of a session by one with more output. *)
Lemma store_output g fd c c' s : gateway_ok g -> connections g !! fd = Some c -> is_Some (cn_validator c) ->
  same_input c c' -> session_output (store g c') s =
    if decide (cn_session_id c = s) then Some (pending_output c') else session_output g s.
Proof.
  intros H Hc Hv (Hfd & Hs & _). destruct (gw_connection _ H fd c Hc) as [_ Hfd']. unfold session_output.
  cbn [store set_connections session_to_fd]. destruct (decide (cn_session_id c = s)) as [<-|Hne].
  - rewrite (gw_bound _ H fd c Hc Hv). cbn. by rewrite Hfd, Hfd', lookup_insert_eq.
  - destruct (session_to_fd g !! s) as [fd'|] eqn:E; [|done]. cbn. rewrite Hfd, Hfd', lookup_insert_ne; [done|].
    intros <-. destruct (gw_session _ H s fd E) as (x & Hx & _ & Hxs). congruence.
Qed.

Lemma store_existing g fd c : gateway_ok g -> connections g !! fd = Some c -> gateway_ok (store g c).
Proof.
  intros H Hc. destruct (gw_connection _ H fd c Hc) as [_ <-]. replace (store g c) with g; [done|].
  unfold store, set_connections. destruct g as [cs ss rq rs]. cbn in *. by rewrite insert_id.
Qed.

(** One round of the loop. *)
Lemma drain_one_ok g items : gateway_ok g -> holds (responses g) items -> Forall deliverable items ->
  match items with
  | [] => drain_one g = Ok (g, false)
  | r :: rest => exists g', drain_one g = Ok (g', true) /\ gateway_ok g' /\ holds (responses g') rest /\
      drained_from g g' /\ forall s, session_output g' s = deliver s (session_output g s) r
  end.
Proof.
  intros H Hq Hi. pose proof (try_pop_ok (responses g) items Hq) as Hp. unfold drain_one.
  destruct items as [|r rest]; [rewrite Hp; cbn; by destruct g|].
  destruct Hp as (q & -> & Hq' & _). cbn [mbind result_bind]. apply Forall_cons in Hi as [Hr Hrest].
  set (g1 := set_responses g q). assert (H1 : gateway_ok g1) by by eapply set_responses_ok.
  assert (Hout : forall s, session_output g1 s = session_output g s) by done.
  assert (Hd1 : drained_from g g1) by (split; [done|]; intros fd c Hc; by exists c).
  change (session_to_fd (set_responses g q)) with (session_to_fd g1).
  destruct (session_to_fd g1 !! gs_session_id r) as [fd|] eqn:Es; cycle 1.
  { exists g1. split; [done|]. split; [done|]. split; [done|]. split; [done|]. intros s. unfold deliver. destruct (decide _) as [<-|]; [|done].
    unfold session_output. change (session_to_fd g) with (session_to_fd g1). by rewrite Es. }
  destruct (gw_session _ H1 _ _ Es) as (c & Hc & Hv & Hs). rewrite Hc.
  destruct (gw_connection _ H1 fd c Hc) as [Hcok Hfd].
  destruct (queue_response_ok c (wire_of r) Hcok Hr) as (c' & Hc' & Hin & Hqr).
  assert (H2 : gateway_ok (store g1 c')).
  { pose proof Hin as (E1 & E2 & E3 & _). eapply (store_same g1 c); auto; [by eapply store_existing|by rewrite E3]. }
  assert (Hst : forall s, session_output (store g1 c') s =
    if decide (gs_session_id r = s) then Some (pending_output c') else session_output g s).
  { intros s. rewrite (store_output g1 fd c c') by done. by rewrite Hs. }
  assert (Hd2 : drained_from g (store g1 c')).
  { split; [done|]. intros fd' x. rewrite store_lookup. destruct (decide _) as [->|]; [|by apply Hd1].
    intros [= <-]. exists c. destruct Hin as (E1 & E2 & E3 & E4 & E5). rewrite E1, Hfd. split; [exact Hc|].
    split; [done|]. intros En. rewrite En in Hv. by destruct Hv. }
  assert (Hg : session_output g (gs_session_id r) = Some (pending_output c)).
  { rewrite <- Hout, <- Hs. by apply (output_of_bound g1 fd). }
  change (MkResponse _ _ _) with (wire_of r).
  destruct (vsize (pending_output c) + response_frame_size <=? transmit_capacity) eqn:Efit; destruct Hqr as [-> Hpo];
    cbn [mbind result_bind].
  - exists (store g1 c'). split; [done|]. split; [done|]. split; [done|]. split; [done|]. intros s. rewrite Hst. unfold deliver.
    destruct (decide _) as [<-|]; [|done]. rewrite Hg. cbn [mbind option_bind]. by rewrite Efit, Hpo.
  - exists (close_connection (store g1 c') fd). split; [done|]. split; [by apply close_connection_ok|].
    split; [by destruct (close_rings (store g1 c') fd) as [_ ->]|]. split.
    { eapply drained_trans; [exact Hd2|]. destruct (close_rings (store g1 c') fd) as [Hq1 _]. split; [done|].
      intros fd' x. rewrite close_lookup. destruct (decide _); [done|]. intros Hx. by exists x. }
    intros s. rewrite close_output, Hst by done. unfold deliver. cbn [store set_connections session_to_fd].
    destruct (decide (gs_session_id r = s)) as [<-|Hne].
    + rewrite decide_True by done. rewrite Hg. cbn [mbind option_bind]. by rewrite Efit.
    + rewrite decide_False; [done|]. intros E. destruct (gw_session _ H1 _ _ E) as (x & Hx & _ & Hxs). congruence.
Qed.

(** The loop empties the ring in one round per response. *)
Lemma drain_ok fuel g items : gateway_ok g -> holds (responses g) items -> Forall deliverable items ->
  (length items < fuel)%nat ->
  exists g', drain_engine_responses fuel g = Ok g' /\ gateway_ok g' /\ holds (responses g') [] /\
    drained_from g g' /\ forall s, session_output g' s = foldl (deliver s) (session_output g s) items.
Proof.
  revert g items. induction fuel as [|fuel IH]; intros g items H Hq Hi Hf; [lia|]. cbn [drain_engine_responses].
  pose proof (drain_one_ok g items H Hq Hi) as Hd. destruct items as [|r rest].
  { rewrite Hd. exists g. split; [done|]. split; [done|]. split; [done|]. split; [apply drained_refl|done]. }
  destruct Hd as (g1 & -> & H1 & Hq1 & Hd1 & Ho1). cbn [mbind result_bind].
  apply Forall_cons in Hi as [_ Hrest].
  destruct (IH g1 rest H1 Hq1 Hrest) as (g' & -> & H' & Hq' & Hd' & Ho'); [cbn in Hf; lia|].
  exists g'. split; [done|]. split; [done|]. split; [done|]. split; [by eapply drained_trans|]. intros s. by rewrite Ho', Ho1.
Qed.

(** ** Events *)

(** What the kernel promises about the calls of a handler: each [recv] returns
    between one byte and the space offered, each [send] takes no more than it
    was given. *)
Definition event_fits (g : Gateway) (e : SocketEvent) : Prop :=
  forall c, connections g !! ev_fd e = Some c ->
    recvs_fit (cn_received c) (ev_recvs e) /\
    forall g' c', (if ev_readable e then read_requests g c (ev_recvs e) else Ok (g, c, true)) = Ok (g', c', true) ->
      sends_fit (cn_end c' - cn_begin c') (ev_sends e).

Lemma store_room g c : gateway_room g -> cn_received c < maximum_frame_size -> gateway_room (store g c).
Proof.
  intros H Hc fd x. rewrite store_lookup. destruct (decide _); [by intros [= <-]|]. apply H.
Qed.

(** What reading leaves behind, whether or not it reads. *)
Lemma event_read_ok g e c : gateway_ok g -> gateway_room g -> event_fits g e ->
  connections g !! ev_fd e = Some c ->
  exists g1 c1 keep,
    (if negb (ev_hangup e) && ev_readable e then read_requests g c (ev_recvs e) else Ok (g, c, negb (ev_hangup e)))
      = Ok (g1, c1, keep) /\
    gateway_ok (store g1 c1) /\ cn_fd c1 = ev_fd e /\ connections g1 = connections g /\
    responses g1 = responses g /\ pushes (requests g) (requests g1) /\
    (keep = true -> cn_received c1 < maximum_frame_size /\ sends_fit (cn_end c1 - cn_begin c1) (ev_sends e)).
Proof.
  intros H Hroom Hf Hc. destruct (gw_connection _ H _ c Hc) as [_ Hfd]. destruct (Hf c Hc) as [Hr Hs].
  pose proof (store_existing g _ c H Hc) as Hst.
  destruct (ev_hangup e); cbn [negb andb].
  { exists g, c, false. split_and!; try done. constructor. }
  destruct (ev_readable e); cycle 1.
  { exists g, c, true. split_and!; try done; [constructor|]. intros _. split; [by apply (Hroom _ c Hc)|].
    by apply (Hs g c). }
  pose proof (read_requests_ok g c (ev_recvs e) Hst Hr) as Hread.
  destruct (delivered _ _) as [bs more]. destruct (requests_of _) as [[rs rest] ok].
  destruct Hread as (g1 & c1 & keep & Hread & H1 & (A1 & A2 & A3 & A4) & _ & Hk).
  exists g1, c1, keep. split; [done|]. split; [done|]. split; [congruence|]. split_and!; try done.
  intros ->. split; [apply Hk; done|]. by apply (Hs g1 c1).
Qed.

(** Flushing and closing. *)
Lemma finish_event_ok g c keep e : gateway_ok (store g c) -> gateway_room g -> cn_fd c = ev_fd e ->
  (keep = true -> cn_received c < maximum_frame_size /\ sends_fit (cn_end c - cn_begin c) (ev_sends e)) ->
  exists g' out, finish_event g c keep e = Ok (g', out) /\ gateway_ok g' /\ gateway_room g' /\
    responses g' = responses g /\ requests g' = requests g /\
    forall fd, fd <> ev_fd e -> connections g' !! fd = connections g !! fd.
Proof.
  intros H Hroom Hfd Hk. unfold finish_event.
  assert (Hkeep : forall c2, gateway_ok (store g c2) -> cn_fd c2 = ev_fd e -> cn_received c2 < maximum_frame_size ->
    gateway_ok (store g c2) /\ gateway_room (store g c2) /\ responses (store g c2) = responses g /\
    requests (store g c2) = requests g /\
    forall fd, fd <> ev_fd e -> connections (store g c2) !! fd = connections g !! fd).
  { intros c2 H2 Hfd2 Hr2. split_and!; try done; [by apply store_room|]. intros fd Hne.
    rewrite store_lookup. by rewrite decide_False by congruence. }
  assert (Hclose : let g2 := close_connection (store g c) (ev_fd e) in
    gateway_ok g2 /\ gateway_room g2 /\ responses g2 = responses g /\ requests g2 = requests g /\
    forall fd, fd <> ev_fd e -> connections g2 !! fd = connections g !! fd).
  { cbv zeta. destruct (close_rings (store g c) (ev_fd e)) as [-> ->]. split_and!; try done.
    - by apply close_connection_ok.
    - intros fd x. rewrite close_lookup, store_lookup, Hfd. destruct (decide (fd = ev_fd e)); [done|]. apply Hroom.
    - intros fd Hne. by rewrite close_lookup, store_lookup, Hfd, !decide_False by done. }
  destruct keep; cbn [andb]; [|by eexists _, _]. destruct (Hk eq_refl) as [Hr Hs].
  destruct (ev_writable e); cycle 1.
  { cbn [mbind result_bind]. eexists _, _. split; [reflexivity|]. by apply Hkeep. }
  destruct (flush_output_ok c (ev_sends e) (store_conn _ _ H) Hs) as (c2 & ok & out & -> & Hin & Hok & _).
  cbn [mbind result_bind]. eexists _, _. split; [reflexivity|]. pose proof Hin as (E1 & E2 & E3 & _ & E5).
  destruct ok; cycle 1.
  { rewrite <- Hfd, (close_store g c c2), Hfd by done. exact Hclose. }
  apply Hkeep; [|congruence|by rewrite E5]. apply (store_same g c); auto. by rewrite E3.
Qed.

Lemma handle_event_ok g e : gateway_ok g -> gateway_room g -> event_fits g e ->
  exists g' out, handle_event g e = Ok (g', out) /\ gateway_ok g' /\ gateway_room g' /\
    responses g' = responses g /\ pushes (requests g) (requests g') /\
    forall fd, fd <> ev_fd e -> connections g' !! fd = connections g !! fd.
Proof.
  intros H Hroom Hf. unfold handle_event. destruct (connections g !! ev_fd e) as [c|] eqn:Ec; cycle 1.
  { exists g, []. split_and!; try done. constructor. }
  destruct (event_read_ok g e c H Hroom Hf Ec) as (g1 & c1 & keep & Hread & H1 & Hfd & Hcs & Hrs & Hps & Hk).
  cbv zeta. rewrite Hread. cbn [mbind result_bind].
  assert (Hroom1 : gateway_room g1) by (intros fd x; rewrite Hcs; apply Hroom).
  destruct (finish_event_ok g1 c1 keep e H1 Hroom1 Hfd Hk) as (g' & out & -> & H' & Hroom' & Hr' & Hq' & Ho).
  exists g', out. split; [done|]. split; [done|]. split; [done|]. split; [congruence|].
  split; [by rewrite Hq'|]. intros fd Hne. by rewrite Ho, Hcs.
Qed.

(** ** Streams *)

(** A connection over several read events. *)
Fixpoint read_all (g : Gateway) (c : Connection) (events : list (list RecvResult))
  : result (Gateway * Connection * bool) :=
  match events with
  | [] => Ok (g, c, true)
  | recvs :: events =>
    '(g, c, keep) ← read_requests g c recvs;
    if (keep : bool) then read_all g c events else Ok (g, c, false)
  end.

(** The kernel's promise along the events. *)
Fixpoint reads_fit (g : Gateway) (c : Connection) (events : list (list RecvResult)) : Prop :=
  match events with
  | [] => True
  | recvs :: events => recvs_fit (cn_received c) recvs /\
    forall g' c', read_requests g c recvs = Ok (g', c', true) -> reads_fit g' c' events
  end.

(** The bytes the decoder sees along the events, and whether the peer left.  An
    event in which [recv] reports the end of the stream or an error ends the
    connection before anything of that event is decoded. *)
Fixpoint stream (g : Gateway) (c : Connection) (events : list (list RecvResult)) : list Z * bool :=
  match events with
  | [] => ([], false)
  | recvs :: events =>
    let '(bytes, goes_on) := delivered (cn_received c) recvs in
    if (goes_on : bool) then
      let '(more, gone) :=
        match read_requests g c recvs with
        | Ok (g', c', true) => stream g' c' events
        | _ => ([], false)
        end in
      (bytes ++ more, gone)
    else ([], true)
  end.

(** No complete request is gone in the buffer. *)
Definition quiet (c : Connection) : Prop := requests_of (input_of c) = ([], input_of c, true).

Lemma rest_quiet bs rs rest : bytes_ok bs -> requests_of bs = (rs, rest, true) ->
  requests_of rest = ([], rest, true).
Proof.
  intros Hb E. pose proof (requests_app bs [] rs rest Hb (List.Forall_nil _) E) as Ha. rewrite !app_nil_r in Ha.
  destruct (requests_of rest) as [[rs' rest'] ok]. rewrite E in Ha. injection Ha as Hl -> <-.
  apply (f_equal length) in Hl. rewrite length_app in Hl. assert (rs' = []) as -> by (apply nil_length_inv; lia). done.
Qed.

Lemma delivered_bytes n recvs : recvs_fit n recvs -> bytes_ok (delivered n recvs).1.
Proof.
  revert n. induction recvs as [|r recvs IH]; intros n Hf; cbn [delivered].
  { destruct (_ <? _); constructor. }
  destruct (Z.ltb_spec n receive_capacity) as [Hlt|]; [|constructor].
  destruct r as [bs| | | |]; cbn [recvs_fit] in Hf; try constructor.
  - destruct (Hf Hlt) as (_ & Hb & _ & Hf'). specialize (IH _ Hf'). destruct (delivered (n + vsize bs) recvs).
    by apply Forall_app.
  - by apply IH.
Qed.

Lemma stream_bytes g c events : reads_fit g c events -> bytes_ok (stream g c events).1.
Proof.
  revert g c. induction events as [|recvs events IH]; intros g c H; cbn [stream]; [constructor|].
  destruct H as [H1 H2]. pose proof (delivered_bytes _ _ H1) as Hb.
  destruct (delivered (cn_received c) recvs) as [bs []]; [|constructor].
  destruct (read_requests g c recvs) as [[[g' c'] []]|]; [|by rewrite app_nil_r..].
  specialize (IH g' c' (H2 _ _ eq_refl)). destruct (stream g' c' events) as [more gone]. by apply Forall_app.
Qed.

(** The event in which the peer leaves: nothing is decoded. *)
Lemma read_requests_left g c recvs : gateway_ok (store g c) -> recvs_fit (cn_received c) recvs ->
  (delivered (cn_received c) recvs).2 = false ->
  exists buf n, read_requests g c recvs = Ok (g, set_received c buf n, false) /\
    gateway_ok (store g (set_received c buf n)).
Proof.
  intros H Hf Hd. destruct (recv_loop_ok c recvs (store_conn _ _ H) Hf) as (buf & n & Hl & Hc & _).
  exists buf, n. unfold read_requests. rewrite Hl, Hd. split; [done|].
  by apply (store_same g c).
Qed.

(** Handling a stream of bytes does not depend on how it was cut. *)
Lemma read_all_ok g c events : gateway_ok (store g c) -> quiet c -> reads_fit g c events ->
  let '(bytes, gone) := stream g c events in
  exists g' c' c1 h rs rest ok, requests_of (input_of c ++ bytes) = (rs, rest, ok) /\
    handle_all g c rs = Ok (g', c1, h) /\ read_all g c events = Ok (g', c', h && ok && negb gone) /\
    c' = set_received c1 (cn_receive c') (cn_received c') /\ gateway_ok (store g' c') /\
    (h && ok && negb gone = true -> input_of c' = rest).
Proof.
  revert g c. induction events as [|recvs events IH]; intros g c H Hq Hf; cbn [read_all stream].
  { exists g, c, c, true, [], (input_of c), true. rewrite app_nil_r, Hq. split_and!; try done. by destruct c. }
  destruct Hf as [Hf1 Hf2]. pose proof (read_requests_ok g c recvs H Hf1) as Hread.
  pose proof (read_requests_left g c recvs H Hf1) as Hleft. pose proof (delivered_bytes _ _ Hf1) as Hbs.
  destruct (delivered (cn_received c) recvs) as [bs []]; cbn [fst snd] in *; cycle 1.
  { destruct (Hleft eq_refl) as (buf & n & -> & H1). cbn [mbind result_bind].
    exists g, (set_received c buf n), c, true, [], (input_of c), true. rewrite app_nil_r, Hq. by split_and!. }
  clear Hleft. pose proof (input_bytes _ (store_conn _ _ H)) as Hin.
  assert (Hb : bytes_ok (input_of c ++ bs)) by by apply Forall_app.
  destruct (requests_of (input_of c ++ bs)) as [[rs rest] ok] eqn:Er.
  destruct Hread as (g1 & c1 & keep & Hread & H1 & _ & (c1' & h & Hh & -> & Hc1) & Hk).
  destruct (h && ok) eqn:Ekeep; rewrite Hread; cbn [mbind result_bind]; cycle 1.
  { exists g1, c1, c1', h, rs, rest, ok. rewrite app_nil_r, Er, Ekeep. by split_and!. }
  apply andb_true_iff in Ekeep as [-> ->]. destruct (Hk eq_refl) as [Hi1 _].
  assert (Hq1 : quiet c1) by (unfold quiet; rewrite Hi1; by eapply rest_quiet).
  pose proof (stream_bytes g1 c1 events (Hf2 _ _ Hread)) as Hsb. specialize (IH g1 c1 H1 Hq1 (Hf2 _ _ Hread)).
  destruct (stream g1 c1 events) as [more gone]. cbn [fst] in Hsb.
  destruct IH as (g2 & c2 & c2' & h & rs2 & rest2 & ok & Er2 & Hh2 & Hall & Hc2 & H2 & Hrest).
  rewrite Hi1 in Er2. rewrite Hc1, handle_all_rebuffer in Hh2.
  destruct (handle_all g1 c1' rs2) as [[[g3 c3] ok3]|] eqn:E3; [|done].
  cbn [rebuffer fmap result_fmap] in Hh2. injection Hh2 as -> <- ->.
  exists g2, c2, c3, h, (rs ++ rs2), rest2, ok.
  rewrite app_assoc, (requests_app _ _ rs rest Hb Hsb Er), Er2, handle_all_app, Hh. cbn [mbind result_bind].
  split_and!; try done; by rewrite Hc2.
Qed.

(** Pieces that leave room for an incomplete frame always fit, and so does the
    end of the stream after them. *)
Lemma pieces_fit g c pieces : gateway_ok (store g c) -> cn_received c < maximum_frame_size ->
  Forall (fun bs => bs <> [] /\ bytes_ok bs /\ vsize bs <= receive_capacity - maximum_frame_size) pieces ->
  reads_fit g c (((fun bs => [Received bs]) <$> pieces) ++ [[EndOfStream]]).
Proof.
  intros H Hr Hp. revert g c H Hr. induction Hp as [|bs pieces (Hne & Hb & Hs) _ IH]; intros g c H Hr.
  { cbn. by split. }
  cbn [fmap list_fmap app reads_fit].
  assert (Hf : recvs_fit (cn_received c) [Received bs]).
  { intros _. split_and!; [done|done|lia|done]. }
  split; [done|]. intros g' c' Hread. pose proof (read_requests_ok g c _ H Hf) as Hok.
  destruct (delivered _ _) as [bs' more]. destruct (requests_of _) as [[rs rest] ok].
  destruct Hok as (g1 & c1 & keep & Hread' & H1 & _ & _ & Hk). rewrite Hread in Hread'. injection Hread' as <- <- <-.
  apply IH; [done|]. by apply Hk.
Qed.
