(* ===== verification/TcpSystem.v ===== *)
(** * TcpSystem: the network thread and the engine thread together
      (apps/gateway.cpp)

    The two threads share the rings.  [tstep] interleaves the steps of the
    network thread with the moves of the engine loop of Runner.  The network
    thread touches a ring at most once per step: handling one request pushes at
    most one, draining pops one.  For the engine, these are moves of its
    environment. *)
From Stdlib Require Import ZArith Lia.
From stdpp Require Import base numbers gmap list.
From S2P Require Import Prelude Types OrderIndex FixedHash OrderBook BookSpec SpecFacts BookRefine.
From S2P Require Import SpecInv BookRun Engine Bytes Protocol ProtocolFacts Gateway Spsc Runner.
From S2P Require Import TcpGateway TcpOutput TcpInput TcpState TcpEvents.
Local Open Scope Z_scope.

Abbreviation GatewayWorld := (@World GatewayRequest GatewayResponse).

(** Where the network thread is: between two events, or in the decoding loop of
    [read_requests] for an event, with the connection it works on. *)
Inductive Network : Type :=
  | Waiting
  | Decoding (e : SocketEvent) (c : Connection) (consumed : Z).

Record TcpSystem : Type := MkTcp {
  ts_gateway : Gateway;
  ts_network : Network;
  ts_world : GatewayWorld }.

(** The gateway with the connection that is being worked on. *)
Definition current (s : TcpSystem) : Gateway :=
  match ts_network s with Waiting => ts_gateway s | Decoding _ c _ => store (ts_gateway s) c end.

(** The constructor of [TcpGateway]; no journal is attached. *)
Definition make_gateway : result TcpSystem :=
  b ← make_book gateway_book_config;
  requests ← make_queue (MkGatewayRequest 0 0 Command_zero) 65536;
  responses ← make_queue (MkGatewayResponse 0 0 Event_zero) 262144;
  Ok (MkTcp (MkGateway ∅ ∅ requests responses []) Waiting (start b requests responses None)).

(** What the other thread did to the rings. *)
Definition set_input (w : GatewayWorld) (q : SpscQueue GatewayRequest) : GatewayWorld :=
  let r := runner w in
  MkWorld (MkRunner (r_book r) q (r_output r) (r_journal r) (r_next r) (r_phase r))
    (received w) (published w) (drained w).
Definition set_output (w : GatewayWorld) : GatewayWorld :=
  let r := runner w in
  match try_pop (r_output r) with
  | Ok (q, Some v) =>
    MkWorld (MkRunner (r_book r) (r_input r) q (r_journal r) (r_next r) (r_phase r))
      (received w) (published w) (drained w ++ [v])
  | _ => w
  end.
Definition set_rings (g : Gateway) (w : GatewayWorld) : Gateway :=
  set_responses (set_requests g (r_input (runner w))) (r_output (runner w)).

(** The moves of the engine loop itself are those that change its phase. *)
Definition engine_step (w w' : GatewayWorld) : Prop :=
  rstep gateway_admit gateway_respond w w' /\ r_phase (runner w') <> r_phase (runner w).

(** The kernel's promise about the [send] calls of an event. *)
Definition flush_fits (c : Connection) (keep : bool) (e : SocketEvent) : Prop :=
  keep = true -> sends_fit (cn_end c - cn_begin c) (ev_sends e).

(** The network thread on the connections it has.  The outcomes of the [send]
    calls that end an event are known when the calls are made. *)
Inductive nstep : TcpSystem -> TcpSystem -> Prop :=
  (* an event without reading: a hang-up, or write readiness alone *)
  | n_event g w e c g' out : connections g !! ev_fd e = Some c ->
      negb (ev_hangup e) && ev_readable e = false -> flush_fits c (negb (ev_hangup e)) e ->
      finish_event g c (negb (ev_hangup e)) e = Ok (g', out) ->
      nstep (MkTcp g Waiting w) (MkTcp g' Waiting w)
  | n_receive g w e c c' : connections g !! ev_fd e = Some c ->
      negb (ev_hangup e) && ev_readable e = true -> recvs_fit (cn_received c) (ev_recvs e) ->
      recv_loop c (ev_recvs e) = Ok (c', true) ->
      nstep (MkTcp g Waiting w) (MkTcp g (Decoding e c' 0) w)
  | n_end_of_stream g w e c c' g' out : connections g !! ev_fd e = Some c ->
      negb (ev_hangup e) && ev_readable e = true -> recvs_fit (cn_received c) (ev_recvs e) ->
      recv_loop c (ev_recvs e) = Ok (c', false) -> finish_event g c' false e = Ok (g', out) ->
      nstep (MkTcp g Waiting w) (MkTcp g' Waiting w)
  | n_request g w e c consumed g' c' consumed' :
      decode_one g c consumed = Ok (g', c', More consumed') ->
      nstep (MkTcp g (Decoding e c consumed) w) (MkTcp g' (Decoding e c' consumed') (set_input w (requests g')))
  | n_finish g w e sends c consumed g1 c1 r c2 keep g' out :
      decode_one g c consumed = Ok (g1, c1, Finished r) -> finish_read c1 r = Ok (c2, keep) ->
      flush_fits c2 keep (with_sends e sends) -> finish_event g1 c2 keep (with_sends e sends) = Ok (g', out) ->
      nstep (MkTcp g (Decoding e c consumed) w) (MkTcp g' Waiting (set_input w (requests g')))
  | n_drain g w g' more : drain_one g = Ok (g', more) ->
      nstep (MkTcp g Waiting w) (MkTcp g' Waiting (set_output w)).

Inductive tstep : TcpSystem -> TcpSystem -> Prop :=
  | t_accept g w fd nonblocking registered :
      tstep (MkTcp g Waiting w) (MkTcp (accept_one g fd nonblocking registered) Waiting w)
  | t_network s s' : nstep s s' -> tstep s s'
  | t_engine g n w w' : engine_step w w' -> tstep (MkTcp g n w) (MkTcp (set_rings g w') n w').

Inductive tsteps (s0 : TcpSystem) : TcpSystem -> Prop :=
  | tsteps_start : tsteps s0 s0
  | tsteps_step s s' : tsteps s0 s -> tstep s s' -> tsteps s0 s'.

(** ** The invariant *)

Record system_ok (w0 : GatewayWorld) (s : TcpSystem) : Prop := {
  so_gateway : gateway_ok (current s);
  so_room : gateway_room (ts_gateway s);
  so_round : match ts_network s with
    | Waiting => True
    | Decoding e c consumed => cn_fd c = ev_fd e /\ 0 <= consumed <= cn_received c
    end;
  so_input : r_input (runner (ts_world s)) = requests (ts_gateway s);
  so_output : r_output (runner (ts_world s)) = responses (ts_gateway s);
  so_runs : runs gateway_admit gateway_respond w0 (ts_world s);
  so_received : Forall admitted (received (ts_world s));
  so_phase : match r_phase (runner (ts_world s)) with Publishing v _ => admitted v | _ => True end }.

Lemma admitted_fits r : admitted r -> request_fits gateway_admit r.
Proof. intros H n. destruct (am_quantity _ H). cbn in *. ints. lia. Qed.

Lemma admitted_deliverable r e : admitted r -> deliverable (gateway_respond r e).
Proof. intros H. split; [apply H|]. apply H. Qed.

(** Pushes by the network thread are moves of the engine's environment. *)
Lemma pushes_runs w0 w q q' : pushes q q' -> r_input (runner w) = q ->
  runs gateway_admit gateway_respond w0 w -> runs gateway_admit gateway_respond w0 (set_input w q').
Proof.
  intros Hp Hq Hw. destruct w as [[b iq oq j n ph] rs ps ds]. cbn in Hq. subst q.
  induction Hp as [|q1 q2 r _ IH Hr Hpush]; [exact Hw|]. eapply runs_step; [exact IH|].
  by apply (env_push _ _ b q1 oq j n ph rs ps ds r q2); [apply admitted_fits|].
Qed.

(** A pop is a move of the engine's environment. *)
Lemma set_output_runs w0 w : runs gateway_admit gateway_respond w0 w ->
  runs gateway_admit gateway_respond w0 (set_output w).
Proof.
  intros Hw. unfold set_output. destruct w as [[b iq oq j n ph] rs ps ds]. cbn.
  destruct (try_pop oq) as [[q [v|]]|] eqn:E; [|done..]. eapply runs_step; [exact Hw|]. by apply env_pop.
Qed.

Lemma drain_one_responses g g' more : drain_one g = Ok (g', more) ->
  exists q v, try_pop (responses g) = Ok (q, v) /\ responses g' = q.
Proof.
  unfold drain_one. intros ([q v] & Hq & H)%bind_Ok_inv. exists q, v. split; [done|].
  destruct v as [r|]; [|by injection H as <- <-].
  destruct (session_to_fd (set_responses g q) !! _) as [fd|]; [|by injection H as <- <-].
  destruct (connections (set_responses g q) !! fd) as [c|]; cycle 1.
  { injection H as <- <-. by destruct (close_rings (set_responses g q) fd) as [_ ->]. }
  apply bind_Ok_inv in H as ([c' ok] & _ & H). injection H as <- <-. destruct ok; [done|].
  by destruct (close_rings (store (set_responses g q) c') fd) as [_ ->].
Qed.

Lemma set_rings_ok g w ins outs : gateway_ok g -> holds (r_input (runner w)) ins -> Forall admitted ins ->
  holds (r_output (runner w)) outs -> Forall deliverable outs -> gateway_ok (set_rings g w).
Proof.
  intros [H1 H2 H3 _ _] Hi Ha Ho Hd. constructor; [exact H1|exact H2|exact H3|by exists ins|by exists outs].
Qed.

Lemma current_rings g n w w' : current (MkTcp (set_rings g w') n w') = set_rings (current (MkTcp g n w)) w'.
Proof. by destruct n. Qed.

Lemma current_requests s : requests (current s) = requests (ts_gateway s) /\
  responses (current s) = responses (ts_gateway s).
Proof. unfold current. by destruct (ts_network s). Qed.

(** The moves of the loop keep the rings well typed. *)
Lemma engine_step_ok w0 g n w w' : system_ok w0 (MkTcp g n w) -> engine_step w w' ->
  system_ok w0 (MkTcp (set_rings g w') n w').
Proof.
  intros [Hg Hroom Hround Hin Hout Hruns Hrec Hph] [Hstep Hne].
  destruct (gw_requests _ Hg) as (ins & Hi & Ha), (gw_responses _ Hg) as (outs & Ho & Hd).
  destruct (current_requests (MkTcp g n w)) as [Eq Er]. rewrite Eq in Hi. rewrite Er in Ho. cbn in *.
  rewrite <- Hin in Hi. rewrite <- Hout in Ho.
  assert (Hruns' : runs gateway_admit gateway_respond w0 w') by by eapply runs_step.
  assert (Hkeep : forall ins outs, holds (r_input (runner w')) ins -> Forall admitted ins ->
    holds (r_output (runner w')) outs -> Forall deliverable outs -> Forall admitted (received w') ->
    match r_phase (runner w') with Publishing v _ => admitted v | _ => True end ->
    system_ok w0 (MkTcp (set_rings g w') n w')).
  { intros ins' outs' ? ? ? ? ? ?. constructor; cbn; try done. rewrite (current_rings g n w).
    by eapply set_rings_ok. }
  destruct Hstep as [| |r rs ps ds v iq' r' Hpoll Hpop Hh|b iq oq j nx rs ps ds v e es oq' Hpush| | |]; cbn in *;
    try done; try by eapply Hkeep.
  - pose proof (try_pop_ok (r_input r) ins Hi) as Hq. destruct ins as [|x ins]; [congruence|].
    destruct Hq as (q & Hq & Hh' & _). rewrite Hpop in Hq. injection Hq as <- <-.
    apply Forall_cons in Ha as [Hv Ha]. unfold handle in Hh. apply bind_Ok_inv in Hh as ([b ev] & _ & Hh).
    injection Hh as <-. cbn in *. eapply Hkeep; eauto. apply Forall_app. split; [done|]. by apply Forall_singleton.
  - destruct (try_push_ok oq outs (gateway_respond v e) Ho) as [(_ & q & Hq & Hh & _)|[_ Hq]]; [|congruence].
    rewrite Hpush in Hq. injection Hq as <-. eapply Hkeep; eauto. apply Forall_app. split; [done|].
    apply Forall_singleton. by apply admitted_deliverable.
Qed.

(** A step of the network thread that leaves the responses alone. *)
Lemma network_step_ok w0 g n w g' n' : system_ok w0 (MkTcp g n w) ->
  gateway_ok (current (MkTcp g' n' w)) -> gateway_room g' ->
  match n' with Waiting => True | Decoding e c consumed => cn_fd c = ev_fd e /\ 0 <= consumed <= cn_received c end ->
  responses g' = responses g -> pushes (requests g) (requests g') ->
  system_ok w0 (MkTcp g' n' (set_input w (requests g'))).
Proof.
  intros [_ _ _ Hin Hout Hruns Hrec Hph] Hg' Hroom' Hround' Hr Hp. cbn in *.
  constructor; cbn; auto; [by rewrite Hr|]. by eapply pushes_runs.
Qed.

(** The same when the requests are left alone, too. *)
Lemma network_step_same w0 g n w g' n' : system_ok w0 (MkTcp g n w) ->
  gateway_ok (current (MkTcp g' n' w)) -> gateway_room g' ->
  match n' with Waiting => True | Decoding e c consumed => cn_fd c = ev_fd e /\ 0 <= consumed <= cn_received c end ->
  responses g' = responses g -> requests g' = requests g -> system_ok w0 (MkTcp g' n' w).
Proof.
  intros [_ _ _ Hin Hout Hruns Hrec Hph] Hg' Hroom' Hround' Hr Hq. cbn in *. constructor; cbn; auto; congruence.
Qed.

(** What one round of the decoding loop does, and how the loop ends. *)
Lemma decode_round_ok g c consumed : gateway_ok (store g c) -> 0 <= consumed <= cn_received c ->
  exists g1 c1 r, decode_one g c consumed = Ok (g1, c1, r) /\ handled g c g1 c1 /\
    match r with
    | More n => consumed < n <= cn_received c1
    | Finished r => exists c2 keep, finish_read c1 r = Ok (c2, keep) /\ gateway_ok (store g1 c2) /\
        cn_fd c2 = cn_fd c /\ (keep = true -> cn_received c2 < maximum_frame_size)
    end.
Proof.
  intros H Hc. pose proof (store_conn _ _ H) as Hok. pose proof (unread_size c consumed Hok Hc) as Hbl.
  destruct (decode_one_ok g c consumed Hok Hc) as [E1 E2|E1 E2|r n rs rest ok Hreq Hn Hr E2 E1]; rewrite E1.
  - exists g, c, (Finished (Some consumed)). split; [done|]. split; [by apply handled_refl|].
    set (bs := drop (Z.to_nat consumed) (input_of c)) in *.
    assert (Hused : vsize (take (Z.to_nat consumed) (input_of c)) = consumed).
    { pose proof (input_size c Hok) as Hi. unfold vsize in *. rewrite length_take. lia. }
    destruct (finish_read_ok g c (take (Z.to_nat consumed) (input_of c)) bs H) as (c' & Hf & Hg' & _ & Hs & Hsame);
      [symmetry; apply take_drop|eapply rest_short; [|exact E2]; by apply Forall_drop, input_bytes|].
    rewrite Hused in Hf. exists c', true. split; [done|]. split; [done|]. split; [by rewrite Hsame|done].
  - exists g, c, (Finished None). split; [done|]. split; [by apply handled_refl|]. by exists c, false.
  - destruct (handle_request_ok g c r H Hreq) as (g1 & c1 & kept & -> & Hhd). cbn [mbind result_bind].
    destruct kept.
    + exists g1, c1, (More (consumed + n)). split; [done|]. split; [done|]. rewrite (hd_received _ _ _ _ Hhd). lia.
    + exists g1, c1, (Finished None). split; [done|]. split; [done|]. exists c1, false. split; [done|].
      split; [exact (hd_ok _ _ _ _ Hhd)|]. split; [exact (hd_fd _ _ _ _ Hhd)|done].
Qed.

Lemma handled_room g c g' c' : handled g c g' c' -> gateway_room g -> gateway_room g'.
Proof. intros Hh Hr fd x. rewrite (hd_connections _ _ _ _ Hh). apply Hr. Qed.

Lemma drain_step_ok w0 g w g' more : system_ok w0 (MkTcp g Waiting w) -> drain_one g = Ok (g', more) ->
  system_ok w0 (MkTcp g' Waiting (set_output w)).
Proof.
  intros [Hg Hroom _ Hin Hout Hruns Hrec Hph] Hd. cbn in *.
  destruct (gw_responses _ Hg) as (items & Ho & Hi). pose proof (drain_one_ok g items Hg Ho Hi) as Hone.
  destruct (drain_one_responses g g' more Hd) as (q & v & Hpop & Hq).
  pose proof (set_output_runs w0 w Hruns) as Hr'. unfold set_output in *. rewrite Hout, Hpop in *.
  destruct items as [|r rest].
  - rewrite Hone in Hd. injection Hd as <- <-. pose proof (try_pop_ok _ [] Ho) as Hnone. rewrite Hnone in Hpop.
    injection Hpop as <- <-. by constructor.
  - destruct Hone as (g2 & Hd2 & Hg2 & _ & Hfrom & _). rewrite Hd in Hd2. injection Hd2 as <- ->.
    pose proof (try_pop_ok _ (r :: rest) Ho) as (q2 & Hq2 & _). rewrite Hq2 in Hpop. injection Hpop as <- <-.
    constructor; cbn; auto; [by eapply drained_room|]. rewrite Hin. symmetry. apply Hfrom.
Qed.

Lemma nstep_ok w0 s s' : system_ok w0 s -> nstep s s' -> system_ok w0 s'.
Proof.
  intros H Hs. pose proof (so_gateway _ _ H) as Hg. pose proof (so_room _ _ H) as Hroom.
  pose proof (so_round _ _ H) as Hround.
  destruct Hs as [g w e c g' out Hc _ Hf He|g w e c c' Hc _ Hr Hl|g w e c c' g' out Hc _ Hr Hl He
    |g w e c consumed g' c' n Hd|g w e sends c consumed g1 c1 r c2 keep g' out Hd Hfin Hf He|g w g' more Hd];
    cbn [current ts_gateway ts_network ts_world] in *.
  - destruct (gw_connection _ Hg _ c Hc) as [_ Hfd]. pose proof (store_existing g _ c Hg Hc) as Hst.
    destruct (finish_event_ok g c _ e Hst Hroom Hfd (fun K => conj (Hroom _ c Hc) (Hf K)))
      as (g2 & out2 & He2 & Hg2 & Hroom2 & Hr2 & Hq2 & _).
    rewrite He in He2. injection He2 as <- <-. by apply (network_step_same w0 g Waiting w).
  - destruct (gw_connection _ Hg _ c Hc) as [Hcok Hfd]. pose proof (store_existing g _ c Hg Hc) as Hst.
    destruct (recv_loop_ok c _ Hcok Hr) as (buf & n & Hl2 & Hc2 & _). rewrite Hl in Hl2. injection Hl2 as -> _.
    apply (network_step_same w0 g Waiting w); [done|by apply (store_same g c)|done| |done|done]. split; [done|].
    pose proof (co_received _ Hc2) as Hn. cbn in Hn |- *. lia.
  - destruct (gw_connection _ Hg _ c Hc) as [Hcok Hfd]. pose proof (store_existing g _ c Hg Hc) as Hst.
    destruct (recv_loop_ok c _ Hcok Hr) as (buf & n & Hl2 & Hc2 & _). rewrite Hl in Hl2. injection Hl2 as -> _.
    assert (Hst' : gateway_ok (store g (set_received c buf n))) by by apply (store_same g c).
    destruct (finish_event_ok g _ false e Hst' Hroom Hfd ltac:(done)) as (g2 & out2 & He2 & Hg2 & Hroom2 & Hr2 & Hq2 & _).
    rewrite He in He2. injection He2 as <- <-. by apply (network_step_same w0 g Waiting w).
  - destruct Hround as [Hfd Hcons]. destruct (decode_round_ok g c consumed Hg Hcons) as (g2 & c2 & r & Hd2 & Hhd & Hn).
    rewrite Hd in Hd2. injection Hd2 as <- <- <-. apply (network_step_ok w0 g (Decoding e c consumed) w); [done|exact (hd_ok _ _ _ _ Hhd)| | | |].
    + by eapply handled_room.
    + rewrite (hd_fd _ _ _ _ Hhd). split; [done|lia].
    + exact (hd_responses _ _ _ _ Hhd).
    + exact (hd_pushes _ _ _ _ Hhd).
  - destruct Hround as [Hfd Hcons]. destruct (decode_round_ok g c consumed Hg Hcons) as (g2 & c3 & r2 & Hd2 & Hhd & Hn).
    rewrite Hd in Hd2. injection Hd2 as <- <- <-. destruct Hn as (c4 & keep2 & Hfin2 & Hst & Hfd2 & Hk).
    rewrite Hfin in Hfin2. injection Hfin2 as <- <-.
    destruct (finish_event_ok g1 c2 keep (with_sends e sends) Hst (handled_room _ _ _ _ Hhd Hroom)
      ltac:(cbn [with_sends ev_fd]; congruence)
      (fun K => conj (Hk K) (Hf K))) as (g3 & out3 & He3 & Hg3 & Hroom3 & Hr3 & Hq3 & _).
    rewrite He in He3. injection He3 as <- <-. apply (network_step_ok w0 g (Decoding e c consumed) w); [done|done|done|done| |].
    + rewrite Hr3. exact (hd_responses _ _ _ _ Hhd).
    + rewrite Hq3. exact (hd_pushes _ _ _ _ Hhd).
  - by eapply drain_step_ok.
Qed.

Lemma tstep_ok w0 s s' : system_ok w0 s -> tstep s s' -> system_ok w0 s'.
Proof.
  intros H Hs. destruct Hs as [g w fd nb reg|s s' Hn|g n w w' He]; [|exact (nstep_ok _ _ _ H Hn)|exact (engine_step_ok _ _ _ _ _ H He)].
  destruct (accept_one_ok g fd nb reg (so_gateway _ _ H) (so_room _ _ H)) as [Hg' Hroom'].
  apply (network_step_same w0 g Waiting w); [done|done|done|done|..];
    unfold accept_one; destruct nb, reg, (connections g !! fd); done.
Qed.

Lemma tsteps_ok w0 s0 s : system_ok w0 s0 -> tsteps s0 s -> system_ok w0 s.
Proof. intros H. induction 1 as [|s s' _ IH Hs]; [done|]. by eapply tstep_ok. Qed.

(** ** The start *)

Lemma gateway_config_ok : config_ok gateway_book_config.
Proof. constructor; vm_compute; intuition discriminate. Qed.

Lemma empty_gateway_ok requests responses : holds requests [] -> holds responses [] ->
  gateway_ok (MkGateway ∅ ∅ requests responses []) /\ gateway_room (MkGateway ∅ ∅ requests responses []).
Proof.
  intros Hq Hr. split; [|by intros fd c]. constructor; cbn; try done; by exists [].
Qed.

Lemma make_gateway_ok : exists b requests responses,
  make_gateway = Ok (MkTcp (MkGateway ∅ ∅ requests responses []) Waiting (start b requests responses None)) /\
  make_book gateway_book_config = Ok b /\ holds requests [] /\ holds responses [].
Proof.
  destruct (make_book_ok (I := FixedOrderIndex) gateway_book_config gateway_config_ok) as (b & Hb & _).
  pose proof (make_queue_ok (MkGatewayRequest 0 0 Command_zero) 65536 ltac:(ints; lia)) as (q & Hq & Hq0 & _).
  pose proof (make_queue_ok (MkGatewayResponse 0 0 Event_zero) 262144 ltac:(ints; lia)) as (r & Hr & Hr0 & _).
  exists b, q, r. unfold make_gateway. rewrite Hb. cbn [mbind result_bind]. rewrite Hq. cbn [mbind result_bind].
  rewrite Hr. done.
Qed.

(** The sequence and the book the engine starts from. *)
Lemma make_book_start (b : Engine) : make_book gateway_book_config = Ok b ->
  models gateway_book_config b (empty_spec gateway_book_config) /\ u64 (last_sequence (stats b) + 1) = 1.
Proof.
  intros Hb. pose proof (make_models _ _ gateway_config_ok Hb) as Hm. split; [done|].
  destruct Hm as ([G HG] & _). pose proof (rp_spec _ _ _ HG) as E.
  apply (f_equal sb_stats) in E. cbn in E. by rewrite <- E.
Qed.

(** ** What the engine owes, as events *)

Lemma owed_events sb next rs : gs_event <$> owed gateway_admit gateway_respond sb next rs =
  (spec_run machine_fill sb (numbered gateway_admit next rs)).2.
Proof.
  revert sb next. induction rs as [|r rs IH]; intros sb next; [done|]. cbn [owed numbered spec_run].
  destruct (spec_process machine_fill sb (gateway_admit next r)) as [sb1 ev1]. rewrite fmap_app, IH.
  destruct (spec_run machine_fill sb1 _) as [sb2 ev2]. cbn. f_equal. rewrite <- list_fmap_compose. by apply list_fmap_id.
Qed.

Lemma numbered_bounded next rs : Forall admitted rs ->
  Forall (fun c => 0 <= c_quantity c <= 1000000 /\ is_u64 (c_quantity c)) (numbered gateway_admit next rs).
Proof.
  intros H. revert next. induction H as [|r rs Hr _ IH]; intros next; constructor; [|apply IH].
  pose proof (am_quantity _ Hr) as Hq. cbn in *. split; [done|]. ints. lia.
Qed.

(** The limits on quantities keep the 64-bit totals of the book exact. *)
Lemma admitted_exact next rs : Forall admitted rs ->
  spec_run machine_fill (empty_spec gateway_book_config) (numbered gateway_admit next rs) =
  spec_run ideal_fill (empty_spec gateway_book_config) (numbered gateway_admit next rs).
Proof.
  intros H. apply (spec_run_exact 1000000); [apply spec_inv_empty, gateway_config_ok| |lia|vm_compute; discriminate|].
  - intros o Ho. by apply elem_of_nil in Ho.
  - by apply numbered_bounded.
Qed.

(** Everything the invariant says about a system built by the constructor. *)
Lemma gateway_reaches s0 s : make_gateway = Ok s0 -> tsteps s0 s ->
  exists w0 ins outs sb, system_ok w0 s /\
    world_inv gateway_admit gateway_respond gateway_book_config (empty_spec gateway_book_config) 1 None
      (ts_world s) ins outs sb.
Proof.
  intros Hs0 Hs. destruct make_gateway_ok as (b & rq & rs & Hm & Hb & Hq & Hr). rewrite Hm in Hs0. injection Hs0 as <-.
  destruct (make_book_start b Hb) as [Hmod Hone].
  pose proof (start_inv gateway_admit gateway_respond gateway_book_config b _ rq rs None Hmod Hq Hr) as Hinv.
  rewrite Hone in Hinv.
  assert (Hok : system_ok (start b rq rs None) (MkTcp (MkGateway ∅ ∅ rq rs []) Waiting (start b rq rs None))).
  { destruct (empty_gateway_ok rq rs Hq Hr) as [Hg Hroom]. constructor; cbn; auto. constructor. }
  pose proof (tsteps_ok _ _ _ Hok Hs) as Hsys.
  destruct (runs_inv _ _ _ _ _ _ _ _ _ _ Hinv (so_runs _ _ Hsys)) as (ins & outs & sb & Hw).
  by exists (start b rq rs None), ins, outs, sb.
Qed.
