(* ===== verification/TcpTheorems.v ===== *)
(** * TcpTheorems: what the TCP gateway guarantees

    The state of the network thread, the streams in both directions, the
    routing of responses, and the two threads together. *)
From Stdlib Require Import ZArith Lia.
From stdpp Require Import base numbers gmap list.
From S2P Require Import Prelude Types OrderIndex FixedHash OrderBook BookSpec SpecFacts BookRefine.
From S2P Require Import SpecInv BookRun Engine Bytes Protocol ProtocolFacts Gateway Spsc Runner.
From S2P Require Import TcpGateway TcpOutput TcpInput TcpState TcpEvents TcpSystem.
Local Open Scope Z_scope.

(** C2: End to end.  From the construction of the gateway on, whatever
    clients send, however their bytes are cut, however the steps of the
    network thread and the moves of the engine loop interleave: every request
    the engine received passed validation; the book is the one the ideal
    specification (exact totals, no wrap-around) reaches on these requests
    numbered 1, 2, 3...; and the responses routed to sessions, those still in
    the ring and those being published are exactly the specified events, in
    order, each under the session and client sequence of its request, with
    nothing lost unless the loop was stopped on a full ring. *)
Theorem gateway_end_to_end (s0 s : TcpSystem) : make_gateway = Ok s0 -> tsteps s0 s ->
  exists sb events all queued dropped,
    let w := ts_world s in
    Forall admitted (received w) /\
    spec_run ideal_fill (empty_spec gateway_book_config) (numbered gateway_admit 1 (received w)) = (sb, events) /\
    refines (r_book (runner w)) sb /\
    all = owed gateway_admit gateway_respond (empty_spec gateway_book_config) 1 (received w) /\
    gs_event <$> all = events /\
    all = drained w ++ queued ++ pending gateway_respond (r_phase (runner w)) ++ dropped /\
    holds (responses (ts_gateway s)) queued /\
    (r_phase (runner w) <> Stopped -> dropped = []).
Proof.
  intros Hs0 Hs. destruct (gateway_reaches s0 s Hs0 Hs) as (w0 & ins & outs & sb & Hok & Hw).
  destruct (wi_published _ _ _ _ _ _ _ _ _ _ Hw) as (dropped & Hp & Hd).
  pose proof (wi_spec _ _ _ _ _ _ _ _ _ _ Hw) as Hsb. pose proof (so_received _ _ Hok) as Hrec.
  rewrite (admitted_exact 1 _ Hrec) in Hsb.
  pose proof (owed_events (empty_spec gateway_book_config) 1 (received (ts_world s))) as Hev.
  rewrite (admitted_exact 1 _ Hrec) in Hev.
  cbv zeta. destruct (spec_run ideal_fill _ _) as [sb' events]. cbn in Hsb, Hev. subst sb'.
  exists sb, events. eexists. exists outs, dropped. split; [done|]. split; [done|].
  split; [apply (wi_model _ _ _ _ _ _ _ _ _ _ Hw)|]. split; [reflexivity|]. split; [done|].
  split; [|split; [|done]].
  - by rewrite Hp, (wi_drained _ _ _ _ _ _ _ _ _ _ Hw), <- app_assoc.
  - rewrite <- (so_output _ _ Hok). apply (wi_output _ _ _ _ _ _ _ _ _ _ Hw).
Qed.

(** The frame of an order for session 7. *)
Definition demo_request : Request := MkRequest 7 1 (MkCommand 0 New Sell Limit 0 9 10000 2).
Definition demo_frame : list Z :=
  match encode_request demo_request (replicate 52 0) with Ok (_, _, d) => d | Fail _ => [] end.
Lemma demo_frame_bytes : bytes_ok demo_frame.
Proof. vm_compute. repeat constructor; discriminate. Qed.

Definition demo_event : SocketEvent := MkSocketEvent 5 false true false [Received demo_frame; RecvBlocked] [].

Lemma demo_event_fits : recvs_fit 0 (ev_recvs demo_event).
Proof.
  intros _. split; [vm_compute; discriminate|]. split; [exact demo_frame_bytes|]. split; [vm_compute; discriminate|exact I].
Qed.

(** The gateway accepts a client and receives the order of its first session. *)
Lemma demo_receives b rq rs : let w := start b rq rs None in
  exists c, input_of c = demo_frame /\
    tsteps (MkTcp (MkGateway ∅ ∅ rq rs []) Waiting w)
      (MkTcp (accept_one (MkGateway ∅ ∅ rq rs []) 5 true true) (Decoding demo_event c 0) w).
Proof.
  intros w. destruct (recv_loop_ok (make_connection 5) (ev_recvs demo_event) (make_connection_ok 5) demo_event_fits)
    as (buf & n & Hl & _ & Hi).
  assert (Hd : delivered (cn_received (make_connection 5)) (ev_recvs demo_event) = (demo_frame, true)).
  { vm_compute. reflexivity. }
  rewrite Hd in Hl, Hi. exists (set_received (make_connection 5) buf n). split; [exact Hi|].
  eapply tsteps_step; [eapply tsteps_step; [apply tsteps_start|apply (t_accept _ _ 5 true true)]|].
  apply t_network. eapply n_receive; [apply lookup_insert_eq|reflexivity|exact demo_event_fits|exact Hl].
Qed.

Lemma gateway_end_to_end_witness : exists s0 s c, make_gateway = Ok s0 /\ tsteps s0 s /\
  ts_network s = Decoding demo_event c 0 /\ input_of c = demo_frame /\
  exists sb events all queued dropped,
    let w := ts_world s in
    Forall admitted (received w) /\
    spec_run ideal_fill (empty_spec gateway_book_config) (numbered gateway_admit 1 (received w)) = (sb, events) /\
    refines (r_book (runner w)) sb /\
    all = owed gateway_admit gateway_respond (empty_spec gateway_book_config) 1 (received w) /\
    gs_event <$> all = events /\
    all = drained w ++ queued ++ pending gateway_respond (r_phase (runner w)) ++ dropped /\
    holds (responses (ts_gateway s)) queued /\
    (r_phase (runner w) <> Stopped -> dropped = []).
Proof.
  destruct make_gateway_ok as (b & rq & rs & Hm & _).
  destruct (demo_receives b rq rs) as (c & Hc & Hs). eexists _, _, c. split; [exact Hm|]. split; [exact Hs|].
  split; [reflexivity|]. split; [exact Hc|]. exact (gateway_end_to_end _ _ Hm Hs).
Defined.

(** C18: In every state the gateway can reach, the buffers of every connection
    are within bounds, between two events a receive buffer holds at most an
    incomplete frame, write readiness is requested for exactly the connections
    with output, and the session table maps every bound session to the one
    connection that serves it. *)
Theorem gateway_state_invariant (s0 s : TcpSystem) : make_gateway = Ok s0 -> tsteps s0 s ->
  let g := current s in
  (forall fd c, connections g !! fd = Some c ->
     cn_fd c = fd /\ vsize (cn_receive c) = receive_capacity /\ 0 <= cn_received c <= receive_capacity /\
     (ts_network s = Waiting -> cn_received c < maximum_frame_size) /\
     vsize (cn_transmit c) = transmit_capacity /\ 0 <= cn_begin c <= cn_end c /\ cn_end c <= transmit_capacity /\
     (cn_interest c = true <-> pending_output c <> [])) /\
  (forall session fd, session_to_fd g !! session = Some fd <->
     session <> 0 /\ exists c, connections g !! fd = Some c /\ cn_session_id c = session).
Proof.
  intros Hs0 Hs. destruct (gateway_reaches s0 s Hs0 Hs) as (w0 & ins & outs & sb & Hok & _).
  pose proof (so_gateway _ _ Hok) as Hg. pose proof (so_room _ _ Hok) as Hroom. split.
  - intros fd c Hc. destruct (gw_connection _ Hg fd c Hc) as [Hcok Hfd].
    pose proof (pending_size c Hcok) as Hp. pose proof (co_received _ Hcok). pose proof (co_bounds _ Hcok).
    split; [done|]. split; [apply Hcok|]. split; [lia|].
    split; [intros E; unfold current in Hc; rewrite E in Hc; by apply (Hroom fd)|].
    split; [apply Hcok|]. split; [lia|]. split; [lia|].
    rewrite (co_interest _ Hcok). destruct (Z.eqb_spec (cn_begin c) (cn_end c)) as [E|E].
    + split; [done|]. intros Hne. destruct Hne. apply nil_length_inv. unfold vsize in Hp. lia.
    + split; [|done]. intros _ E'. rewrite E' in Hp. unfold vsize in Hp. cbn in Hp. lia.
  - intros session fd. split.
    + intros E. destruct (gw_session _ Hg session fd E) as (c & Hc & Hv & <-). split; [|by exists c].
      destruct (gw_connection _ Hg fd c Hc) as [Hcok _]. by apply (session_bound c Hcok).
    + intros [Hne (c & Hc & <-)]. apply (gw_bound _ Hg fd c Hc). destruct (gw_connection _ Hg fd c Hc) as [Hcok _].
      by apply (session_bound c Hcok).
Qed.

Lemma gateway_state_invariant_witness : exists s0 s, make_gateway = Ok s0 /\ tsteps s0 s /\
  let g := current s in
  connections g !! 5 = Some (make_connection 5) /\
  (forall fd c, connections g !! fd = Some c ->
     cn_fd c = fd /\ vsize (cn_receive c) = receive_capacity /\ 0 <= cn_received c <= receive_capacity /\
     (ts_network s = Waiting -> cn_received c < maximum_frame_size) /\
     vsize (cn_transmit c) = transmit_capacity /\ 0 <= cn_begin c <= cn_end c /\ cn_end c <= transmit_capacity /\
     (cn_interest c = true <-> pending_output c <> [])) /\
  (forall session fd, session_to_fd g !! session = Some fd <->
     session <> 0 /\ exists c, connections g !! fd = Some c /\ cn_session_id c = session).
Proof.
  destruct make_gateway_ok as (b & rq & rs & Hm & _). set (w := start b rq rs None) in *.
  set (s0 := MkTcp (MkGateway ∅ ∅ rq rs []) Waiting w) in *.
  set (s := MkTcp (accept_one (MkGateway ∅ ∅ rq rs []) 5 true true) Waiting w).
  assert (Hs : tsteps s0 s) by (eapply tsteps_step; [apply tsteps_start|apply t_accept]).
  exists s0, s. split; [exact Hm|]. split; [exact Hs|]. split; [apply lookup_insert_eq|].
  exact (gateway_state_invariant s0 s Hm Hs).
Defined.

(** C19: The network thread neither faults nor loops in any state the gateway
    can reach, provided the system calls behave as documented.  Between two
    events, an event is handled to its end and touches no other connection,
    and draining needs one round per response in the ring and leaves it empty.
    In the decoding loop, with the ring of requests in whatever state the
    engine left it, a round consumes bytes or ends the loop, and the rest of
    the handler then runs to its end. *)
Theorem gateway_rounds_terminate (s0 s : TcpSystem) : make_gateway = Ok s0 -> tsteps s0 s ->
  let g := ts_gateway s in
  match ts_network s with
  | Waiting =>
    (forall e, event_fits g e -> exists g' out, handle_event g e = Ok (g', out) /\
       responses g' = responses g /\
       forall fd, fd <> ev_fd e -> connections g' !! fd = connections g !! fd) /\
    (exists items, holds (responses g) items /\
       forall fuel, (length items < fuel)%nat -> exists g', drain_engine_responses fuel g = Ok g' /\
         holds (responses g') [] /\ requests g' = requests g)
  | Decoding e c consumed =>
    exists g1 c1 r, decode_one g c consumed = Ok (g1, c1, r) /\
      match r with
      | More n => consumed < n <= cn_received c1
      | Finished r => exists c2 keep, finish_read c1 r = Ok (c2, keep) /\
          (flush_fits c2 keep e -> exists g' out, finish_event g1 c2 keep e = Ok (g', out))
      end
  end.
Proof.
  intros Hs0 Hs. destruct (gateway_reaches s0 s Hs0 Hs) as (w0 & ins & outs & sb & [Hg Hroom Hround _ _ _ _ _] & _).
  unfold current in Hg. cbv zeta. destruct (ts_network s) as [|e c consumed]; [split|].
  - intros e He. destruct (handle_event_ok _ e Hg Hroom He) as (g' & out & H1 & _ & _ & H2 & _ & H3). by exists g', out.
  - destruct (gw_responses _ Hg) as (items & Hi & Hd). exists items. split; [done|]. intros fuel Hf.
    destruct (drain_ok fuel _ items Hg Hi Hd Hf) as (g' & H1 & _ & H2 & [H3 _] & _). by exists g'.
  - destruct Hround as [Hfd Hcons].
    destruct (decode_round_ok _ c consumed Hg Hcons) as (g1 & c1 & r & Hd & Hhd & Hr). exists g1, c1, r.
    split; [done|]. destruct r as [n|r]; [done|]. destruct Hr as (c2 & keep & Hfin & Hst & Hfd2 & Hk).
    exists c2, keep. split; [done|]. intros Hfl.
    destruct (finish_event_ok g1 c2 keep e Hst (handled_room _ _ _ _ Hhd Hroom) ltac:(congruence)
      (fun K => conj (Hk K) (Hfl K))) as (g' & out & He & _). by exists g', out.
Qed.

(** A client that hangs up at once. *)
Definition hangup (fd : Z) : SocketEvent := MkSocketEvent fd true true false [] [].

Lemma gateway_rounds_terminate_witness : exists s0 s, make_gateway = Ok s0 /\ tsteps s0 s /\
  let g := ts_gateway s in
  event_fits g (hangup 5) /\
  (forall e, event_fits g e -> exists g' out, handle_event g e = Ok (g', out) /\
     responses g' = responses g /\
     forall fd, fd <> ev_fd e -> connections g' !! fd = connections g !! fd) /\
  (exists items, holds (responses g) items /\
     forall fuel, (length items < fuel)%nat -> exists g', drain_engine_responses fuel g = Ok g' /\
       holds (responses g') [] /\ requests g' = requests g).
Proof.
  destruct make_gateway_ok as (b & rq & rs & Hm & _). set (w := start b rq rs None) in *.
  set (s0 := MkTcp (MkGateway ∅ ∅ rq rs []) Waiting w) in *.
  set (s := MkTcp (accept_one (MkGateway ∅ ∅ rq rs []) 5 true true) Waiting w).
  assert (Hs : tsteps s0 s) by (eapply tsteps_step; [apply tsteps_start|apply t_accept]).
  exists s0, s. split; [exact Hm|]. split; [exact Hs|]. split; [intros c _; split; [exact I|intros; exact I]|].
  exact (gateway_rounds_terminate s0 s Hm Hs).
Defined.

(** ** Input *)

(** C10: What a connection does with its input depends on the bytes that reach
    the decoder, not on how they were cut into events and [recv] calls: from
    any state of the invariant with no complete frame buffered and over any
    sequence of read events, the gateway ends in the state that handling
    the parsed requests of the concatenated bytes one by one gives; the
    incomplete frame at the end stays buffered; and the connection is kept
    exactly when no request closed it, no frame was malformed and the peer did
    not leave.  The bytes that reach the decoder are those of all events before
    the one in which [recv] reports the end of the stream or an error: that
    event closes the connection, and what it received itself is not decoded. *)
Theorem receive_stream_exact (g : Gateway) (c : Connection) (events : list (list RecvResult)) :
  gateway_ok (store g c) -> quiet c -> reads_fit g c events ->
  let '(bytes, gone) := stream g c events in
  exists g' c' c1 handled rs rest wellformed,
    requests_of (input_of c ++ bytes) = (rs, rest, wellformed) /\
    handle_all g c rs = Ok (g', c1, handled) /\
    read_all g c events = Ok (g', c', handled && wellformed && negb gone) /\
    c' = set_received c1 (cn_receive c') (cn_received c') /\
    (handled && wellformed && negb gone = true -> input_of c' = rest).
Proof.
  intros H Hq Hf. pose proof (read_all_ok g c events H Hq Hf) as Hall. destruct (stream g c events) as [bytes gone].
  destruct Hall as (g' & c' & c1 & h & rs & rest & ok & H1 & H2 & H3 & H4 & _ & H5).
  by exists g', c', c1, h, rs, rest, ok.
Qed.

(** A frame that arrives in two pieces on a new connection, before the peer
    shuts it down. *)
Definition two_pieces : list (list Z) := [take 20 demo_frame; drop 20 demo_frame].
Definition demo_gateway : Gateway := MkGateway ∅ ∅
  (MkQueue (replicate 4 (MkGatewayRequest 0 0 Command_zero)) 3 0 0)
  (MkQueue (replicate 4 (MkGatewayResponse 0 0 Event_zero)) 3 0 0) [].

Lemma demo_gateway_ok : gateway_ok demo_gateway /\ gateway_room demo_gateway.
Proof.
  apply empty_gateway_ok; [apply (empty_ring_holds (replicate 4 (MkGatewayRequest 0 0 Command_zero)) 2)|
    apply (empty_ring_holds (replicate 4 (MkGatewayResponse 0 0 Event_zero)) 2)]; first [lia|reflexivity].
Qed.

Lemma demo_accepted_ok : gateway_ok (store demo_gateway (make_connection 5)).
Proof. exact (proj1 (accept_one_ok demo_gateway 5 true true (proj1 demo_gateway_ok) (proj2 demo_gateway_ok))). Qed.

Lemma two_pieces_ok :
  Forall (fun bs => bs <> [] /\ bytes_ok bs /\ vsize bs <= receive_capacity - maximum_frame_size) two_pieces.
Proof.
  constructor; [|constructor; [|constructor]]; (split; [vm_compute; discriminate|]); (split; [|vm_compute; discriminate]).
  - apply Forall_take, demo_frame_bytes.
  - apply Forall_drop, demo_frame_bytes.
Qed.

Lemma receive_stream_exact_witness :
  let c := make_connection 5 in
  let events := ((fun bs => [Received bs]) <$> two_pieces) ++ [[EndOfStream]] in
  let '(bytes, gone) := stream demo_gateway c events in
  exists g' c' c1 handled rs rest wellformed,
    requests_of (input_of c ++ bytes) = (rs, rest, wellformed) /\
    handle_all demo_gateway c rs = Ok (g', c1, handled) /\
    read_all demo_gateway c events = Ok (g', c', handled && wellformed && negb gone) /\
    c' = set_received c1 (cn_receive c') (cn_received c') /\
    (handled && wellformed && negb gone = true -> input_of c' = rest).
Proof.
  apply (receive_stream_exact demo_gateway (make_connection 5)
    (((fun bs => [Received bs]) <$> two_pieces) ++ [[EndOfStream]])).
  - exact demo_accepted_ok.
  - reflexivity.
  - apply pieces_fit; [exact demo_accepted_ok|reflexivity|exact two_pieces_ok].
Defined.

(** ** Output *)

(** C16: The transmit buffer is a lossless queue of frames.  Over any sequence
    of queued responses and flushes, with partial sends, interruptions and
    compactions anywhere, what was sent followed by what is pending is what
    was pending followed by the frames of the accepted responses, in order;
    the accepted responses are all of them while the connection is open and a
    prefix of them otherwise; and a peer that decodes the stream reads exactly
    the accepted responses. *)
Theorem transmit_stream_exact (c : Connection) (ops : list OutputOp) :
  conn_ok c -> output_fits c ops ->
  exists c' open sent accepted, output_run c ops = Ok (c', open, sent, accepted) /\
    pending_output c ++ concat (response_frame <$> accepted) = sent ++ pending_output c' /\
    accepted `prefix_of` queued ops /\
    (open = true -> conn_ok c' /\ accepted = queued ops) /\
    (pending_output c = [] -> Forall response_ok accepted -> forall more,
       read_responses (length accepted) ((sent ++ pending_output c') ++ more) = on_wire <$> accepted).
Proof.
  intros H Hf. destruct (output_run_ok c ops H Hf) as (c' & ok & sent & acc & H1 & H2 & H3 & H4).
  exists c', ok, sent, acc. split_and!; try done. intros Hp Hr more. rewrite <- H2, Hp. by apply read_frames.
Qed.

Definition demo_response : Response := MkResponse 7 1 (MkEvent 1 Accepted Sell NoReason 0 9 0 10000 2).

(** A response queued and sent in part. *)
Definition demo_output : list OutputOp :=
  [Queue demo_response; Flush [SendInterrupted; Sent 10; SendBlocked]].

Lemma demo_output_fits : output_fits (make_connection 5) demo_output.
Proof.
  assert (Ha : addressed demo_response) by (split; discriminate).
  split; [exact Ha|]. intros c' Hq. split; [|by intros].
  destruct (queue_response_ok (make_connection 5) demo_response (make_connection_ok 5) Ha) as (c1 & Hc1 & _ & Hq').
  assert (Hp : pending_output (make_connection 5) = []) by reflexivity. rewrite Hp in Hq'. destruct Hq' as [Hq1 Hp1].
  rewrite Hq in Hq1. injection Hq1 as <-. rewrite <- pending_size, Hp1 by done. cbn [app].
  unfold vsize. rewrite (response_frame_length _ Ha). cbn. split; [lia|done].
Qed.

Lemma transmit_stream_exact_witness :
  let c := make_connection 5 in
  exists c' open sent accepted, output_run c demo_output = Ok (c', open, sent, accepted) /\
    pending_output c ++ concat (response_frame <$> accepted) = sent ++ pending_output c' /\
    accepted `prefix_of` queued demo_output /\
    (open = true -> conn_ok c' /\ accepted = queued demo_output) /\
    (pending_output c = [] -> Forall response_ok accepted -> forall more,
       read_responses (length accepted) ((sent ++ pending_output c') ++ more) = on_wire <$> accepted).
Proof.
  exact (transmit_stream_exact (make_connection 5) demo_output (make_connection_ok 5) demo_output_fits).
Defined.

(** C17: Draining routes the responses of the ring, in order: each session's
    output grows by the frames of exactly its own responses, a response whose
    session has no connection is discarded, and a session whose buffer has no
    room for a frame is closed without touching the others.  Input buffers,
    validators and the ring of requests are unaffected. *)
Theorem drain_routes_responses (g : Gateway) (items : list GatewayResponse) (fuel : nat) :
  gateway_ok g -> holds (responses g) items -> Forall deliverable items -> (length items < fuel)%nat ->
  exists g', drain_engine_responses fuel g = Ok g' /\ gateway_ok g' /\ holds (responses g') [] /\
    drained_from g g' /\
    forall session, session_output g' session = foldl (deliver session) (session_output g session) items.
Proof. apply drain_ok. Qed.

(** A gateway that serves session 7, with a response for it and one for a
    session that is gone. *)
Definition bound_gateway : Gateway :=
  store (set_sessions demo_gateway (<[7 := 5]> ∅)) (set_session (make_connection 5) 7 (make_validator 7 RiskLimits_default)).
Definition two_responses : list GatewayResponse :=
  [MkGatewayResponse 7 1 (rs_event demo_response); MkGatewayResponse 8 1 (rs_event demo_response)].
Definition loaded_gateway : Gateway :=
  set_responses bound_gateway (MkQueue (two_responses ++ replicate 2 (MkGatewayResponse 0 0 Event_zero)) 3 0 2).

Lemma two_responses_hold : holds (responses loaded_gateway) two_responses.
Proof.
  constructor.
  - exists 2. split; [lia|reflexivity].
  - reflexivity.
  - vm_compute. by split.
  - reflexivity.
  - reflexivity.
  - intros k x Hk. pose proof (vlook_Some_lt _ _ _ Hk) as Hr. change (vsize two_responses) with 2 in Hr.
    assert (k = 0 \/ k = 1) as [-> | ->] by lia; exact Hk.
Qed.

Lemma two_responses_deliverable : Forall deliverable two_responses.
Proof. repeat constructor; discriminate. Qed.

Lemma loaded_gateway_ok : gateway_ok loaded_gateway.
Proof.
  apply (set_responses_ok bound_gateway _ two_responses); [|exact two_responses_hold|exact two_responses_deliverable].
  apply (store_bind demo_gateway (make_connection 5)); [exact demo_accepted_ok|reflexivity|reflexivity|].
  apply fresh_session_ok; [apply make_connection_ok|split; discriminate|discriminate].
Qed.

Lemma drain_routes_responses_witness :
  exists g', drain_engine_responses 3 loaded_gateway = Ok g' /\ gateway_ok g' /\ holds (responses g') [] /\
    drained_from loaded_gateway g' /\
    forall session, session_output g' session =
      foldl (deliver session) (session_output loaded_gateway session) two_responses.
Proof.
  apply (drain_routes_responses loaded_gateway two_responses 3).
  - exact loaded_gateway_ok.
  - exact two_responses_hold.
  - exact two_responses_deliverable.
  - cbn. lia.
Defined.
