(* ===== verification/CString.v ===== *)
(** * CString: command-line arguments

    The C library calls that the programs apply to their arguments:
    [std::strtoul] and [std::strtoull] in base 10 (both 64 bits wide on the
    platforms the sources target), and the digit test of the benchmark.
    Arguments are strings; [argv] has the program's name first. *)
From Stdlib Require Import ZArith Lia Ascii.
From stdpp Require Import base numbers strings list.
From S2P Require Import Prelude.
Local Open Scope Z_scope.

Definition code (c : ascii) : Z := Z.of_N (N_of_ascii c).

(** [isspace] in the C locale. *)
Definition is_space (c : ascii) : bool := (code c =? 32) || ((9 <=? code c) && (code c <=? 13)).
Definition is_digit (c : ascii) : bool := (48 <=? code c) && (code c <=? 57).

Fixpoint skip_spaces (s : string) : string :=
  match s with
  | EmptyString => s
  | String c rest => if is_space c then skip_spaces rest else s
  end.

(** The value of the digits at the head of the string, before any limit. *)
Fixpoint digits_value (acc : Z) (s : string) : Z :=
  match s with
  | EmptyString => acc
  | String c rest => if is_digit c then digits_value (10 * acc + (code c - 48)) rest else acc
  end.

(** White space, an optional sign, digits: the value saturates, a minus sign
    negates it modulo 2^64, and nothing to convert gives zero. *)
Definition strtoull (s : string) : Z :=
  let s := skip_spaces s in
  let '(negative, s) :=
    match s with
    | String c rest => if code c =? 45 then (true, rest) else if code c =? 43 then (false, rest) else (false, s)
    | EmptyString => (false, s)
    end in
  let v := digits_value 0 s in
  if u64_max <? v then u64_max else if (negative : bool) then u64 (- v) else v.

(** [numeric] of apps/benchmark.cpp. *)
Fixpoint all_digits (s : string) : bool :=
  match s with EmptyString => true | String c rest => is_digit c && all_digits rest end.
Definition numeric (s : string) : bool :=
  match s with EmptyString => false | _ => all_digits s end.

(** ** Facts *)

Lemma digits_value_nonneg s acc : 0 <= acc -> 0 <= digits_value acc s.
Proof.
  revert acc. induction s as [|c s IH]; intros acc H; cbn; [done|].
  destruct (is_digit c) eqn:E; [|done]. apply IH. unfold is_digit in E. lia.
Qed.

Lemma strtoull_range s : is_u64 (strtoull s).
Proof.
  unfold strtoull. destruct (skip_spaces s) as [|c rest]; [by vm_compute|].
  set (p := if code c =? 45 then (true, rest) else if code c =? 43 then (false, rest) else (false, String c rest)).
  destruct p as [negative t]. pose proof (digits_value_nonneg t 0).
  destruct (Z.ltb_spec u64_max (digits_value 0 t)); [by vm_compute|].
  destruct negative; [apply u64_range|]. intlia.
Qed.

Lemma digit_not_sign c : is_digit c = true -> is_space c = false /\ code c <> 45 /\ code c <> 43.
Proof. unfold is_digit, is_space. lia. Qed.

(** A string of digits is its value, saturated. *)
Lemma strtoull_numeric s : numeric s = true -> strtoull s = Z.min u64_max (digits_value 0 s).
Proof.
  destruct s as [|c s]; [done|]. cbn [numeric all_digits]. intros [Hc _]%andb_prop.
  destruct (digit_not_sign c Hc) as (Hs & Hm & Hp). unfold strtoull. cbn [skip_spaces]. rewrite Hs.
  rewrite (proj2 (Z.eqb_neq _ _) Hm), (proj2 (Z.eqb_neq _ _) Hp).
  destruct (Z.ltb_spec u64_max (digits_value 0 (String c s))); lia.
Qed.

(** Decimal notation, least significant digit last. *)
Definition digit_char (d : Z) : ascii := ascii_of_N (Z.to_N (48 + d)).

Fixpoint decimal_loop (fuel : nat) (n : Z) (rest : string) : string :=
  match fuel with
  | O => rest
  | S fuel =>
    let rest := String (digit_char (n mod 10)) rest in
    if n / 10 =? 0 then rest else decimal_loop fuel (n / 10) rest
  end.
Definition decimal (n : Z) : string := decimal_loop 20 n EmptyString.

Lemma digit_char_code d : 0 <= d < 10 -> code (digit_char d) = 48 + d.
Proof.
  intros Hd. unfold code, digit_char. rewrite N_ascii_embedding by lia. lia.
Qed.

Lemma digit_char_digit d : 0 <= d < 10 -> is_digit (digit_char d) = true.
Proof. intros Hd. unfold is_digit. rewrite digit_char_code by done. lia. Qed.

(** [v] in front of [rest] is what the loop leaves. *)
Lemma decimal_loop_ok fuel n rest : 0 <= n < 10 ^ Z.of_nat fuel -> (0 < fuel)%nat ->
  all_digits rest = true ->
  numeric (decimal_loop fuel n rest) = true /\
  digits_value 0 (decimal_loop fuel n rest) = digits_value n rest.
Proof.
  revert n rest. induction fuel as [|fuel IH]; intros n rest Hn Hf Hr; [lia|]. cbn [decimal_loop].
  pose proof (Z.mod_pos_bound n 10 ltac:(lia)) as Hm. pose proof (Z.div_mod n 10 ltac:(lia)) as Hd.
  assert (Hr' : all_digits (String (digit_char (n mod 10)) rest) = true).
  { cbn. by rewrite digit_char_digit. }
  assert (Hstep : forall a, digits_value a (String (digit_char (n mod 10)) rest) = digits_value (10 * a + n mod 10) rest).
  { intros a. cbn [digits_value]. rewrite digit_char_digit, digit_char_code by done. f_equal. lia. }
  destruct (Z.eqb_spec (n / 10) 0) as [E|E].
  - split; [done|]. rewrite Hstep. f_equal. lia.
  - assert (0 < n / 10) by (pose proof (Z.div_pos n 10); lia).
    assert (Hlt : n / 10 < 10 ^ Z.of_nat fuel).
    { apply Z.div_lt_upper_bound; [lia|]. rewrite <- Z.pow_succ_r, <- Nat2Z.inj_succ by lia. apply Hn. }
    destruct fuel as [|fuel]; [cbn in Hlt; lia|].
    destruct (IH (n / 10) _ ltac:(lia) ltac:(lia) Hr') as [H1 H2]. split; [done|].
    rewrite H2, Hstep. f_equal. lia.
Qed.

Lemma decimal_round_trip n : is_u64 n -> numeric (decimal n) = true /\ strtoull (decimal n) = n.
Proof.
  intros Hn. destruct (decimal_loop_ok 20 n EmptyString) as [H1 H2]; [|lia|done|].
  { split; [intlia|]. eapply Z.le_lt_trans; [apply Hn|]. by vm_compute. }
  fold (decimal n) in H1, H2. split; [done|]. rewrite strtoull_numeric by done. rewrite H2. cbn. intlia.
Qed.
