(* ===== verification/TcpLife.v ===== *)
(** * TcpLife: start-up, descriptors and shutdown of the gateway process
      (apps/gateway.cpp)

    [Process] adds to the two threads of [TcpSystem] what the kernel and the
    class keep about resources: the open descriptors, the listening and the
    epoll descriptor, whether the engine thread is to be joined, and the stop
    flag.  [initialize] and the destructor are functions of the outcomes of
    their system calls; [lstep] is the life of the process from [run] to its
    exit, labelled with what [run] finds out.  A descriptor returned by the
    kernel is one that is not open; one is closed when the program passes it to
    [::close], and [p_misclosed] records a close of one that is not open.

    The engine thread leaves its loop only when it has seen the stop flag. *)
From Stdlib Require Import ZArith Lia.
From stdpp Require Import base numbers gmap strings list.
From S2P Require Import Prelude Types OrderIndex FixedHash OrderBook BookSpec SpecFacts BookRefine.
From S2P Require Import SpecInv BookRun Engine Bytes Protocol ProtocolFacts Gateway Spsc Runner.
From S2P Require Import TcpGateway TcpOutput TcpInput TcpState TcpEvents TcpSystem CString.
Local Open Scope Z_scope.

Record Process : Type := MkProcess {
  p_open : gset Z;                 (* descriptors open in the process *)
  p_misclosed : bool;              (* a descriptor was closed that was not open *)
  p_listen : Z;                    (* listen_fd_ *)
  p_epoll : Z;                     (* epoll_fd_ *)
  p_joinable : bool;               (* engine_thread_.joinable() *)
  p_stop : bool;                   (* stop_ *)
  p_system : TcpSystem }.

(** ** System calls *)

Definition k_open (p : Process) (fd : Z) : Process :=
  MkProcess ({[fd]} ∪ p_open p) (p_misclosed p) (p_listen p) (p_epoll p) (p_joinable p) (p_stop p) (p_system p).
Definition k_close (p : Process) (fd : Z) : Process :=
  MkProcess (p_open p ∖ {[fd]}) (p_misclosed p || negb (bool_decide (fd ∈ p_open p)))
    (p_listen p) (p_epoll p) (p_joinable p) (p_stop p) (p_system p).
Definition k_close_all (p : Process) (fds : list Z) : Process := foldl k_close p fds.

Definition set_listen (p : Process) (fd : Z) : Process :=
  MkProcess (p_open p) (p_misclosed p) fd (p_epoll p) (p_joinable p) (p_stop p) (p_system p).
Definition set_epoll (p : Process) (fd : Z) : Process :=
  MkProcess (p_open p) (p_misclosed p) (p_listen p) fd (p_joinable p) (p_stop p) (p_system p).
Definition set_joinable (p : Process) (b : bool) : Process :=
  MkProcess (p_open p) (p_misclosed p) (p_listen p) (p_epoll p) b (p_stop p) (p_system p).
Definition set_stop (p : Process) : Process :=
  MkProcess (p_open p) (p_misclosed p) (p_listen p) (p_epoll p) (p_joinable p) true (p_system p).
Definition set_system (p : Process) (s : TcpSystem) : Process :=
  MkProcess (p_open p) (p_misclosed p) (p_listen p) (p_epoll p) (p_joinable p) (p_stop p) s.

(** [set_nonblocking] on the results of its two [fcntl] calls. *)
Definition set_nonblocking (getfl setfl : Z) : bool := (0 <=? getfl) && (setfl =? 0).

(** ** Start-up *)

(** What the calls of [initialize] return; [None] is a failed call. *)
Record Startup : Set := MkStartup {
  su_socket : option Z;
  su_bind : bool;
  su_listen : bool;
  su_epoll : option Z;
  su_register : bool }.

Definition initialize (p : Process) (su : Startup) : Process * bool :=
  match su_socket su with
  | None => (set_listen p (-1), false)
  | Some fd =>
    let p := set_listen (k_open p fd) fd in
    if negb (su_bind su) || negb (su_listen su) then (p, false)
    else
      match su_epoll su with
      | None => (set_epoll p (-1), false)
      | Some fd =>
        let p := set_epoll (k_open p fd) fd in
        if negb (su_register su) then (p, false) else (set_joinable p true, true)
      end
  end.

(** The port of the command line. *)
Definition requested_port (argv : list string) : Z :=
  match argv with _ :: arg :: _ => strtoull arg | _ => 9001 end.
Definition gateway_port (argv : list string) : option Z :=
  if (requested_port argv =? 0) || (65535 <? requested_port argv) then None
  else Some (u16 (requested_port argv)).

(** Where the process is: in [run], after [run] asked the engine to stop, in
    the destructor, or gone with an exit status. *)
Inductive Stage : Set :=
  | Serving
  | Joining
  | Destroying (status : Z)
  | Exited (status : Z).

(** [main] up to [run]: an exit status, or a process in the event loop or on
    its way out. *)
Definition gateway_main (argv : list string) (inherited : gset Z) (su : Startup)
  : result (Process * Stage + Z) :=
  match gateway_port argv with
  | None => Ok (inr 2)
  | Some port =>
    s ← make_gateway;
    let '(p, ok) := initialize (MkProcess inherited false (-1) (-1) false false s) su in
    Ok (inl (p, if (ok : bool) then Serving else Destroying 1))
  end.

(** ** The life of the process *)

(** A round of [accept_connections] with a socket. *)
Definition accept_round (p : Process) (fd getfl setfl : Z) (registered : bool) : Process :=
  let p := k_open p fd in
  if negb (set_nonblocking getfl setfl) then k_close p fd
  else if negb registered then k_close p fd
  else
    let s := p_system p in
    set_system p (MkTcp (accept_one (ts_gateway s) fd true true) (ts_network s) (ts_world s)).

Definition sockets (s : TcpSystem) : gset Z := dom (connections (ts_gateway s)).

(** A step of the network thread: the kernel closes the descriptors that the
    step has passed to [::close], no others. *)
Definition closed_by (s s' : TcpSystem) : list Z :=
  drop (length (closed (ts_gateway s))) (closed (ts_gateway s')).
Definition serve (p : Process) (s : TcpSystem) : Process := k_close_all (set_system p s) (closed_by (p_system p) s).

Definition engine_phase (s : TcpSystem) : Phase := r_phase (runner (ts_world s)).

(** The closes of the destructor. *)
Definition destroy (p : Process) : Process :=
  let p := k_close_all p (elements (sockets (p_system p))) in
  let p := if 0 <=? p_listen p then k_close p (p_listen p) else p in
  if 0 <=? p_epoll p then k_close p (p_epoll p) else p.

Definition engine_moves (s : TcpSystem) (w : GatewayWorld) : TcpSystem :=
  MkTcp (set_rings (ts_gateway s) w) (ts_network s) w.

(** What [epoll_wait] returns: events or a timeout, [EINTR], another error; and
    the status with which [run] returns at once, if it does. *)
Inductive WaitResult : Set := WaitReady | WaitInterrupted | WaitFailed.
Definition wait_status (r : WaitResult) : option Z :=
  match r with WaitFailed => Some 1 | WaitReady | WaitInterrupted => None end.

(** What [run] finds out on the way: a result of [epoll_wait], or that the
    signal handler has set [interrupted]. *)
Inductive Observation : Set := Waited (r : WaitResult) | Signalled.

Inductive lstep : Process * Stage -> list Observation -> Process * Stage -> Prop :=
  (* the loop of [accept_connections] *)
  | l_accept p fd getfl setfl registered :
      ts_network (p_system p) = Waiting -> 0 <= fd -> fd ∉ p_open p ->
      lstep (p, Serving) [] (accept_round p fd getfl setfl registered, Serving)
  (* everything else the network thread does *)
  | l_serve p s : nstep (p_system p) s -> lstep (p, Serving) [] (serve p s, Serving)
  (* the engine thread, while there is one *)
  | l_engine p st w : p_joinable p = true -> engine_step (ts_world (p_system p)) w ->
      (r_phase (runner w) = Stopped -> p_stop p = true) ->
      lstep (p, st) [] (set_system p (engine_moves (p_system p) w), st)
  | l_wait p r : ts_network (p_system p) = Waiting ->
      lstep (p, Serving) [Waited r]
        (p, match wait_status r with Some status => Destroying status | None => Serving end)
  (* the loop sees [interrupted] *)
  | l_interrupted p : ts_network (p_system p) = Waiting -> lstep (p, Serving) [Signalled] (set_stop p, Joining)
  | l_join p : engine_phase (p_system p) = Stopped ->
      lstep (p, Joining) [] (set_joinable p false, Destroying 0)
  (* the destructor: stop, join if there is a thread, close *)
  | l_destroy_stop p status : lstep (p, Destroying status) [] (set_stop p, Destroying status)
  | l_destroy p status : p_stop p = true ->
      (p_joinable p = true -> engine_phase (p_system p) = Stopped) ->
      lstep (p, Destroying status) [] (destroy (set_joinable p false), Exited status).

Inductive lsteps (l0 : Process * Stage) : list Observation -> Process * Stage -> Prop :=
  | lsteps_start : lsteps l0 [] l0
  | lsteps_step obs l o l' : lsteps l0 obs l -> lstep l o l' -> lsteps l0 (obs ++ o) l'.

Lemma lsteps_trans l1 l2 l3 obs1 obs2 : lsteps l1 obs1 l2 -> lsteps l2 obs2 l3 -> lsteps l1 (obs1 ++ obs2) l3.
Proof.
  intros H1 H2. induction H2 as [|obs l o l' _ IH Hs]; [by rewrite app_nil_r|].
  rewrite app_assoc. by eapply lsteps_step.
Qed.

Lemma lsteps_one l o l' : lstep l o l' -> lsteps l o l'.
Proof. intros H. change o with ([] ++ o). eapply lsteps_step; [constructor|done]. Qed.

(** ** Why a process is where it is *)

(** The stage and the status as a function of what [run] found out. *)
Definition cause (st0 : Stage) (obs : list Observation) (st : Stage) : Prop :=
  match st with
  | Serving => st0 = Serving /\ (Signalled ∉ obs) /\ (Waited WaitFailed ∉ obs)
  | Joining => st0 = Serving /\ Signalled ∈ obs /\ (Waited WaitFailed ∉ obs)
  | Destroying status | Exited status =>
    (status = 0 /\ st0 = Serving /\ Signalled ∈ obs /\ (Waited WaitFailed ∉ obs)) \/
    (status = 1 /\ (Signalled ∉ obs) /\ (st0 = Destroying 1 \/ Waited WaitFailed ∈ obs))
  end.

Lemma lsteps_cause p0 st0 obs l : st0 = Serving \/ st0 = Destroying 1 -> lsteps (p0, st0) obs l ->
  cause st0 obs l.2.
Proof.
  intros H0. induction 1 as [|obs l o l' _ IH Hs]; cbn [snd].
  { destruct H0 as [-> | ->]; cbn; [split_and!; [done|apply not_elem_of_nil..]|].
    right. split_and!; [done|apply not_elem_of_nil|by left]. }
  destruct Hs as [| |p st w Hj He Hstop|p r Hn|p Hn|p Hph| |]; cbn [snd] in *; rewrite ?app_nil_r; try done.
  - destruct IH as (H1 & H2 & H3). destruct r; cbn [wait_status cause]; [set_solver..|].
    right. split_and!; [done|set_solver|right; set_solver].
  - destruct IH as (H1 & H2 & H3). cbn. set_solver.
  - left. by destruct IH as (H1 & H2 & H3).
Qed.

(** ** Sockets of the network thread *)

(** The connection that is being read is in the table. *)
Definition reading_present (s : TcpSystem) : Prop :=
  match ts_network s with
  | Waiting => True
  | Decoding e _ _ => is_Some (connections (ts_gateway s) !! ev_fd e)
  end.

Lemma sockets_lookup s fd : fd ∈ sockets s <-> is_Some (connections (ts_gateway s) !! fd).
Proof. apply elem_of_dom. Qed.

(** What a step of the network thread closes: sockets of connections, each
    once, and exactly those that it takes out of the table. *)
Definition closes (g g' : Gateway) : Prop := exists fds, closed g' = closed g ++ fds /\ NoDup fds /\
  (list_to_set fds : gset Z) ⊆ dom (connections g) /\ dom (connections g') = dom (connections g) ∖ list_to_set fds.

Lemma closes_same g g' : closed g' = closed g -> dom (connections g') = dom (connections g) -> closes g g'.
Proof. intros H1 H2. exists []. rewrite app_nil_r, H2. split_and!; [done|constructor|set_solver..]. Qed.

Lemma closes_connection g g1 fd : closed g1 = closed g -> dom (connections g1) = dom (connections g) ->
  closes g (close_connection g1 fd).
Proof.
  intros H1 H2. unfold close_connection. destruct (connections g1 !! fd) as [c|] eqn:E; [|by apply closes_same].
  exists [fd]. destruct (negb (cn_session_id c =? 0)); cbn; rewrite H1, dom_delete_L, H2;
    (split_and!; [done|apply NoDup_singleton| |set_solver]); rewrite <- H2;
    apply elem_of_dom_2 in E; set_solver.
Qed.

Lemma store_dom g c : is_Some (connections g !! cn_fd c) -> dom (connections (store g c)) = dom (connections g).
Proof. intros H%elem_of_dom. unfold store. cbn. rewrite dom_insert_L. set_solver. Qed.

Lemma flush_fd c sends c' ok out : flush_output c sends = Ok (c', ok, out) -> cn_fd c' = cn_fd c.
Proof.
  unfold flush_output. intros ([[c1 ok1] out1] & Hl & H)%bind_Ok_inv.
  assert (E : cn_fd c1 = cn_fd c).
  { clear H. revert c Hl. generalize (@nil Z). induction sends as [|r sends IH]; intros acc c; cbn [flush_loop].
    - destruct (_ =? _); by intros [= <- _ _].
    - destruct (cn_begin c =? cn_end c); [by intros [= <- _ _]|]. destruct r as [n| | |].
      + destruct (0 <? n); [|by intros [= <- _ _]]. intros (bs & _ & Hl)%bind_Ok_inv. by apply IH in Hl.
      + apply IH.
      + by intros [= <- _ _].
      + by intros [= <- _ _]. }
  destruct (negb ok1); injection H as <- _ _; [done|]. by destruct (_ =? _).
Qed.

Lemma queue_response_fd c r c' ok : queue_response c r = Ok (c', ok) -> cn_fd c' = cn_fd c.
Proof.
  unfold queue_response. intros (c1 & Hm & H)%bind_Ok_inv.
  assert (E : cn_fd c1 = cn_fd c).
  { clear H. unfold make_room in Hm. destruct (negb _ && _); [|by injection Hm as <-].
    apply bind_Ok_inv in Hm as (bs & _ & Hm). by injection Hm as <-. }
  cbv zeta in H. apply bind_Ok_inv in H as (d & _ & H). apply bind_Ok_inv in H as ([[ok1 n] d'] & _ & H).
  destruct (negb ok1); [by injection H as <- _|]. apply bind_Ok_inv in H as (bs & _ & H). by injection H as <- _.
Qed.

Lemma finish_event_closes g c keep e g' out : finish_event g c keep e = Ok (g', out) ->
  is_Some (connections g !! cn_fd c) -> closes g g'.
Proof.
  unfold finish_event. intros ([[c1 keep1] out1] & Hf & H)%bind_Ok_inv Hc.
  assert (E : cn_fd c1 = cn_fd c).
  { destruct (keep && ev_writable e); [by apply flush_fd in Hf|]. by injection Hf as <- _ _. }
  injection H as <- _. rewrite <- E in Hc. destruct keep1; [|by apply closes_connection, store_dom].
  by apply closes_same, store_dom.
Qed.

Lemma drain_one_closes g g' more : gateway_ok g -> drain_one g = Ok (g', more) -> closes g g'.
Proof.
  intros Hg. unfold drain_one. intros ([q v] & _ & H)%bind_Ok_inv.
  destruct v as [r|]; [|injection H as <- _; by apply closes_same].
  destruct (session_to_fd (set_responses g q) !! _) as [fd|]; [|injection H as <- _; by apply closes_same].
  destruct (connections (set_responses g q) !! fd) as [c|] eqn:Ec; cycle 1.
  { injection H as <- _. by apply closes_connection. }
  apply bind_Ok_inv in H as ([c1 ok] & Hq & H). apply queue_response_fd in Hq.
  destruct (gw_connection _ Hg fd c Ec) as [_ Hfd].
  assert (Hdom : dom (connections (store (set_responses g q) c1)) = dom (connections g)).
  { rewrite store_dom; [done|]. rewrite Hq, Hfd. by eexists. }
  injection H as <- _. destruct ok; [by apply closes_same|by apply closes_connection].
Qed.

Lemma nstep_closes w0 s s' : system_ok w0 s -> reading_present s -> nstep s s' ->
  closes (ts_gateway s) (ts_gateway s') /\ reading_present s'.
Proof.
  intros H Hp Hs. pose proof (so_gateway _ _ H) as Hg. pose proof (so_round _ _ H) as Hround.
  destruct Hs as [g w e c g' out Hc _ Hf He|g w e c c' Hc _ Hr Hl|g w e c c' g' out Hc _ Hr Hl He
    |g w e c consumed g' c' n Hd|g w e sends c consumed g1 c1 r c2 keep g' out Hd Hfin Hf He|g w g' more Hd];
    unfold reading_present in *; cbn [current ts_gateway ts_network ts_world] in *.
  - destruct (gw_connection _ Hg _ c Hc) as [_ Hfd]. split; [|done].
    eapply finish_event_closes; [exact He|]. rewrite Hfd. by eexists.
  - split; [by apply closes_same|by eexists].
  - destruct (gw_connection _ Hg _ c Hc) as [Hcok Hfd]. split; [|done].
    destruct (recv_loop_ok c _ Hcok Hr) as (buf & n & Hl2 & _). rewrite Hl in Hl2. injection Hl2 as -> _.
    eapply finish_event_closes; [exact He|]. cbn [set_received cn_fd]. rewrite Hfd. by eexists.
  - destruct Hround as [Hfd Hcons]. destruct (decode_round_ok g c consumed Hg Hcons) as (g2 & c2 & r & Hd2 & Hhd & _).
    rewrite Hd in Hd2. injection Hd2 as <- <- <-. rewrite (hd_connections _ _ _ _ Hhd). split; [|done].
    apply closes_same; [exact (hd_closed _ _ _ _ Hhd)|by rewrite (hd_connections _ _ _ _ Hhd)].
  - destruct Hround as [Hfd Hcons]. destruct (decode_round_ok g c consumed Hg Hcons) as (g2 & c3 & r2 & Hd2 & Hhd & Hn).
    rewrite Hd in Hd2. injection Hd2 as <- <- <-. destruct Hn as (c4 & keep2 & Hfin2 & _ & Hfd2 & _).
    rewrite Hfin in Hfin2. injection Hfin2 as <- <-. split; [|done].
    destruct (finish_event_closes _ _ _ _ _ _ He) as (fds & H1 & H2 & H3 & H4).
    { by rewrite Hfd2, Hfd, (hd_connections _ _ _ _ Hhd). }
    exists fds. by rewrite <- (hd_closed _ _ _ _ Hhd), <- (hd_connections _ _ _ _ Hhd).
  - split; [|done]. by eapply drain_one_closes.
Qed.

(** ** Closing *)

Lemma k_close_all_ok fds p : NoDup fds -> (forall fd, fd ∈ fds -> fd ∈ p_open p) ->
  k_close_all p fds =
    MkProcess (p_open p ∖ list_to_set fds) (p_misclosed p) (p_listen p) (p_epoll p) (p_joinable p) (p_stop p)
      (p_system p).
Proof.
  intros Hnd. revert p. induction Hnd as [|fd fds Hfd _ IH]; intros p Hin.
  { cbn. destruct p; cbn. f_equal. set_solver. }
  cbn [k_close_all foldl]. fold (k_close_all (k_close p fd) fds). rewrite IH.
  - unfold k_close. cbn. rewrite bool_decide_eq_true_2 by (apply Hin; set_solver). cbn.
    rewrite orb_false_r. f_equal. set_solver.
  - intros fd' Hfd'. cbn. specialize (Hin fd' ltac:(set_solver)). set_solver.
Qed.

(** ** The invariant of the process *)

Definition maybe_fd (fd : Z) : gset Z := if 0 <=? fd then {[fd]} else ∅.

Record open_ok (inherited : gset Z) (p : Process) : Prop := {
  oo_open : p_open p = inherited ∪ maybe_fd (p_listen p) ∪ maybe_fd (p_epoll p) ∪ sockets (p_system p);
  oo_inherited : inherited ## maybe_fd (p_listen p) ∪ maybe_fd (p_epoll p) ∪ sockets (p_system p);
  oo_listen : maybe_fd (p_listen p) ## maybe_fd (p_epoll p) ∪ sockets (p_system p);
  oo_epoll : maybe_fd (p_epoll p) ## sockets (p_system p) }.

Record life_inv (inherited : gset Z) (s0 : TcpSystem) (l : Process * Stage) : Prop := {
  li_steps : tsteps s0 (p_system l.1);
  li_reading : reading_present (p_system l.1);
  li_clean : p_misclosed l.1 = false;
  li_open : match l.2 with
    | Exited status => p_open l.1 = inherited /\ p_joinable l.1 = false
    | _ => open_ok inherited l.1
    end;
  li_stage : match l.2 with
    | Serving => p_joinable l.1 = true
    | Joining => p_joinable l.1 = true /\ p_stop l.1 = true
    | Destroying _ | Exited _ => True
    end }.

Lemma k_close_open p fd : fd ∈ p_open p -> k_close p fd =
  MkProcess (p_open p ∖ {[fd]}) (p_misclosed p) (p_listen p) (p_epoll p) (p_joinable p) (p_stop p) (p_system p).
Proof. intros H. unfold k_close. by rewrite bool_decide_eq_true_2, orb_false_r. Qed.

Lemma accept_round_open p fd getfl setfl registered inherited : open_ok inherited p -> fd ∉ p_open p ->
  p_misclosed p = false ->
  open_ok inherited (accept_round p fd getfl setfl registered) /\
  p_misclosed (accept_round p fd getfl setfl registered) = false /\
  (p_system (accept_round p fd getfl setfl registered) = p_system p \/
   p_system (accept_round p fd getfl setfl registered) =
     MkTcp (accept_one (ts_gateway (p_system p)) fd true true) (ts_network (p_system p)) (ts_world (p_system p))) /\
  p_joinable (accept_round p fd getfl setfl registered) = p_joinable p.
Proof.
  intros [Ho Hi Hl He] Hfd Hm.
  assert (Hback : open_ok inherited (k_close (k_open p fd) fd) /\ p_misclosed (k_close (k_open p fd) fd) = false /\
    p_system (k_close (k_open p fd) fd) = p_system p /\ p_joinable (k_close (k_open p fd) fd) = p_joinable p).
  { rewrite k_close_open by (cbn; set_solver). split_and!; [|done..]. constructor; cbn; [|done..].
    rewrite Ho. rewrite Ho in Hfd. set_solver. }
  unfold accept_round. destruct (negb (set_nonblocking getfl setfl)); [naive_solver|].
  destruct (negb registered); [naive_solver|]. split_and!; [|done|by right|done].
  assert (Hs : sockets (MkTcp (accept_one (ts_gateway (p_system p)) fd true true) (ts_network (p_system p))
    (ts_world (p_system p))) = {[fd]} ∪ sockets (p_system p)).
  { unfold sockets. cbn. unfold accept_one. cbn. destruct (connections _ !! fd) eqn:E.
    - destruct Hfd. rewrite Ho. assert (fd ∈ sockets (p_system p)); [|set_solver].
      apply sockets_lookup. by eexists.
    - cbn. by rewrite dom_insert_L. }
  rewrite Ho in Hfd. constructor; cbn -[sockets]; rewrite ?Hs; set_solver.
Qed.

Lemma serve_open p s inherited : open_ok inherited p -> p_misclosed p = false ->
  closes (ts_gateway (p_system p)) (ts_gateway s) ->
  open_ok inherited (serve p s) /\ p_misclosed (serve p s) = false /\ p_system (serve p s) = s /\
  p_joinable (serve p s) = p_joinable p.
Proof.
  intros [Ho Hi Hl He] Hm (fds & Hlog & Hnd & Hsub & Hdom). unfold serve, closed_by. rewrite Hlog, drop_app_length.
  change (dom (connections (ts_gateway s))) with (sockets s) in Hdom.
  change (dom (connections (ts_gateway (p_system p)))) with (sockets (p_system p)) in Hdom, Hsub.
  rewrite k_close_all_ok; [|done|].
  - cbn -[sockets]. split_and!; [|done..]. constructor; cbn -[sockets]; rewrite ?Hdom; [|set_solver..].
    rewrite Ho. apply set_eq. intros fd. destruct (decide (fd ∈ (list_to_set fds : gset Z))); set_solver.
  - intros fd Hfd. cbn. rewrite Ho. set_solver.
Qed.

Lemma destroy_open p inherited : open_ok inherited p -> p_misclosed p = false ->
  p_open (destroy p) = inherited /\ p_misclosed (destroy p) = false /\
  p_joinable (destroy p) = p_joinable p /\ p_system (destroy p) = p_system p.
Proof.
  intros [Ho Hi Hl He] Hm. unfold destroy. rewrite k_close_all_ok.
  2: apply NoDup_elements.
  2: intros fd Hfd; apply elem_of_elements in Hfd; rewrite Ho; set_solver.
  rewrite list_to_set_elements_L. cbn [p_listen p_epoll p_open]. unfold maybe_fd in *.
  destruct (Z.leb_spec 0 (p_listen p)).
  1: rewrite (k_close_open _ (p_listen p)) by (cbn; rewrite Ho; set_solver).
  all: cbn [p_epoll]; destruct (Z.leb_spec 0 (p_epoll p)).
  all: rewrite ?k_close_open by (cbn; rewrite Ho; set_solver).
  all: cbn; split_and!; [|done..]; rewrite Ho; set_solver.
Qed.

Section Life.
Context (inherited : gset Z) (s0 : TcpSystem) (Hs0 : make_gateway = Ok s0).

Lemma reached_ok s : tsteps s0 s -> exists w0, system_ok w0 s.
Proof using Hs0. intros H. destruct (gateway_reaches s0 s Hs0 H) as (w0 & _ & _ & _ & Hs & _). by exists w0. Qed.

Lemma lstep_inv l o l' : life_inv inherited s0 l -> lstep l o l' -> life_inv inherited s0 l'.
Proof using Hs0.
  intros [Ht Hr Hm Ho Hst] Hs.
  destruct Hs as [p fd getfl setfl reg Hn Hpos Hfd|p s Htt|p st w Hj He Hstop|p r Hn|p Hn|p Hph|p status|p status Hstop Hj];
    cbn [fst snd] in *.
  - destruct (accept_round_open p fd getfl setfl reg inherited Ho Hfd Hm) as (Ho' & Hm' & Hsys & Hj').
    constructor; cbn [fst snd]; [| |done|done|by rewrite Hj'].
    + destruct Hsys as [-> | ->]; [done|]. eapply tsteps_step; [exact Ht|].
      destruct (p_system p) as [g n w]. cbn [ts_gateway ts_network ts_world] in *. subst n.
      exact (t_accept g w fd true true).
    + destruct Hsys as [-> | ->]; [done|]. unfold reading_present. cbn. by rewrite Hn.
  - destruct (reached_ok _ Ht) as (w0 & Hok). destruct (nstep_closes w0 _ _ Hok Hr Htt) as [Hcl Hr'].
    destruct (serve_open p s inherited Ho Hm Hcl) as (Ho' & Hm' & Hsys & Hj').
    constructor; cbn [fst snd]; rewrite ?Hsys, ?Hj'; try done. eapply tsteps_step; [exact Ht|by apply t_network].
  - constructor; cbn [fst snd p_system set_system].
    + eapply tsteps_step; [exact Ht|]. destruct (p_system p) as [g n w1]. by apply t_engine.
    + unfold reading_present, engine_moves. cbn. exact Hr.
    + done.
    + destruct st; [destruct Ho; by constructor..|]. by destruct Ho as [? ?].
    + by destruct st.
  - constructor; cbn [fst snd]; try done; by destruct (wait_status r).
  - constructor; cbn [fst snd]; try done. destruct Ho. by constructor.
  - constructor; cbn [fst snd]; try done. destruct Ho. by constructor.
  - constructor; cbn [fst snd]; try done. destruct Ho. by constructor.
  - assert (Ho' : open_ok inherited (set_joinable p false)) by (destruct Ho; by constructor).
    destruct (destroy_open (set_joinable p false) inherited Ho' Hm) as (H1 & H2 & H3 & H4).
    constructor; cbn [fst snd]; rewrite ?H4; done.
Qed.

Lemma lsteps_inv l0 obs l : life_inv inherited s0 l0 -> lsteps l0 obs l -> life_inv inherited s0 l.
Proof using Hs0. intros H. induction 1 as [|obs l o l' _ IH Hs]; [done|]. by eapply lstep_inv. Qed.

(** What the kernel promises about the descriptors of [initialize]. *)
Definition startup_fits (su : Startup) : Prop :=
  (forall fd, su_socket su = Some fd -> 0 <= fd /\ (fd ∉ inherited)) /\
  (forall fd, su_epoll su = Some fd -> 0 <= fd /\ (fd ∉ inherited) /\ su_socket su <> Some fd).

Lemma initialize_inv su p ok : startup_fits su ->
  initialize (MkProcess inherited false (-1) (-1) false false s0) su = (p, ok) ->
  life_inv inherited s0 (p, if ok then Serving else Destroying 1).
Proof using Hs0.
  intros [Hsock Hep] Hi. destruct make_gateway_ok as (b & rq & rs & Hmk & _).
  rewrite Hmk in Hs0. injection Hs0 as <-. unfold initialize in Hi.
  assert (Hempty : forall b w, sockets (MkTcp (MkGateway ∅ ∅ rq rs []) b w) = ∅) by (intros; apply dom_empty_L).
  destruct (su_socket su) as [lfd|]; cycle 1.
  { injection Hi as <- <-. constructor; cbn [fst snd]; [constructor|done|done| |done].
    constructor; cbn -[sockets]; rewrite Hempty; set_solver. }
  destruct (Hsock lfd eq_refl) as [Hl0 Hl1]. unfold maybe_fd.
  assert (Hone : forall f j b w, open_ok inherited
    (MkProcess ({[lfd]} ∪ inherited) f lfd (-1) j false (MkTcp (MkGateway ∅ ∅ rq rs []) b w))).
  { intros. constructor; cbn -[sockets]; rewrite ?Hempty; unfold maybe_fd; rewrite ?(proj2 (Z.leb_le 0 lfd)) by done; set_solver. }
  destruct (negb (su_bind su) || negb (su_listen su)).
  { injection Hi as <- <-. constructor; cbn [fst snd]; [constructor|done|done|apply Hone|done]. }
  destruct (su_epoll su) as [efd|]; cycle 1.
  { injection Hi as <- <-. constructor; cbn [fst snd]; [constructor|done|done|apply Hone|done]. }
  destruct (Hep efd eq_refl) as (He0 & He1 & Hne).
  assert (Htwo : forall f j b w, open_ok inherited
    (MkProcess ({[efd]} ∪ ({[lfd]} ∪ inherited)) f lfd efd j false (MkTcp (MkGateway ∅ ∅ rq rs []) b w))).
  { assert (lfd <> efd) by congruence.
    intros. constructor; cbn -[sockets]; rewrite ?Hempty; unfold maybe_fd;
      rewrite ?(proj2 (Z.leb_le 0 lfd)), ?(proj2 (Z.leb_le 0 efd)) by done; set_solver. }
  destruct (negb (su_register su)); injection Hi as <- <-;
    (constructor; cbn [fst snd]; [constructor|done|done|apply Htwo|done]).
Qed.

(** ** The engine thread stops without help *)

Definition phase_measure (ph : @Phase GatewayRequest) : nat :=
  match ph with Stopped => 0 | Polling => 1 | Publishing _ es => 2 + length es end.

Lemma engine_one_step s : tsteps s0 s -> engine_phase s <> Stopped ->
  exists w, engine_step (ts_world s) w /\
    (phase_measure (r_phase (runner w)) < phase_measure (engine_phase s))%nat.
Proof using Hs0.
  intros Ht Hns. destruct (gateway_reaches s0 s Hs0 Ht) as (w0 & ins & outs & sb & _ & Hw).
  unfold engine_phase, engine_step in *. pose proof (wi_output _ _ _ _ _ _ _ _ _ _ Hw) as Ho.
  destruct (ts_world s) as [[b iq oq j n ph] rs ps ds]. cbn [runner r_phase r_output] in *. destruct ph as [|v [|e es]|]; [| | |done].
  - eexists. split; [split; [apply run_stop|done]|cbn; lia].
  - eexists. split; [split; [apply run_loop|done]|cbn; lia].
  - destruct (try_push_ok oq outs (gateway_respond v e) Ho) as [(_ & q' & Hq & _)|[_ Hq]].
    + eexists. split; [split; [by apply run_push|]|cbn; lia]. cbn. intros [= E]. apply (f_equal length) in E. cbn in E. lia.
    + eexists. split; [split; [by eapply run_abandon|done]|cbn; lia].
Qed.

Lemma engine_stops m p st : (phase_measure (engine_phase (p_system p)) <= m)%nat ->
  life_inv inherited s0 (p, st) -> p_joinable p = true -> p_stop p = true ->
  exists s, lsteps (p, st) [] (set_system p s, st) /\ engine_phase s = Stopped.
Proof using Hs0.
  revert p. induction m as [|m IH]; intros p Hm Hi Hj Hstop.
  all: assert (Hsame : set_system p (p_system p) = p) by by destruct p.
  all: destruct (engine_phase (p_system p)) eqn:Eph;
    try (exists (p_system p); rewrite Hsame; split; [constructor|done]); cbn in Hm; try lia.
  all: destruct (engine_one_step _ (li_steps _ _ _ Hi)) as (w & Hw & Hlt); [cbn; by rewrite Eph|].
  all: cbn [fst] in *; rewrite Eph in Hlt; cbn [phase_measure] in Hlt.
  all: set (p' := set_system p (engine_moves (p_system p) w)).
  all: assert (Hstep : lstep (p, st) [] (p', st)) by (by apply l_engine).
  all: destruct (IH p') as (s & Hs & Hstopped);
    [cbn; unfold engine_phase; cbn; lia|by eapply lstep_inv|done|done|].
  all: exists s; split; [|done].
  all: apply (lsteps_trans _ (p', st) _ [] []); [by apply lsteps_one|].
  all: by destruct p.
Qed.

(** ** The network thread ends the event it works on *)

Lemma serve_step p s : life_inv inherited s0 (p, Serving) -> nstep (p_system p) s ->
  lstep (p, Serving) [] (serve p s, Serving) /\ life_inv inherited s0 (serve p s, Serving) /\
  p_system (serve p s) = s.
Proof using Hs0.
  intros Hi Hn. pose proof (l_serve p s Hn) as Hl. split; [done|]. split; [by eapply lstep_inv|].
  destruct (reached_ok _ (li_steps _ _ _ Hi)) as (w0 & Hok).
  destruct (nstep_closes w0 _ _ Hok (li_reading _ _ _ Hi) Hn) as [Hcl _].
  by destruct (serve_open p s inherited (li_open _ _ _ Hi) (li_clean _ _ _ Hi) Hcl) as (_ & _ & ? & _).
Qed.

(** The bytes the decoding loop has not looked at. *)
Definition unread (n : Network) : nat :=
  match n with Waiting => 0 | Decoding _ c consumed => S (Z.to_nat (cn_received c - consumed)) end.

Lemma reading_one p : life_inv inherited s0 (p, Serving) -> ts_network (p_system p) <> Waiting ->
  exists p', lstep (p, Serving) [] (p', Serving) /\ life_inv inherited s0 (p', Serving) /\
    (unread (ts_network (p_system p')) < unread (ts_network (p_system p)))%nat.
Proof using Hs0.
  intros Hi Hn. destruct (reached_ok _ (li_steps _ _ _ Hi)) as (w0 & Hok).
  pose proof (so_gateway _ _ Hok) as Hg. pose proof (so_room _ _ Hok) as Hroom. pose proof (so_round _ _ Hok) as Hround.
  pose proof (serve_step p) as Hserve. specialize (fun s => Hserve s Hi).
  cbn [fst] in *. remember (p_system p) as s eqn:Es. clear Es. destruct s as [g [|e c consumed] w]; [done|]. cbn [current ts_gateway ts_network] in *.
  destruct Hround as [Hfd Hcons]. destruct (decode_round_ok g c consumed Hg Hcons) as (g1 & c1 & r & Hd & Hhd & Hr).
  destruct r as [n|r].
  - destruct (Hserve _ (n_request g w e c consumed g1 c1 n Hd)) as (H1 & H2 & H3).
    eexists. split; [exact H1|]. split; [exact H2|]. rewrite H3. cbn.
    rewrite (hd_received _ _ _ _ Hhd) in Hr |- *. lia.
  - destruct Hr as (c2 & keep & Hfin & Hst & Hfd2 & Hk).
    destruct (finish_event_ok g1 c2 keep (with_sends e []) Hst (handled_room _ _ _ _ Hhd Hroom)
      ltac:(cbn [with_sends ev_fd]; congruence) (fun K => conj (Hk K) I)) as (g' & out & He & _).
    destruct (Hserve _ (n_finish g w e [] c consumed g1 c1 r c2 keep g' out Hd Hfin (fun _ => I) He)) as (H1 & H2 & H3).
    eexists. split; [exact H1|]. split; [exact H2|]. rewrite H3. cbn. lia.
Qed.

Lemma reading_ends m p : (unread (ts_network (p_system p)) <= m)%nat -> life_inv inherited s0 (p, Serving) ->
  exists p', lsteps (p, Serving) [] (p', Serving) /\ life_inv inherited s0 (p', Serving) /\
    ts_network (p_system p') = Waiting.
Proof using Hs0.
  revert p. induction m as [|m IH]; intros p Hm Hi; destruct (ts_network (p_system p)) as [|e c k] eqn:E;
    try (exists p; split_and!; [constructor|done|done]); [cbn in Hm; lia|].
  destruct (reading_one p Hi) as (p1 & H1 & Hi1 & Hlt); [congruence|].
  destruct (IH p1) as (p2 & H2 & Hi2 & Hw); [rewrite E in Hlt; lia|done|].
  exists p2. split_and!; [|done..]. apply (lsteps_trans _ (p1, Serving) _ [] []); [by apply lsteps_one|done].
Qed.
End Life.
