(* ===== verification/LifeTheorems.v ===== *)
(** * LifeTheorems: the life of the gateway process

    The claim about [main], [initialize], [run]'s exits and the destructor of
    apps/gateway.cpp, on the process of [TcpLife]. *)
From Stdlib Require Import ZArith Lia.
From stdpp Require Import base numbers gmap strings list.
From S2P Require Import Prelude Types OrderBook Engine Protocol Gateway Spsc Runner.
From S2P Require Import TcpGateway TcpOutput TcpInput TcpState TcpEvents TcpSystem CString TcpLife.
Local Open Scope Z_scope.

Lemma gateway_main_starts argv inherited su port : gateway_port argv = Some port ->
  exists s0 p ok, make_gateway = Ok s0 /\
    initialize (MkProcess inherited false (-1) (-1) false false s0) su = (p, ok) /\
    gateway_main argv inherited su = Ok (inl (p, if ok then Serving else Destroying 1)).
Proof.
  intros Hp. assert (exists s0, make_gateway = Ok s0) as [s0 Hs0].
  { destruct make_gateway_ok as (b & rq & rs & Hmk & _). by eexists. }
  destruct (initialize (MkProcess inherited false (-1) (-1) false false s0) su) as [p ok] eqn:E.
  exists s0, p, ok. split_and!; [done..|]. unfold gateway_main. rewrite Hp, Hs0. cbn [mbind result_bind].
  by rewrite E.
Qed.

Section Exits.
Context (inherited : gset Z) (s0 : TcpSystem) (Hs0 : make_gateway = Ok s0).

(** The destructor ends in [Exited], from wherever the engine thread is. *)
Lemma destroying_exits p status : life_inv inherited s0 (p, Destroying status) ->
  exists p', lsteps (p, Destroying status) [] (p', Exited status).
Proof using Hs0.
  intros Hi. pose proof (l_destroy_stop p status) as H1.
  pose proof (lstep_inv inherited s0 Hs0 _ _ _ Hi H1) as Hi1. pose proof (lsteps_one _ _ _ H1) as Hfirst.
  destruct (p_joinable p) eqn:Ej.
  - destruct (engine_stops inherited s0 Hs0 _ (set_stop p) (Destroying status) (le_n _) Hi1 Ej eq_refl)
      as (s & Hs & Hstopped).
    eexists. eapply (lsteps_step _ [] _ []); [exact (lsteps_trans _ _ _ _ _ Hfirst Hs)|]. by apply l_destroy.
  - eexists. eapply (lsteps_step _ [] _ []); [exact Hfirst|]. apply l_destroy; [done|]. cbn. by rewrite Ej.
Qed.

Lemma joining_exits p : life_inv inherited s0 (p, Joining) ->
  exists p', lsteps (p, Joining) [] (p', Exited 0).
Proof using Hs0.
  intros Hi. destruct (li_stage _ _ _ Hi) as [Hj Hstop]. cbn [fst] in *.
  destruct (engine_stops inherited s0 Hs0 _ p Joining (le_n _) Hi Hj Hstop) as (s & Hs & Hstopped).
  assert (Hs' : lsteps (p, Joining) [] (set_joinable (set_system p s) false, Destroying 0))
    by (eapply (lsteps_step _ [] _ []); [exact Hs|by apply l_join]).
  destruct (destroying_exits _ 0 (lsteps_inv inherited s0 Hs0 _ _ _ Hi Hs')) as (p' & Hp').
  exists p'. exact (lsteps_trans _ _ _ _ _ Hs' Hp').
Qed.

(** The event in progress is finished, then an interrupt is seen. *)
Lemma serving_exits p : life_inv inherited s0 (p, Serving) ->
  exists p', lsteps (p, Serving) [Signalled] (p', Exited 0).
Proof using Hs0.
  intros Hi. destruct (reading_ends inherited s0 Hs0 _ p (le_n _) Hi) as (p1 & H1 & Hi1 & Hw).
  pose proof (l_interrupted p1 Hw) as H2.
  destruct (joining_exits _ (lstep_inv inherited s0 Hs0 _ _ _ Hi1 H2)) as (p' & Hp').
  exists p'. exact (lsteps_trans _ _ _ _ _ H1 (lsteps_trans _ _ _ _ _ (lsteps_one _ _ _ H2) Hp')).
Qed.
End Exits.

(** What a process that started at [st0] has open when [run] has found out
    [obs], why it is where it is, and how it can still leave. *)
Definition life_ok (inherited : gset Z) (st0 : Stage) (obs : list Observation) (p : Process) (st : Stage) : Prop :=
  p_misclosed p = false /\ cause st0 obs st /\
  match st with
  | Exited _ => p_open p = inherited /\ p_joinable p = false
  | _ => p_open p = inherited ∪ maybe_fd (p_listen p) ∪ maybe_fd (p_epoll p) ∪ sockets (p_system p)
  end /\
  match st with
  | Serving => exists p', lsteps (p, st) [Signalled] (p', Exited 0)
  | Joining => exists p', lsteps (p, st) [] (p', Exited 0)
  | Destroying status => exists p', lsteps (p, st) [] (p', Exited status)
  | Exited _ => True
  end.

Lemma life_inv_ok inherited s0 st0 obs p st : make_gateway = Ok s0 -> life_inv inherited s0 (p, st) ->
  cause st0 obs st -> life_ok inherited st0 obs p st.
Proof.
  intros Hs0 Hi Hc. unfold life_ok. destruct (Hi) as [_ _ Hm Ho Hst]. cbn [fst snd] in *. split; [done|].
  split; [done|]. destruct st; (split; [|try done]); try (by destruct Ho).
  - by apply (serving_exits inherited s0).
  - by apply (joining_exits inherited s0).
  - by apply (destroying_exits inherited s0).
Qed.

(** C22: The gateway process, from its command line to its exit.  [main]
    leaves with status 2, without opening anything, exactly when the port
    argument reads as 0 or as more than 65535; otherwise it goes on to the
    event loop when every call of [initialize] succeeds, and to the destructor
    with status 1 when one fails.  Whatever the kernel, the clients and the
    two threads do from there, no descriptor is closed that is not open; up to
    the exit the process has open what it inherited, the listening and the
    epoll descriptor it got, and one socket per entry of [connections_]; after
    the destructor it has open what it inherited and the engine thread is
    joined.  The status tells the cause: it is 1 when [initialize] failed or
    [epoll_wait] returned an error other than [EINTR], and 0 when the loop saw
    an interrupt, never both; a process in the loop has seen neither.  It can
    always leave: from the event loop, also in the middle of an event, an
    interrupt leads to status 0, and the destructor completes after a failed
    start or a failed [epoll_wait] as well. *)
Theorem gateway_lifecycle argv inherited su :
  startup_fits inherited su ->
  (gateway_main argv inherited su = Ok (inr 2) <->
     requested_port argv = 0 \/ 65535 < requested_port argv) /\
  (0 < requested_port argv <= 65535 ->
     gateway_port argv = Some (requested_port argv) /\
     exists p0 st0, gateway_main argv inherited su = Ok (inl (p0, st0)) /\
       (st0 = Serving <-> is_Some (su_socket su) /\ su_bind su = true /\ su_listen su = true /\
                          is_Some (su_epoll su) /\ su_register su = true) /\
       (st0 = Serving \/ st0 = Destroying 1) /\
       forall obs p st, lsteps (p0, st0) obs (p, st) -> life_ok inherited st0 obs p st).
Proof.
  intros Hfit. split.
  - destruct (gateway_port argv) as [port|] eqn:E; cycle 1.
    { unfold gateway_main. rewrite E. unfold gateway_port in E. split; [intros _|done].
      destruct (Z.eqb_spec (requested_port argv) 0); [by left|].
      destruct (Z.ltb_spec 65535 (requested_port argv)); [by right|done]. }
    destruct (gateway_main_starts argv inherited su port E) as (s0 & p & ok & _ & _ & ->).
    split; [done|]. unfold gateway_port in E. intros H.
    destruct (Z.eqb_spec (requested_port argv) 0); [done|].
    destruct (Z.ltb_spec 65535 (requested_port argv)); [done|lia].
  - intros Hport.
    assert (E : gateway_port argv = Some (requested_port argv)).
    { unfold gateway_port. rewrite (proj2 (Z.eqb_neq _ _)), (proj2 (Z.ltb_ge _ _)) by lia. cbn.
      unfold u16. by rewrite Z.mod_small by lia. }
    split; [done|].
    destruct (gateway_main_starts argv inherited su _ E) as (s0 & p & ok & Hs0 & Hi & Hmain).
    eexists p, _. split; [exact Hmain|].
    pose proof (initialize_inv inherited s0 Hs0 su p ok Hfit Hi) as Hinv. split_and!.
    + clear -Hi. unfold initialize in Hi. destruct (su_socket su), (su_bind su), (su_listen su), (su_epoll su), (su_register su);
        cbn [negb orb] in Hi; injection Hi as <- <-;
        (split; [intros H; first [discriminate H|split_and!; first [done|by eexists]]|intros ([? ?] & ? & ? & [? ?] & ?); done]).
    + destruct ok; auto.
    + intros obs p' st Hst. eapply life_inv_ok; [exact Hs0|by eapply lsteps_inv|].
      refine (lsteps_cause _ _ _ _ _ Hst). destruct ok; auto.
Qed.

(** [dme_gateway 8080] with the three standard descriptors open, and the
    same with [0] and [70000]. *)
Definition standard_fds : gset Z := {[0; 1; 2]}.
Definition good_startup : Startup := MkStartup (Some 3) true true (Some 4) true.

Lemma gateway_lifecycle_witness :
  (exists p0, gateway_main ["dme_gateway"; "8080"] standard_fds good_startup = Ok (inl (p0, Serving)) /\
     forall obs p st, lsteps (p0, Serving) obs (p, st) -> life_ok standard_fds Serving obs p st) /\
  gateway_main ["dme_gateway"; "0"] standard_fds good_startup = Ok (inr 2) /\
  gateway_main ["dme_gateway"; "70000"] standard_fds good_startup = Ok (inr 2).
Proof.
  assert (Hfit : startup_fits standard_fds good_startup).
  { split; intros fd [= <-]; split_and!; first [lia|done|by apply (bool_decide_unpack _)]. }
  split_and!.
  - destruct (gateway_lifecycle ["dme_gateway"; "8080"] standard_fds good_startup Hfit) as [_ H].
    destruct H as (_ & p0 & st0 & Hm & Hserving & _ & Hall); [vm_compute; split; congruence|].
    assert (st0 = Serving) as ->; [|by exists p0]. apply Hserving. split_and!; first [done|by eexists].
  - apply (gateway_lifecycle _ _ _ Hfit). by left.
  - apply (gateway_lifecycle _ _ _ Hfit). right. reflexivity.
Defined.
