(* ===== verification/Bench.v ===== *)
(** * Bench: the workloads of the benchmark (apps/benchmark.cpp)

    The command generators, and [run_core] without its clocks: the loops that
    drive the order book and the count of rejections they report. *)
From Stdlib Require Import ZArith Lia.
From stdpp Require Import base numbers gmap list.
From S2P Require Import Prelude Types OrderIndex FixedHash OrderBook BookSpec SpecFacts BookRefine.
From S2P Require Import BookRun Engine Bytes Protocol ProtocolFacts.
Local Open Scope Z_scope.

(** ** The generators *)

Definition cross_workload (index sequence : Z) : Command :=
  if Z.land index 1 =? 0
  then MkCommand sequence New Sell Limit 0 (u64 (index + 1)) 10000 100
  else MkCommand sequence New Buy ImmediateOrCancel 0 (u64 (index + 1)) 10000 100.

Definition cancel_workload (index sequence : Z) : Command :=
  let id := u64 (index / 2 + 1) in
  if Z.land index 1 =? 0
  then MkCommand sequence New Buy Limit 0 id 9999 100
  else MkCommand sequence Cancel Buy Limit 0 id 0 0.

Definition replace_workload (index sequence : Z) : Command :=
  MkCommand sequence Replace Buy Limit 0 1 (if Z.land index 1 =? 0 then 9999 else 10000) 100.

Definition sweep_workload (index sequence : Z) : Command :=
  let position := index mod 10 in
  let cycle := index / 10 in
  if position <? 9
  then MkCommand sequence New Sell Limit 0 (u64 (cycle * 10 + position + 1)) (10000 + position) 10
  else MkCommand sequence New Buy Market 0 (u64 (cycle * 10 + 10)) 0 90.

Definition mixed_workload (index sequence : Z) : Command :=
  let position := index mod 6 in
  let base := u64 (index / 6 * 4 + 1) in
  match position with
  | 0 => MkCommand sequence New Buy Limit 0 base 9999 50
  | 1 => MkCommand sequence New Sell Limit 0 (u64 (base + 1)) 10001 50
  | 2 => MkCommand sequence Replace Buy Limit 0 base 10000 60
  | 3 => MkCommand sequence New Sell ImmediateOrCancel 0 (u64 (base + 2)) 10000 30
  | 4 => MkCommand sequence Cancel Buy Limit 0 base 0 0
  | _ => MkCommand sequence New Buy Market 0 (u64 (base + 3)) 0 50
  end.

Inductive Workload : Set :=
  | CrossWorkload | CancelWorkload | ReplaceWorkload | SweepWorkload | MixedWorkload.

#[export] Instance Workload_eq_dec : EqDecision Workload.
Proof. solve_decision. Defined.

Definition block (w : Workload) : Z :=
  match w with
  | CrossWorkload => 2 | CancelWorkload => 2 | ReplaceWorkload => 1 | SweepWorkload => 10
  | MixedWorkload => 6
  end.

Definition workload (w : Workload) : Z -> Z -> Command :=
  match w with
  | CrossWorkload => cross_workload
  | CancelWorkload => cancel_workload
  | ReplaceWorkload => replace_workload
  | SweepWorkload => sweep_workload
  | MixedWorkload => mixed_workload
  end.

(** ** The driver *)

Definition bench_config : BookConfig := MkConfig 9000 11000 1 65536.

(** One of the loops of [run_core]: the book and the sequence after it. *)
Fixpoint bench_loop (fuel : nat) (w : Workload) (b : Engine) (sequence index stop : Z)
  : result (Engine * Z) :=
  match fuel with
  | O => Fail OutOfFuel
  | S fuel =>
    if index <? stop then
      let sequence := u64 (sequence + 1) in
      '(b, _) ← process b (workload w index sequence) [];
      bench_loop fuel w b sequence (u64 (index + 1)) stop
    else Ok (b, sequence)
  end.

(** The command that [run_core] processes before the loops. *)
Definition bench_setup (w : Workload) (b : Engine) : result (Engine * Z) :=
  match w with
  | ReplaceWorkload => '(b, _) ← process b (MkCommand 1 New Buy Limit 0 1 9999 100) []; Ok (b, 1)
  | _ => Ok (b, 0)
  end.

(** The operations and the rejections reported, and the book at the end. *)
Definition run_core (w : Workload) (requested : Z) : result (Z * Z * Engine) :=
  let operations := Z.max (block w) (requested - requested mod block w) in
  let warmup := 200000 - 200000 mod block w in
  let samples := 100000 - 100000 mod block w in
  let measured := u64 (warmup + operations) in
  let last := u64 (measured + samples) in
  b ← make_book bench_config;
  '(b, sequence) ← bench_setup w b;
  '(b, sequence) ← bench_loop (S (Z.to_nat warmup)) w b sequence 0 warmup;
  let rejects_before := rejected (stats b) in
  '(b, sequence) ← bench_loop (S (Z.to_nat (measured - warmup))) w b sequence warmup measured;
  '(b, sequence) ← bench_loop (S (Z.to_nat (last - measured))) w b sequence measured last;
  Ok (operations, u64 (rejected (stats b) - rejects_before), b).

(** [run_protocol]: the checksum of the decoded order IDs, [None] for an abort
    in the loop. *)
Fixpoint protocol_loop (fuel : nat) (bytes : list Z) (index operations checksum : Z) : result (option Z) :=
  match fuel with
  | O => Fail OutOfFuel
  | S fuel =>
    if index <? operations then
      let command := MkCommand 0 New Buy Limit 0 (u64 (index + 1)) 10000 100 in
      '(ok, written, bytes) ← encode_request (MkRequest 7 (u64 (index + 1)) command) bytes;
      if negb ok then Ok None
      else
        decoded ← decode_request (take (Z.to_nat written) bytes);
        protocol_loop fuel bytes (u64 (index + 1)) operations
          (u64 (checksum + c_order_id (rq_command (qd_request decoded))))
    else Ok (Some checksum)
  end.

Definition run_protocol (operations : Z) : result (option Z) :=
  r ← protocol_loop (S (Z.to_nat operations)) (replicate (Z.to_nat maximum_frame_size) 0) 0 operations 0;
  match r with
  | None => Ok None
  | Some checksum => Ok (if checksum =? 0 then None else Some operations)
  end.
