(* ===== verification/BenchFacts.v ===== *)
(** * BenchFacts: one block of a workload on the specified book

    Every workload is a sequence of blocks that bring the book back to where it
    was: the orders are followed symbolically, their identifiers depend on the
    block. *)
From Stdlib Require Import ZArith Lia.
From stdpp Require Import base numbers gmap list.
From S2P Require Import Prelude Types OrderIndex FixedHash OrderBook BookSpec SpecFacts BookRefine.
From S2P Require Import BookRun Engine Bench.
Local Open Scope Z_scope.

(** The part of a specified book that a workload depends on. *)
Record bench_at (sb : SpecBook) (l : list RestingOrder) (s r : Z) : Prop := {
  ba_config : sb_config sb = bench_config;
  ba_orders : sb_orders sb = l;
  ba_sequence : last_sequence (sb_stats sb) = s;
  ba_rejected : rejected (sb_stats sb) = r }.

Abbreviation next sb c := (spec_process machine_fill sb c).1.

Lemma trades_keep n st : last_sequence (add_trades st n) = last_sequence st /\
  rejected (add_trades st n) = rejected st.
Proof. unfold add_trades. induction n as [|n IH]; [done|]. exact IH. Qed.

Section Steps.
Context (sb : SpecBook) (l : list RestingOrder) (s r : Z) (c : Command).
Context (Hat : bench_at sb l s r) (Hseq : c_sequence c = u64 (s + 1)).

(** Executing an order whose matching is known. *)
Lemma execute_at sb1 l1 c1 l2 trades rest : bench_at sb1 l1 (c_sequence c) r ->
  spec_match (S (length l1)) c1 (spec_limit bench_config c1) (c_quantity c1) l1 = (l2, trades, rest) ->
  bench_at (spec_execute sb1 c1).1
    (if (rest =? 0) then l2
     else if decide (c_order_type c1 = Limit)
     then l2 ++ [MkResting (c_order_id c1) (c_side c1) (c_price c1) rest (c_sequence c1)] else l2)
    (c_sequence c) r.
Proof.
  intros [H1 H2 H3 H4] Hm. unfold spec_execute. rewrite H1, H2, Hm.
  destruct (trades_keep (length trades) (sb_stats sb1)) as [Ht1 Ht2].
  destruct (rest =? 0); [|destruct (decide _)]; constructor; cbn; try done; congruence.
Qed.

Definition accepted_sb : SpecBook :=
  MkSpec (sb_config sb) (sb_orders sb) (inc_commands (set_last_sequence (sb_stats sb) (c_sequence c))).

Lemma accepted_at : bench_at accepted_sb l (c_sequence c) r.
Proof. destruct Hat. by constructor. Qed.

Lemma process_eq : spec_process machine_fill sb c =
  match c_type c with
  | New => spec_submit machine_fill accepted_sb c
  | Cancel => spec_cancel accepted_sb c
  | Replace => spec_replace accepted_sb c
  end.
Proof.
  unfold spec_process. destruct Hat as [_ _ -> _]. rewrite Hseq, Z.eqb_refl. cbn [negb].
  unfold accepted_sb. by rewrite Hseq.
Qed.

Lemma new_at l2 trades rest : c_type c = New -> c_quantity c <> 0 ->
  c_order_type c = Market \/ on_ladder bench_config (c_price c) = true ->
  c_order_type c <> FillOrKill -> c_order_id c ∉ ro_id <$> l -> Z.of_nat (length l) < 65536 ->
  spec_match (S (length l)) c (spec_limit bench_config c) (c_quantity c) l = (l2, trades, rest) ->
  bench_at (next sb c)
    (if (rest =? 0) then l2
     else if decide (c_order_type c = Limit)
     then l2 ++ [MkResting (c_order_id c) (c_side c) (c_price c) rest (c_sequence c)] else l2)
    (c_sequence c) r.
Proof.
  intros Ht Hq Hp Hf Hid Hlen Hm. rewrite process_eq, Ht. pose proof accepted_at as [A1 A2 A3 A4].
  unfold spec_submit. rewrite (proj2 (Z.eqb_neq _ _) Hq), A1, A2.
  assert (Hprice : negb (bool_decide (c_order_type c = Market)) && negb (on_ladder bench_config (c_price c)) = false).
  { destruct Hp as [Hp|Hp]; [by rewrite bool_decide_eq_true_2|rewrite Hp; by rewrite andb_false_r]. }
  rewrite Hprice. rewrite (proj2 (find_order_none _ _) Hid). cbn [is_Some].
  rewrite bool_decide_eq_false_2 by (by intros [? ?]).
  rewrite bool_decide_eq_false_2 by done. cbn [andb].
  assert (Hfull : spec_full accepted_sb = false).
  { unfold spec_full. rewrite A1, A2. apply Z.leb_gt. done. }
  rewrite Hfull, andb_false_r. cbn [andb].
  pose proof (execute_at accepted_sb l c l2 trades rest accepted_at Hm) as He.
  by destruct (spec_execute accepted_sb c).
Qed.

Lemma cancel_at o : c_type c = Cancel -> find_order (c_order_id c) l = Some o ->
  bench_at (next sb c) (remove_order (c_order_id c) l) (c_sequence c) r.
Proof.
  intros Ht Hf. rewrite process_eq, Ht. pose proof accepted_at as [A1 A2 A3 A4].
  unfold spec_cancel. rewrite A2, Hf. constructor; cbn; try done; by rewrite <- A2.
Qed.

Lemma replace_at o l2 trades rest : c_type c = Replace -> find_order (c_order_id c) l = Some o ->
  c_quantity c <> 0 -> on_ladder bench_config (c_price c) = true ->
  let l1 := remove_order (c_order_id c) l in
  let c1 := replacement_of c (ro_side o) in
  spec_match (S (length l1)) c1 (c_price c) (c_quantity c) l1 = (l2, trades, rest) ->
  bench_at (next sb c)
    (if rest =? 0 then l2 else l2 ++ [MkResting (c_order_id c) (ro_side o) (c_price c) rest (c_sequence c)])
    (c_sequence c) r.
Proof.
  intros Ht Hf Hq Hp l1 c1 Hm. rewrite process_eq, Ht. pose proof accepted_at as [A1 A2 A3 A4].
  unfold spec_replace. rewrite A2, Hf, (proj2 (Z.eqb_neq _ _) Hq), A1, Hp. cbn [negb].
  assert (Hr : bench_at (spec_remove accepted_sb (c_order_id c)) l1 (c_sequence c) r).
  { constructor; cbn; try done; unfold l1; by rewrite <- A2. }
  pose proof (execute_at _ l1 c1 l2 trades rest Hr Hm) as He.
  destruct (spec_execute _ _) as [sb' ev]. cbn in *. destruct (rest =? 0); done.
Qed.
End Steps.

(** ** Computing with symbolic identifiers *)

Lemma remove_nil id : remove_order id [] = [].
Proof. done. Qed.
Lemma remove_here id o l : ro_id o = id -> remove_order id (o :: l) = remove_order id l.
Proof. intros H. unfold remove_order. by rewrite filter_cons_False by (intros ?; done). Qed.
Lemma remove_other id o l : ro_id o <> id -> remove_order id (o :: l) = o :: remove_order id l.
Proof. intros H. unfold remove_order. by rewrite filter_cons_True. Qed.

Lemma find_here id o l : ro_id o = id -> find_order id (o :: l) = Some o.
Proof. intros H. unfold find_order. cbn. by rewrite decide_True. Qed.
Lemma find_other id o l : ro_id o <> id -> find_order id (o :: l) = find_order id l.
Proof.
  intros H. unfold find_order. cbn. rewrite decide_False by done. by destruct (list_find _ l) as [[? ?]|].
Qed.

(** Evaluates removals and searches, deciding identifiers by arithmetic. *)
Ltac ids := repeat first
  [ rewrite remove_nil | rewrite remove_here by (cbn; lia) | rewrite remove_other by (cbn; lia)
  | rewrite find_here by (cbn; lia) | rewrite find_other by (cbn; lia) ].

(** An identifier is not among those of an explicit list. *)
Ltac unlisted := cbn; rewrite ?elem_of_cons, ?elem_of_nil; lia.

(** One step of matching on an explicit list. *)
Lemma spec_match_step fuel c limit remaining l o : 0 < remaining -> best_order (c_side c) limit l = Some o ->
  spec_match (S fuel) c limit remaining l =
    let traded := Z.min remaining (ro_quantity o) in
    let '(orders', trades, rest) := spec_match fuel c limit (remaining - traded) (fill_order o traded l) in
    (orders', trade_event c o traded :: trades, rest).
Proof. intros Hr Hb. cbn [spec_match]. by rewrite (proj2 (Z.ltb_lt _ _) Hr), Hb. Qed.

Lemma match_none fuel c limit remaining l : best_order (c_side c) limit l = None ->
  spec_match (S fuel) c limit remaining l = (l, [], remaining).
Proof. intros Hb. cbn [spec_match]. rewrite Hb. by destruct (0 <? remaining). Qed.

Lemma match_done fuel c limit l : spec_match fuel c limit 0 l = (l, [], 0).
Proof. by destruct fuel. Qed.

(** The best order is filled and leaves. *)
Lemma match_fill fuel c limit remaining l o l2 trades rest : 0 < ro_quantity o <= remaining ->
  best_order (c_side c) limit l = Some o ->
  spec_match fuel c limit (remaining - ro_quantity o) (remove_order (ro_id o) l) = (l2, trades, rest) ->
  spec_match (S fuel) c limit remaining l = (l2, trade_event c o (ro_quantity o) :: trades, rest).
Proof.
  intros Hq Hb Hm. rewrite (spec_match_step _ _ _ _ _ o) by (done || lia). rewrite Z.min_r by lia. cbv zeta.
  unfold fill_order. by rewrite Z.eqb_refl, Hm.
Qed.

(** ** Blocks *)

(** [n] rounds of a loop of the driver, on the specified book. *)
Fixpoint spec_bench (n : nat) (w : Workload) (sb : SpecBook) (s i : Z) : SpecBook :=
  match n with
  | O => sb
  | S n => spec_bench n w (next sb (workload w i (u64 (s + 1)))) (u64 (s + 1)) (u64 (i + 1))
  end.

(** Between two blocks the book is empty, or has the one order that is being
    replaced. *)
Definition bench_idle (w : Workload) (sb : SpecBook) (s r : Z) : Prop :=
  match w with
  | ReplaceWorkload => exists p q, bench_at sb [MkResting 1 Buy p 100 q] s r
  | _ => bench_at sb [] s r
  end.

Lemma spec_bench_step n w sb s i : is_u64 (s + 1) -> is_u64 (i + 1) ->
  spec_bench (S n) w sb s i = spec_bench n w (next sb (workload w i (s + 1))) (s + 1) (i + 1).
Proof. intros Hs Hi. cbn [spec_bench]. by rewrite !u64_small. Qed.

Lemma index_even k : (Z.land (k * 2) 1 =? 0) = true.
Proof. change 1 with (Z.ones 1). rewrite Z.land_ones by lia. by rewrite Z.mod_mul. Qed.
Lemma index_odd k : (Z.land (k * 2 + 1) 1 =? 0) = false.
Proof.
  change 1 with (Z.ones 1) at 2. rewrite Z.land_ones by lia. change (2 ^ 1) with 2.
  by rewrite Z.add_comm, Z.mod_add by lia.
Qed.

(** Unfolds the rounds of a block and adds up the offsets. *)
Ltac offsets := repeat match goal with |- context [?a + Z.pos ?m + Z.pos 1] =>
  let n := eval cbv in (Z.pos m + 1) in replace (a + Z.pos m + Z.pos 1) with (a + n) by lia end.
Ltac rounds := repeat (rewrite spec_bench_step by intlia; offsets); cbn [spec_bench workload].

(** The next number in sequence. *)
Ltac in_sequence := cbn; rewrite u64_small; intlia.

Lemma cross_block k sb s r : bench_at sb [] s r -> 0 <= k -> k * 2 + 2 <= u64_max -> 0 <= s -> s + 2 <= u64_max ->
  bench_at (spec_bench 2 CrossWorkload sb s (k * 2)) [] (s + 2) r.
Proof.
  intros H Hk Hk' Hs Hs'. rounds. unfold cross_workload.
  rewrite index_even, index_odd, !u64_small by intlia. offsets.
  set (c1 := MkCommand (s + 1) _ _ _ _ _ _ _). set (c2 := MkCommand (s + 2) _ _ _ _ _ _ _).
  assert (H1 : bench_at (next sb c1) [MkResting (k * 2 + 1) Sell 10000 100 (s + 1)] (s + 1) r).
  { apply (new_at sb [] s r c1 H ltac:(in_sequence) [] [] 100); try done; [by right|unlisted]. }
  apply (new_at _ _ _ _ c2 H1 ltac:(in_sequence) [] [trade_event c2 (MkResting (k * 2 + 1) Sell 10000 100 (s + 1)) 100] 0);
    try done; [by right|unlisted|].
  eapply match_fill; [|reflexivity|]; [cbn; lia|]. ids. reflexivity.
Qed.

Lemma cancel_block k sb s r : bench_at sb [] s r -> 0 <= k -> k * 2 + 2 <= u64_max -> 0 <= s -> s + 2 <= u64_max ->
  bench_at (spec_bench 2 CancelWorkload sb s (k * 2)) [] (s + 2) r.
Proof.
  intros H Hk Hk' Hs Hs'. rounds. unfold cancel_workload.
  rewrite index_even, index_odd, Z.div_mul, Z.div_add_l by lia. change (1 / 2) with 0. rewrite Z.add_0_r, u64_small by intlia.
  set (c1 := MkCommand (s + 1) _ _ _ _ _ _ _). set (c2 := MkCommand (s + 2) _ _ _ _ _ _ _).
  set (o := MkResting (k + 1) Buy 9999 100 (s + 1)).
  assert (H1 : bench_at (next sb c1) [o] (s + 1) r).
  { apply (new_at sb [] s r c1 H ltac:(in_sequence) [] [] 100); try done; [by right|unlisted]. }
  pose proof (cancel_at _ _ _ _ c2 H1 ltac:(in_sequence) o eq_refl) as H2.
  unfold o, c2 in H2. cbn [c_order_id c_sequence] in H2. rewrite remove_here, remove_nil in H2 by done.
  apply H2. by apply find_here.
Qed.

Lemma replace_round i sb s r p q : bench_at sb [MkResting 1 Buy p 100 q] s r -> 0 <= s -> s + 1 <= u64_max ->
  exists p', bench_at (next sb (replace_workload i (s + 1))) [MkResting 1 Buy p' 100 (s + 1)] (s + 1) r.
Proof.
  intros H Hs Hs'. unfold replace_workload. generalize (Z.land i 1 =? 0). intros even.
  exists (if even then 9999 else 10000). set (c := MkCommand (s + 1) _ _ _ _ _ _ _).
  pose proof (replace_at _ _ _ _ c H ltac:(in_sequence) (MkResting 1 Buy p 100 q) [] [] 100) as H1.
  apply H1; [done|by apply find_here|done|by destruct even|]. by rewrite remove_here.
Qed.

Lemma block_index k n j : 0 <= j < n -> (k * n + j) mod n = j /\ (k * n + j) / n = k.
Proof.
  intros Hj. rewrite Z.add_comm, Z.mod_add, Z.div_add, Z.mod_small, Z.div_small by lia. lia.
Qed.

Lemma mixed_block k sb s r : bench_at sb [] s r -> 0 <= k -> k * 6 + 6 <= u64_max -> 0 <= s -> s + 6 <= u64_max ->
  bench_at (spec_bench 6 MixedWorkload sb s (k * 6)) [] (s + 6) r.
Proof.
  intros H Hk Hk' Hs Hs'. rounds. rewrite <- (Z.add_0_r (k * 6)) at 1. unfold mixed_workload.
  rewrite (proj1 (block_index k 6 0 ltac:(lia))), (proj1 (block_index k 6 1 ltac:(lia))),
    (proj1 (block_index k 6 2 ltac:(lia))), (proj1 (block_index k 6 3 ltac:(lia))),
    (proj1 (block_index k 6 4 ltac:(lia))), (proj1 (block_index k 6 5 ltac:(lia))).
  rewrite (proj2 (block_index k 6 0 ltac:(lia))), (proj2 (block_index k 6 1 ltac:(lia))),
    (proj2 (block_index k 6 2 ltac:(lia))), (proj2 (block_index k 6 3 ltac:(lia))),
    (proj2 (block_index k 6 4 ltac:(lia))), (proj2 (block_index k 6 5 ltac:(lia))).
  rewrite !u64_small by (rewrite ?u64_small; intlia). set (id := k * 4 + 1).
  set (c1 := MkCommand (s + 1) _ _ _ _ _ _ _). set (c2 := MkCommand (s + 2) _ _ _ _ _ _ _).
  set (c3 := MkCommand (s + 3) _ _ _ _ _ _ _). set (c4 := MkCommand (s + 4) _ _ _ _ _ _ _).
  set (c5 := MkCommand (s + 5) _ _ _ _ _ _ _). set (c6 := MkCommand (s + 6) _ _ _ _ _ _ _).
  set (o1 := MkResting id Buy 9999 50 (s + 1)). set (o2 := MkResting (id + 1) Sell 10001 50 (s + 2)).
  set (o3 := MkResting id Buy 10000 60 (s + 3)).
  assert (H1 : bench_at (next sb c1) [o1] (s + 1) r).
  { apply (new_at sb [] s r c1 H ltac:(in_sequence) [] [] 50); try done; [by right|unlisted]. }
  assert (H2 : bench_at (next (next sb c1) c2) [o1; o2] (s + 2) r).
  { apply (new_at _ _ _ _ c2 H1 ltac:(in_sequence) [o1] [] 50); try done; [by right|unlisted]. }
  set (sb2 := next _ c2) in *.
  assert (H3 : bench_at (next sb2 c3) [o2; o3] (s + 3) r).
  { apply (replace_at _ _ _ _ c3 H2 ltac:(in_sequence) o1 [o2] [] 60); try done; [by apply find_here|].
    unfold o1, o2, c3. cbn [c_order_id]. ids. done. }
  set (sb3 := next sb2 c3) in *.
  assert (H4 : bench_at (next sb3 c4) [o2; set_quantity o3 30] (s + 4) r).
  { apply (new_at _ _ _ _ c4 H3 ltac:(in_sequence) [o2; set_quantity o3 30] [trade_event c4 o3 30] 0); try done;
      [by right|unlisted|].
    rewrite (spec_match_step _ _ _ _ _ o3) by (done || reflexivity). cbn [ro_quantity o3 c_quantity c4]. cbv zeta.
    change (Z.min 30 60) with 30. change (30 - 30) with 0. rewrite match_done.
    unfold fill_order, reduce_order. cbn [ro_quantity o3 ro_id Z.eqb Pos.eqb fmap list_fmap o2].
    by rewrite decide_False, decide_True by lia. }
  set (sb4 := next sb3 c4) in *.
  assert (H5 : bench_at (next sb4 c5) [o2] (s + 5) r).
  { pose proof (cancel_at _ _ _ _ c5 H4 ltac:(in_sequence) (set_quantity o3 30) eq_refl) as H5.
    unfold c5, o2, o3 in H5. cbn [c_order_id c_sequence] in H5. rewrite remove_other, remove_here, remove_nil in H5 by (cbn; lia).
    apply H5. ids. done. }
  apply (new_at _ _ _ _ c6 H5 ltac:(in_sequence) [] [trade_event c6 o2 50] 0); try done; [by left|unlisted|].
  eapply match_fill; [|reflexivity|]; [cbn; lia|]. ids. reflexivity.
Qed.

(** The sells of a sweep. *)
Definition sweep_order (k s i : Z) : RestingOrder := MkResting (k * 10 + i + 1) Sell (10000 + i) 10 (s + i + 1).
Definition sweep_orders (k s : Z) (n : nat) : list RestingOrder :=
  (fun i => sweep_order k s (Z.of_nat i)) <$> seq 0 n.

Lemma sweep_orders_snoc k s n : sweep_orders k s (S n) = sweep_orders k s n ++ [sweep_order k s (Z.of_nat n)].
Proof. unfold sweep_orders. rewrite seq_S, fmap_app. done. Qed.

Lemma best_none side limit l : Forall (fun o => ro_side o = side) l -> best_order side limit l = None.
Proof.
  induction 1 as [|o l Ho _ IH]; [done|]. cbn. rewrite IH. unfold crossing.
  rewrite bool_decide_eq_false_2; [done|]. rewrite Ho. by destruct side.
Qed.

Lemma spec_bench_snoc n w sb s i : 0 <= s -> 0 <= i -> s + Z.of_nat n + 1 <= u64_max -> i + Z.of_nat n + 1 <= u64_max ->
  spec_bench (S n) w sb s i =
    next (spec_bench n w sb s i) (workload w (i + Z.of_nat n) (s + Z.of_nat n + 1)).
Proof.
  revert sb s i. induction n as [|n IH]; intros sb s i Hs Hi Hs' Hi'.
  { cbn [spec_bench]. rewrite u64_small by intlia. by rewrite !Z.add_0_r. }
  rewrite spec_bench_step by intlia. rewrite IH by lia. rewrite (spec_bench_step n) by intlia.
  replace (i + 1 + Z.of_nat n) with (i + Z.of_nat (S n)) by lia.
  by replace (s + 1 + Z.of_nat n + 1) with (s + Z.of_nat (S n) + 1) by lia.
Qed.

Lemma sweep_sells k sb s r (n : nat) : bench_at sb [] s r -> 0 <= k -> k * 10 + 10 <= u64_max -> 0 <= s ->
  s + 10 <= u64_max -> (n <= 9)%nat ->
  bench_at (spec_bench n SweepWorkload sb s (k * 10)) (sweep_orders k s n) (s + Z.of_nat n) r.
Proof.
  intros H Hk Hk' Hs Hs'. induction n as [|n IH]; intros Hn; [by rewrite Z.add_0_r|].
  rewrite spec_bench_snoc by lia. specialize (IH ltac:(lia)).
  set (sb' := spec_bench n _ _ _ _) in *. cbn [workload]. unfold sweep_workload.
  destruct (block_index k 10 (Z.of_nat n) ltac:(lia)) as [-> ->].
  rewrite (proj2 (Z.ltb_lt _ _)), u64_small by (lia || intlia). set (c := MkCommand _ _ _ _ _ _ _ _).
  rewrite sweep_orders_snoc. replace (s + Z.of_nat (S n)) with (c_sequence c) by (cbn; lia).
  assert (Hlen : length (sweep_orders k s n) = n) by (unfold sweep_orders; by rewrite length_fmap, length_seq).
  eapply (new_at sb' _ _ _ c IH ltac:(in_sequence) (sweep_orders k s n) [] 10); try done.
  - right. unfold on_ladder. cbn. rewrite (proj2 (Z.leb_le _ _)), (proj2 (Z.leb_le _ _)), Z.mod_1_r by lia. done.
  - unfold sweep_orders. rewrite <- list_fmap_compose. intros (i & Hi & Hin)%list_elem_of_fmap.
    apply elem_of_seq in Hin. cbn in Hi. lia.
  - rewrite Hlen. lia.
  - apply match_none. apply best_none. apply Forall_fmap, Forall_true. done.
Qed.

Lemma sweep_block k sb s r : bench_at sb [] s r -> 0 <= k -> k * 10 + 10 <= u64_max -> 0 <= s -> s + 10 <= u64_max ->
  bench_at (spec_bench 10 SweepWorkload sb s (k * 10)) [] (s + 10) r.
Proof.
  intros H Hk Hk' Hs Hs'. rewrite spec_bench_snoc by lia.
  pose proof (sweep_sells k sb s r 9 H Hk Hk' Hs Hs' ltac:(lia)) as H9.
  change (sweep_orders k s 9) with [sweep_order k s 0; sweep_order k s 1; sweep_order k s 2; sweep_order k s 3;
    sweep_order k s 4; sweep_order k s 5; sweep_order k s 6; sweep_order k s 7; sweep_order k s 8] in H9.
  set (sb9 := spec_bench 9 _ _ _ _) in *. cbn [workload]. unfold sweep_workload.
  change (Z.of_nat 9) with 9 in *. destruct (block_index k 10 9 ltac:(lia)) as [-> ->]. cbn [Z.ltb Z.compare Pos.compare Pos.compare_cont].
  rewrite u64_small by intlia. set (c := MkCommand _ _ _ _ _ _ _ _).
  replace (s + 10) with (c_sequence c) by (cbn; lia).
  eapply (new_at sb9 _ _ _ c H9 ltac:(in_sequence) [] _ 0); try done; [by left|unlisted|].
  cbn [length].
  do 9 (eapply match_fill; [|reflexivity|];
    [cbn [ro_quantity sweep_order c_quantity c]; lia|cbn [ro_id sweep_order]; ids]).
  reflexivity.
Qed.

(** ** All blocks *)

Lemma block_ok w k sb s r : bench_idle w sb s r -> 0 <= k -> k * block w + block w <= u64_max -> 0 <= s ->
  s + block w <= u64_max ->
  bench_idle w (spec_bench (Z.to_nat (block w)) w sb s (k * block w)) (s + block w) r.
Proof.
  destruct w; cbn [block bench_idle].
  - by apply cross_block.
  - by apply cancel_block.
  - intros (p & q & H) Hk Hk' Hs Hs'. change (Z.to_nat 1) with 1%nat. rounds.
    destruct (replace_round (k * 1) sb s r p q H Hs Hs') as (p' & H'). by exists p', (s + 1).
  - by apply sweep_block.
  - by apply mixed_block.
Qed.

Lemma spec_bench_app a n w sb s i : 0 <= s -> 0 <= i -> s + Z.of_nat a <= u64_max -> i + Z.of_nat a <= u64_max ->
  spec_bench (a + n) w sb s i = spec_bench n w (spec_bench a w sb s i) (s + Z.of_nat a) (i + Z.of_nat a).
Proof.
  revert sb s i. induction a as [|a IH]; intros sb s i Hs Hi Hs' Hi'; [by rewrite !Z.add_0_r|].
  cbn [Nat.add]. rewrite !spec_bench_step by intlia. rewrite IH by lia. f_equal; lia.
Qed.

Lemma blocks_ok (n : nat) w k sb s r : bench_idle w sb s r -> 0 <= k ->
  (k + Z.of_nat n) * block w <= u64_max -> 0 <= s -> s + Z.of_nat n * block w <= u64_max ->
  bench_idle w (spec_bench (n * Z.to_nat (block w)) w sb s (k * block w)) (s + Z.of_nat n * block w) r.
Proof.
  assert (Hb : 0 < block w) by by destruct w.
  revert k sb s. induction n as [|n IH]; intros k sb s H Hk Hk' Hs Hs'; [by rewrite Z.add_0_r|].
  cbn [Nat.mul]. rewrite spec_bench_app by nia. rewrite Z2Nat.id by lia.
  replace (k * block w + block w) with ((k + 1) * block w) by lia.
  replace (s + Z.of_nat (S n) * block w) with (s + block w + Z.of_nat n * block w) by lia.
  apply IH; [apply block_ok; [done|lia|nia|lia|nia]|lia|nia|lia|nia].
Qed.

(** ** The driver on the engine *)

Lemma workload_fits w i s : is_u64 (c_quantity (workload w i s)).
Proof.
  destruct w; cbn [workload]; unfold cross_workload, cancel_workload, replace_workload, sweep_workload, mixed_workload;
    try destruct (_ =? 0); try destruct (_ <? _); try (cbn; intlia).
  destruct (i mod 6) as [|[[]|[]|]|]; cbn; try intlia; destruct p; cbn; intlia.
Qed.

Lemma bench_loop_ok n w (b : Engine) sb s i : refines b sb -> 0 <= s -> 0 <= i -> s + Z.of_nat n <= u64_max ->
  i + Z.of_nat n <= u64_max ->
  exists b', bench_loop (S n) w b s i (i + Z.of_nat n) = Ok (b', s + Z.of_nat n) /\
    refines b' (spec_bench n w sb s i).
Proof.
  revert b sb s i. induction n as [|n IH]; intros b sb s i H Hs Hi Hs' Hi'.
  { exists b. cbn [bench_loop]. rewrite (proj2 (Z.ltb_ge _ _)) by lia. by rewrite Z.add_0_r. }
  cbn [bench_loop]. cbv zeta. rewrite (proj2 (Z.ltb_lt _ _)) by lia. rewrite (u64_small (s + 1)), (u64_small (i + 1)) by intlia.
  destruct (process_ok b sb (workload w i (s + 1)) [] H (workload_fits w i (s + 1))) as (b1 & -> & H1).
  cbn [mbind result_bind]. destruct (IH b1 _ (s + 1) (i + 1) H1) as (b' & Hl & H'); [lia..|].
  replace (i + Z.of_nat (S n)) with (i + 1 + Z.of_nat n) by lia.
  replace (s + Z.of_nat (S n)) with (s + 1 + Z.of_nat n) by lia.
  exists b'. split; [exact Hl|]. by rewrite spec_bench_step by intlia.
Qed.

(** A loop of the driver over whole blocks. *)
Lemma loop_blocks w (b : Engine) sb s r start stop : refines b sb -> bench_idle w sb s r ->
  0 <= start <= stop -> start mod block w = 0 -> stop mod block w = 0 -> stop <= u64_max -> 0 <= s ->
  s + (stop - start) <= u64_max ->
  exists b' sb', bench_loop (S (Z.to_nat (stop - start))) w b s start stop = Ok (b', s + (stop - start)) /\
    refines b' sb' /\ bench_idle w sb' (s + (stop - start)) r.
Proof.
  intros H Hi Hr Hm Hm' Hmax Hs Hs'. assert (Hb : 0 < block w) by by destruct w.
  apply Z.mod_divide in Hm as [k ->], Hm' as [m ->]; [|lia..].
  assert (Hkm : 0 <= k <= m) by nia. set (n := Z.to_nat (m - k)).
  assert (Hn : m * block w - k * block w = Z.of_nat n * block w) by (unfold n; nia).
  assert (Hnat : Z.to_nat (m * block w - k * block w) = (n * Z.to_nat (block w))%nat) by (rewrite Hn; nia).
  pose proof (blocks_ok n w k sb s r Hi) as Hok.
  destruct (bench_loop_ok (n * Z.to_nat (block w)) w b sb s (k * block w) H) as (b' & Hl & H'); [nia..|].
  rewrite Hnat. exists b', (spec_bench (n * Z.to_nat (block w)) w sb s (k * block w)).
  replace (Z.of_nat (n * Z.to_nat (block w))) with (Z.of_nat n * block w) in Hl by nia.
  rewrite <- Hn in *. replace (k * block w + (m * block w - k * block w)) with (m * block w) in Hl by lia.
  split; [exact Hl|]. split; [exact H'|]. apply Hok; nia.
Qed.
