(* ===== verification/BenchLoops.v ===== *)
(** * BenchLoops: the loops of the benchmark run clean

    [run_core] and [run_protocol] finish without a fault and without a rejection. *)
From Stdlib Require Import ZArith Znumtheory Lia.
From stdpp Require Import base numbers gmap list.
From S2P Require Import Prelude Types OrderIndex FixedHash OrderBook BookSpec SpecFacts BookRefine.
From S2P Require Import BookQueries BookRun Engine Bytes Protocol ProtocolFacts Bench BenchFacts.
Local Open Scope Z_scope.

(** ** The order book workloads *)

Lemma bench_config_ok : config_ok bench_config.
Proof. constructor; vm_compute; intuition discriminate. Qed.

Lemma whole_blocks w n : (n - n mod block w) mod block w = 0.
Proof.
  assert (Hb : 0 < block w) by by destruct w. rewrite Zminus_mod, Z.mod_mod, Z.sub_diag by lia. apply Z.mod_0_l. lia.
Qed.

Lemma blocks_add w a n : a mod block w = 0 -> n mod block w = 0 -> (a + n) mod block w = 0.
Proof.
  intros Ha Hn. assert (Hb : 0 < block w) by by destruct w. rewrite Z.add_mod, Ha, Hn by lia. apply Z.mod_0_l. lia.
Qed.

Lemma refines_rejected (b : Engine) sb : refines b sb -> rejected (stats b) = rejected (sb_stats sb).
Proof. intros [G HG]. by rewrite (rp_spec _ _ _ HG). Qed.

Lemma idle_rejected w sb s r : bench_idle w sb s r -> rejected (sb_stats sb) = r.
Proof. destruct w; cbn; try (by intros []). by intros (p & q & []). Qed.

Lemma setup_ok w (b : Engine) : refines b (empty_spec bench_config) ->
  exists b1 s sb, bench_setup w b = Ok (b1, s) /\ 0 <= s <= 1 /\ refines b1 sb /\ bench_idle w sb s 0.
Proof.
  intros H. assert (H0 : bench_at (empty_spec bench_config) [] 0 0) by done.
  destruct w; cbn [bench_setup bench_idle]; try (exists b, 0, (empty_spec bench_config); split_and!; done || lia).
  set (c := MkCommand 1 _ _ _ _ _ _ _).
  destruct (process_ok b _ c [] H ltac:(cbn; intlia)) as (b1 & -> & H1). cbn [mbind result_bind].
  eexists b1, 1, _. split; [done|]. split; [lia|]. split; [exact H1|]. exists 9999, 1.
  apply (new_at _ [] 0 0 c H0 eq_refl [] [] 100); try done; [by right|]. apply not_elem_of_nil.
Qed.

(** The orders left by a workload. *)
Lemma idle_orders w (b : Engine) sb s r : refines b sb -> bench_idle w sb s r ->
  exists orders, resting_orders b = Ok orders /\
    if decide (w = ReplaceWorkload) then exists p q, orders = [MkResting 1 Buy p 100 q] else orders = [].
Proof.
  intros H Hi. pose proof (refines_orders b sb H) as Ho. eexists. split; [exact Ho|]. destruct H as [G [R W ->]].
  cbn [sb_config sb_orders].
  assert (Hp : ladder_order (config b) G.*2 ≡ₚ G.*2) by (apply ladder_order_perm; [apply R|apply W]).
  destruct w; cbn [bench_idle] in Hi; first [rewrite decide_False by done|rewrite decide_True by done];
    try (pose proof (ba_orders _ _ _ _ Hi) as Hl; cbn in Hl; rewrite Hl in *; by apply Permutation_nil_r in Hp).
  destruct Hi as (p & q & [_ Hl _ _]). cbn in Hl. rewrite Hl in *. exists p, q. by apply Permutation_singleton_r in Hp.
Qed.

(** Every workload exercises what it claims: for any number of requested
    operations up to 2^63 the driver runs to its end without a fault, performs
    whole blocks, reports no rejection, and leaves the book empty (the replace
    workload: with its single order), so that the work per operation does not
    drift. *)
Lemma run_core_clean (w : Workload) (requested : Z) :
  0 <= requested <= 2 ^ 63 ->
  exists b orders,
    run_core w requested = Ok (Z.max (block w) (requested - requested mod block w), 0, b) /\
    resting_orders b = Ok orders /\
    if decide (w = ReplaceWorkload) then exists p q, orders = [MkResting 1 Buy p 100 q] else orders = [].
Proof.
  intros Hreq. assert (Hb : 1 <= block w <= 10) by (destruct w; cbn; lia).
  pose proof (Z.mod_pos_bound requested (block w) ltac:(lia)) as Hr1.
  pose proof (Z.mod_pos_bound 200000 (block w) ltac:(lia)) as Hr2.
  pose proof (Z.mod_pos_bound 100000 (block w) ltac:(lia)) as Hr3.
  unfold run_core. cbv zeta. set (operations := Z.max _ _). set (warmup := 200000 - _). set (samples := 100000 - _).
  assert (Hops : 1 <= operations <= 2 ^ 63 + 10) by (unfold operations; lia).
  assert (Hm1 : warmup mod block w = 0) by apply whole_blocks.
  assert (Hm2 : operations mod block w = 0).
  { unfold operations. destruct (Z.max_spec (block w) (requested - requested mod block w)) as [[_ ->]|[_ ->]];
      [apply whole_blocks|apply Z.mod_same; lia]. }
  assert (Hm3 : samples mod block w = 0) by apply whole_blocks.
  rewrite !u64_small by (rewrite ?u64_small by intlia; intlia).
  destruct (make_book_ok (I := FixedOrderIndex) bench_config bench_config_ok) as (b0 & -> & H0). cbn [mbind result_bind].
  destruct (setup_ok w b0 H0) as (b1 & s & sb1 & -> & Hs & H1 & I1). cbn [mbind result_bind].
  destruct (loop_blocks w b1 sb1 s 0 0 warmup H1 I1) as (b2 & sb2 & L2 & H2 & I2);
    [lia|apply Z.mod_0_l; lia|done|intlia..|]. rewrite Z.sub_0_r in L2. rewrite L2. cbn [mbind result_bind].
  destruct (loop_blocks w b2 sb2 (s + (warmup - 0)) 0 warmup (warmup + operations) H2 I2) as (b3 & sb3 & L3 & H3 & I3);
    [lia|done|by apply blocks_add|intlia..|]. rewrite Z.sub_0_r in L3. rewrite L3. cbn [mbind result_bind].
  rewrite Z.sub_0_r in I3.
  destruct (loop_blocks w b3 sb3 _ 0 (warmup + operations) (warmup + operations + samples) H3 I3)
    as (b4 & sb4 & -> & H4 & I4); [lia|by apply blocks_add|by apply blocks_add; [apply blocks_add|]|intlia..|].
  cbn [mbind result_bind]. rewrite (refines_rejected _ _ H4), (refines_rejected _ _ H2).
  rewrite (idle_rejected _ _ _ _ I4), (idle_rejected _ _ _ _ I2).
  destruct (idle_orders w b4 sb4 _ _ H4 I4) as (orders & Ho & Hl). by exists b4, orders.
Qed.

(** ** The protocol benchmark *)

(** The first [n] bytes of a frame of size [n] decode like the whole buffer. *)
Lemma header_at_take d (k : nat) type len session sequence : header_size <= Z.of_nat k ->
  header_at d type len session sequence -> header_at (take k d) type len session sequence.
Proof.
  unfold header_size. intros Hk [H1 H2 H3 H4 H5 H6].
  assert (Hv : forall j, j < Z.of_nat k -> vget (take k d) j = vget d j).
  { intros j Hj. unfold vget. by rewrite vlook_take. }
  unfold get_u32, get_u16, get_u64 in *. constructor; unfold get_u32, get_u16, get_u64;
    rewrite ?get_take, ?Hv by lia; done.
Qed.

Lemma request_framed r d : request_ok r -> request_frame_size (c_type (rq_command r)) <= vsize d ->
  let n := request_frame_size (c_type (rq_command r)) in
  exists d', encode_request r d = Ok (true, n, d') /\ vsize d' = vsize d /\
    decode_request (take (Z.to_nat n) d') = Ok (MkRequestDecode DecodeOk n
      (MkRequest (rq_session_id r) (rq_client_sequence r) (wire_command (rq_command r)))).
Proof.
  intros Hr Hd n. destruct (encode_request_ok r d Hr Hd) as (d' & He & Hs & Hh & Hp & _). fold n in He, Hh.
  destruct (frame_size_bounds (c_type (rq_command r))) as (Hb & _ & _). fold n in Hb, Hd.
  exists d'. split; [done|]. split; [done|]. destruct Hr as [[_ Hs0] [_ Hq0] _ Hid]. unfold header_size in Hb.
  assert (Hl : vsize (take (Z.to_nat n) d') = n) by (unfold vsize in *; rewrite length_take; lia).
  eapply decode_request_ok; eauto; [|by rewrite Hl| |].
  - apply header_at_take; [unfold header_size; lia|done].
  - rewrite <- (decode_payload_app _ (drop (Z.to_nat n) d')) by (rewrite Hl; done). by rewrite take_drop.
  - unfold wire_command. by destruct (c_type _).
Qed.

(** The sum of the first [n] identifiers. *)
Definition triangle (n : Z) : Z := n * (n + 1) / 2.

Lemma triangle_double n : 2 * triangle n = n * (n + 1).
Proof.
  unfold triangle. symmetry. apply Z_div_exact_full_2; [lia|].
  rewrite Zmod_even. by rewrite Z.even_mul, Z.even_add, Z.even_1; destruct (Z.even n).
Qed.

Lemma odd_coprime m : Z.odd m = true -> Z.coprime 2 m.
Proof.
  intros Hm. unfold Z.coprime. pose proof (Z.gcd_nonneg 2 m) as H0.
  assert (H2 : Z.gcd 2 m <= 2) by (apply Z.divide_pos_le; [lia|apply Z.gcd_divide_l]).
  assert (Hc : Z.gcd 2 m = 0 \/ Z.gcd 2 m = 1 \/ Z.gcd 2 m = 2) by lia. destruct Hc as [Hc|[Hc|Hc]]; [|done|].
  - by apply Z.gcd_eq_0 in Hc as [? _].
  - pose proof (Z.gcd_divide_r 2 m) as [x Hx]. rewrite Hc in Hx. rewrite Hx, Z.odd_mul in Hm.
    by rewrite andb_false_r in Hm.
Qed.

(** It never wraps to zero. *)
Lemma triangle_nonzero n : 0 < n <= u64_max -> u64 (triangle n) <> 0.
Proof.
  intros Hn E. apply Z.mod_divide in E as [q Hq]; [|lia]. pose proof (triangle_double n) as Hd.
  assert (Hdiv : (2 ^ 65 | n * (n + 1))) by (exists q; rewrite <- Hd, Hq; lia).
  destruct (Z.odd n) eqn:Ho.
  - apply Z.gauss in Hdiv; [|by apply Z.coprime_pow_l, odd_coprime]. apply Z.divide_pos_le in Hdiv; intlia.
  - rewrite Z.mul_comm in Hdiv. apply Z.gauss in Hdiv; [|apply Z.coprime_pow_l, odd_coprime; [lia|by rewrite Z.odd_add, Ho]].
    apply Z.divide_pos_le in Hdiv; intlia.
Qed.

Lemma protocol_loop_ok n bytes i : vsize bytes = maximum_frame_size -> 0 <= i -> i + Z.of_nat n <= u64_max ->
  protocol_loop (S n) bytes i (i + Z.of_nat n) (u64 (triangle i)) = Ok (Some (u64 (triangle (i + Z.of_nat n)))).
Proof.
  revert bytes i. induction n as [|n IH]; intros bytes i Hb Hi Hmax.
  { cbn [protocol_loop]. rewrite (proj2 (Z.ltb_ge _ _)) by lia. by rewrite Z.add_0_r. }
  cbn [protocol_loop]. rewrite (proj2 (Z.ltb_lt _ _)) by lia. cbv zeta. rewrite (u64_small (i + 1)) by intlia.
  set (r := MkRequest 7 (i + 1) _).
  assert (Hr : request_ok r) by (split; [..|split|]; cbn; intlia).
  destruct (request_framed r bytes Hr) as (d' & -> & Hd & Hdec); [rewrite Hb; done|].
  cbn [mbind result_bind negb]. rewrite Hdec. cbn [mbind result_bind qd_request rq_command].
  change (c_order_id (wire_command _)) with (i + 1).
  assert (Ht : u64 (u64 (triangle i) + (i + 1)) = u64 (triangle (i + 1))).
  { unfold u64. rewrite Zplus_mod_idemp_l. f_equal. pose proof (triangle_double i). pose proof (triangle_double (i + 1)). lia. }
  rewrite Ht. replace (i + Z.of_nat (S n)) with (i + 1 + Z.of_nat n) by lia. apply IH; lia.
Qed.

(** The protocol benchmark neither aborts nor faults, whatever the number of
    operations. *)
Lemma run_protocol_completes (operations : Z) : 0 < operations <= u64_max ->
  run_protocol operations = Ok (Some operations).
Proof.
  intros Ho. unfold run_protocol.
  pose proof (protocol_loop_ok (Z.to_nat operations) (replicate (Z.to_nat maximum_frame_size) 0) 0 eq_refl) as Hl.
  rewrite Z2Nat.id, Z.add_0_l in Hl by lia. change (u64 (triangle 0)) with 0 in Hl. rewrite Hl by lia.
  cbn [mbind result_bind]. by rewrite (proj2 (Z.eqb_neq _ _) (triangle_nonzero operations Ho)).
Qed.
