(* ===== verification/BenchMain.v ===== *)
(** * BenchMain: the benchmark program (apps/benchmark.cpp)

    Latency percentiles in double precision, the metrics of every scenario,
    the cross-thread transfer through the ring, the journal benchmark, and
    [main].  What the program gets from outside is an [Environment]: the
    readings of the clock, the answers of the affinity call, the interleaving
    of the two threads of the transfer, and how the journal's file behaves.

    Doubles are the binary64 numbers of the standard library's [SpecFloat]. *)
From Stdlib Require Import ZArith Lia SpecFloat.
From stdpp Require Import base numbers gmap strings sorting list.
From S2P Require Import Prelude Types OrderIndex FixedHash OrderBook Engine Bytes Protocol Spsc Runner.
From S2P Require Import Journal CString Bench.
Local Open Scope Z_scope.

(** ** Doubles *)

Abbreviation double := spec_float.
Definition of_integer (n : Z) : double := binary_normalize 53 1024 n 0 false.
Definition multiply : double -> double -> double := SFmul 53 1024.
Definition divide : double -> double -> double := SFdiv 53 1024.

(** The literal [num / den]: the double nearest to it. *)
Definition literal (num den : Z) : double := divide (of_integer num) (of_integer den).

(** [static_cast<std::size_t>] of a double; a value that does not fit is
    undefined behaviour. *)
Definition truncate (x : double) : result Z :=
  match x with
  | S754_zero _ => Ok 0
  | S754_finite negative m e =>
    let v := Z.shiftl (Zpos m) e in
    if (negative : bool) then (if v =? 0 then Ok 0 else Fail OutOfBounds)
    else if v <=? u64_max then Ok v else Fail OutOfBounds
  | _ => Fail OutOfBounds
  end.

Definition percentile (sorted : list Z) (value : double) : result Z :=
  index ← truncate (multiply value (of_integer (u64 (vsize sorted - 1))));
  vget sorted index.

(** ** Metrics *)

Record Metrics : Set := MkMetrics {
  m_name : string;
  m_operations : Z;
  m_rate : double;
  m_p50 : Z;
  m_p99 : Z;
  m_p999 : Z;
  m_rejects : Z }.

(** The [k]-th reading of the clock, in nanoseconds. *)
Abbreviation Clock := (nat -> Z).

(** [std::chrono::duration<double>] of a time span. *)
Definition seconds (started stopped : Z) : double :=
  divide (of_integer (stopped - started)) (of_integer 1000000000).
Definition rate (operations : Z) (clock : Clock) : double :=
  divide (of_integer operations) (seconds (clock 0%nat) (clock 1%nat)).

(** The samples of [run_core]: the clock is read before and after each. *)
Definition latencies (clock : Clock) (samples : Z) : list Z :=
  (fun i => u64 (clock (3 + 2 * i)%nat - clock (2 + 2 * i)%nat)) <$> seq 0 (Z.to_nat samples).

Definition sample_count (w : Workload) : Z := 100000 - 100000 mod block w.

(** What [run_core] returns. *)
Definition core_metrics (name : string) (w : Workload) (requested : Z) (clock : Clock) : result Metrics :=
  '(operations, rejects, _) ← run_core w requested;
  let latency := merge_sort Z.le (latencies clock (sample_count w)) in
  p50 ← percentile latency (literal 1 2);
  p99 ← percentile latency (literal 99 100);
  p999 ← percentile latency (literal 999 1000);
  Ok (MkMetrics name operations (rate operations clock) p50 p99 p999 rejects).

(** What [run_protocol] returns. *)
Definition protocol_metrics (operations : Z) (clock : Clock) : result Metrics :=
  r ← run_protocol operations;
  match r with
  | None => Fail Aborted
  | Some operations => Ok (MkMetrics "protocol encode+decode" operations (rate operations clock) 0 0 0 0)
  end.

(** ** Affinity *)

Definition CPU_SETSIZE : Z := 1024.

(** [setaffinity] is what [pthread_setaffinity_np] returns for a mask. *)
Definition pin_to_cpu (setaffinity : Z -> Z) (cpu : Z) : bool :=
  if CPU_SETSIZE <=? cpu then false else setaffinity (Z.setbit 0 cpu) =? 0.

(** ** The transfer between two threads *)

Inductive MainStage : Set :=
  | AwaitReady             (* while (!ready.load()) {} *)
  | SetStart               (* start.store(true) *)
  | Pushing (index : Z)    (* the for loop *)
  | AwaitConsumer          (* consumer.join() *)
  | Finished.

Inductive ConsumerStage : Set :=
  | Pinning                (* pin_to_cpu, ready.store(true) *)
  | AwaitStart             (* while (!start.load()) {} *)
  | Popping
  | Done.

#[export] Instance ConsumerStage_eq_dec : EqDecision ConsumerStage.
Proof. solve_decision. Defined.

Record Transfer : Type := MkTransfer {
  tr_queue : SpscQueue GatewayRequest;
  tr_ready : bool;
  tr_start : bool;
  tr_main : MainStage;
  tr_consumer : ConsumerStage;
  tr_consumed : Z;
  tr_received : list GatewayRequest }.   (* what the consumer popped *)

Definition spsc_request (index : Z) : GatewayRequest :=
  MkGatewayRequest 7 (u64 (index + 1)) (MkCommand 0 New Buy Limit 0 (u64 (index + 1)) 10000 100).

Section Turns.
Context (operations : Z).

Definition main_turn (t : Transfer) : result Transfer :=
  let goto m := MkTransfer (tr_queue t) (tr_ready t) (tr_start t) m (tr_consumer t) (tr_consumed t) (tr_received t) in
  match tr_main t with
  | AwaitReady => Ok (if tr_ready t then goto SetStart else t)
  | SetStart =>
    Ok (MkTransfer (tr_queue t) (tr_ready t) true (Pushing 0) (tr_consumer t) (tr_consumed t) (tr_received t))
  | Pushing index =>
    if index <? operations then
      '(q, ok) ← try_push (tr_queue t) (spsc_request index);
      Ok (MkTransfer q (tr_ready t) (tr_start t) (if (ok : bool) then Pushing (u64 (index + 1)) else Pushing index)
            (tr_consumer t) (tr_consumed t) (tr_received t))
    else Ok (goto AwaitConsumer)
  | AwaitConsumer => Ok (match tr_consumer t with Done => goto Finished | _ => t end)
  | Finished => Ok t
  end.

Definition consumer_turn (t : Transfer) : result Transfer :=
  let goto c := MkTransfer (tr_queue t) (tr_ready t) (tr_start t) (tr_main t) c (tr_consumed t) (tr_received t) in
  match tr_consumer t with
  | Pinning =>
    Ok (MkTransfer (tr_queue t) true (tr_start t) (tr_main t) AwaitStart (tr_consumed t) (tr_received t))
  | AwaitStart => Ok (if tr_start t then goto Popping else t)
  | Popping =>
    if tr_consumed t <? operations then
      '(q, r) ← try_pop (tr_queue t);
      match r with
      | Some request =>
        Ok (MkTransfer q (tr_ready t) (tr_start t) (tr_main t) Popping (u64 (tr_consumed t + 1))
              (tr_received t ++ [request]))
      | None => Ok (MkTransfer q (tr_ready t) (tr_start t) (tr_main t) Popping (tr_consumed t) (tr_received t))
      end
    else Ok (goto Done)
  | Done => Ok t
  end.

(** [true]: the main thread runs. *)
Definition turn (who : bool) (t : Transfer) : result Transfer :=
  if who then main_turn t else consumer_turn t.

Definition finished (t : Transfer) : bool := match tr_main t with Finished => true | _ => false end.

(** [schedule n] runs in turn [n]. *)
Fixpoint transfer_loop (fuel : nat) (schedule : nat -> bool) (n : nat) (t : Transfer) : result Transfer :=
  if finished t then Ok t
  else
    match fuel with
    | O => Fail OutOfFuel
    | S fuel => t ← turn (schedule n) t; transfer_loop fuel schedule (S n) t
    end.
End Turns.

Definition zero_request : GatewayRequest := MkGatewayRequest 0 0 (MkCommand 0 New Buy Limit 0 0 0 0).

Definition run_spsc (fuel : nat) (schedule : nat -> bool) (operations : Z) : result Transfer :=
  queue ← make_queue zero_request 65536;
  transfer_loop operations fuel schedule 0 (MkTransfer queue false false AwaitReady Pinning 0 []).

Definition spsc_metrics (fuel : nat) (schedule : nat -> bool) (operations : Z) (clock : Clock) : result Metrics :=
  _ ← run_spsc fuel schedule operations;
  Ok (MkMetrics "SPSC cross-thread transfer" operations (rate operations clock) 0 0 0 0).

(** ** The journal benchmark *)

(** How the file and the padding bytes behave: whether it can be opened, the
    outcome of each write and flush, the padding of each argument and of its
    copy in the record. *)
Record JournalFaults : Set := MkFaults {
  jf_opens : bool;
  jf_header : fault;
  jf_header_flush : fault;
  jf_write : Z -> fault;
  jf_flush : fault;
  jf_pad : Z -> list Z;
  jf_copy : Z -> list Z }.

Definition journal_command (index : Z) : Command :=
  MkCommand (u64 (index + 1)) New Buy Limit 0 (u64 (index + 1)) 10000 100.

Fixpoint journal_loop (fuel : nat) (j : JournalFaults) (w : JournalWriter) (index operations : Z)
  : result JournalWriter :=
  match fuel with
  | O => Fail OutOfFuel
  | S fuel =>
    if index <? operations then
      let '(w, r) := append w (journal_command index) (jf_pad j index) (jf_copy j index) (jf_write j index) None in
      _ ← r;
      journal_loop fuel j w (u64 (index + 1)) operations
    else Ok w
  end.

(** The block of [run_journal]: the file when the writer is gone. *)
Definition write_journal (j : JournalFaults) (existing : option (list Z)) (operations : Z) : result (list Z) :=
  w ← make_writer existing false (jf_opens j) (jf_header j) (jf_header_flush j);
  w ← journal_loop (S (Z.to_nat operations)) j w 0 operations;
  let '(w, r) := flush w (jf_flush j) in
  _ ← r;
  Ok (st_file (jw_stream w)).

Definition benchmark_journal (directory : string) : string := (directory ++ "/dme_benchmark.journal")%string.

Definition run_journal (j : JournalFaults) (directory : string) (fs : FileSystem) (requested : Z) (clock : Clock)
  : result (FileSystem * Metrics) :=
  let operations := Z.min requested 1000000 in
  let path := benchmark_journal directory in
  let fs := delete path fs in
  content ← write_journal j (fs !! path) operations;
  let fs := <[path := content]> fs in
  let fs := delete path fs in
  Ok (fs, MkMetrics "buffered journal append" operations (rate operations clock) 0 0 0 0).

(** ** [main] *)

Record Environment : Type := MkEnvironment {
  e_setaffinity : Z -> Z;
  e_clock : string -> Clock;         (* the clock during a scenario *)
  e_schedule : nat -> bool;          (* the threads of the transfer *)
  e_journal : JournalFaults;
  e_directory : string }.            (* std::filesystem::temp_directory_path *)

(** The scenario, the operations and the processor that the arguments ask for. *)
Definition benchmark_arguments (argv : list string) : string * Z * Z :=
  match argv with
  | _ :: first :: rest =>
    if numeric first then
      ("cross", strtoull first, match rest with cpu :: _ => u32 (strtoull cpu) | [] => 0 end)
    else
      (first,
       match rest with operations :: _ => strtoull operations | [] => 2000000 end,
       match rest with _ :: cpu :: _ => u32 (strtoull cpu) | _ => 0 end)
  | _ => ("all", 2000000, 0)
  end.

Definition Scenario : Type := FileSystem -> result (FileSystem * Metrics).

(** A scenario that touches no file. *)
Definition pure_scenario (m : result Metrics) : Scenario := fun fs => m ← m; Ok (fs, m).

Definition suite (fuel : nat) (env : Environment) (operations : Z) : list (string * Scenario) :=
  let core name label w := (name, pure_scenario (core_metrics label w operations (e_clock env name))) in
  [core "cross" "crossing IOC" CrossWorkload;
   core "cancel" "insert/cancel churn" CancelWorkload;
   core "replace" "replace priority churn" ReplaceWorkload;
   core "sweep" "nine-level market sweep" SweepWorkload;
   core "mixed" "mixed lifecycle" MixedWorkload;
   ("protocol", pure_scenario (protocol_metrics operations (e_clock env "protocol")));
   ("spsc", pure_scenario (spsc_metrics fuel (e_schedule env) operations (e_clock env "spsc")));
   ("journal", fun fs => run_journal (e_journal env) (e_directory env) fs operations (e_clock env "journal"))]%string.

(** The lambda [run] of [main]. *)
Definition selected (scenario name : string) : bool := String.eqb scenario "all" || String.eqb scenario name.

(** The metrics printed, in order. *)
Fixpoint run_suite (scenario : string) (l : list (string * Scenario)) (fs : FileSystem)
  : result (FileSystem * list Metrics) :=
  match l with
  | [] => Ok (fs, [])
  | (name, action) :: l =>
    if selected scenario name then
      '(fs, m) ← action fs;
      '(fs, ms) ← run_suite scenario l fs;
      Ok (fs, m :: ms)
    else run_suite scenario l fs
  end.

Record Report : Type := MkReport {
  rep_pinned : option bool;          (* cpu_pinned, when the header is printed *)
  rep_lines : list Metrics;
  rep_files : FileSystem;
  rep_status : Z }.

(** [matched] is whether a scenario ran; [fuel] bounds the turns of the
    transfer. *)
Definition benchmark_main (fuel : nat) (env : Environment) (fs : FileSystem) (argv : list string) : result Report :=
  let '(scenario, operations, cpu) := benchmark_arguments argv in
  if operations <? 100 then Ok (MkReport None [] fs 2)
  else
    let pinned := pin_to_cpu (e_setaffinity env) cpu in
    '(fs, lines) ← run_suite scenario (suite fuel env operations) fs;
    let matched := match lines with [] => false | _ => true end in
    Ok (MkReport (Some pinned) lines fs (if (matched : bool) then 0 else 2)).
