(* ===== verification/BenchMainFacts.v ===== *)
(** * BenchMainFacts: percentiles, the transfer and the journal of the benchmark *)
From Stdlib Require Import ZArith Lia SpecFloat.
From stdpp Require Import base numbers gmap strings sorting list.
From S2P Require Import Prelude Types OrderIndex FixedHash OrderBook Engine Bytes Protocol Spsc Runner.
From S2P Require Import Journal JournalFacts JournalWriting CString Bench BenchFacts BenchLoops BenchMain.
Local Open Scope Z_scope.

(** ** Percentiles *)

(** The quantile [num / den] of some samples: as many are below it as the
    fraction says, and the others are not. *)
Definition is_quantile (samples : list Z) (num den p : Z) : Prop :=
  exists below above, samples ≡ₚ below ++ p :: above /\
    vsize below = num * (vsize samples - 1) / den /\
    Forall (fun x => x <= p) below /\ Forall (fun x => p <= x) above.

Lemma sample_counts w : sample_count w = 100000 \/ sample_count w = 99996.
Proof. destruct w; vm_compute; auto. Qed.

(** The indices that the double arithmetic gives. *)
Lemma index_exact w num den : (num, den) ∈ [(1, 2); (99, 100); (999, 1000)] ->
  truncate (multiply (literal num den) (of_integer (u64 (sample_count w - 1)))) =
    Ok (num * (sample_count w - 1) / den).
Proof.
  intros H. destruct (sample_counts w) as [-> | ->]; repeat (apply elem_of_cons in H as [[= -> ->]|H]);
    try (by apply not_elem_of_nil in H); vm_compute; reflexivity.
Qed.

Lemma index_bounds w num den : (num, den) ∈ [(1, 2); (99, 100); (999, 1000)] ->
  0 <= num * (sample_count w - 1) / den < sample_count w.
Proof.
  intros H. destruct (sample_counts w) as [-> | ->]; repeat (apply elem_of_cons in H as [[= -> ->]|H]);
    try (by apply not_elem_of_nil in H); vm_compute; intuition congruence.
Qed.

Lemma split_sorted (l : list Z) (i : nat) p : StronglySorted Z.le l -> l !! i = Some p ->
  Forall (fun x => x <= p) (take i l) /\ Forall (fun x => p <= x) (drop (S i) l).
Proof.
  intros Hs Hi. rewrite <- (take_drop_middle l i p Hi) in Hs. split; apply Forall_forall.
  - intros x Hx. eapply (StronglySorted_app_1_elem_of Z.le (take i l) (p :: drop (S i) l)); [done|done|set_solver].
  - apply StronglySorted_app_1_r in Hs. apply StronglySorted_inv in Hs as [_ Hs]. by apply Forall_forall.
Qed.

Lemma percentile_ok w samples num den : vsize samples = sample_count w ->
  (num, den) ∈ [(1, 2); (99, 100); (999, 1000)] ->
  exists p, percentile (merge_sort Z.le samples) (literal num den) = Ok p /\ is_quantile samples num den p /\
    merge_sort Z.le samples !! Z.to_nat (num * (sample_count w - 1) / den) = Some p.
Proof.
  intros Hlen Hq. pose proof (merge_sort_Permutation Z.le samples) as Hperm.
  assert (Hl : vsize (merge_sort Z.le samples) = sample_count w) by (unfold vsize in *; by rewrite Hperm).
  unfold percentile. rewrite Hl, index_exact by done. cbn [mbind result_bind].
  pose proof (index_bounds w num den Hq) as Hb. set (i := num * _ / den) in *.
  destruct (lookup_lt_is_Some_2 (merge_sort Z.le samples) (Z.to_nat i)) as [p Hp]; [unfold vsize in Hl; lia|].
  exists p. split.
  { unfold vget, vlook. rewrite (proj2 (in_range_true _ _)) by (rewrite Hl; lia). by rewrite Hp. }
  split; [|done].
  destruct (split_sorted _ _ _ (StronglySorted_merge_sort Z.le samples) Hp) as [H1 H2].
  exists (take (Z.to_nat i) (merge_sort Z.le samples)), (drop (S (Z.to_nat i)) (merge_sort Z.le samples)).
  split_and!; [|..|done|done].
  - rewrite (take_drop_middle _ _ _ Hp). by symmetry.
  - rewrite Hlen. fold i. unfold vsize. apply lookup_lt_Some in Hp. rewrite length_take. lia.
Qed.

Lemma lookup_sorted (l : list Z) (i j : nat) p q : StronglySorted Z.le l -> (i <= j)%nat ->
  l !! i = Some p -> l !! j = Some q -> p <= q.
Proof.
  intros Hs Hij Hp Hq. destruct (decide (i = j)) as [->|Hne]; [naive_solver lia|].
  destruct (split_sorted l i p Hs Hp) as [_ Hd]. rewrite Forall_forall in Hd. apply Hd.
  apply list_elem_of_lookup. exists (j - S i)%nat. rewrite lookup_drop. by replace (S i + (j - S i))%nat with j by lia.
Qed.

Lemma latencies_size clock w : vsize (latencies clock (sample_count w)) = sample_count w.
Proof.
  unfold vsize, latencies. rewrite length_fmap, length_seq. destruct (sample_counts w) as [-> | ->]; lia.
Qed.

(** The line of a workload. *)
Record core_line (w : Workload) (requested : Z) (clock : Clock) (m : Metrics) : Prop := {
  cl_operations : m_operations m = Z.max (block w) (requested - requested mod block w);
  cl_rejects : m_rejects m = 0;
  cl_p50 : is_quantile (latencies clock (sample_count w)) 1 2 (m_p50 m);
  cl_p99 : is_quantile (latencies clock (sample_count w)) 99 100 (m_p99 m);
  cl_p999 : is_quantile (latencies clock (sample_count w)) 999 1000 (m_p999 m);
  cl_order : m_p50 m <= m_p99 m <= m_p999 m }.

Lemma core_metrics_ok name w requested clock : 0 <= requested <= 2 ^ 63 ->
  exists m, core_metrics name w requested clock = Ok m /\ m_name m = name /\
    m_rate m = rate (m_operations m) clock /\ core_line w requested clock m.
Proof.
  intros Hreq. destruct (run_core_clean w requested Hreq) as (b & orders & Hrun & _).
  unfold core_metrics. rewrite Hrun. cbn [mbind result_bind]. pose proof (latencies_size clock w) as Hl.
  destruct (percentile_ok w _ 1 2 Hl ltac:(set_solver)) as (p50 & -> & Q50 & L50). cbn [mbind result_bind].
  destruct (percentile_ok w _ 99 100 Hl ltac:(set_solver)) as (p99 & -> & Q99 & L99). cbn [mbind result_bind].
  destruct (percentile_ok w _ 999 1000 Hl ltac:(set_solver)) as (p999 & -> & Q999 & L999). cbn [mbind result_bind].
  eexists. split; [done|]. split; [done|]. split; [done|]. constructor; cbn [m_operations m_rejects m_p50 m_p99 m_p999]; try done.
  pose proof (StronglySorted_merge_sort Z.le (latencies clock (sample_count w))) as Hs.
  split; (eapply lookup_sorted; [exact Hs| |eassumption|eassumption]);
    destruct (sample_counts w) as [-> | ->]; apply Nat.leb_le; vm_compute; reflexivity.
Qed.

(** ** Two threads under a fair scheduler *)

(** Each of the two threads runs again and again. *)
Definition fair (schedule : nat -> bool) : Prop :=
  forall (who : bool) (n : nat), exists m, (n <= m)%nat /\ schedule m = who.

Section Fairness.
Context (operations : Z) (Inv : Transfer -> Prop) (measure : Transfer -> nat) (schedule : nat -> bool).
(** A turn spins or makes progress, and while the main thread is not finished
    one of the threads can make progress. *)
Context (Hturn : forall who t, Inv t -> exists t', turn operations who t = Ok t' /\ Inv t' /\
  (t' = t \/ (measure t' < measure t)%nat)).
Context (Hlive : forall t, Inv t -> finished t = false ->
  exists who t', turn operations who t = Ok t' /\ (measure t' < measure t)%nat).
Context (Hfair : fair schedule).

Lemma loop_turn fuel n t t' : finished t = false -> turn operations (schedule n) t = Ok t' ->
  transfer_loop operations (S fuel) schedule n t = transfer_loop operations fuel schedule (S n) t'.
Proof. intros Hf Ht. cbn [transfer_loop]. by rewrite Hf, Ht. Qed.

Lemma fair_finishes t n : Inv t -> exists fuel t',
  transfer_loop operations fuel schedule n t = Ok t' /\ Inv t' /\ finished t' = true.
Proof using Hturn Hlive Hfair.
  remember (measure t) as k eqn:Hk. revert t n Hk.
  induction k as [k IH] using lt_wf_ind. intros t n -> Hi.
  destruct (finished t) eqn:Ef; [exists O, t; cbn; by rewrite Ef|].
  destruct (Hlive t Hi Ef) as (who & t1 & Ht1 & Hlt). destruct (Hfair who n) as (m & Hm & Hwho).
  remember (m - n)%nat as d eqn:Hd. revert n Hm Hd. induction d as [|d IHd]; intros n Hm Hd.
  - assert (n = m) as -> by lia. rewrite <- Hwho in Ht1.
    destruct (Hturn (schedule m) t Hi) as (t2 & Ht2 & Hi2 & _). rewrite Ht1 in Ht2. injection Ht2 as <-.
    destruct (IH _ Hlt t1 (S m) eq_refl Hi2) as (fuel & t' & Hl & Ht').
    exists (S fuel), t'. by rewrite (loop_turn _ _ _ _ Ef Ht1).
  - destruct (Hturn (schedule n) t Hi) as (t2 & Ht2 & Hi2 & [-> | Hlt2]).
    + destruct (IHd (S n)) as (fuel & t' & Hl & Ht'); [lia..|].
      exists (S fuel), t'. by rewrite (loop_turn _ _ _ _ Ef Ht2).
    + destruct (IH _ Hlt2 t2 (S n) eq_refl Hi2) as (fuel & t' & Hl & Ht').
      exists (S fuel), t'. by rewrite (loop_turn _ _ _ _ Ef Ht2).
Qed.
End Fairness.

(** ** The transfer *)

Definition requests_upto (n : Z) : list GatewayRequest := (fun i => spsc_request (Z.of_nat i)) <$> seq 0 (Z.to_nat n).

Lemma requests_upto_succ n : 0 <= n -> requests_upto (n + 1) = requests_upto n ++ [spsc_request n].
Proof.
  intros Hn. unfold requests_upto. replace (Z.to_nat (n + 1)) with (S (Z.to_nat n)) by lia.
  rewrite seq_S, fmap_app. cbn. by rewrite Z2Nat.id.
Qed.

Lemma requests_upto_size n : 0 <= n -> vsize (requests_upto n) = n.
Proof. intros Hn. unfold vsize, requests_upto. rewrite length_fmap, length_seq. lia. Qed.

Section TransferInv.
Context (operations : Z) (Hops : 0 <= operations <= u64_max).

Definition pushed_count (t : Transfer) : Z :=
  match tr_main t with
  | AwaitReady | SetStart => 0
  | Pushing index => index
  | AwaitConsumer | Finished => operations
  end.

Record transfer_inv (t : Transfer) : Prop := {
  ti_queue : exists items, holds (tr_queue t) items /\
    tr_received t ++ items = requests_upto (pushed_count t);
  ti_consumed : tr_consumed t = vsize (tr_received t);
  ti_pushed : 0 <= pushed_count t <= operations;
  ti_started : (tr_start t = true <-> match tr_main t with AwaitReady | SetStart => False | _ => True end);
  ti_ready : (tr_ready t = true <-> tr_consumer t <> Pinning);
  ti_popping : match tr_consumer t with
    | Pinning | AwaitStart => tr_consumed t = 0
    | Popping => True
    | Done => tr_consumed t = operations
    end;
  ti_finished : tr_main t = Finished -> tr_consumer t = Done }.

Definition transfer_measure (t : Transfer) : nat :=
  (match tr_main t with
   | AwaitReady => Z.to_nat operations + 4
   | SetStart => Z.to_nat operations + 3
   | Pushing index => Z.to_nat (operations - index) + 2
   | AwaitConsumer => 1
   | Finished => 0
   end +
   match tr_consumer t with
   | Pinning => Z.to_nat operations + 3
   | AwaitStart => Z.to_nat operations + 2
   | Popping => Z.to_nat (operations - tr_consumed t) + 1
   | Done => 0
   end)%nat.

(** What the counts say about the queue. *)
Lemma transfer_counts t items : transfer_inv t -> holds (tr_queue t) items ->
  tr_received t ++ items = requests_upto (pushed_count t) -> vsize items = pushed_count t - tr_consumed t.
Proof.
  intros Ht Hq E. rewrite (ti_consumed t Ht). apply (f_equal vsize) in E.
  rewrite requests_upto_size in E by apply (ti_pushed t Ht). unfold vsize in *. rewrite length_app in E. lia.
Qed.

(** A turn that leaves the state as it is, and one that makes progress. *)
Ltac spins H := eexists; split_and!; [done|exact H|by left].
Ltac advances :=
  eexists; split_and!; [done| |right; unfold transfer_measure; cbn; lia]; constructor; cbn; try done.

Lemma main_turn_ok t : transfer_inv t ->
  exists t', main_turn operations t = Ok t' /\ transfer_inv t' /\
    (t' = t \/ (transfer_measure t' < transfer_measure t)%nat).
Proof using Hops.
  intros Ht. pose proof (transfer_counts t) as Hc. destruct (Ht) as [(items & Hq & Hr) H1 H2 H3 H4 H5 H6].
  specialize (Hc items Ht Hq Hr). unfold main_turn, pushed_count in *.
  destruct t as [q ready start m c consumed received]; cbn [tr_queue tr_ready tr_start tr_main tr_consumer tr_consumed tr_received] in *.
  destruct m as [| |index| |].
  - destruct ready; [|by spins Ht].
    advances. by exists items.
  - advances. by exists items.
  - destruct (Z.ltb_spec index operations).
    + destruct (try_push_ok q items (spsc_request index) Hq) as [(_ & q' & -> & Hq' & _)|[_ ->]]; cbn [mbind result_bind].
      * eexists; split_and!; [done| |right; unfold transfer_measure; cbn; rewrite u64_small by intlia; lia].
        rewrite u64_small by intlia. constructor; cbn; try done; [|lia].
        exists (items ++ [spsc_request index]). split; [done|]. by rewrite app_assoc, Hr, <- requests_upto_succ by lia.
      * eexists; split_and!; [done| |by left]. exact Ht.
    + eexists; split_and!; [done| |right; unfold transfer_measure; cbn; lia].
      assert (index = operations) as -> by lia. constructor; cbn; try done. by exists items.
  - destruct c; try by (spins Ht).
    advances. by exists items.
  - spins Ht.
Qed.

Lemma consumer_turn_ok t : transfer_inv t ->
  exists t', consumer_turn operations t = Ok t' /\ transfer_inv t' /\
    (t' = t \/ (transfer_measure t' < transfer_measure t)%nat).
Proof using Hops.
  intros Ht. pose proof (transfer_counts t) as Hc. destruct (Ht) as [(items & Hq & Hr) H1 H2 H3 H4 H5 H6].
  specialize (Hc items Ht Hq Hr). unfold consumer_turn.
  destruct t as [q ready start m c consumed received]; cbn [tr_queue tr_ready tr_start tr_main tr_consumer tr_consumed tr_received] in *.
  destruct c.
  - advances; [by exists items|].
    intros E. by specialize (H6 E).
  - destruct start; [|by spins Ht].
    advances; [by exists items| |].
    + split; [done|]. intros _. by apply H4.
    + intros E. by specialize (H6 E).
  - destruct (Z.ltb_spec consumed operations).
    + pose proof (try_pop_ok q items Hq) as Hp. destruct items as [|v items].
      * rewrite Hp. cbn [mbind result_bind]. spins Ht.
      * destruct Hp as (q' & -> & Hq' & _). cbn [mbind result_bind].
        assert (Hs : vsize received = consumed) by done. assert (0 <= consumed) by (unfold vsize in Hs; lia).
        rewrite u64_small by intlia.
        advances.
        { exists items. split; [done|]. by rewrite <- app_assoc. }
        { unfold vsize in *. rewrite length_app. cbn. lia. }
    + advances; [by exists items| |].
      * split; [done|]. intros _. by apply H4.
      * unfold pushed_count in *. cbn in *. unfold vsize in *. lia.
  - spins Ht.
Qed.

Lemma turn_ok who t : transfer_inv t ->
  exists t', turn operations who t = Ok t' /\ transfer_inv t' /\
    (t' = t \/ (transfer_measure t' < transfer_measure t)%nat).
Proof using Hops. destruct who; [apply main_turn_ok|apply consumer_turn_ok]. Qed.

(** The consumer is not stuck when there is something to pop, or nothing left
    to do. *)
Lemma consumer_progress t : transfer_inv t -> tr_start t = true -> tr_consumer t <> Done ->
  tr_consumed t < pushed_count t \/ operations <= tr_consumed t ->
  exists t', turn operations false t = Ok t' /\ (transfer_measure t' < transfer_measure t)%nat.
Proof using Hops.
  intros Ht Hs Hd Hc. destruct (turn_ok false t Ht) as (t' & Ht' & _ & [-> | Hlt]); [exfalso|by exists t'].
  destruct (ti_queue t Ht) as (items & Hq & Hr). pose proof (transfer_counts t items Ht Hq Hr) as Hn.
  pose proof (ti_pushed t Ht) as Hp. clear Hr Ht. unfold turn, consumer_turn in Ht'.
  destruct t as [q ready start m c consumed received]; cbn [tr_queue tr_ready tr_start tr_main tr_consumer tr_consumed tr_received] in *.
  subst start. destruct c; try done.
  destruct (Z.ltb_spec consumed operations); [|done]. pose proof (try_pop_ok q items Hq) as Hpop.
  destruct items as [|v items]; [unfold vsize in Hn; cbn in Hn; lia|]. destruct Hpop as (q' & E & _).
  rewrite E in Ht'. cbn [mbind result_bind] in Ht'. injection Ht' as _ _ El.
  apply (f_equal length) in El. rewrite length_app in El. cbn in El. lia.
Qed.

Lemma transfer_live t : transfer_inv t -> finished t = false ->
  exists who t', turn operations who t = Ok t' /\ (transfer_measure t' < transfer_measure t)%nat.
Proof using Hops.
  intros Ht Hf. destruct (turn_ok true t Ht) as (t' & Ht' & _ & [-> | Hlt]); [exists false|by exists true, t'].
  destruct (ti_queue t Ht) as (items & Hq & Hr). pose proof (transfer_counts t items Ht Hq Hr) as Hn.
  pose proof (ti_pushed t Ht) as Hp. pose proof (slots_pos _ _ Hq) as Hslots. pose proof (ti_started t Ht) as Hst.
  pose proof (ti_popping t Ht) as Hpop. pose proof (ti_ready t Ht) as Hrd. clear Hr.
  destruct (decide (tr_consumer t = Pinning)) as [Hpin|Hpin].
  { destruct t as [q ready start m c consumed received]. cbn in Hpin. subst c. eexists. split; [done|].
    unfold transfer_measure. cbn. lia. }
  pose proof (proj2 Hrd Hpin) as Hready. unfold turn, main_turn in Ht'. unfold finished in Hf.
  destruct (tr_main t) as [| |index| |] eqn:Em; try done.
  - rewrite Hready in Ht'. injection Ht' as E. apply (f_equal tr_main) in E. cbn in E. congruence.
  - injection Ht' as E. apply (f_equal tr_main) in E. cbn in E. congruence.
  - unfold pushed_count in *. rewrite Em in *. destruct (Z.ltb_spec index operations).
    + destruct (try_push_ok (tr_queue t) items (spsc_request index) Hq) as [(_ & q' & E & _)|[Hfull _]].
      { rewrite E in Ht'. cbn [mbind result_bind] in Ht'. injection Ht' as E'. apply (f_equal tr_main) in E'. cbn in E'.
        rewrite Em, u64_small in E' by intlia. injection E'. lia. }
      apply consumer_progress; [done|by apply Hst| |left; unfold pushed_count; rewrite Em; lia].
      intros Hd. rewrite Hd in Hpop. lia.
    + injection Ht' as E. apply (f_equal tr_main) in E. cbn in E. congruence.
  - apply consumer_progress; [done|by apply Hst| |].
    + intros Hd. rewrite Hd in Ht'. injection Ht' as E. apply (f_equal tr_main) in E. cbn in E. congruence.
    + unfold pushed_count. rewrite Em. lia.
Qed.
End TransferInv.

Lemma transfer_loop_more operations schedule fuel fuel' n t t' : (fuel <= fuel')%nat ->
  transfer_loop operations fuel schedule n t = Ok t' -> transfer_loop operations fuel' schedule n t = Ok t'.
Proof.
  revert fuel' n t. induction fuel as [|fuel IH]; intros fuel' n t Hle; cbn [transfer_loop].
  { destruct fuel'; cbn [transfer_loop]; by destruct (finished t). }
  destruct fuel' as [|fuel']; [lia|]. cbn [transfer_loop]. destruct (finished t); [done|].
  destruct (turn _ _ _); [|done]. cbn [mbind result_bind]. apply IH. lia.
Qed.

(** Under a fair scheduler the transfer ends, and the consumer has popped the
    requests in the order in which they were pushed. *)
Lemma run_spsc_completes operations schedule : 0 <= operations <= u64_max -> fair schedule ->
  exists fuel0 t, (forall fuel, (fuel0 <= fuel)%nat -> run_spsc fuel schedule operations = Ok t) /\
    tr_main t = Finished /\ tr_consumer t = Done /\ tr_consumed t = operations /\
    tr_received t = requests_upto operations /\ holds (tr_queue t) [].
Proof.
  intros Hops Hfair. unfold run_spsc.
  destruct (make_queue_ok zero_request 65536 ltac:(intlia)) as (q & -> & Hq & _). cbn [mbind result_bind].
  set (t0 := MkTransfer q false false AwaitReady Pinning 0 []).
  assert (H0 : transfer_inv operations t0).
  { constructor; cbn; first [done|by exists []|lia|naive_solver]. }
  destruct (fair_finishes operations (transfer_inv operations) (transfer_measure operations) schedule
    (turn_ok operations Hops) (transfer_live operations Hops) Hfair t0 0 H0) as (fuel & t & Hl & Ht & Hf).
  exists fuel, t. split; [intros fuel' Hle; by eapply transfer_loop_more|].
  unfold finished in Hf. destruct (tr_main t) eqn:Em; try done. clear Hl Hf.
  destruct (ti_queue _ t Ht) as (items & Hq' & Hr). pose proof (transfer_counts _ t items Ht Hq' Hr) as Hn.
  pose proof (ti_finished _ t Ht Em) as Hd. pose proof (ti_popping _ t Ht) as Hp. rewrite Hd in Hp.
  unfold pushed_count in *. rewrite Em in *. assert (items = []) as -> by (destruct items; [done|unfold vsize in Hn; cbn in Hn; lia]).
  rewrite app_nil_r in Hr. done.
Qed.

(** ** The journal *)

(** A file that opens and takes every write, and a compiler that copies the
    padding. *)
Record faults_clean (j : JournalFaults) : Prop := {
  fc_opens : jf_opens j = true;
  fc_header : jf_header j = None /\ jf_header_flush j = None;
  fc_write : forall i, jf_write j i = None;
  fc_flush : jf_flush j = None;
  fc_pad : forall i, pad_ok (jf_pad j i) /\ jf_copy j i = jf_pad j i }.

Definition journal_entries (j : JournalFaults) (n : nat) : list entry :=
  (fun i => (journal_command (Z.of_nat i), (jf_pad j (Z.of_nat i), jf_pad j (Z.of_nat i)))) <$> seq 0 n.

Lemma journal_entries_ok j n : faults_clean j -> Forall entry_ok (journal_entries j n).
Proof.
  intros Hj. apply Forall_fmap, Forall_true. intros i. apply same_padding_ok; [|apply Hj].
  pose proof (u64_range (Z.of_nat i + 1)). unfold journal_command. constructor; cbn; intlia.
Qed.

Lemma append_buffered F B c pad : append (MkWriter (MkStream F B true) false) c pad pad None None =
  (MkWriter (MkStream F (B ++ record (c, (pad, pad))) true) false, Ok ()).
Proof. reflexivity. Qed.

#[local] Opaque append.

Lemma journal_loop_ok n fuel j F B a : faults_clean j -> (n < fuel)%nat -> Z.of_nat (a + n) <= u64_max ->
  journal_loop fuel j (MkWriter (MkStream F B true) false) (Z.of_nat a) (Z.of_nat (a + n)) =
  Ok (MkWriter (MkStream F
    (B ++ records ((fun i => (journal_command (Z.of_nat i), (jf_pad j (Z.of_nat i), jf_pad j (Z.of_nat i)))) <$> seq a n)) true) false).
Proof.
  intros Hj. revert fuel B a.
  induction n as [|n IH]; intros fuel B a Hf Hmax; (destruct fuel as [|fuel]; [lia|]); cbn [journal_loop].
  { rewrite (proj2 (Z.ltb_ge _ _)) by lia. cbn [seq fmap list_fmap]. by rewrite records_nil, app_nil_r. }
  rewrite (proj2 (Z.ltb_lt _ _)) by lia. destruct (fc_pad j Hj (Z.of_nat a)) as [_ ->]. rewrite (fc_write j Hj).
  rewrite append_buffered. cbn [mbind result_bind].
  rewrite u64_small by intlia. replace (Z.of_nat a + 1) with (Z.of_nat (S a)) by lia.
  replace (a + S n)%nat with (S a + n)%nat by lia. rewrite IH by lia.
  cbn [seq]. rewrite fmap_cons, records_cons. by rewrite <- app_assoc.
Qed.

(** The file of the journal benchmark is a journal of its commands. *)
Lemma write_journal_ok j operations : faults_clean j -> 0 <= operations <= u64_max ->
  write_journal j None operations = Ok (journal_file (journal_entries j (Z.to_nat operations))).
Proof.
  intros Hj Hops. unfold write_journal. rewrite (fc_opens j Hj). destruct (fc_header j Hj) as [-> ->].
  rewrite (make_writer_ok None [] false) by (right; split; [done|by left]). cbn [mbind result_bind].
  pose proof (journal_loop_ok (Z.to_nat operations) (S (Z.to_nat operations)) j (journal_file []) [] 0 Hj) as Hl.
  rewrite Nat.add_0_l, Z2Nat.id in Hl by lia. change (Z.of_nat 0) with 0 in Hl. rewrite Hl by lia. cbn [mbind result_bind].
  unfold flush. rewrite (fc_flush j Hj). cbn [jw_stream stream_flush st_good st_file st_buffer mbind result_bind].
  unfold journal_file. rewrite records_nil, app_nil_r, app_nil_l. done.
Qed.

(** It replays to the commands in order, and to a clean end. *)
Definition collect (l : list Command) (c : Command) : result (list Command) := Ok (l ++ [c]).

Lemma feed_collect cs l : feed collect l cs = Ok (l ++ cs).
Proof.
  revert l. induction cs as [|c cs IH]; intros l; [cbn; by rewrite app_nil_r|].
  change (feed collect l (c :: cs)) with (feed collect (l ++ [c]) cs). by rewrite IH, <- app_assoc.
Qed.

Lemma benchmark_journal_replays j n : faults_clean j ->
  replay_journal collect (Some (journal_file (journal_entries j n))) [] =
    Ok ((fun i => journal_command (Z.of_nat i)) <$> seq 0 n,
        MkReplay (u64 (Z.of_nat n)) (u64 (Z.of_nat (header_bytes + record_size * n))) true).
Proof.
  intros Hj. pose proof (journal_entries_ok j n Hj) as He.
  pose proof (replay_file collect (journal_entries j n) [] [] He (or_introl eq_refl)) as Hr.
  rewrite app_nil_r in Hr. rewrite Hr, feed_collect. cbn [mbind result_bind].
  assert (Hl : length (journal_entries j n) = n) by (unfold journal_entries; by rewrite length_fmap, length_seq).
  rewrite Hl, bool_decide_eq_true_2 by done. unfold journal_entries. by rewrite <- list_fmap_compose.
Qed.
