(* ===== verification/BenchTheorems.v ===== *)
(** * BenchTheorems: the benchmark program measures what it means to *)
From Stdlib Require Import ZArith Lia SpecFloat.
From stdpp Require Import base numbers gmap strings sorting list.
From S2P Require Import Prelude Types OrderIndex FixedHash OrderBook Engine Bytes Protocol Spsc Runner.
From S2P Require Import Journal JournalFacts CString Bench BenchLoops BenchMain BenchMainFacts.
Local Open Scope Z_scope.

(** ** Scenarios *)




Section Suite.
Context (env : Environment) (operations : Z) (fuel0 : nat) (t : Transfer).
Context (Hops : 100 <= operations <= 2 ^ 63) (Hj : faults_clean (e_journal env)).
Context (Hspsc : forall fuel, (fuel0 <= fuel)%nat -> run_spsc fuel (e_schedule env) operations = Ok t).
Context (Hdone : tr_consumer t = Done) (Hreceived : tr_received t = requests_upto operations)
  (Hqueue : holds (tr_queue t) []).



End Suite.

Definition is_selected (scenario name : string) : Prop := selected scenario name = true.
#[export] Instance is_selected_dec scenario name : Decision (is_selected scenario name).
Proof. unfold is_selected. apply _. Defined.











(** The arguments as a user writes them: a number alone selects the crossing
    workload; a name that is not a number is the scenario. *)
Lemma benchmark_arguments_ok program name n cpu : is_u64 n -> is_u64 cpu -> numeric name = false ->
  benchmark_arguments [program; decimal n; decimal cpu] = ("cross"%string, n, u32 cpu) /\
  benchmark_arguments [program; name; decimal n; decimal cpu] = (name, n, u32 cpu).
Proof.
  intros Hn Hc Hname. destruct (decimal_round_trip n Hn) as [Hd Hv], (decimal_round_trip cpu Hc) as [_ Hw].
  unfold benchmark_arguments. by rewrite Hd, Hname, Hv, Hw.
Qed.
